(* ===== verification/_CoqProject ===== *)
-Q . S2P
Prelude.v
GoStrings.v
GoInt.v
Base64.v
Sha256.v
Calendar.v
Cron.v
CronFacts.v
GoFloat.v
FloatFacts.v
GoAny.v
Regex.v
JsValue.v
Json.v
Expression.v
ExpressionFacts.v
Redact.v
SafePersist.v
PersistFacts.v
Template.v
TemplateFacts.v
Graph.v
GraphFacts.v
Closure.v
Inputs.v
InputsFacts.v
JsonTree.v
JsonPrint.v
SchemaWire.v
RecoveryContract.v
RecoveryWire.v
NodeConfig.v
HttpConfig.v
Waiting.v
WaitingFacts.v
RetryPolicy.v
RecoveryAutonomy.v
RecoveryPolicyFacts.v
RecoveryCase.v
Readiness.v
ReadinessFacts.v
RecoveryDag.v
Runtime.v
RuntimeFacts.v
RunSafety.v
AuthorityFacts.v
DagFacts.v
Validate.v
ValidateFacts.v
RetryFacts.v
TechnicalAutonomy.v
TechnicalFacts.v
WorkflowParse.v
ParseFacts.v
Rollout.v
Qualification.v
RolloutFacts.v
QualificationFacts.v
Trigger.v
TriggerProg.v
Ingest.v
Breaker.v
Schedule.v
TriggerFacts.v
BreakerFacts.v
IngestFacts.v
ScheduleFacts.v
Token.v
TokenFacts.v
Process.v
Permissions.v
OrgTables.v
Authz.v
OrgRoutes.v
SsoRoutes.v
OrgFacts.v
AccessFacts.v
OrgConfig.v
Scim.v
ScimFacts.v
