(* ===== verification/Prelude.v ===== *)
(** * Janusly: a verification library for the workflow runtime

    Janusly runs workflows: a document declares nodes, edges and a recovery contract;
    the engine starts a run of it, queues the nodes whose dependencies are settled,
    and records what every node did. This library models the core of the Go backend
    (everything under src/internal/) as executable Gallina definitions and proves what
    makes it correct.

    ** Parts and files

    - Shared ground. [Prelude]: results, lists, automation. [GoStrings], [GoFloat],
      [GoAny]: Go strings as byte strings (UTF-8 decoding, white space, the verbs of
      fmt), binary64 numbers on the Standard Library's SpecFloat, and [any], the value
      of a decoded JSON document. [Regex]: the regular expressions of the source, as
      Brzozowski derivatives. [Json]: encoding/json, both directions.
    - The grammar of expressions and templates (grammar/). [JsValue]: JavaScript's
      coercions (jsvalue.go). [Expression]: the scanner, the operators, the glob
      matcher, the recursive descent and the static validation (expression.go).
      [Template]: {{ref}} rendering (template.go). [Redact]: redaction (redact.go).
      [SafePersist]: bounded persistence (safepersist.go).
    - The domain (domain/). [Graph]: hasCycle (validate.go). [Inputs]: input
      schemas and defaults (inputs.go, defaults.go). [RecoveryContract]: the recovery
      contract and the document (recoverycontract.go, workflow.go). [RecoveryAutonomy]: the
      autonomy it grants (recoveryautonomy.go). [RecoveryCase]: the case state
      machine (recoverycase.go, recoveryitem.go, engine/recoverycases.go).
    - The engine (engine/ and the compare-and-set statements of store/queries).
      [Runtime]: one run as a record (status, node rows, timeline, wake notifications,
      dead letters) and every transaction that changes the status of the run or of a
      node: start, claim, completion, retry and failure, waiting and resume, the
      deadline of an approval, the decision of a tool approval, the settlement of a
      parent run, the release of a quarantine, cancellation, redrive. The readiness
      scan and the roll-up (downstream.go) are [scan_loop] and [settle]. [step] is the
      choice between the transactions, [reachable] the histories.
    - The gates on the graph. [Closure]: the worklist walks. [Readiness]: the readiness
      gate, approval authority, fork and join rules (domain/readiness.go).
      [RecoveryDag]: the contract's rules on the graph (domain/recoverydag.go).
    - Node configurations and time. [Calendar], [GoInt]: Go's civil calendar on
      nanosecond instants and 64-bit integers. [Cron]: schedules (cron/cron.go and
      NextFires). [NodeConfig]: fork and join, prompts, triggers, agents
      (domain/forkjoin.go, promptconfig.go, triggerconfig.go, agentconfig.go).
      [RetryPolicy]: domain/retrypolicy.go and engine/retry.go. [Waiting]: durations,
      instants and approval deadlines (domain/approvalwaiting.go).
    - Documents read from JSON. [JsonTree]: trees that keep order, repetition and the text
      of numbers, and the rules of encoding/json for structs. [SchemaWire]: input schemas
      (domain/inputs.go). [RecoveryWire]: recovery contracts
      (domain/recoverycontract_wire.go). [WorkflowParse]: Parse and
      ParseTechnicalRecoveryWorkflow (domain/workflow.go, technicalautonomy.go).
      [TechnicalAutonomy]: the class of a repair and the gates of its application.
    - The workflow gate. [HttpConfig]: the outbound HTTP contract (httpcontract/bounds.go). [Validate]:
      ValidateWithOptions and the validators of the node types (domain/validate.go,
      domain/schedule.go), over every configuration grammar above.
    - Rollouts. [Rollout]: canary rollouts as transactions on their tables (engine/rollouts.go,
      rolloutoutcomes.go), with the saving of a version and the deletion of a workflow, which
      take the same lock (engine/workflowversions.go, workflowlifecycle.go); its [step] is the
      choice between them.
    - Qualification. [Qualification]: the verdict of the detectors on an output, the replay of
      a contract's fixtures and the comparison of a candidate with its baseline
      (recovery/semanticoutcomes.go, qualification.go).
    - Triggers. [Base64]: encoding/base64 and encoding/hex. [Trigger]: the tables of inbound
      events, the fixed-window limiter (ratelimit/ratelimit.go), the start of a run for an event
      (engine/start.go) and the statements of the circuit breaker. [TriggerProg]: operations
      with their faults, handlers as programs, the histories of the tables under every process
      at once. [Ingest]: the ingestion pipeline (httpapi/webhooks.go) and its routes
      (httpapi/triggeringest.go). [Breaker]: the circuit breaker and the drain of buffered events
      (engine/circuitbreaker.go).
      [Schedule]: the scheduler's entries and the firing of a due tick (engine/schedule.go).
      [TriggerProg] also has a logic of these programs, over an invariant of the tables and a
      relation that every operation lets grow.
    - Tokens. [JsonPrint]: the text of a tree of [JsonTree]. [Sha256]: crypto/sha256 and
      crypto/hmac. [Token]: the signed envelope and the tokens built on it (tokenhmac/,
      signedtoken/, browsersession/, ssostate/, resumetoken/), and the signatures of inbound
      webhooks (webhooksig/ and the four routes that use it).
    - Access. [Process]: programs over any tables and their histories. [Permissions]: ranks,
      catalog and effective permissions (auth/catalog.go, roles.go). [OrgTables]: the tables of organisations with their statements and the trigger
      of schema.sql. [Authz]: identity, tenant, login policy and gate (auth/, authpolicy/,
      httpapi/authz.go and v1.go). [OrgRoutes]: members, invitations, roles, organisations
      (httpapi/members.go, roles.go, identity.go). [SsoRoutes]: single sign-on and browser
      sessions (httpapi/sso.go, sessionroutes.go).
    - [OrgConfig]: the catalog of an organisation's configuration, its layers and its route
      (orgconfig/, httpapi/orgconfig.go). [Scim]: the synchronisation of directories over the
      tables of organisations (httpapi/scim/).

    The engine calls the grammar (conditions of edges, projected outputs, persisted
    payloads), the graph of the document and nothing else; the files follow that order.

    ** What is shown

    - [RunSafety] (from [RuntimeFacts]): a running run of an acyclic workflow always has
      a node in progress; a node starts only after its dependencies; success means
      completion; every transaction refines the life cycle of a node; scheduling
      terminates at a fixpoint. Two theorems describe transitions that leave the
      intended behaviour (a retry in a stopped run, a quarantine after a cancellation);
      [keeps_cancelled] excludes the second from the histories.
    - [GraphFacts]: the iterative cycle search decides reachability.
    - [ExpressionFacts]: evaluation terminates, validated expressions
      cannot fail on a context, the glob matcher decides its language.
    - [TemplateFacts], [PersistFacts]: a rendering depends on no secret outside its
      redaction list; redaction equals its specification; payloads are bounded.
    - [InputsFacts]: validation decides conformance; defaults are idempotent.
    - [RecoveryPolicyFacts], [RecoveryCase]: decisions stay within the contract; a
      case is explained by its receipts.
    - [ReadinessFacts], [AuthorityFacts], [DagFacts]: the gates decide dominance on the
      graph; composed with the histories of [Runtime], what authority and quarantine mean
      in a run, and two runs in which a skipped node makes them mean less.
    - [CronFacts]: the next firing is the least matching minute, fields mean what they
      say, and the two places where they do not (a step that wraps, the leap day).
    - [RetryFacts], with [FloatFacts]: which failures are retried and how long they wait.
    - [WaitingFacts]: deadlines survive their text and are never normalised; two accepted
      deadlines that the engine cannot read.
    - [ValidateFacts]: the gate decides its rules; the runs of an accepted workflow never
      stall (with [RuntimeFacts]) and its configurations resolve; the
      edge conditions its guard misjudges.
    - [TechnicalFacts]: what a repair class says of the two workflows, the approval in front
      of a structural patch, the seven gates. [ParseFacts]: the normal form of an accepted
      document, and one on which the gate panics.
    - [RolloutFacts]: the invariant of every history of rollouts, the frozen evidence of a
      finished one, the assignments of an active one, and a rate that rounds below the
      minimum it equals.
    - [QualificationFacts]: a verdict names the detectors that fail; a candidate passes exactly
      when every fixture of both versions holds under it.
    - [TriggerFacts]: an event starts at most one run, a bucket of the limiter grants at most
      its maximum. [IngestFacts]: a logic of handlers under interference, and that an
      acknowledged webhook is settled for good. [BreakerFacts]: a pause is announced once, what
      trips the breaker, and the claimed events that no drain returns to.
    - [ScheduleFacts]: a tick starts at most one run and no crash loses it; the key of a tick
      identifies it.
    - [TokenFacts]: a token is what the holder of the secret signed, it serves its purpose and
      binding until it expires and no other, and which webhooks are accepted; with the round
      trips of [JsonPrint] and [Base64].
    - [OrgFacts]: every handler of the access routes does only operations of the histories; the
      owner keeps an administrator's row and the floor of permissions. [AccessFacts]: whom the
      middleware admits, the pending owner it cannot, and what a login went through.
    - [OrgConfig] also has its theorem: effective values keep their types and bounds, and
      accepted writes are read back. [ScimFacts]: the events of a directory stay within its
      organisation, late ones change nothing, and where deprovisioning falls short.

    ** Fuel

    Loops and recursions that are not structural take fuel and return [None] when it
    runs out; each has a theorem that the fuel the definition supplies is enough:
    [scan_fuel] is one pass per node and one more, since a pass that changes something
    settles a pending node; [dfs_fuel] counts a step per edge and two per node;
    [glob_fuel] bounds the walk by the lengths of value and pattern; the recursive
    descent of expressions starts with the length of its input, which every branch
    shortens; [shape_loop] and [wire_loop] visit at most [InputSchemaNodeMax] nodes.

    ** What is abstracted

    - A transaction is atomic: the completion lock of a run serialises its transactions,
      and the database serialises statements. The workers, sweepers and operators are the
      choice of the next step. The clock is an argument, one reading per transaction.
    - Maps are lists of bindings where the code iterates over them in an order of its own,
      finite maps where it does not. Typed nil maps and values outside JSON do not occur.
    - Code outside the repository is a parameter: upper-casing of environment names and
      the table of printable runes (Unicode tables), SHA-256, net/url's ParseRequestURI and the
      header rules of golang.org/x/net ([HttpConfig.HttpLibrary]); so is the text of a JSON
      decoding error. A slice member that a document repeats three times may in Go show
      elements from beyond the end of the second value; the readers forget them. PostgreSQL's statements
      are modelled by their guards and the columns they set.
    - Not modelled: payloads of events, wake-up clocks, routing counters and the other
      tables a transaction writes; reruns and draft runs (variants of StartRun); the
      decoding of requests and the routes other than ingestion, access and configuration;
      the executors of nodes, tools, AI, MCP and the web application. *)
From Stdlib Require Export ZArith Lia Ascii String.
From stdpp Require Export base tactics list gmap strings sets fin_maps.

(** ** Results: a Go function that returns [(value, error)] *)

(** [Ok a] is a nil error; [Err e] is a non-nil error with payload [e]. *)
Inductive res (E A : Type) : Type :=
| Ok (a : A)
| Err (e : E).
Arguments Ok {E A} _.
Arguments Err {E A} _.

Definition res_bind {E A B} (r : res E A) (k : A → res E B) : res E B :=
  match r with Ok a => k a | Err e => Err e end.

Declare Scope go_scope.
Delimit Scope go_scope with go.
Notation "'let?' x ':=' e 'in' k" := (res_bind e (λ x, k))
  (at level 10, x pattern, e at level 200, k at level 200) : go_scope.
Notation "'guard' b 'else' e 'in' k" := (if (b : bool) then k else Err e)
  (at level 10, b at level 200, e at level 200, k at level 200) : go_scope.
Open Scope go_scope.

(** ** Automation shared by the components *)

Create HintDb janusly.

(** Split every conjunction and boolean connective in sight. *)
Ltac bool_split :=
  repeat match goal with
  | H : _ && _ = true |- _ => apply andb_true_iff in H; destruct H
  | H : _ || _ = false |- _ => apply orb_false_iff in H; destruct H
  | H : negb _ = true |- _ => apply negb_true_iff in H
  | H : negb _ = false |- _ => apply negb_false_iff in H
  | H : bool_decide _ = true |- _ => apply bool_decide_eq_true_1 in H
  | H : bool_decide _ = false |- _ => apply bool_decide_eq_false_1 in H
  | H : String.eqb _ _ = true |- _ => apply String.eqb_eq in H
  | H : String.eqb _ _ = false |- _ => apply String.eqb_neq in H
  end.

(** Case analysis on the scrutinee of the first [match] or [if] of a
    hypothesis, dropping the impossible branches. *)
Ltac case_hyp H :=
  repeat (match type of H with
          | context [match ?x with _ => _ end] => destruct x eqn:?
          end; simplify_eq/=).

(** ** Lists *)

Lemma sum_list_app (l k : list nat) : sum_list (l ++ k) = sum_list l + sum_list k.
Proof. induction l; simpl; lia. Qed.

Lemma length_filter_le {A} (P : A → Prop) `{∀ x, Decision (P x)} (l : list A) :
  length (filter P l) ≤ length l.
Proof. induction l as [|x l IH]; [done|]. rewrite filter_cons. case_decide; simpl; lia. Qed.

Lemma filter_none {A} (P : A → Prop) `{∀ x, Decision (P x)} l : (∀ x, x ∈ l → ¬ P x) → filter P l = [].
Proof.
  intros Hno. destruct (filter P l) as [|x k] eqn:E; [done|]. exfalso.
  assert (x ∈ filter P l) as Hx by (rewrite E; by left). apply list_elem_of_filter in Hx as [? ?]. by eapply Hno.
Qed.

(** Pointwise comparison of two sums over the same list. *)
Lemma sum_list_fmap_le {A} (f g : A → nat) (l : list A) :
  (∀ x, x ∈ l → f x ≤ g x) → sum_list (f <$> l) ≤ sum_list (g <$> l).
Proof.
  induction l as [|x l IH]; intros Hle; csimpl; [done|].
  pose proof (Hle x ltac:(set_solver)).
  assert (sum_list (f <$> l) ≤ sum_list (g <$> l)) by (apply IH; set_solver). lia.
Qed.

(** Dropping the contribution [n] of one element of the list. *)
Lemma sum_list_fmap_drop {A} (f g : A → nat) (l : list A) (x : A) (n : nat) :
  x ∈ l → g x + n ≤ f x → (∀ y, y ∈ l → g y ≤ f y) →
  sum_list (g <$> l) + n ≤ sum_list (f <$> l).
Proof.
  intros Hx Hn Hle. induction l as [|y l IH]; [by apply elem_of_nil in Hx|]. csimpl.
  pose proof (Hle y ltac:(set_solver)).
  pose proof (sum_list_fmap_le g f l ltac:(set_solver)).
  apply elem_of_cons in Hx as [->|Hx]; [lia|].
  specialize (IH Hx ltac:(set_solver)). lia.
Qed.

Lemma sum_list_fmap_le_const {A} (f : A → nat) (l : list A) (n : nat) :
  (∀ x, x ∈ l → f x ≤ n) → sum_list (f <$> l) ≤ length l * n.
Proof.
  induction l as [|x l IH]; intros Hle; csimpl; [lia|].
  pose proof (Hle x ltac:(set_solver)). specialize (IH ltac:(set_solver)). lia.
Qed.

(** ** Booleans and options *)

Lemma existsb_elem {A} (f : A → bool) (l : list A) :
  existsb f l = true ↔ ∃ x, x ∈ l ∧ f x = true.
Proof. rewrite existsb_exists. setoid_rewrite list_elem_of_In. done. Qed.

Lemma forallb_elem {A} (f : A → bool) (l : list A) :
  forallb f l = true ↔ ∀ x, x ∈ l → f x = true.
Proof. rewrite forallb_forall. setoid_rewrite list_elem_of_In. done. Qed.

Lemma existsb_false_elem {A} (f : A → bool) (l : list A) :
  existsb f l = false ↔ ∀ x, x ∈ l → f x = false.
Proof.
  rewrite <-not_true_iff_false, existsb_elem. split.
  - intros Hn x Hx. apply not_true_iff_false. naive_solver.
  - intros Hall (x & Hx & Hf). rewrite Hall in Hf by done. done.
Qed.

(** ** Reports: a validator that pushes messages *)

(** [if b { push(m) }]. *)
Definition push_if {A} (b : bool) (m : A) : list A := if b then [m] else [].

Lemma push_if_nil {A} (b : bool) (m : A) : push_if b m = [] ↔ b = false.
Proof. by destruct b. Qed.
Lemma if_nil {A} (b : bool) (l k : list A) :
  (if b then l else k) = [] ↔ if b then l = [] else k = [].
Proof. by destruct b. Qed.
Lemma flat_map_nil {A B} (f : A → list B) l : flat_map f l = [] ↔ ∀ x, x ∈ l → f x = [].
Proof.
  induction l as [|x l IH]; cbn; [set_solver|]. rewrite app_nil, IH. set_solver.
Qed.
Lemma imap_concat_nil {A B} (f : nat → A → list B) l :
  concat (imap f l) = [] ↔ ∀ i x, l !! i = Some x → f i x = [].
Proof.
  revert f. induction l as [|x l IH]; intros f; cbn; [done|]. rewrite app_nil, IH. split.
  - intros [H0 H1] [|i] y Hy; cbn in Hy; [by injection Hy as <-|]. by apply (H1 i).
  - intros Hall. split; [by apply (Hall 0)|]. intros i y Hy. by apply (Hall (S i)).
Qed.

(** Split the hypothesis that a report is empty into the tests that pushed nothing. *)
#[export] Hint Rewrite @app_nil @push_if_nil @flat_map_nil @imap_concat_nil : report.

(** [m[k]] on a map with bool values: the members of a closed vocabulary. *)
Definition in_list (l : list string) (s : string) : bool := existsb (String.eqb s) l.
Lemma in_list_spec l s : in_list l s = true ↔ s ∈ l.
Proof.
  unfold in_list. rewrite existsb_elem. split; [intros (x & ? & ->%String.eqb_eq); done|].
  intros. exists s. split; [done|apply String.eqb_refl].
Qed.
Definition dup_strings (l : list string) : bool := negb (bool_decide (NoDup l)).
