(* ===== verification/GoStrings.v ===== *)
(** Go strings as byte strings: the functions of Go's [strings], [unicode/utf8],
    [utf16] and [strconv] packages that the runtime calls. A Go string is a
    sequence of bytes, so it is a [string] of 8-bit characters; a function that
    decodes UTF-8 does it explicitly. *)
From S2P Require Import Prelude.

Definition bytes (s : string) : list ascii := list_ascii_of_string s.
Definition of_bytes (l : list ascii) : string := string_of_list_ascii l.

Lemma bytes_of_bytes l : bytes (of_bytes l) = l.
Proof. apply list_ascii_of_string_of_list_ascii. Qed.
Lemma of_bytes_bytes s : of_bytes (bytes s) = s.
Proof. apply string_of_list_ascii_of_string. Qed.
Lemma bytes_inj s1 s2 : bytes s1 = bytes s2 → s1 = s2.
Proof. intros H. by rewrite <-(of_bytes_bytes s1), H, of_bytes_bytes. Qed.

(** [len(s)]. *)
Definition len (s : string) : nat := length (bytes s).

Lemma len_of_bytes l : len (of_bytes l) = length l.
Proof. unfold len. by rewrite bytes_of_bytes. Qed.

Lemma bytes_app s t : bytes (s +:+ t) = bytes s ++ bytes t.
Proof. induction s; simpl; f_equal; done. Qed.
Lemma len_app s t : len (s +:+ t) = len s + len t.
Proof. unfold len. by rewrite bytes_app, length_app. Qed.

Lemma len_0 s : len s = 0 ↔ s = ""%string.
Proof. by destruct s. Qed.

(** [s[lo:hi]] for [lo <= hi <= len(s)]; callers keep the bounds. *)
Definition slice_bytes (l : list ascii) (lo hi : nat) : list ascii := take (hi - lo) (drop lo l).
Definition slice (s : string) (lo hi : nat) : string := of_bytes (slice_bytes (bytes s) lo hi).
(** [s[lo:]]. *)
Definition slice_from (s : string) (lo : nat) : string := of_bytes (drop lo (bytes s)).

Lemma length_slice_bytes l lo hi : length (slice_bytes l lo hi) ≤ hi - lo.
Proof. unfold slice_bytes. rewrite length_take. lia. Qed.
Lemma len_slice s lo hi : len (slice s lo hi) ≤ hi - lo.
Proof. unfold slice. rewrite len_of_bytes. apply length_slice_bytes. Qed.
Lemma len_slice_from s lo : len (slice_from s lo) = len s - lo.
Proof. unfold slice_from. rewrite len_of_bytes, length_drop. done. Qed.

(** A prefix test on bytes, and what follows the prefix. *)
Fixpoint strip_prefix (p l : list ascii) : option (list ascii) :=
  match p, l with
  | [], _ => Some l
  | a :: p', b :: l' => if Ascii.eqb a b then strip_prefix p' l' else None
  | _ :: _, [] => None
  end.

Lemma strip_prefix_Some p l r : strip_prefix p l = Some r ↔ l = p ++ r.
Proof.
  revert l. induction p as [|a p IH]; intros l; simpl; [naive_solver|].
  destruct l as [|b l]; [naive_solver|].
  destruct (Ascii.eqb_spec a b) as [->|Hne]; [rewrite IH; naive_solver|naive_solver].
Qed.

(** [strings.HasPrefix], [strings.HasSuffix]. *)
Definition HasPrefix (s p : string) : bool :=
  match strip_prefix (bytes p) (bytes s) with Some _ => true | None => false end.
Definition HasSuffix (s p : string) : bool :=
  match strip_prefix (rev (bytes p)) (rev (bytes s)) with Some _ => true | None => false end.
(** [strings.TrimPrefix]. *)
Definition TrimPrefix (s p : string) : string :=
  match strip_prefix (bytes p) (bytes s) with Some r => of_bytes r | None => s end.

Lemma HasPrefix_spec s p : HasPrefix s p = true ↔ ∃ r, s = p +:+ r.
Proof.
  unfold HasPrefix. destruct (strip_prefix _ _) as [r|] eqn:E.
  - apply strip_prefix_Some in E. split; [intros _|done]. exists (of_bytes r).
    apply bytes_inj. by rewrite bytes_app, bytes_of_bytes.
  - split; [done|]. intros [r ->]. rewrite bytes_app in E.
    by assert (strip_prefix (bytes p) (bytes p ++ bytes r) = Some (bytes r))
      as ? by (by apply strip_prefix_Some); simplify_eq.
Qed.

(** [strings.Contains] and the occurrence it looks for. *)
Fixpoint contains_bytes (l p : list ascii) : bool :=
  match strip_prefix p l with
  | Some _ => true
  | None => match l with [] => false | _ :: l' => contains_bytes l' p end
  end.
Definition Contains (s p : string) : bool := contains_bytes (bytes s) (bytes p).

Lemma contains_bytes_spec l p : contains_bytes l p = true ↔ ∃ a b, l = a ++ p ++ b.
Proof.
  induction l as [|c l IH]; simpl.
  - destruct (strip_prefix p []) as [r|] eqn:E.
    + apply strip_prefix_Some in E. split; [intros _|done]. by exists [], r.
    + split; [done|]. intros (a & b & Hab). symmetry in Hab.
      apply app_eq_nil in Hab as [-> Hab]. symmetry in Hab.
      apply (proj2 (strip_prefix_Some _ _ _)) in Hab. congruence.
  - destruct (strip_prefix p (c :: l)) as [r|] eqn:E.
    + apply strip_prefix_Some in E. split; [intros _|done]. by exists [], r.
    + rewrite IH. split; intros (a & b & Hab).
      * exists (c :: a), b. by rewrite Hab.
      * destruct a as [|c' a]; simplify_eq/=.
        -- assert (strip_prefix p (c :: l) = Some b) by (by apply strip_prefix_Some). congruence.
        -- by exists a, b.
Qed.

(** ** Unicode white space and [strings.TrimSpace] *)

Definition chr (n : nat) : ascii := ascii_of_nat n.

(** The UTF-8 encodings of the code points [unicode.IsSpace] accepts. *)
Definition space_seqs : list (list ascii) :=
  map (map chr)
    ([[9]; [10]; [11]; [12]; [13]; [32]; [194; 133]; [194; 160]; [225; 154; 128]]
     ++ map (λ k, [226; 128; k]) [128; 129; 130; 131; 132; 133; 134; 135; 136; 137; 138; 168; 169; 175]
     ++ [[226; 129; 159]; [227; 128; 128]]).

(** What is left after one of [seqs] at the front of [l]. *)
Fixpoint strip_any (seqs : list (list ascii)) (l : list ascii) : option (list ascii) :=
  match seqs with
  | [] => None
  | p :: seqs' =>
      match strip_prefix p l with Some r => Some r | None => strip_any seqs' l end
  end.

Fixpoint trim_front (fuel : nat) (seqs : list (list ascii)) (l : list ascii) : list ascii :=
  match fuel with
  | 0 => l
  | S f => match strip_any seqs l with Some r => trim_front f seqs r | None => l end
  end.

(** The end is trimmed backwards, as [strings.TrimFunc] decodes the last rune:
    a suffix is a white-space rune exactly when it ends with its encoding. *)
Definition trim_space_bytes (l : list ascii) : list ascii :=
  let l1 := trim_front (length l) space_seqs l in
  rev (trim_front (length l1) (map (@rev ascii) space_seqs) (rev l1)).
Definition TrimSpace (s : string) : string := of_bytes (trim_space_bytes (bytes s)).

Lemma strip_any_suffix seqs l r : strip_any seqs l = Some r → ∃ p, l = p ++ r.
Proof.
  induction seqs as [|p seqs IH]; simpl; [done|].
  destruct (strip_prefix p l) as [r'|] eqn:E; [|done].
  intros ?; simplify_eq. apply strip_prefix_Some in E. by exists p.
Qed.

Lemma trim_front_suffix fuel seqs l : ∃ p, l = p ++ trim_front fuel seqs l.
Proof.
  revert l. induction fuel as [|f IH]; intros l; simpl; [by exists []|].
  destruct (strip_any seqs l) as [r|] eqn:E; [|by exists []].
  apply strip_any_suffix in E as [p ->]. destruct (IH r) as [q Hq].
  exists (p ++ q). by rewrite <-app_assoc, <-Hq.
Qed.

(** Trimming keeps a contiguous part of the string. *)
Lemma trim_space_infix l : ∃ a b, l = a ++ trim_space_bytes l ++ b.
Proof.
  unfold trim_space_bytes.
  destruct (trim_front_suffix (length l) space_seqs l) as [a Ha].
  set (l1 := trim_front _ space_seqs l) in *.
  destruct (trim_front_suffix (length l1) (map (@rev ascii) space_seqs) (rev l1)) as [b Hb].
  set (l2 := trim_front _ _ (rev l1)) in *. exists a, (rev b).
  rewrite Ha at 1. f_equal. rewrite <-rev_app_distr, <-Hb. by rewrite rev_involutive.
Qed.

Lemma length_trim_space l : length (trim_space_bytes l) ≤ length l.
Proof.
  destruct (trim_space_infix l) as (a & b & H). rewrite H at 2. rewrite !length_app. lia.
Qed.
Lemma len_TrimSpace s : len (TrimSpace s) ≤ len s.
Proof. unfold TrimSpace. rewrite len_of_bytes. apply length_trim_space. Qed.
#[export] Hint Resolve len_TrimSpace length_trim_space : janusly.

(** ** Bytes *)

(** The code of a byte. *)
Definition code (c : ascii) : nat := nat_of_ascii c.
Lemma code_lt c : code c < 256.
Proof. apply nat_ascii_bounded. Qed.

Definition in_range (lo hi : nat) (c : ascii) : bool := (lo <=? code c) && (code c <=? hi).
Definition is_digit : ascii → bool := in_range 48 57.
Definition is_upper : ascii → bool := in_range 65 90.
Definition is_lower : ascii → bool := in_range 97 122.
Definition is_alpha (c : ascii) : bool := is_upper c || is_lower c.
Definition is_alnum (c : ascii) : bool := is_alpha c || is_digit c.

(** The double-quote character, and a string put between two of them. *)
Definition dq : string := of_bytes [chr 34].
Definition quoted (s : string) : string := dq +:+ s +:+ dq.

(** ** Case mapping

    [strings.ToUpper] and [strings.ToLower] are the ASCII maps on a string of
    ASCII bytes. Otherwise they go through the Unicode tables, which are the
    argument [table] here. *)
Definition is_ascii (s : string) : bool := forallb (λ c, code c <? 128) (bytes s).
Definition upper_byte (c : ascii) : ascii := if is_lower c then chr (code c - 32) else c.
Definition lower_byte (c : ascii) : ascii := if is_upper c then chr (code c + 32) else c.
Definition ToUpper (table : string → string) (s : string) : string :=
  if is_ascii s then of_bytes (map upper_byte (bytes s)) else table s.
Definition ToLower (table : string → string) (s : string) : string :=
  if is_ascii s then of_bytes (map lower_byte (bytes s)) else table s.
(** [strings.EqualFold]: the tables matter when one of the strings is not ASCII. *)
Definition EqualFold (table : string → string → bool) (s t : string) : bool :=
  if is_ascii s && is_ascii t then String.eqb (of_bytes (map lower_byte (bytes s))) (of_bytes (map lower_byte (bytes t)))
  else table s t.

(** ** Decimal numerals: [strconv.Itoa] *)

Fixpoint digits_rev (fuel : nat) (n : Z) : list ascii :=
  match fuel with
  | 0 => []
  | S f => let d := chr (48 + Z.to_nat (n mod 10)) in
           if (n <? 10)%Z then [d] else d :: digits_rev f (n / 10)%Z
  end.
(** Enough fuel for [n]: one more than its number of bits. *)
Definition digits (n : Z) : list ascii := rev (digits_rev (S (Z.to_nat (Z.log2 n))) n).
Definition Itoa (n : Z) : string :=
  if (n <? 0)%Z then of_bytes (chr 45 :: digits (- n)) else of_bytes (digits n).

(** The value of a list of decimal digits, most significant first. *)
Definition digit_val (c : ascii) : Z := Z.of_nat (code c - 48).
Definition digits_val (l : list ascii) : Z := fold_left (λ a c, 10 * a + digit_val c)%Z l 0%Z.

(** ** Searching and joining *)

(** [strings.ReplaceAll] for a non-empty [old]: the occurrences are taken from
    the left and do not overlap. *)
Fixpoint replace_bytes (fuel : nat) (l old new : list ascii) : list ascii :=
  match fuel with
  | 0 => l
  | S f =>
      match strip_prefix old l with
      | Some r => new ++ replace_bytes f r old new
      | None => match l with [] => [] | c :: l' => c :: replace_bytes f l' old new end
      end
  end.
Definition ReplaceAll (s old new : string) : string :=
  of_bytes (replace_bytes (S (len s)) (bytes s) (bytes old) (bytes new)).

(** [strings.Join]. *)
Fixpoint Join (l : list string) (sep : string) : string :=
  match l with
  | [] => ""%string
  | [s] => s
  | s :: l' => s +:+ sep +:+ Join l' sep
  end.

(** [strings.Split] on a one-byte separator. *)
Fixpoint split_bytes (sep : ascii) (l : list ascii) (cur : list ascii) : list (list ascii) :=
  match l with
  | [] => [rev cur]
  | c :: l' => if Ascii.eqb c sep then rev cur :: split_bytes sep l' []
               else split_bytes sep l' (c :: cur)
  end.
Lemma split_nonempty sep l cur : split_bytes sep l cur ≠ [].
Proof. revert cur. induction l as [|c l IH]; intros cur; cbn; [done|]. by destruct (Ascii.eqb c sep). Qed.
Definition Split (s : string) (sep : ascii) : list string :=
  map of_bytes (split_bytes sep (bytes s) []).

(** [strings.Cut] on a one-byte separator: (before, after, found). *)
Fixpoint cut_bytes (sep : ascii) (l : list ascii) : list ascii * list ascii * bool :=
  match l with
  | [] => ([], [], false)
  | c :: l' => if Ascii.eqb c sep then ([], l', true)
               else let '(b, a, f) := cut_bytes sep l' in (c :: b, a, f)
  end.
Definition Cut (s : string) (sep : ascii) : string * string * bool :=
  let '(b, a, f) := cut_bytes sep (bytes s) in (of_bytes b, of_bytes a, f).

(** [strings.Fields]: the maximal runs without white space. *)
Fixpoint fields_bytes (fuel : nat) (l cur : list ascii) : list (list ascii) :=
  let flush rest := match cur with [] => rest | _ => rev cur :: rest end in
  match fuel with
  | 0 => flush []
  | S f =>
      match strip_any space_seqs l with
      | Some r => flush (fields_bytes f r [])
      | None => match l with [] => flush [] | c :: l' => fields_bytes f l' (c :: cur) end
      end
  end.
Definition Fields (s : string) : list string := map of_bytes (fields_bytes (S (len s)) (bytes s) []).

(** ** UTF-8 and UTF-16 *)

Definition rune_error : N := 65533.

(** The bounds on the second byte that [unicode/utf8] imposes for each first
    byte, with the number of bytes of the sequence; [None] is an invalid start. *)
Definition utf8_lead (b : nat) : option (nat * nat * nat) :=
  if (194 <=? b) && (b <=? 223) then Some (2, 128, 191)
  else if b =? 224 then Some (3, 160, 191)
  else if b =? 237 then Some (3, 128, 159)
  else if (225 <=? b) && (b <=? 239) then Some (3, 128, 191)
  else if b =? 240 then Some (4, 144, 191)
  else if (241 <=? b) && (b <=? 243) then Some (4, 128, 191)
  else if b =? 244 then Some (4, 128, 143)
  else None.

Definition cont (c : ascii) : bool := in_range 128 191 c.
Definition low6 (c : ascii) : N := N.of_nat (code c - 128).

(** [utf8.DecodeRune] on a non-empty string: the rune and the bytes after it. *)
Definition decode_rune (c : ascii) (l : list ascii) : N * list ascii :=
  if code c <? 128 then (N.of_nat (code c), l)
  else match utf8_lead (code c), l with
  | Some (2, lo, hi), c1 :: l1 =>
      if in_range lo hi c1 then (N.of_nat (code c - 192) * 64 + low6 c1, l1)%N
      else (rune_error, l)
  | Some (3, lo, hi), c1 :: c2 :: l2 =>
      if in_range lo hi c1 && cont c2
      then (N.of_nat (code c - 224) * 4096 + low6 c1 * 64 + low6 c2, l2)%N
      else (rune_error, l)
  | Some (4, lo, hi), c1 :: c2 :: c3 :: l3 =>
      if in_range lo hi c1 && cont c2 && cont c3
      then (N.of_nat (code c - 240) * 262144 + low6 c1 * 4096 + low6 c2 * 64 + low6 c3, l3)%N
      else (rune_error, l)
  | _, _ => (rune_error, l)
  end.

Fixpoint runes_bytes (fuel : nat) (l : list ascii) : list N :=
  match fuel, l with
  | S f, c :: l' => let '(r, rest) := decode_rune c l' in r :: runes_bytes f rest
  | _, _ => []
  end.
(** [[]rune(s)]: every rune takes at least one byte, so [len s] is enough fuel. *)
Definition runes (s : string) : list N := runes_bytes (len s) (bytes s).
(** [utf8.RuneCountInString]. *)
Definition RuneCount (s : string) : nat := length (runes s).

(** [utf16.Encode]. *)
Definition utf16_encode (rs : list N) : list N :=
  flat_map (λ r, if (r <? 65536)%N then [r]
                 else [55296 + (r - 65536) / 1024; 56320 + (r - 65536) mod 1024]%N) rs.

Lemma decode_rune_shorter c l : length (decode_rune c l).2 ≤ length l.
Proof.
  unfold decode_rune. destruct (code c <? 128); [done|].
  destruct (utf8_lead (code c)) as [[[n lo] hi]|]; [|simpl; lia].
  do 5 (destruct n as [|n]; [repeat case_match; simpl in *; simplify_eq/=; lia|]).
  simpl; lia.
Qed.

Lemma length_runes_bytes fuel l : length (runes_bytes fuel l) ≤ length l.
Proof.
  revert l. induction fuel as [|f IH]; intros [|c l]; simpl; try lia.
  destruct (decode_rune c l) as [r rest] eqn:E. simpl.
  pose proof (decode_rune_shorter c l) as Hs. rewrite E in Hs. simpl in Hs.
  specialize (IH rest). lia.
Qed.
(** A string has at most as many runes as bytes. *)
Lemma RuneCount_le_len s : RuneCount s ≤ len s.
Proof. apply length_runes_bytes. Qed.

(** ** [strconv.Quote], the verb [%q] *)

(** The Unicode table behind [strconv.IsPrint] above ASCII is a parameter. *)
Class UnicodeTables := { is_print : N → bool }.

Definition hex_byte (n : nat) : ascii := if n <? 10 then chr (48 + n) else chr (87 + n).
Definition hex2 (n : nat) : list ascii := [hex_byte (n / 16 mod 16); hex_byte (n mod 16)].
Definition hex4 (r : N) : list ascii :=
  hex2 (N.to_nat (r / 256)) ++ hex2 (N.to_nat (r mod 256)).

Definition quote_ascii (c : ascii) : list ascii :=
  let b := code c in
  if (b =? 34) || (b =? 92) then [chr 92; c]
  else if b =? 7 then bytes "\a" else if b =? 8 then bytes "\b" else if b =? 12 then bytes "\f"
  else if b =? 10 then bytes "\n" else if b =? 13 then bytes "\r" else if b =? 9 then bytes "\t"
  else if b =? 11 then bytes "\v"
  else if (b <? 32) || (b =? 127) then bytes "\x" ++ hex2 b
  else [c].

Section quote.
Context `{UnicodeTables}.
Fixpoint quote_bytes (fuel : nat) (l : list ascii) : list ascii :=
  match fuel, l with
  | S f, c :: l' =>
      if code c <? 128 then quote_ascii c ++ quote_bytes f l'
      else
        let '(r, rest) := decode_rune c l' in
        (if (length rest =? length l')%nat then bytes "\x" ++ hex2 (code c)
         else if is_print r then c :: take (length l' - length rest) l'
         else if (r <? 65536)%N then bytes "\u" ++ hex4 r
         else bytes "\U" ++ hex4 (r / 65536) ++ hex4 (r mod 65536)) ++ quote_bytes f rest
  | _, _ => []
  end.
Definition Quote (s : string) : string := of_bytes (chr 34 :: quote_bytes (len s) (bytes s) ++ [chr 34]).
End quote.
