(* ===== verification/GoInt.v ===== *)
(** Machine integers of Go: wrap-around and [strconv.Atoi]. *)
From S2P Require Import Prelude GoStrings.
Local Open Scope Z_scope.

Definition min_int64 : Z := - 2 ^ 63.
Definition max_int64 : Z := 2 ^ 63 - 1.
Definition wrap64 (n : Z) : Z := (n + 2 ^ 63) mod 2 ^ 64 - 2 ^ 63.

Lemma wrap64_id n : min_int64 ≤ n ≤ max_int64 → wrap64 n = n.
Proof. unfold wrap64, min_int64, max_int64. intros. rewrite Z.mod_small; lia. Qed.
Lemma wrap64_over n : max_int64 < n < 2 ^ 64 → wrap64 n = n - 2 ^ 64.
Proof.
  unfold wrap64, max_int64. intros. replace (n + 2 ^ 63) with (n - 2 ^ 63 + 1 * 2 ^ 64) by lia.
  rewrite Z.mod_add, Z.mod_small by lia. lia.
Qed.

(** [strconv.Atoi]: an optional sign and decimal digits in the range of int; [None]
    stands for the error. *)
Definition Atoi (s : string) : option Z :=
  let '(neg, ds) := match bytes s with
    | c :: l => if Ascii.eqb c "-" then (true, l) else if Ascii.eqb c "+" then (false, l) else (false, c :: l)
    | [] => (false, [])
    end in
  if negb (bool_decide (ds = [])) && forallb is_digit ds then
    let n := if neg then - digits_val ds else digits_val ds in
    if (min_int64 <=? n) && (n <=? max_int64) then Some n else None
  else None.

Lemma Atoi_range s n : Atoi s = Some n → min_int64 ≤ n ≤ max_int64.
Proof.
  unfold Atoi. destruct (match bytes s with [] => _ | _ => _ end) as [neg ds].
  destruct (_ && _); [|done]. destruct (_ && _) eqn:Hb; [|done]. intros [= <-]. bool_split.
  by rewrite !Z.leb_le in *.
Qed.
