(* ===== verification/Base64.v ===== *)
(** encoding/base64: the standard alphabet with padding and the URL alphabet without, and
    the hexadecimal text of bytes. *)
From Stdlib Require Import ZifyNat.
From S2P Require Import Prelude GoStrings.
Local Open Scope nat_scope.
Local Open Scope list_scope.

(** ** Digits *)

Definition std_digit (n : nat) : ascii :=
  if n <? 26 then chr (65 + n) else if n <? 52 then chr (71 + n) else if n <? 62 then chr (n - 4)
  else if n =? 62 then "+"%char else "/"%char.
Definition url_digit (n : nat) : ascii := if n =? 62 then "-"%char else if n =? 63 then "_"%char else std_digit n.
Definition read_digit (digit : nat → ascii) (c : ascii) : option nat :=
  find (λ n, Ascii.eqb (digit n) c) (seq 0 64).

(** ** Encoding *)

(** Three bytes as four digits of six bits; the last group may be short. *)
Definition digit1 (a : nat) : nat := a / 4.
Definition digit2 (a b : nat) : nat := a mod 4 * 16 + b / 16.
Definition digit3 (b c : nat) : nat := b mod 16 * 4 + c / 64.
Definition digit4 (c : nat) : nat := c mod 64.
Fixpoint encode_groups (digit : nat → ascii) (pad : list ascii) (l : list ascii) : list ascii :=
  match l with
  | [] => []
  | [a] => digit (digit1 (code a)) :: digit (digit2 (code a) 0) :: pad ++ pad
  | [a; b] => digit (digit1 (code a)) :: digit (digit2 (code a) (code b)) :: digit (digit3 (code b) 0) :: pad
  | a :: b :: c :: l =>
      digit (digit1 (code a)) :: digit (digit2 (code a) (code b)) :: digit (digit3 (code b) (code c)) :: digit (digit4 (code c)) ::
      encode_groups digit pad l
  end.
Definition StdEncode (s : string) : string := of_bytes (encode_groups std_digit ["="%char] (bytes s)).
Definition RawURLEncode (s : string) : string := of_bytes (encode_groups url_digit [] (bytes s)).

(** ** Decoding *)

(** Line ends are skipped wherever they are. *)
Definition without_newlines (l : list ascii) : list ascii :=
  filter (λ c, Ascii.eqb c (chr 10) || Ascii.eqb c (chr 13) = false) l.
Definition byte1 (a b : nat) : ascii := chr (a * 4 + b / 16).
Definition byte2 (b c : nat) : ascii := chr (b mod 16 * 16 + c / 4).
Definition byte3 (c d : nat) : ascii := chr (c mod 4 * 64 + d).
Definition join2 (a b : nat) : list ascii := [byte1 a b].
Definition join3 (a b c : nat) : list ascii := [byte1 a b; byte2 b c].
Definition join4 (a b c d : nat) : list ascii := [byte1 a b; byte2 b c; byte3 c d].

(** Four digits at a time; [padded] says whether the last group must be filled up with [=].
    The bits that a short group does not use are ignored. *)
Fixpoint decode_groups (digit : nat → ascii) (padded : bool) (l : list ascii) : option (list ascii) :=
  let pad c := padded && Ascii.eqb c "=" in
  match l with
  | [] => Some []
  | [a; b] => if padded then None else a ← read_digit digit a; b ← read_digit digit b; Some (join2 a b)
  | [a; b; c] =>
      if padded then None
      else a ← read_digit digit a; b ← read_digit digit b; c ← read_digit digit c; Some (join3 a b c)
  | a :: b :: c :: d :: l =>
      a ← read_digit digit a; b ← read_digit digit b;
      if pad c then (if pad d && bool_decide (l = []) then Some (join2 a b) else None)
      else
        c ← read_digit digit c;
        if pad d then (if bool_decide (l = []) then Some (join3 a b c) else None)
        else d ← read_digit digit d; rest ← decode_groups digit padded l; Some (join4 a b c d ++ rest)
  | _ => None
  end.
Definition StdDecode (s : string) : option string := of_bytes <$> decode_groups std_digit true (without_newlines (bytes s)).
Definition RawURLDecode (s : string) : option string := of_bytes <$> decode_groups url_digit false (without_newlines (bytes s)).

(** [hex.EncodeToString]. *)
Definition hex_of (n : nat) : ascii := if n <? 10 then chr (48 + n) else chr (87 + n).
Definition HexEncode (l : list ascii) : string := of_bytes (flat_map (λ c, [hex_of (code c / 16); hex_of (code c mod 16)]) l).

(** [hex.DecodeString]: both cases of the letters. *)
Definition hex_value (c : ascii) : option nat :=
  if is_digit c then Some (code c - 48) else if in_range 97 102 c then Some (code c - 87)
  else if in_range 65 70 c then Some (code c - 55) else None.
Fixpoint hex_decode (l : list ascii) : option (list ascii) :=
  match l with
  | [] => Some []
  | a :: b :: l => a ← hex_value a; b ← hex_value b; rest ← hex_decode l; Some (chr (a * 16 + b) :: rest)
  | [_] => None
  end.
Definition HexDecode (s : string) : option (list ascii) := hex_decode (bytes s).

(** ** Round trips *)

Lemma chr_code c : chr (code c) = c.
Proof. apply ascii_nat_embedding. Qed.
Lemma url_digit_read n : n < 64 → read_digit url_digit (url_digit n) = Some n.
Proof. intros H. do 64 (destruct n as [|n]; [vm_compute; reflexivity|]). lia. Qed.
(** A digit of the URL alphabet is neither a dot nor the end of a line. *)
Lemma url_digit_plain n : n < 64 →
  Ascii.eqb (url_digit n) "." = false ∧ Ascii.eqb (url_digit n) (chr 10) || Ascii.eqb (url_digit n) (chr 13) = false.
Proof. intros H. do 64 (destruct n as [|n]; [vm_compute; by split|]). lia. Qed.

(** Induction by groups of three bytes. *)
Lemma group_ind (P : list ascii → Prop) : P [] → (∀ a, P [a]) → (∀ a b, P [a; b]) →
  (∀ a b c l, P l → P (a :: b :: c :: l)) → ∀ l, P l.
Proof.
  intros H0 H1 H2 H3 l. assert (∀ n l, length l < n → P l) as H; [|apply (H (S (length l))); lia].
  clear l. induction n as [|n IH]; intros l Hl; [lia|]. destruct l as [|a [|b [|c l]]]; auto. apply H3, IH. cbn in Hl. lia.
Qed.
(** The digits of a group are below 64 and give back its bytes. *)
Ltac bits := zify; Z.to_euclidean_division_equations; lia.
Lemma digit1_lt a : a < 256 → digit1 a < 64.
Proof. unfold digit1. bits. Qed.
Lemma digit2_lt a b : b < 256 → digit2 a b < 64.
Proof. unfold digit2. bits. Qed.
Lemma digit3_lt b c : c < 256 → digit3 b c < 64.
Proof. unfold digit3. bits. Qed.
Lemma digit4_lt c : digit4 c < 64.
Proof. unfold digit4. bits. Qed.
Lemma byte1_digits a b : b < 256 → byte1 (digit1 (code a)) (digit2 (code a) b) = a.
Proof.
  intros Hb. unfold byte1, digit1, digit2. transitivity (chr (code a)); [f_equal|apply chr_code]. pose proof (code_lt a). bits.
Qed.
Lemma byte2_digits a b c : c < 256 → byte2 (digit2 a (code b)) (digit3 (code b) c) = b.
Proof.
  intros Hc. unfold byte2, digit2, digit3. transitivity (chr (code b)); [f_equal|apply chr_code]. pose proof (code_lt b). bits.
Qed.
Lemma byte3_digits b c : byte3 (digit3 b (code c)) (digit4 (code c)) = c.
Proof. unfold byte3, digit3, digit4. transitivity (chr (code c)); [f_equal|apply chr_code]. pose proof (code_lt c). bits. Qed.
#[local] Hint Resolve digit1_lt digit2_lt digit3_lt digit4_lt code_lt Nat.lt_0_succ : digits.

Lemma encode_plain l : Forall (λ c, Ascii.eqb c "." = false ∧ Ascii.eqb c (chr 10) || Ascii.eqb c (chr 13) = false) (encode_groups url_digit [] l).
Proof. induction l as [|a|a b|a b c l IH] using group_ind; cbn [encode_groups app]; repeat constructor; try apply url_digit_plain; auto with digits. Qed.
Lemma decode_encode l : decode_groups url_digit false (encode_groups url_digit [] l) = Some l.
Proof.
  induction l as [|a|a b|a b c l IH] using group_ind; cbn [encode_groups app decode_groups]; [done|..];
    rewrite !url_digit_read by auto with digits; cbn [mbind option_bind andb]; rewrite ?IH; cbn [mbind option_bind];
    unfold join2, join3, join4; cbn [app]; by rewrite ?byte1_digits, ?byte2_digits, ?byte3_digits by auto with digits.
Qed.
Lemma without_newlines_id l : Forall (λ c, Ascii.eqb c (chr 10) || Ascii.eqb c (chr 13) = false) l → without_newlines l = l.
Proof. induction 1 as [|c l Hc _ IH]; [done|]. unfold without_newlines in *. rewrite filter_cons_True by done. by rewrite IH. Qed.
Theorem raw_url_roundtrip s : RawURLDecode (RawURLEncode s) = Some s.
Proof.
  unfold RawURLDecode, RawURLEncode. rewrite bytes_of_bytes, without_newlines_id.
  - rewrite decode_encode. cbn. by rewrite of_bytes_bytes.
  - eapply Forall_impl; [apply encode_plain|]. by intros c [_ H].
Qed.
Lemma raw_url_no_dot s : Forall (λ c, Ascii.eqb c "." = false) (bytes (RawURLEncode s)).
Proof. unfold RawURLEncode. rewrite bytes_of_bytes. eapply Forall_impl; [apply encode_plain|]. by intros c [H _]. Qed.
