(* ===== verification/Sha256.v ===== *)
(** crypto/sha256 and crypto/hmac: the digest on 32-bit words (FIPS 180-4) and the keyed
    digest built from it (RFC 2104), on byte strings. *)
From S2P Require Import Prelude GoStrings.
Local Open Scope Z_scope.
Local Open Scope list_scope.

(** ** Words *)

Definition mask : Z := 4294967295.
Definition add32 (a b : Z) : Z := Z.land (a + b) mask.
Definition rotr (n x : Z) : Z := Z.lor (Z.shiftr x n) (Z.land (Z.shiftl x (32 - n)) mask).
Definition Ch (x y z : Z) : Z := Z.lxor (Z.land x y) (Z.land (Z.lxor x mask) z).
Definition Maj (x y z : Z) : Z := Z.lxor (Z.lxor (Z.land x y) (Z.land x z)) (Z.land y z).
Definition Sigma0 (x : Z) : Z := Z.lxor (Z.lxor (rotr 2 x) (rotr 13 x)) (rotr 22 x).
Definition Sigma1 (x : Z) : Z := Z.lxor (Z.lxor (rotr 6 x) (rotr 11 x)) (rotr 25 x).
Definition sigma0 (x : Z) : Z := Z.lxor (Z.lxor (rotr 7 x) (rotr 18 x)) (Z.shiftr x 3).
Definition sigma1 (x : Z) : Z := Z.lxor (Z.lxor (rotr 17 x) (rotr 19 x)) (Z.shiftr x 10).

Definition round_constants : list Z :=
  [1116352408; 1899447441; 3049323471; 3921009573; 961987163; 1508970993; 2453635748; 2870763221;
   3624381080; 310598401; 607225278; 1426881987; 1925078388; 2162078206; 2614888103; 3248222580;
   3835390401; 4022224774; 264347078; 604807628; 770255983; 1249150122; 1555081692; 1996064986;
   2554220882; 2821834349; 2952996808; 3210313671; 3336571891; 3584528711; 113926993; 338241895;
   666307205; 773529912; 1294757372; 1396182291; 1695183700; 1986661051; 2177026350; 2456956037;
   2730485921; 2820302411; 3259730800; 3345764771; 3516065817; 3600352804; 4094571909; 275423344;
   430227734; 506948616; 659060556; 883997877; 958139571; 1322822218; 1537002063; 1747873779;
   1955562222; 2024104815; 2227730452; 2361852424; 2428436474; 2756734187; 3204031479; 3329325298].
Definition initial_words : list Z :=
  [1779033703; 3144134277; 1013904242; 2773480762; 1359893119; 2600822924; 528734635; 1541459225].

(** ** A block *)

(** The words of the schedule, the latest first. *)
Fixpoint extend (n : nat) (w : list Z) : list Z :=
  match n with
  | O => w
  | S n =>
      let at_ i := nth i w 0 in
      extend n (add32 (add32 (sigma1 (at_ 1%nat)) (at_ 6%nat)) (add32 (sigma0 (at_ 14%nat)) (at_ 15%nat)) :: w)
  end.
Fixpoint words (l : list ascii) : list Z :=
  match l with
  | a :: b :: c :: d :: l =>
      Z.of_nat (code a) * 16777216 + Z.of_nat (code b) * 65536 + Z.of_nat (code c) * 256 + Z.of_nat (code d) :: words l
  | _ => []
  end.
Definition round_step (s : list Z) (kw : Z * Z) : list Z :=
  match s with
  | [a; b; c; d; e; f; g; h] =>
      let t1 := add32 (add32 (add32 h (Sigma1 e)) (add32 (Ch e f g) kw.1)) kw.2 in
      [add32 t1 (add32 (Sigma0 a) (Maj a b c)); a; b; c; add32 d t1; e; f; g]
  | _ => s
  end.
Definition compress (h : list Z) (block : list ascii) : list Z :=
  let w := rev (extend 48 (rev (words block))) in
  zip_with add32 h (fold_left round_step (zip round_constants w) h).

(** ** The digest *)

Definition byte_of (n : Z) : ascii := chr (Z.to_nat (Z.land n 255)).
Definition word_bytes (w : Z) : list ascii := map (λ k, byte_of (Z.shiftr w k)) [24; 16; 8; 0].
Definition length_bytes (n : Z) : list ascii := map (λ k, byte_of (Z.shiftr n k)) [56; 48; 40; 32; 24; 16; 8; 0].
Definition padded (l : list ascii) : list ascii :=
  let n := length l in
  l ++ chr 128 :: repeat (chr 0) (Nat.modulo (119 - Nat.modulo n 64) 64) ++ length_bytes (8 * Z.of_nat n).
Fixpoint blocks (fuel : nat) (l : list ascii) (h : list Z) : list Z :=
  match fuel with
  | O => h
  | S f => match l with [] => h | _ => blocks f (drop 64 l) (compress h (take 64 l)) end
  end.
Definition Sum256 (l : list ascii) : list ascii :=
  let m := padded l in flat_map word_bytes (blocks (length m) m initial_words).

(** ** The keyed digest *)

Definition xor_byte (n : Z) (c : ascii) : ascii := chr (Z.to_nat (Z.lxor (Z.of_nat (code c)) n)).
Definition block_key (key : list ascii) : list ascii :=
  let k := if (64 <? length key)%nat then Sum256 key else key in k ++ repeat (chr 0) (64 - length k).
Definition HMAC (key message : list ascii) : list ascii :=
  let k := block_key key in
  Sum256 (map (xor_byte 92) k ++ Sum256 (map (xor_byte 54) k ++ message)).

Example sha256_abc : map code (Sum256 (bytes "abc")) =
  [186; 120; 22; 191; 143; 1; 207; 234; 65; 65; 64; 222; 93; 174; 34; 35; 176; 3; 97; 163; 150; 23; 122; 156; 180; 16; 255; 97; 242; 0; 21; 173]%nat.
Proof. vm_compute. reflexivity. Qed.
Example hmac_rfc4231 : map code (HMAC (bytes "Jefe") (bytes "what do ya want for nothing?")) =
  [91; 220; 193; 70; 191; 96; 117; 78; 106; 4; 36; 38; 8; 149; 117; 199; 90; 0; 63; 8; 157; 39; 57; 131; 157; 236; 88; 185; 100; 236; 56; 67]%nat.
Proof. vm_compute. reflexivity. Qed.

(** Every digest has 32 bytes. *)
Lemma compress_length h block : length h = 8%nat → length (compress h block) = 8%nat.
Proof.
  intros Hh. unfold compress. rewrite length_zip_with_l_eq; [done|].
  assert (∀ l s, length s = 8%nat → length (fold_left round_step l s) = 8%nat) as Hfold; [|by rewrite Hfold].
  induction l as [|kw l IH]; intros s Hs; cbn [fold_left]; [done|]. apply IH. unfold round_step. by repeat (case_match; try done).
Qed.
Lemma Sum256_length l : length (Sum256 l) = 32%nat.
Proof.
  unfold Sum256. set (n := length (padded l)). generalize (padded l). clearbody n. intros m.
  assert (∀ h, length h = 8%nat → length (blocks n m h) = 8%nat) as Hb.
  { clear l. revert m. induction n as [|n IH]; intros m h Hh; cbn [blocks]; [done|]. destruct m as [|c m]; [done|].
    apply IH. by apply compress_length. }
  specialize (Hb initial_words eq_refl). destruct (blocks n m initial_words) as [|? [|? [|? [|? [|? [|? [|? [|? [|? ?]]]]]]]]]; try discriminate Hb. reflexivity.
Qed.
Lemma HMAC_length key message : length (HMAC key message) = 32%nat.
Proof. apply Sum256_length. Qed.
