(* ===== verification/Calendar.v ===== *)
(** Instants and the civil calendar of Go's time package, as far as the source uses
    it, and the bounded loop of searches through time. *)
From S2P Require Import Prelude.
Local Open Scope Z_scope.

(** ** A loop with a binary bound *)

(** [inl] goes on, [inr] stops; at most [n] steps. *)
Fixpoint loop_pos {A B} (step : A → A + B) (n : positive) (a : A) : A + B :=
  match n with
  | xH => step a
  | xO m => match loop_pos step m a with inl a' => loop_pos step m a' | inr b => inr b end
  | xI m =>
      match step a with
      | inl a' => match loop_pos step m a' with inl a'' => loop_pos step m a'' | inr b => inr b end
      | inr b => inr b
      end
  end.

Section loop.
Context {A B : Type} (step : A → A + B) (I : A → Prop) (Q : B → Prop) (measure : A → Z).
Context (Hstep : ∀ a, I a → match step a with inl a' => I a' ∧ 0 ≤ measure a' < measure a | inr b => Q b end).

Lemma loop_pos_spec n a : I a →
  match loop_pos step n a with inl a' => I a' ∧ 0 ≤ measure a' ≤ measure a - Z.pos n | inr b => Q b end.
Proof.
  revert a. induction n as [m IH|m IH|]; intros a Ha; cbn.
  - specialize (Hstep a Ha) as H1. destruct (step a) as [a1|b]; [|done]. destruct H1 as [H1 Hm1].
    specialize (IH a1 H1) as H2. destruct (loop_pos step m a1) as [a2|b]; [|done]. destruct H2 as [H2 Hm2].
    specialize (IH a2 H2) as H3. destruct (loop_pos step m a2) as [a3|b]; [|done]. split; [by apply H3|]. lia.
  - specialize (IH a Ha) as H2. destruct (loop_pos step m a) as [a2|b]; [|done]. destruct H2 as [H2 Hm2].
    specialize (IH a2 H2) as H3. destruct (loop_pos step m a2) as [a3|b]; [|done]. split; [by apply H3|]. lia.
  - specialize (Hstep a Ha) as H1. destruct (step a) as [a1|b]; [|done]. destruct H1. split; [done|lia].
Qed.

(** A bound above the measure is enough. *)
Lemma loop_pos_stops n a : I a → measure a < Z.pos n → ∃ b, loop_pos step n a = inr b ∧ Q b.
Proof.
  intros Ha Hm. pose proof (loop_pos_spec n a Ha) as H. destruct (loop_pos step n a) as [a'|b]; [lia|].
  by exists b.
Qed.
End loop.

(** ** The proleptic Gregorian calendar *)

Definition is_leap (y : Z) : bool := (y mod 4 =? 0) && (negb (y mod 100 =? 0) || (y mod 400 =? 0)).
Definition year_days (y : Z) : Z := if is_leap y then 366 else 365.
Definition month_days (leap : bool) (m : Z) : Z :=
  if m =? 2 then (if leap then 29 else 28)
  else if (m =? 4) || (m =? 6) || (m =? 9) || (m =? 11) then 30 else 31.

(** Days from 1 January 1970 to the first day of a year. *)
Definition days_before_year (y : Z) : Z :=
  let p := y - 1 in 365 * p + p / 4 - p / 100 + p / 400 - 719162.
(** Days of the year before its month [m]. *)
Definition days_before_month (leap : bool) (m : Z) : Z :=
  nth (Z.to_nat m) [0; 0; 31; 59; 90; 120; 151; 181; 212; 243; 273; 304; 334; 365] 0 +
  (if leap && (2 <? m) then 1 else 0).

(** The day count of a date, and the date of a day count. *)
Definition days_from_civil (y m d : Z) : Z :=
  days_before_year y + days_before_month (is_leap y) m + (d - 1).

Definition year_of_day (z : Z) : Z :=
  let y := 400 * (z + 719162) / 146097 + 1 in
  if z <? days_before_year y then y - 1 else if days_before_year (y + 1) <=? z then y + 1 else y.
Definition month_of_day (leap : bool) (doy : Z) : Z :=
  default 12 (List.find (λ m, doy <? days_before_month leap (m + 1)) [1; 2; 3; 4; 5; 6; 7; 8; 9; 10; 11]).
Definition civil (z : Z) : Z * Z * Z :=
  let y := year_of_day z in
  let doy := z - days_before_year y in
  let m := month_of_day (is_leap y) doy in
  (y, m, doy - days_before_month (is_leap y) m + 1).

(** Sunday is 0. *)
Definition weekday (z : Z) : Z := (z + 4) mod 7.

(** *** The two conversions are inverse *)

Lemma days_before_year_succ y : days_before_year (y + 1) = days_before_year y + year_days y.
Proof.
  unfold days_before_year, year_days, is_leap. replace (y + 1 - 1) with y by lia.
  destruct (Z.eqb_spec (y mod 4) 0), (Z.eqb_spec (y mod 100) 0), (Z.eqb_spec (y mod 400) 0); cbn;
    Z.div_mod_to_equations; lia.
Qed.

Lemma days_before_year_mono y y' : y ≤ y' → days_before_year y ≤ days_before_year y'.
Proof. unfold days_before_year. intros. Z.div_mod_to_equations. lia. Qed.

Lemma year_days_bounds y : 365 ≤ year_days y ≤ 366.
Proof. unfold year_days. destruct (is_leap y); lia. Qed.

Lemma year_of_day_spec z : days_before_year (year_of_day z) ≤ z < days_before_year (year_of_day z + 1).
Proof.
  unfold year_of_day. set (y := 400 * (z + 719162) / 146097 + 1).
  assert (days_before_year (y - 1) ≤ z < days_before_year (y + 1 + 1)) as Hb.
  { unfold days_before_year, y. Z.div_mod_to_equations. lia. }
  destruct (Z.ltb_spec z (days_before_year y)); [replace (y - 1 + 1) with y by lia; lia|].
  destruct (Z.leb_spec (days_before_year (y + 1)) z); lia.
Qed.

Lemma year_of_day_unique z y : days_before_year y ≤ z < days_before_year (y + 1) → year_of_day z = y.
Proof.
  intros Hz. pose proof (year_of_day_spec z) as Hs. destruct (Z.lt_trichotomy (year_of_day z) y) as [Hlt|[?|Hlt]]; [|done|].
  - pose proof (days_before_year_mono (year_of_day z + 1) y). lia.
  - pose proof (days_before_year_mono (y + 1) (year_of_day z)). lia.
Qed.

Lemma month_cases m : 1 ≤ m ≤ 12 → m ∈ [1; 2; 3; 4; 5; 6; 7; 8; 9; 10; 11; 12].
Proof.
  intros Hm. rewrite !elem_of_cons, elem_of_nil. lia.
Qed.

Ltac month_case m Hm :=
  let H := fresh in
  pose proof (month_cases m Hm) as H; rewrite !elem_of_cons, elem_of_nil in H; clear Hm;
  repeat (destruct H as [H|H]; [subst m|]); [..|by destruct H].

Lemma days_before_month_succ leap m : 1 ≤ m ≤ 12 →
  days_before_month leap (m + 1) = days_before_month leap m + month_days leap m.
Proof. intros Hm. month_case m Hm; by destruct leap. Qed.

Lemma days_before_month_range (leap : bool) m : 1 ≤ m ≤ 12 →
  0 ≤ days_before_month leap m ∧ days_before_month leap (m + 1) ≤ 365 + (if leap then 1 else 0).
Proof. intros Hm. month_case m Hm; destruct leap; vm_compute; split; congruence. Qed.

Lemma month_days_bounds leap m : 28 ≤ month_days leap m ≤ 31.
Proof. unfold month_days. repeat case_match; lia. Qed.

(** Evaluate the table at numerals. *)
Ltac is_numeral v := lazymatch v with Z0 => idtac | Zpos _ => idtac | Zneg _ => idtac end.
Ltac eval_months :=
  repeat match goal with
  | |- context [days_before_month ?l ?m] =>
      let v := eval vm_compute in (days_before_month l m) in is_numeral v; change (days_before_month l m) with v
  | H : context [days_before_month ?l ?m] |- _ =>
      let v := eval vm_compute in (days_before_month l m) in is_numeral v;
      change (days_before_month l m) with v in H
  end.

Lemma month_of_day_unique leap m doy : 1 ≤ m ≤ 12 →
  days_before_month leap m ≤ doy < days_before_month leap (m + 1) → month_of_day leap doy = m.
Proof.
  intros Hm. month_case m Hm; destruct leap; intros Hdoy; unfold month_of_day; cbn [List.find]; eval_months;
    repeat (match goal with |- context [doy <? ?x] => destruct (Z.ltb_spec doy x) as [?|?] end;
      [first [reflexivity|exfalso; lia]|]);
    first [reflexivity|exfalso; lia].
Qed.

Lemma month_of_day_spec (leap : bool) doy : 0 ≤ doy < 365 + (if leap then 1 else 0) →
  1 ≤ month_of_day leap doy ≤ 12 ∧
  days_before_month leap (month_of_day leap doy) ≤ doy < days_before_month leap (month_of_day leap doy + 1).
Proof.
  intros Hdoy. unfold month_of_day. destruct leap; cbn [List.find]; eval_months;
    repeat (match goal with |- context [doy <? ?x] => destruct (Z.ltb_spec doy x) as [?|?] end;
      [cbn [default from_option id]; eval_months; lia|]);
    cbn [default from_option id]; eval_months; lia.
Qed.

(** A date is valid when its month and its day of the month exist. *)
Definition valid_date (y m d : Z) : Prop := 1 ≤ m ≤ 12 ∧ 1 ≤ d ≤ month_days (is_leap y) m.

Lemma civil_spec z y m d : civil z = (y, m, d) → valid_date y m d ∧ days_from_civil y m d = z.
Proof.
  unfold civil. intros [= <- <- <-]. set (y := year_of_day z).
  pose proof (year_of_day_spec z) as Hy. fold y in Hy. rewrite days_before_year_succ in Hy.
  assert (year_days y = 365 + (if is_leap y then 1 else 0)) as Hlen by (unfold year_days; by destruct (is_leap y)).
  destruct (month_of_day_spec (is_leap y) (z - days_before_year y)) as [Hm Hd]; [lia|].
  rewrite days_before_month_succ in Hd by done. unfold valid_date, days_from_civil. lia.
Qed.

Lemma civil_days y m d : valid_date y m d → civil (days_from_civil y m d) = (y, m, d).
Proof.
  intros [Hm Hd]. unfold civil, days_from_civil.
  pose proof (days_before_month_range (is_leap y) m Hm) as [H0 H1].
  pose proof (days_before_month_succ (is_leap y) m Hm) as Hsucc.
  assert (year_days y = 365 + (if is_leap y then 1 else 0)) as Hlen by (unfold year_days; by destruct (is_leap y)).
  assert (year_of_day (days_before_year y + days_before_month (is_leap y) m + (d - 1)) = y) as ->.
  { apply year_of_day_unique. rewrite days_before_year_succ. lia. }
  rewrite (month_of_day_unique (is_leap y) m) by lia. f_equal. lia.
Qed.

(** The first day of the next month. *)
Definition next_month (y m : Z) : Z * Z := if m =? 12 then (y + 1, 1) else (y, m + 1).

Lemma days_next_month y m : 1 ≤ m ≤ 12 →
  days_from_civil (next_month y m).1 (next_month y m).2 1 = days_from_civil y m 1 + month_days (is_leap y) m.
Proof.
  intros Hm. unfold next_month, days_from_civil. destruct (Z.eqb_spec m 12) as [->|]; cbn [fst snd].
  - rewrite days_before_year_succ. unfold year_days. destruct (is_leap y), (is_leap (y + 1)); eval_months;
      change (month_days true 12) with 31; change (month_days false 12) with 31; lia.
  - rewrite days_before_month_succ by done. lia.
Qed.

(** The days of a month are those between its first day and the next month's. *)
Lemma civil_in_month y m z : 1 ≤ m ≤ 12 →
  days_from_civil y m 1 ≤ z < days_from_civil y m 1 + month_days (is_leap y) m →
  (civil z).1 = (y, m).
Proof.
  intros Hm Hz. replace z with (days_from_civil y m (z - days_from_civil y m 1 + 1)) by (unfold days_from_civil; lia).
  rewrite civil_days; [done|]. split; [done|lia].
Qed.

(** ** Instants: nanoseconds since 1 January 1970, UTC *)

Abbreviation instant := Z.

Definition second_ns : Z := 1000000000.
Definition minute_ns : Z := 60 * second_ns.
Definition hour_ns : Z := 60 * minute_ns.
Definition day_ns : Z := 24 * hour_ns.

Definition day_of (t : instant) : Z := t / day_ns.
Definition Year (t : instant) : Z := (civil (day_of t)).1.1.
Definition Month (t : instant) : Z := (civil (day_of t)).1.2.
Definition Day (t : instant) : Z := (civil (day_of t)).2.
Definition Weekday (t : instant) : Z := weekday (day_of t).
Definition Hour (t : instant) : Z := t mod day_ns / hour_ns.
Definition Minute (t : instant) : Z := t mod hour_ns / minute_ns.

(** [time.Date]: months beyond the year and days beyond the month roll over. *)
Definition Date (y m d hour minute sec nsec : Z) : instant :=
  (days_from_civil (y + (m - 1) / 12) ((m - 1) mod 12 + 1) 1 + (d - 1)) * day_ns +
  hour * hour_ns + minute * minute_ns + sec * second_ns + nsec.

Definition AddDate (t : instant) (years months days : Z) : instant :=
  let '(y, m, d) := civil (day_of t) in Date (y + years) (m + months) (d + days) 0 0 0 (t mod day_ns).

(** [Truncate] rounds down to a multiple of [d] since the zero time, year 1. *)
Definition zero_time : instant := - 62135596800 * second_ns.
Definition Truncate (t : instant) (d : Z) : instant := t - (t - zero_time) mod d.

Definition UnixMilli (t : instant) : Z := t / 1000000.

Lemma Truncate_spec t d : 0 < d → zero_time mod d = 0 → Truncate t d = t / d * d.
Proof.
  intros Hd Hz. unfold Truncate. assert ((t - zero_time) mod d = t mod d) as ->.
  { rewrite Zminus_mod, Hz, Z.sub_0_r. by apply Z.mod_mod; lia. }
  pose proof (Z.div_mod t d ltac:(lia)). lia.
Qed.

(** The first instant of the next month. *)
Lemma Date_month y m : 1 ≤ m ≤ 12 → Date y m 1 0 0 0 0 = days_from_civil y m 1 * day_ns.
Proof. intros Hm. unfold Date. rewrite Z.div_small, Z.mod_small, !Z.add_0_r, Z.sub_add by lia. lia. Qed.

Lemma AddDate_month y m : 1 ≤ m ≤ 12 →
  AddDate (Date y m 1 0 0 0 0) 0 1 0 = days_from_civil (next_month y m).1 (next_month y m).2 1 * day_ns.
Proof.
  intros Hm. rewrite Date_month by done. unfold AddDate, day_of.
  rewrite Z.div_mul, Z.mod_mul by done.
  rewrite civil_days by (split; [done|pose proof (month_days_bounds (is_leap y) m); lia]).
  unfold Date, next_month. rewrite !Z.add_0_r. replace (m + 1 - 1) with m by lia.
  destruct (Z.eqb_spec m 12) as [->|]; cbn [fst snd].
  - change (12 / 12) with 1. change (12 mod 12 + 1) with 1. lia.
  - rewrite Z.div_small, Z.mod_small, !Z.add_0_r by lia. lia.
Qed.
