(* ===== verification/Cron.v ===== *)
(** The five-field cron expressions of schedule nodes (cron/cron.go, cron/heatmap.go
    [NextFires]). *)
From S2P Require Import Prelude GoStrings GoInt Calendar.
Local Open Scope Z_scope.

(** The Go maps [map[int]bool] of the fields are finite sets. *)
Record Schedule := mkSchedule
  { minute : gset Z; hour : gset Z; dayOfMonth : gset Z; month : gset Z; dayOfWeek : gset Z;
    domRestricted : bool; dowRestricted : bool }.

Record fieldSpec := mkSpec { spec_name : string; spec_min : Z; spec_max : Z }.
Definition minute_spec : fieldSpec := mkSpec "minute" 0 59.
Definition hour_spec : fieldSpec := mkSpec "hour" 0 23.
Definition dom_spec : fieldSpec := mkSpec "day-of-month" 1 31.
Definition month_spec : fieldSpec := mkSpec "month" 1 12.
Definition dow_spec : fieldSpec := mkSpec "day-of-week" 0 6.
Definition fieldSpecs : list fieldSpec := [minute_spec; hour_spec; dom_spec; month_spec; dow_spec].

(** ** Parsing *)

Section parse.
Context `{UnicodeTables}.

Definition parse_step (spec : fieldSpec) (part : string) : res string (string * Z) :=
  let '(before, after, ok) := Cut part "/" in
  if (ok : bool) then
    let bad := Err ("invalid cron step in " +:+ spec_name spec +:+ " field: " +:+ Quote part) in
    match Atoi after with
    | Some parsed => if parsed <? 1 then bad else Ok (before, parsed)
    | None => bad
    end
  else Ok (part, 1).

(** The bounds and whether the part is the wildcard. *)
Definition parse_range (spec : fieldSpec) (part rangePart : string) : res string (Z * Z * bool) :=
  if String.eqb rangePart "*" then Ok (spec_min spec, spec_max spec, true)
  else if Contains rangePart "-" then
    let '(a, b, _) := Cut rangePart "-" in
    let bad := Err ("invalid cron range in " +:+ spec_name spec +:+ " field: " +:+ Quote part) in
    match Atoi a, Atoi b with
    | Some a, Some b => if b <? a then bad else Ok (a, b, false)
    | _, _ => bad
    end
  else
    match Atoi rangePart with
    | Some value => Ok (value, value, false)
    | None => Err ("invalid cron value in " +:+ spec_name spec +:+ " field: " +:+ Quote part)
    end.

(** What one part of a field says: its bounds, its step, and whether it is a wildcard. *)
Definition parse_part (spec : fieldSpec) (part : string) : res string (Z * Z * Z * bool) :=
  let? (rangePart, step) := parse_step spec part in
  let? (low, high, star) := parse_range spec part rangePart in
  if (low <? spec_min spec) || (spec_max spec <? high) then
    Err (spec_name spec +:+ " field out of range " +:+ Itoa (spec_min spec) +:+ "-" +:+ Itoa (spec_max spec) +:+ ": " +:+
         Quote part)
  else Ok (low, high, step, star && negb (1 <? step)).

(** The loop [value += step] at the width of int. *)
Fixpoint fill_values (fuel : nat) (value high step : Z) (values : gset Z) : option (gset Z) :=
  if value <=? high then
    match fuel with
    | O => None
    | S f => fill_values f (wrap64 (value + step)) high step ({[value]} ∪ values)
    end
  else Some values.
Definition fill_fuel : nat := 256.

Fixpoint parse_parts (spec : fieldSpec) (parts : list string) (values : gset Z) (isWildcard : bool)
  : option (res string (gset Z * bool)) :=
  match parts with
  | [] => Some (Ok (values, isWildcard))
  | part :: rest =>
      match parse_part spec part with
      | Err e => Some (Err e)
      | Ok (low, high, step, star) =>
          match fill_values fill_fuel low high step values with
          | Some values => parse_parts spec rest values (isWildcard && star)
          | None => None
          end
      end
  end.

(** [None] is the exhaustion of the fuel. *)
Definition parseField (field : string) (spec : fieldSpec) : option (res string (gset Z * bool)) :=
  match parse_parts spec (Split field ",") ∅ true with
  | Some (Ok (values, isWildcard)) =>
      Some (if bool_decide (values = ∅) then Err ("empty " +:+ spec_name spec +:+ " field") else Ok (values, isWildcard))
  | r => r
  end.

Fixpoint parse_fields (fields : list string) (specs : list fieldSpec) : option (res string (list (gset Z * bool))) :=
  match fields, specs with
  | field :: fields, spec :: specs =>
      match parseField field spec with
      | None => None
      | Some (Err e) => Some (Err e)
      | Some (Ok one) =>
          match parse_fields fields specs with
          | Some (Ok rest) => Some (Ok (one :: rest))
          | r => r
          end
      end
  | _, _ => Some (Ok [])
  end.

Definition Parse (expression : string) : option (res string Schedule) :=
  let fields := Fields (TrimSpace expression) in
  if negb (length fields =? 5)%nat then
    Some (Err "cron expression must have 5 fields (minute hour day month weekday)")
  else
    match parse_fields fields fieldSpecs with
    | Some (Ok [m; h; dom; mon; dow]) =>
        Some (Ok (mkSchedule m.1 h.1 dom.1 mon.1 dow.1 (negb dom.2) (negb dow.2)))
    | Some (Err e) => Some (Err e)
    | _ => None
    end.
End parse.

(** ** The next firing *)

Definition in_set (s : gset Z) (v : Z) : bool := bool_decide (v ∈ s).

Definition matchesDay (s : Schedule) (t : instant) : bool :=
  let domMatch := in_set (dayOfMonth s) (Day t) in
  let dowMatch := in_set (dayOfWeek s) (Weekday t) in
  if domRestricted s && dowRestricted s then domMatch || dowMatch else domMatch && dowMatch.

(** One iteration of the search: the next candidate, or the answer ([None] when the
    limit is reached). *)
Definition next_step (s : Schedule) (limit t : instant) : instant + option instant :=
  if negb (t <? limit) then inr None
  else if negb (in_set (month s) (Month t)) then inl (AddDate (Date (Year t) (Month t) 1 0 0 0 0) 0 1 0)
  else if negb (matchesDay s t) then inl (Truncate t day_ns + day_ns)
  else if negb (in_set (hour s) (Hour t)) then inl (Truncate t hour_ns + hour_ns)
  else if negb (in_set (minute s) (Minute t)) then inl (t + minute_ns)
  else inr (Some t).

(** One candidate per minute up to the limit is enough. *)
Definition next_fuel (limit t : instant) : positive := Z.to_pos ((limit - t) / minute_ns + 2).

Definition Next (s : Schedule) (after : instant) : option (res string instant) :=
  let t := Truncate after minute_ns + minute_ns in
  let limit := AddDate after 4 0 0 in
  match loop_pos (next_step s limit) (next_fuel limit t) t with
  | inl _ => None
  | inr (Some t) => Some (Ok t)
  | inr None => Some (Err "cron expression never fires within 4 years")
  end.

Definition Validate `{UnicodeTables} (now : instant) (expression : string) : option (option string) :=
  match Parse expression with
  | Some (Ok schedule) =>
      match Next schedule now with
      | Some (Ok _) => Some None
      | Some (Err e) => Some (Some e)
      | None => None
      end
  | Some (Err e) => Some (Some e)
  | None => None
  end.

(** ** The preview of the next firings *)

Definition NextFiresCount : nat := 5.

Fixpoint fires_after (s : Schedule) (cursor : instant) (count : nat) {struct count} : option (list instant) :=
  match count with
  | O => Some []
  | S n =>
      match Next s cursor with
      | Some (Ok next) => cons next <$> fires_after s next n
      | Some (Err _) => Some []
      | None => None
      end
  end.

(** [None] is a nil slice when the expression does not parse. *)
Definition NextFires `{UnicodeTables} (expression : string) (from : instant) (count : Z)
  : option (option (list instant)) :=
  match Parse expression with
  | Some (Ok schedule) =>
      let count := if (count <=? 0) || (20 <? count) then NextFiresCount else Z.to_nat count in
      match fires_after schedule from count with Some fires => Some (Some fires) | None => None end
  | Some (Err _) => Some None
  | None => None
  end.
