(* ===== verification/CronFacts.v ===== *)
(** The cron parser denotes the sets its parts describe, and the search finds the first
    firing. *)
From Stdlib Require Import Sorted.
From S2P Require Import Prelude GoStrings GoInt Calendar Cron.
Local Open Scope Z_scope.

(** ** Instants that share a unit of time *)

Lemma day_pos : 0 < day_ns. Proof. done. Qed.
Lemma hour_pos : 0 < hour_ns. Proof. done. Qed.
Lemma minute_pos : 0 < minute_ns. Proof. done. Qed.

(** Between a truncation and the next unit the quotient does not change. *)
Lemma same_unit t u d : 0 < d → t ≤ u < (t / d + 1) * d → u / d = t / d.
Proof.
  intros Hd Hu. pose proof (Z.div_le_mono t u d Hd ltac:(lia)).
  assert (u / d < t / d + 1) by (apply Z.div_lt_upper_bound; lia). lia.
Qed.

Lemma Hour_unit t : Hour t = (t / hour_ns) mod 24.
Proof. unfold Hour, day_ns, hour_ns, minute_ns, second_ns. Z.div_mod_to_equations. lia. Qed.

Lemma next_unit t d : 0 < d → zero_time mod d = 0 → Truncate t d + d = (t / d + 1) * d.
Proof. intros. rewrite Truncate_spec by done. lia. Qed.

Lemma next_unit_after t d : 0 < d → t < (t / d + 1) * d.
Proof. intros Hd. pose proof (Z.mul_succ_div_gt t d Hd). lia. Qed.

(** Two multiples of the minute are a minute apart. *)
Lemma minute_gap t t' : t mod minute_ns = 0 → t' mod minute_ns = 0 → t < t' → t + minute_ns ≤ t'.
Proof.
  intros [a ->]%Z.mod_divide [b ->]%Z.mod_divide Hlt; [|done..]. pose proof minute_pos.
  assert (a < b) by (apply (Z.mul_lt_mono_pos_r minute_ns); lia).
  replace (a * minute_ns + minute_ns) with ((a + 1) * minute_ns) by lia. apply Z.mul_le_mono_nonneg_r; lia.
Qed.

(** ** The search *)

Section search.
Context (s : Schedule) (after : instant).
Abbreviation limit := (AddDate after 4 0 0).

(** The instants at which the schedule fires: whole minutes that match every field. *)
Definition cron_match (u : instant) : bool :=
  in_set (month s) (Month u) && matchesDay s u && in_set (hour s) (Hour u) && in_set (minute s) (Minute u).
Definition fires (u : instant) : Prop := u mod minute_ns = 0 ∧ cron_match u = true.

Record searching (t : instant) : Prop :=
  { search_after : after < t; search_minute : t mod minute_ns = 0;
    search_none : ∀ u, after < u < t → ¬ fires u }.

Definition found (r : option instant) : Prop :=
  match r with
  | Some t => after < t < limit ∧ fires t ∧ ∀ u, after < u < t → ¬ fires u
  | None => ∀ u, after < u < limit → ¬ fires u
  end.

Definition remaining (t : instant) : Z := Z.max 0 ((limit - t) / minute_ns + 1).

(** Skipping instants that do not fire keeps the search and shortens it. *)
Lemma searching_skip t t' : searching t → t < limit → t < t' → t' mod minute_ns = 0 →
  (∀ u, t ≤ u < t' → u mod minute_ns = 0 → cron_match u = false) →
  searching t' ∧ 0 ≤ remaining t' < remaining t.
Proof.
  intros [Ha Hm Hn] Hlim Htt Hm' Hskip. split.
  - split; [lia|done|]. intros u Hu [Hum Huc]. destruct (decide (u < t)); [by apply (Hn u ltac:(lia))|].
    rewrite Hskip in Huc; [done|lia|done].
  - split; [unfold remaining; lia|]. unfold remaining.
    pose proof (minute_gap t t' Hm Hm' Htt) as Hgap.
    assert ((limit - t') / minute_ns ≤ (limit - t) / minute_ns - 1) as Hle.
    { replace ((limit - t) / minute_ns - 1) with ((limit - t - minute_ns) / minute_ns).
      - apply Z.div_le_mono; [apply minute_pos|lia].
      - replace (limit - t - minute_ns) with (limit - t + (-1) * minute_ns) by lia.
        rewrite Z.div_add by done. lia. }
    assert (0 ≤ (limit - t) / minute_ns) by (apply Z.div_pos; [lia|apply minute_pos]). lia.
Qed.

Lemma unit_multiple q d : (minute_ns | d) → (q * d) mod minute_ns = 0.
Proof. intros [k ->]. rewrite Z.mul_assoc. by apply Z.mod_mul. Qed.

Lemma next_step_spec t : searching t →
  match next_step s limit t with
  | inl t' => searching t' ∧ 0 ≤ remaining t' < remaining t
  | inr r => found r
  end.
Proof.
  intros Hs. unfold next_step. destruct (Z.ltb_spec t limit) as [Hlim|Hlim]; cbn [negb].
  2:{ intros u Hu. apply (search_none _ Hs). lia. }
  destruct (in_set (month s) (Month t)) eqn:Hmonth; cbn [negb].
  2:{ destruct (civil (day_of t)) as [[y m] d] eqn:Hciv.
      assert (Year t = y ∧ Month t = m) as [-> Hm'] by (unfold Year, Month; by rewrite Hciv). rewrite Hm' in *.
      destruct (civil_spec _ _ _ _ Hciv) as [[Hm Hd] Hdays]. rewrite AddDate_month, days_next_month by done.
      set (first := days_from_civil y m 1) in *.
      assert (day_of t = first + (d - 1)) as Hday by (rewrite <-Hdays; unfold first, days_from_civil; lia).
      apply searching_skip; [done|done| |apply unit_multiple; by exists (24 * 60)|].
      - pose proof (next_unit_after t day_ns day_pos) as Hlt. fold (day_of t) in Hlt. pose proof day_pos. nia.
      - intros u Hu _. unfold cron_match. enough (Month u = m) as -> by (by rewrite Hmonth).
        unfold Month. rewrite (civil_in_month y m); [done|done|]. fold first. unfold day_of at 1 2.
        assert (day_of t ≤ day_of u) by (apply Z.div_le_mono; [apply day_pos|lia]).
        assert (day_of u < first + month_days (is_leap y) m)
          by (apply Z.div_lt_upper_bound; [apply day_pos|rewrite Z.mul_comm; lia]).
        fold (day_of u). lia. }
  destruct (matchesDay s t) eqn:Hmday; cbn [negb].
  2:{ rewrite next_unit by done. apply searching_skip; [done|done|by apply next_unit_after| |].
      - apply unit_multiple. by exists (24 * 60).
      - intros u Hu _. unfold cron_match. enough (matchesDay s u = false) as -> by (by rewrite andb_false_r).
        rewrite <-Hmday. unfold matchesDay, Day, Weekday, day_of. by rewrite (same_unit t u day_ns). }
  destruct (in_set (hour s) (Hour t)) eqn:Hh; cbn [negb].
  2:{ rewrite next_unit by done. apply searching_skip; [done|done|by apply next_unit_after| |].
      - apply unit_multiple. by exists 60.
      - intros u Hu _. unfold cron_match. enough (in_set (hour s) (Hour u) = false) as -> by (by rewrite andb_false_r).
        rewrite <-Hh. rewrite !Hour_unit. by rewrite (same_unit t u hour_ns). }
  pose proof (search_minute _ Hs) as Ht.
  destruct (in_set (minute s) (Minute t)) eqn:Hmin; cbn [negb].
  2:{ assert ((t + minute_ns) mod minute_ns = 0) as Hnext
        by (replace (t + minute_ns) with (t + 1 * minute_ns) by lia; by rewrite Z.mod_add).
      apply searching_skip; [done|done|pose proof minute_pos; lia|done|].
      intros u Hu Hum. assert (u = t) as ->.
      { destruct (decide (t < u)) as [Hlt|]; [|lia]. pose proof (minute_gap t u Ht Hum Hlt). lia. }
      unfold cron_match. by rewrite Hmin, andb_false_r. }
  split; [split; [apply (search_after _ Hs)|done]|]. split; [|apply (search_none _ Hs)].
  split; [done|]. unfold cron_match. by rewrite Hmonth, Hmday, Hh, Hmin.
Qed.

Lemma Next_spec : ∃ r, found r ∧ Next s after =
  Some match r with Some t => Ok t | None => Err "cron expression never fires within 4 years"%string end.
Proof.
  unfold Next. set (t := Truncate after minute_ns + minute_ns).
  destruct (loop_pos_stops (next_step s limit) searching found remaining next_step_spec (next_fuel limit t) t)
    as (r & -> & Hr).
  - unfold t. rewrite next_unit by done. split; [by apply next_unit_after|by apply Z.mod_mul|].
    intros u Hu [Hum _]. pose proof (minute_gap u _ Hum (Z.mod_mul (after / minute_ns + 1) minute_ns ltac:(done)) ltac:(lia)).
    pose proof (Z.mul_div_le after minute_ns minute_pos). lia.
  - unfold next_fuel, remaining. lia.
  - exists r. split; [done|]. by destruct r.
Qed.
End search.

(** ** The sets of the fields *)

Lemma fill_values_mono fuel value high step vs out :
  fill_values fuel value high step vs = Some out → vs ⊆ out.
Proof.
  revert value vs. induction fuel as [|f IH]; intros value vs; cbn;
    (destruct (value <=? high); [|by intros [= ->]]); [done|].
  intros H%IH. set_solver.
Qed.

(** While the sum does not wrap, the loop adds every [step]th value. *)
Lemma fill_values_small fuel value high step vs :
  0 ≤ value → high ≤ 59 → 1 ≤ step ≤ max_int64 - 59 → high - value < Z.of_nat fuel →
  ∃ out, fill_values fuel value high step vs = Some out ∧
    ∀ v, v ∈ out ↔ v ∈ vs ∨ value ≤ v ≤ high ∧ (v - value) mod step = 0.
Proof.
  intros Hv Hh Hs. revert value vs Hv. induction fuel as [|f IH]; intros value vs Hv Hf; cbn [fill_values].
  - rewrite (proj2 (Z.leb_gt value high)) by lia. exists vs. split; [done|]. intros v. split; [by left|].
    intros [?|[? _]]; [done|lia].
  - destruct (Z.leb_spec value high) as [Hle|Hgt].
    + rewrite wrap64_id by (unfold min_int64, max_int64 in *; lia).
      destruct (IH (value + step) ({[value]} ∪ vs)) as (out & -> & Hout); [lia..|]. exists out. split; [done|].
      intros v. rewrite Hout, elem_of_union, elem_of_singleton. split.
      * intros [[->|?]|[Hr Hm]]; [right|by left|right].
        { split; [lia|]. by rewrite Z.sub_diag. }
        { split; [lia|]. replace (v - value) with (v - (value + step) + 1 * step) by lia. rewrite Z.mod_add; [done|lia]. }
      * intros [?|[Hr Hm]]; [left; by right|]. destruct (decide (v = value)) as [->|Hne]; [left; by left|]. right.
        assert (step ≤ v - value) by (apply Z.mod_divide in Hm as [k Hk]; [|lia];
          assert (0 < k) by (apply (Z.mul_pos_cancel_r k step); lia); nia).
        split; [lia|]. replace (v - (value + step)) with (v - value + (-1) * step) by lia. rewrite Z.mod_add; [done|lia].
    + exists vs. split; [done|]. intros v. split; [by left|]. intros [?|[? _]]; [done|lia].
Qed.

(** A step near the largest int wraps and returns below the value, at most once for
    each value: the loop still ends. *)
Lemma fill_values_large fuel value high step vs :
  0 ≤ value ≤ 59 → 0 ≤ high ≤ 59 → max_int64 - 59 < step ≤ max_int64 → 2 * value + 4 ≤ Z.of_nat fuel →
  ∃ out, fill_values fuel value high step vs = Some out ∧ (value ≤ high → value ∈ out).
Proof.
  intros Hv Hh Hs. revert value vs Hv. induction fuel as [fuel IH] using lt_wf_ind. intros value vs Hv Hf.
  unfold max_int64 in *. destruct fuel as [|[|[|f]]]; try lia. cbn [fill_values].
  destruct (Z.leb_spec value high) as [Hle|]; [|exists vs; split; [done|lia]].
  assert (∀ out, {[value]} ∪ vs ⊆ out → value ≤ high → value ∈ out) as Hin by (intros out Ho _; set_solver).
  destruct (decide (value + step ≤ max_int64)) as [Hnw|Hw]; unfold max_int64 in *.
  { rewrite (wrap64_id (value + step)) by (unfold min_int64, max_int64; lia).
    rewrite (proj2 (Z.leb_gt (value + step) high)) by lia. eexists. split; [done|]. by apply Hin. }
  rewrite (wrap64_over (value + step)) by (unfold max_int64; lia).
  rewrite (proj2 (Z.leb_le (value + step - 2 ^ 64) high)) by lia.
  rewrite (wrap64_id (value + step - 2 ^ 64 + step)) by (unfold min_int64, max_int64; lia).
  set (value' := value + step - 2 ^ 64 + step).
  destruct (decide (0 ≤ value')) as [Hp|Hn].
  - destruct (IH (S f) ltac:(lia) value' ({[value + step - 2 ^ 64]} ∪ ({[value]} ∪ vs))) as (out & Hout & _);
      [unfold value' in *; lia..|]. cbn [fill_values] in Hout. exists out. split; [exact Hout|]. apply Hin.
    apply (fill_values_mono (S f) value' high step) in Hout. set_solver.
  - rewrite (proj2 (Z.leb_le value' high)) by lia. destruct f as [|f].
    + unfold value' in *. lia.
    + rewrite (wrap64_id (value' + step)) by (unfold value', min_int64, max_int64 in *; lia). cbn [fill_values].
      rewrite (proj2 (Z.leb_gt (value' + step) high)) by (unfold value' in *; lia). eexists. split; [done|].
      apply Hin. set_solver.
Qed.

Section field.
Context `{UnicodeTables} (spec : fieldSpec).
Context (Hspec : 0 ≤ spec_min spec ∧ spec_min spec ≤ spec_max spec ∧ spec_max spec ≤ 59).

(** What a part denotes. *)
Definition part_covers (part : string) (v : Z) : Prop :=
  ∃ low high step star, parse_part spec part = Ok (low, high, step, star) ∧ low ≤ v ≤ high ∧ (v - low) mod step = 0.
Definition part_ok (part : string) : Prop := ∃ r, parse_part spec part = Ok r.
Definition part_star (part : string) : bool :=
  match parse_part spec part with Ok (_, _, _, star) => star | Err _ => false end.
(** The step of a part cannot wrap the loop's counter. *)
Definition part_small (part : string) : Prop :=
  ∀ low high step star, parse_part spec part = Ok (low, high, step, star) → step ≤ max_int64 - 59.

Lemma parse_part_bounds part low high step star : parse_part spec part = Ok (low, high, step, star) →
  spec_min spec ≤ low ∧ low ≤ high ∧ high ≤ spec_max spec ∧ 1 ≤ step ≤ max_int64.
Proof.
  unfold parse_part. destruct (parse_step spec part) as [[rangePart step']|] eqn:Hstep; [|done]. cbn [res_bind].
  destruct (parse_range spec part rangePart) as [[[low' high'] star']|] eqn:Hrange; [|done]. cbn [res_bind].
  destruct (_ || _) eqn:Hb; [done|]. intros [= <- <- <- <-]. apply orb_false_iff in Hb. rewrite !Z.ltb_ge in Hb.
  assert (low' ≤ high').
  { unfold parse_range in Hrange. destruct (String.eqb rangePart "*"); [injection Hrange as <- <- _; lia|].
    destruct (Contains rangePart "-").
    - destruct (Cut rangePart "-") as [[a b] ?]. destruct (Atoi a) as [a'|], (Atoi b) as [b'|]; try done.
      destruct (Z.ltb_spec b' a'); [done|]. injection Hrange as <- <- _. lia.
    - destruct (Atoi rangePart); [injection Hrange as <- <- _; lia|done]. }
  assert (1 ≤ step' ≤ max_int64); [|lia]. unfold parse_step in Hstep.
  destruct (Cut part "/") as [[before after] [|]]; [|injection Hstep as _ <-; unfold max_int64; lia].
  destruct (Atoi after) as [p|] eqn:Hp; [|done]. destruct (Z.ltb_spec p 1); [done|]. injection Hstep as _ <-.
  apply Atoi_range in Hp. lia.
Qed.

(** The loop of one part. *)
Lemma fill_part part low high step star vs : parse_part spec part = Ok (low, high, step, star) →
  ∃ out, fill_values fill_fuel low high step vs = Some out ∧
    (∀ v, v ∈ vs ∨ part_covers part v → v ∈ out) ∧
    (part_small part → ∀ v, v ∈ out → v ∈ vs ∨ part_covers part v).
Proof.
  intros Hp. pose proof (parse_part_bounds _ _ _ _ _ Hp) as Hb.
  assert (∀ v, part_covers part v ↔ low ≤ v ≤ high ∧ (v - low) mod step = 0) as Hcov.
  { intros v. split; [|intros ?; by exists low, high, step, star].
    intros (l & h & st & sr & Heq & Hv). rewrite Hp in Heq. by injection Heq as <- <- <- <-. }
  unfold fill_fuel. destruct (decide (step ≤ max_int64 - 59)) as [Hs|Hs].
  - destruct (fill_values_small 256 low high step vs) as (out & Hout & Hin); [lia..|]. exists out. split; [exact Hout|].
    setoid_rewrite Hin. setoid_rewrite Hcov. tauto.
  - destruct (fill_values_large 256 low high step vs) as (out & Hout & Hin); [lia..|]. exists out. split; [exact Hout|].
    split.
    + intros v [Hv|[Hv Hm]%Hcov]; [by apply (fill_values_mono _ _ _ _ _ _ Hout)|].
      assert (v = low) as -> by (rewrite Z.mod_small in Hm by (unfold max_int64 in *; lia); lia). apply Hin. lia.
    + intros Hsmall. by specialize (Hsmall _ _ _ _ Hp).
Qed.

Lemma parse_parts_spec parts vs w :
  match parse_parts spec parts vs w with
  | None => False
  | Some (Err e) => ∃ part, part ∈ parts ∧ parse_part spec part = Err e
  | Some (Ok (out, w')) =>
      (∀ part, part ∈ parts → part_ok part) ∧ w' = w && forallb part_star parts ∧
      (∀ v, v ∈ vs ∨ (∃ part, part ∈ parts ∧ part_covers part v) → v ∈ out) ∧
      ((∀ part, part ∈ parts → part_small part) → ∀ v, v ∈ out → v ∈ vs ∨ ∃ part, part ∈ parts ∧ part_covers part v)
  end.
Proof.
  revert vs w. induction parts as [|part parts IH]; intros vs w; cbn [parse_parts].
  - split; [by intros part ?%elem_of_nil|]. split; [by rewrite andb_true_r|]. split; [|by left].
    intros v [?|(p & ?%elem_of_nil & _)]; done.
  - destruct (parse_part spec part) as [[[[low high] step] star]|e] eqn:Hp; [|exists part; split; [by left|done]].
    destruct (fill_part part low high step star vs Hp) as (vs' & -> & Hsup & Hsub).
    specialize (IH vs' (w && star)). destruct (parse_parts spec parts vs' (w && star)) as [[[out w']|e]|]; [| |done].
    + destruct IH as (Hok & -> & Hin & Hout). split.
      { intros p [->|?]%elem_of_cons; [by eexists|by apply Hok]. }
      split; [cbn [forallb]; unfold part_star at 2; rewrite Hp; by rewrite andb_assoc|]. split.
      * intros v [Hv|(p & [->|Hpin]%elem_of_cons & Hc)]; apply Hin; [left; apply Hsup; by left|left; apply Hsup; by right|].
        right. by exists p.
      * intros Hsmall v Hv. destruct (Hout ltac:(intros; apply Hsmall; by right) v Hv) as [Hv'|(p & Hpin & Hc)].
        -- destruct (Hsub ltac:(apply Hsmall; by left) v Hv') as [?|?]; [by left|right; exists part; split; [by left|done]].
        -- right. exists p. split; [by right|done].
    + destruct IH as (p & Hpin & Hpe). exists p. split; [by right|done].
Qed.

Lemma parseField_spec field : ∃ r, parseField field spec = Some r ∧
  match r with
  | Err e => ∃ part, part ∈ Split field "," ∧ parse_part spec part = Err e
  | Ok (values, isWildcard) =>
      (∀ part, part ∈ Split field "," → part_ok part) ∧ isWildcard = forallb part_star (Split field ",") ∧
      (∀ v, (∃ part, part ∈ Split field "," ∧ part_covers part v) → v ∈ values) ∧
      ((∀ part, part ∈ Split field "," → part_small part) →
       ∀ v, v ∈ values → ∃ part, part ∈ Split field "," ∧ part_covers part v)
  end.
Proof.
  unfold parseField. pose proof (parse_parts_spec (Split field ",") ∅ true) as Hp.
  destruct (parse_parts spec (Split field ",") ∅ true) as [[[values w]|e]|]; [| |done]; [|by eexists].
  destruct Hp as (Hok & Hw & Hin & Hout). eexists. split; [reflexivity|]. rewrite bool_decide_eq_false_2.
  - split; [done|]. split; [done|]. split; [intros v Hv; apply Hin; by right|].
    intros Hsmall v Hv. destruct (Hout Hsmall v Hv) as [Hv0|?]; [|done]. by apply not_elem_of_empty in Hv0.
  - intros ->. destruct (Split field ",") as [|part parts] eqn:Hsplit.
    + unfold Split in Hsplit. destruct (split_bytes "," (bytes field) []) eqn:Hs; [|done].
      by apply split_nonempty in Hs.
    + destruct (Hok part) as ([[[low high] step] star] & Hpart); [by left|].
      pose proof (parse_part_bounds _ _ _ _ _ Hpart). apply (not_elem_of_empty (C := gset Z) low), Hin. right.
      exists part. split; [by left|]. exists low, high, step, star. split; [done|]. split; [lia|]. by rewrite Z.sub_diag.
Qed.
End field.

Lemma fieldSpecs_range spec : spec ∈ fieldSpecs →
  0 ≤ spec_min spec ∧ spec_min spec ≤ spec_max spec ∧ spec_max spec ≤ 59.
Proof.
  unfold fieldSpecs. rewrite !elem_of_cons, elem_of_nil. intros [->|[->|[->|[->|[->|[]]]]]]; cbn; lia.
Qed.

Lemma parse_fields_total `{UnicodeTables} fields specs : (∀ spec, spec ∈ specs → spec ∈ fieldSpecs) →
  length fields = length specs → ∃ r, parse_fields fields specs = Some r ∧
  match r with Ok sets => length sets = length specs | Err _ => True end.
Proof.
  revert specs. induction fields as [|field fields IH]; intros [|spec specs] Hin Hlen; try done; [by exists (Ok [])|].
  cbn [parse_fields]. destruct (parseField_spec spec (fieldSpecs_range spec (Hin spec ltac:(by left))) field) as (r & -> & _).
  destruct r as [one|e]; [|by exists (Err e)].
  destruct (IH specs) as (r & -> & Hr); [intros; apply Hin; by right|by injection Hlen|].
  destruct r as [rest|e]; [|by exists (Err e)]. exists (Ok (one :: rest)). split; [done|]. cbn. by rewrite Hr.
Qed.

Lemma Parse_total `{UnicodeTables} expression : ∃ r, Parse expression = Some r.
Proof.
  unfold Parse. destruct (Nat.eqb_spec (length (Fields (TrimSpace expression))) 5) as [Hlen|]; [|by eexists].
  destruct (parse_fields_total (Fields (TrimSpace expression)) fieldSpecs) as (r & -> & Hr); [done|by rewrite Hlen|].
  destruct r as [sets|e]; [|by eexists]. cbn [negb].
  destruct sets as [|a [|b [|c [|d [|e [|f sets]]]]]]; try done. by eexists.
Qed.

Lemma fires_after_spec s cursor count : ∃ fs, fires_after s cursor count = Some fs ∧ (length fs ≤ count)%nat ∧
  StronglySorted Z.lt fs ∧ (∀ u, u ∈ fs → cursor < u ∧ fires s u) ∧
  (∀ u v, cursor < u → v ∈ fs → u ≤ v → fires s u → u ∈ fs).
Proof.
  revert cursor. induction count as [|n IH]; intros cursor; cbn [fires_after].
  { exists []. split; [done|]. split; [done|]. split; [constructor|]. split; [by intros u ?%elem_of_nil|].
    by intros u v _ ?%elem_of_nil. }
  destruct (Next_spec s cursor) as ([t|] & Hr & ->).
  - destruct Hr as ((Ht & _) & Hfire & Hleast).
    destruct (IH t) as (fs & -> & Hlen & Hsort & Hin & Hall). cbn [fmap option_fmap option_map].
    exists (t :: fs). split; [done|]. split; [cbn; lia|]. split.
    { constructor; [done|]. apply Forall_forall. intros u Hu. by apply Hin. }
    split.
    + intros u [->|Hu]%elem_of_cons; [by split|]. destruct (Hin u Hu). split; [lia|done].
    + intros u v Hu Hv Huv Hf. destruct (Z.lt_trichotomy u t) as [Hlt|[->|Hgt]]; [|by left|].
      * exfalso. by apply (Hleast u ltac:(lia)).
      * right. apply elem_of_cons in Hv as [->|Hv]; [lia|]. by apply (Hall u v).
  - exists []. split; [done|]. split; [cbn; lia|]. split; [constructor|]. split; [by intros u ?%elem_of_nil|].
    by intros u v _ ?%elem_of_nil.
Qed.

(** ** The properties *)

(** C39: The search for the next firing always ends. It returns the first whole
    minute after the given instant that matches every field, or an error exactly when
    none does before the date four years later: the jumps over months, days and hours
    skip no firing. *)
Theorem Next_least (s : Schedule) (after : instant) :
  (∃ t, Next s after = Some (Ok t) ∧ after < t < AddDate after 4 0 0 ∧ fires s t ∧
        ∀ u, after < u < t → ¬ fires s u) ∨
  (∃ e, Next s after = Some (Err e) ∧ ∀ u, after < u < AddDate after 4 0 0 → ¬ fires s u).
Proof.
  destruct (Next_spec s after) as ([t|] & Hr & Heq); rewrite Heq.
  - left. exists t. split; [reflexivity|]. exact Hr.
  - right. eexists. split; [reflexivity|]. exact Hr.
Qed.

(** Parsing a field always ends, also when the step wraps the loop's
    counter. A field is rejected only for one of its parts. An accepted field contains
    every value of the arithmetic progressions its parts describe and, when no step is
    within sixty of the largest int, nothing else; it counts as a wildcard exactly when
    every part is one. *)
Theorem parseField_correct `{UnicodeTables} (field : string) (spec : fieldSpec) :
  spec ∈ fieldSpecs →
  ∃ r, parseField field spec = Some r ∧
    match r with
    | Err e => ∃ part, part ∈ Split field "," ∧ parse_part spec part = Err e
    | Ok (values, isWildcard) =>
        isWildcard = forallb (part_star spec) (Split field ",") ∧
        (∀ v, (∃ part, part ∈ Split field "," ∧ part_covers spec part v) → v ∈ values) ∧
        ((∀ part, part ∈ Split field "," → part_small spec part) →
         ∀ v, v ∈ values → ∃ part, part ∈ Split field "," ∧ part_covers spec part v)
    end.
Proof.
  intros Hspec. destruct (parseField_spec spec (fieldSpecs_range spec Hspec) field) as (r & Heq & Hr).
  exists r. split; [exact Heq|]. destruct r as [[values w]|e]; [by destruct Hr|exact Hr].
Qed.

#[local] Instance all_printable : UnicodeTables := {| is_print := λ _, true |}.

Lemma parseField_correct_witness : ∃ r, parseField "*/15,7" minute_spec = Some r ∧
    match r with
    | Err e => ∃ part, part ∈ Split "*/15,7" "," ∧ parse_part minute_spec part = Err e
    | Ok (values, isWildcard) =>
        isWildcard = forallb (part_star minute_spec) (Split "*/15,7" ",") ∧
        (∀ v, (∃ part, part ∈ Split "*/15,7" "," ∧ part_covers minute_spec part v) → v ∈ values) ∧
        ((∀ part, part ∈ Split "*/15,7" "," → part_small minute_spec part) →
         ∀ v, v ∈ values → ∃ part, part ∈ Split "*/15,7" "," ∧ part_covers minute_spec part v)
    end.
Proof. apply (parseField_correct "*/15,7" minute_spec). by left. Defined.

(** The preview always answers. It is nil exactly for an expression that
    does not parse; otherwise it lists at most twenty firings after the start, strictly
    increasing and without a gap. *)
Theorem NextFires_correct `{UnicodeTables} (expression : string) (from : instant) (count : Z) :
  ∃ r, NextFires expression from count = Some r ∧
    match r with
    | None => ∃ e, Parse expression = Some (Err e)
    | Some fs => ∃ s, Parse expression = Some (Ok s) ∧ (length fs ≤ 20)%nat ∧ StronglySorted Z.lt fs ∧
        (∀ u, u ∈ fs → from < u ∧ fires s u) ∧
        ∀ u v, from < u → v ∈ fs → u ≤ v → fires s u → u ∈ fs
    end.
Proof.
  unfold NextFires. destruct (Parse_total expression) as ([s|e] & Hp); rewrite Hp.
  2:{ exists None. split; [done|]. by exists e. }
  set (n := if _ || _ then NextFiresCount else Z.to_nat count).
  assert (n ≤ 20)%nat as Hn.
  { unfold n. destruct (Z.leb_spec count 0), (Z.ltb_spec 20 count); cbn [orb]; unfold NextFiresCount; lia. }
  destruct (fires_after_spec s from n) as (fs & -> & Hlen & Hrest). exists (Some fs). split; [done|].
  exists s. split; [done|]. split; [lia|done].
Qed.

Definition leap_schedule : Schedule :=
  mkSchedule {[0]} {[0]} {[29]} {[2]} (list_to_set [0; 1; 2; 3; 4; 5; 6]) true false.

(** The bound of four years excludes its end. The schedule of the leap day
    has no next firing after one of its own firings, although it fires again exactly four
    years later, so its preview of five firings lists one. *)
Theorem leap_day_preview_stops :
  Parse "0 0 29 2 *" = Some (Ok leap_schedule) ∧
  NextFires "0 0 29 2 *" (Date 2026 1 1 0 0 0 0) 5 = Some (Some [Date 2028 2 29 0 0 0 0]) ∧
  (∃ e, Next leap_schedule (Date 2028 2 29 0 0 0 0) = Some (Err e)) ∧
  fires leap_schedule (Date 2032 2 29 0 0 0 0).
Proof.
  split; [by vm_compute|]. split; [by vm_compute|]. split; [|split; by vm_compute].
  eexists. by vm_compute.
Qed.

Definition wrapped_field : gset Z * bool :=
  match parseField "5-59/9223372036854775807" minute_spec with Some (Ok r) => r | _ => (∅, false) end.

(** A step close to the largest int wraps the counter of the loop: the field
    below describes minute 5 only, and its schedule also fires at the minutes 3 and 1. *)
Theorem huge_step_wraps : ∃ values isWildcard,
  parseField "5-59/9223372036854775807" minute_spec = Some (Ok (values, isWildcard)) ∧
  (∀ v, part_covers minute_spec "5-59/9223372036854775807" v ↔ v = 5) ∧ 3 ∈ values ∧ 1 ∈ values.
Proof.
  exists wrapped_field.1, wrapped_field.2. split; [by vm_compute|].
  split; [|split; apply (bool_decide_unpack _); by vm_compute].
  intros v. split.
  - intros (low & high & step & star & Hp & Hv). vm_compute in Hp. injection Hp as <- <- <- <-.
    destruct Hv as [Hv Hm]. rewrite Z.mod_small in Hm; lia.
  - intros ->. exists 5, 59, 9223372036854775807, false. split; [by vm_compute|]. split; [lia|done].
Qed.
