(* ===== verification/GoFloat.v ===== *)
(** Go's [float64]: IEEE 754 binary64 as the standard library's [SpecFloat],
    executable and free of axioms, with the [math] and [strconv] functions the
    runtime calls. *)
From Stdlib Require Export SpecFloat.
From S2P Require Import Prelude GoStrings.

Definition float64 : Type := spec_float.

Definition prec : Z := 53.
Definition emax : Z := 1024.

Definition f_add : float64 → float64 → float64 := SFadd prec emax.
Definition f_sub : float64 → float64 → float64 := SFsub prec emax.
Definition f_mul : float64 → float64 → float64 := SFmul prec emax.
Definition f_div : float64 → float64 → float64 := SFdiv prec emax.
(** The comparisons are false whenever an operand is NaN. *)
Definition f_eqb : float64 → float64 → bool := SFeqb.
Definition f_ltb : float64 → float64 → bool := SFltb.
Definition f_leb : float64 → float64 → bool := SFleb.

(** [float64(n)] for an integer, rounding to nearest even. *)
Definition f_of_Z (n : Z) : float64 := binary_normalize prec emax n 0 false.

Definition is_nan (f : float64) : bool := match f with S754_nan => true | _ => false end.
Definition is_inf (f : float64) : bool := match f with S754_infinity _ => true | _ => false end.
(** Neither NaN nor an infinity. *)
Definition is_finite (f : float64) : bool := negb (is_nan f) && negb (is_inf f).

(** The integer part of a finite float, towards zero, as an integer. *)
Definition trunc_Z (f : float64) : Z :=
  match f with
  | S754_finite s m e =>
      let n := if (0 <=? e)%Z then Z.shiftl (Zpos m) e else Z.shiftr (Zpos m) (- e) in
      if s then (- n)%Z else n
  | _ => 0%Z
  end.

(** [math.Trunc]: infinities and NaN are unchanged, the sign of zero is kept. *)
Definition Trunc (f : float64) : float64 :=
  match f with
  | S754_finite s _ _ => binary_normalize prec emax (trunc_Z f) 0 s
  | _ => f
  end.

(** [math.Min] and [math.Max]. *)
Definition f_sign (f : float64) : bool :=
  match f with
  | S754_zero s | S754_infinity s => s | S754_finite s _ _ => s | S754_nan => false
  end.
Definition f_zero (f : float64) : bool := match f with S754_zero _ => true | _ => false end.
Definition f_is_inf (sign : bool) (f : float64) : bool :=
  match f with S754_infinity s => Bool.eqb s sign | _ => false end.
Definition f_min (x y : float64) : float64 :=
  if f_is_inf true x || f_is_inf true y then S754_infinity true
  else if is_nan x || is_nan y then S754_nan
  else if f_zero x && f_zero y then (if f_sign x then x else y)
  else if f_ltb x y then x else y.
Definition f_max (x y : float64) : float64 :=
  if f_is_inf false x || f_is_inf false y then S754_infinity false
  else if is_nan x || is_nan y then S754_nan
  else if f_zero x && f_zero y then (if f_sign x then y else x)
  else if f_ltb y x then x else y.

(** [math.Floor]. *)
Definition Floor (f : float64) : float64 :=
  match f with
  | S754_finite true _ _ =>
      let t := trunc_Z f in
      let n := if f_eqb (Trunc f) f then t else (t - 1)%Z in
      binary_normalize prec emax n 0 true
  | S754_finite false _ _ => Trunc f
  | _ => f
  end.

(** The float nearest to [(-1)^neg * m * 10^e], for [m >= 0]: what
    [strconv.ParseFloat] returns, an infinity on overflow. *)
Definition read_decimal (prec emax : Z) (neg : bool) (m e : Z) : spec_float :=
  match m with
  | Zpos p =>
      if (0 <=? e)%Z then binary_normalize prec emax (if neg then - (Zpos p * 10 ^ e) else Zpos p * 10 ^ e)%Z 0 neg
      else match (10 ^ (- e))%Z with
           | Zpos d => SFdiv prec emax (S754_finite neg p 0) (S754_finite false d 0)
           | _ => S754_nan
           end
  | _ => S754_zero neg
  end.
Definition f_of_decimal : bool → Z → Z → float64 := read_decimal prec emax.

(** The same for a float32, as the float64 of the same value. *)
Definition widen (f : spec_float) : float64 :=
  match f with
  | S754_finite s m e => binary_normalize prec emax (if s then Zneg m else Zpos m) e s
  | _ => f
  end.
Definition f32_of_decimal (neg : bool) (m e : Z) : float64 := widen (read_decimal 24 128 neg m e).

(** A decimal literal of the form [d.ddd] as a constant of the source. *)
Notation "'f!' n" := (f_of_Z n) (at level 5, n at level 4) : go_scope.

Example f_of_decimal_tenth :
  f_of_decimal false 1 (-1) = S754_finite false 7205759403792794 (-56).
Proof. reflexivity. Qed.
Example f_of_decimal_big : f_of_decimal false 15 (-1) = f_div (f_of_Z 3) (f_of_Z 2).
Proof. reflexivity. Qed.

(** ** Comparison facts *)

Lemma f_eqb_sym x y : f_eqb x y = f_eqb y x.
Proof.
  unfold f_eqb, SFeqb, SFcompare.
  destruct x as [[]|[]| |sx mx e1], y as [[]|[]| |sy my e2]; try done;
    try (by destruct sx); try (by destruct sy).
  rewrite (Z.compare_antisym e1 e2).
  change (Pos.compare_cont Eq mx my) with (Pos.compare mx my).
  change (Pos.compare_cont Eq my mx) with (Pos.compare my mx).
  rewrite (Pos.compare_antisym mx my).
  by destruct sx, sy, (e1 ?= e2)%Z, (mx ?= my)%positive.
Qed.

Lemma f_eqb_refl x : is_nan x = false → f_eqb x x = true.
Proof.
  unfold f_eqb, SFeqb, SFcompare. destruct x as [s|s| |s m e]; try done; try (by destruct s).
  intros _. rewrite Z.compare_refl. change (Pos.compare_cont Eq m m) with (Pos.compare m m).
  rewrite Pos.compare_refl. by destruct s.
Qed.

Lemma f_eqb_nan_l x y : is_nan x = true → f_eqb x y = false.
Proof. by destruct x. Qed.

(** ** [strconv.FormatFloat]: the shortest decimal that reads back as the float *)

(** The positive rational [n/d] of a finite float's magnitude. *)
Definition ratio (m : positive) (e : Z) : Z * Z :=
  if (0 <=? e)%Z then (Z.shiftl (Zpos m) e, 1%Z) else (Zpos m, Z.shiftl 1 (- e)).

(** [x < 10^k] for [x = n/d]. *)
Definition below_pow10 (n d k : Z) : bool :=
  if (0 <=? k)%Z then (n <? d * 10 ^ k)%Z else (n * 10 ^ (- k) <? d)%Z.
(** The least [k] with [x < 10^k], searched upwards from an underestimate. *)
Fixpoint find_pow10 (fuel : nat) (n d k : Z) : Z :=
  match fuel with
  | 0 => k
  | S f => if below_pow10 n d k then k else find_pow10 f n d (k + 1)
  end.
Definition decimal_point (n d : Z) : Z :=
  find_pow10 6 n d (((Z.log2 n - Z.log2 d - 1) * 30103) / 100000 - 1).

(** The [p]-digit decimals around [x], with the tests that they read back as [f];
    the nearer one when both do. *)
Definition try_digits (read : Z → Z → float64) (f : float64) (n d dp p : Z) : option Z :=
  let s := (p - dp)%Z in
  let '(nn, dd) := if (0 <=? s)%Z then (n * 10 ^ s, d)%Z else (n, d * 10 ^ (- s))%Z in
  let q := (nn / dd)%Z in
  let r := (nn mod dd)%Z in
  let down := f_eqb (read q (- s)%Z) f in
  let up := f_eqb (read (q + 1)%Z (- s)%Z) f in
  if (r =? 0)%Z then Some q
  else if down && up then
    Some (match (2 * r ?= dd)%Z with
          | Lt => q | Gt => q + 1 | Eq => if Z.even q then q else q + 1 end)%Z
  else if down then Some q else if up then Some (q + 1)%Z else None.
Fixpoint shortest_from (read : Z → Z → float64) (fuel : nat) (f : float64) (n d dp p : Z) : Z * Z :=
  match fuel with
  | 0 => (0, 1)%Z
  | S fu => match try_digits read f n d dp p with
            | Some q => (q, p)
            | None => shortest_from read fu f n d dp (p + 1)
            end
  end.

(** The digits of a positive finite float and the position of its decimal
    point; 17 digits always read back. *)
Definition shortest (read : Z → Z → float64) (m : positive) (e : Z) : list ascii * Z :=
  let '(n, d) := ratio m e in
  let dp := decimal_point n d in
  let '(q, p) := shortest_from read 17 (S754_finite false m e) n d dp 1 in
  let ds := digits q in
  if (Z.of_nat (length ds) =? p)%Z then (ds, dp) else (take (Z.to_nat p) ds, dp + 1)%Z.

Definition zeros (n : Z) : list ascii := replicate (Z.to_nat n) (chr 48).

(** The format without exponent, and the one with it. *)
Definition format_f (ds : list ascii) (dp : Z) : list ascii :=
  let nd := Z.of_nat (length ds) in
  if (dp <=? 0)%Z then chr 48 :: chr 46 :: zeros (- dp) ++ ds
  else if (nd <=? dp)%Z then ds ++ zeros (dp - nd)
  else take (Z.to_nat dp) ds ++ chr 46 :: drop (Z.to_nat dp) ds.
Definition format_e (ds : list ascii) (dp : Z) : list ascii :=
  let x := (dp - 1)%Z in
  let xs := digits (Z.abs x) in
  take 1 ds ++ (if (1 <? length ds)%nat then chr 46 :: drop 1 ds else [])
    ++ [chr 101; (if (x <? 0)%Z then chr 45 else chr 43)]
    ++ (if (length xs <? 2)%nat then chr 48 :: xs else xs).

Inductive float_format := FmtF | FmtG.
(** [strconv.FormatFloat(f, fmt, -1, 64)]. *)
Definition FormatFloat (f : float64) (fmt : float_format) : string :=
  match f with
  | S754_nan => "NaN"
  | S754_infinity s => if s then "-Inf" else "+Inf"
  | S754_zero s => if s then "-0" else "0"
  | S754_finite s m e =>
      let '(ds, dp) := shortest (f_of_decimal false) m e in
      let body := match fmt with
                  | FmtF => format_f ds dp
                  | FmtG => if (dp - 1 <? -4)%Z || (6 <=? dp - 1)%Z then format_e ds dp else format_f ds dp
                  end in
      of_bytes (if s then chr 45 :: body else body)
  end%string.
