(* ===== verification/FloatFacts.v ===== *)
(** The order and the rounding of binary64 numbers, as integers in units of the least
    positive one. *)
From S2P Require Import Prelude GoFloat.
Local Open Scope Z_scope.

(** What an arithmetic operation or a decoder returns: the exponent is canonical. *)
Definition f_valid (f : float64) : bool := valid_binary prec emax f.

Definition unit_exp : Z := 1074.
Definition scaled (f : float64) : Z :=
  match f with
  | S754_finite s m e => let n := Zpos m * 2 ^ (e + unit_exp) in if s then - n else n
  | _ => 0
  end.

Lemma digits2_bounds m : 2 ^ (Zpos (digits2_pos m) - 1) ≤ Zpos m < 2 ^ Zpos (digits2_pos m).
Proof.
  induction m as [m IH|m IH|]; cbn [digits2_pos]; [| |done]; rewrite Pos2Z.inj_succ;
    replace (Z.succ (Zpos (digits2_pos m)) - 1) with (Z.succ (Zpos (digits2_pos m) - 1)) by lia;
    rewrite !Z.pow_succ_r by lia; lia.
Qed.

(** A valid mantissa is full, or the exponent is the least one. *)
Lemma valid_shape s m e : f_valid (S754_finite s m e) = true →
  - unit_exp ≤ e ≤ 971 ∧ 1 ≤ Zpos m < 2 ^ 53 ∧ (2 ^ 52 ≤ Zpos m ∨ e = - unit_exp).
Proof.
  unfold f_valid, valid_binary, bounded, canonical_mantissa, fexp, emin, prec, emax, unit_exp.
  rewrite andb_true_iff, Z.eqb_eq, Z.leb_le. intros [Hc He]. pose proof (digits2_bounds m) as [Hlo Hhi].
  set (d := Zpos (digits2_pos m)) in *. assert (1 ≤ d) by (unfold d; lia).
  assert (d ≤ 53) as Hd by lia. assert (2 ^ d ≤ 2 ^ 53) by (apply Z.pow_le_mono_r; lia).
  split; [lia|]. split; [lia|]. destruct (decide (d = 53)) as [Heq|Hne]; [|right; lia].
  left. rewrite Heq in Hlo. exact Hlo.
Qed.

(** Finite numbers of the same sign compare as their values. *)
Lemma compare_scaled m1 e1 m2 e2 :
  f_valid (S754_finite false m1 e1) = true → f_valid (S754_finite false m2 e2) = true →
  match Z.compare e1 e2 with Lt => Lt | Gt => Gt | Eq => Pos.compare_cont Eq m1 m2 end =
  Z.compare (scaled (S754_finite false m1 e1)) (scaled (S754_finite false m2 e2)).
Proof.
  intros H1%valid_shape H2%valid_shape. unfold scaled.
  assert (∀ m e m' e', - unit_exp ≤ e → e < e' → 1 ≤ Zpos m < 2 ^ 53 → (2 ^ 52 ≤ Zpos m' ∨ e' = - unit_exp) →
    Zpos m * 2 ^ (e + unit_exp) < Zpos m' * 2 ^ (e' + unit_exp)) as Hlt.
  { intros m e m' e' He Hee Hm [Hm'|?]; [|lia].
    replace (e' + unit_exp) with (e + unit_exp + 1 + (e' - e - 1)) by lia.
    rewrite (Z.pow_add_r 2 (e + unit_exp + 1)), (Z.pow_add_r 2 (e + unit_exp) 1) by lia.
    assert (0 < 2 ^ (e + unit_exp)) by (apply Z.pow_pos_nonneg; lia).
    assert (0 < 2 ^ (e' - e - 1)) by (apply Z.pow_pos_nonneg; lia). 
    change (2 ^ 53) with (2 ^ 52 * 2) in Hm. change (2 ^ 1) with 2.
    set (P := 2 ^ (e + unit_exp)) in *. set (D := 2 ^ (e' - e - 1)) in *.
    assert (Zpos m * P < Zpos m' * 2 * P) by (apply Z.mul_lt_mono_pos_r; lia).
    replace (Zpos m' * (P * 2 * D)) with (Zpos m' * 2 * P * D) by lia.
    assert (Zpos m' * 2 * P * 1 ≤ Zpos m' * 2 * P * D) by (apply Z.mul_le_mono_nonneg_l; lia). lia. }
  destruct (Z.compare_spec e1 e2) as [->|Hee|Hee].
  - change (Pos.compare_cont Eq m1 m2) with (Zpos m1 ?= Zpos m2). apply Zmult_compare_compat_r.
    apply Z.lt_gt, Z.pow_pos_nonneg; lia.
  - symmetry. apply Z.compare_lt_iff, Hlt; tauto.
  - symmetry. apply Z.compare_gt_iff, Hlt; tauto.
Qed.

Lemma SFcompare_scaled f g :
  f_valid f = true → f_valid g = true → is_finite f = true → is_finite g = true →
  SFcompare f g = Some (Z.compare (scaled f) (scaled g)).
Proof.
  assert (∀ m e, - unit_exp ≤ e → 0 < Zpos m * 2 ^ (e + unit_exp)) as Hpos.
  { intros m e He. apply Z.mul_pos_pos; [lia|]. apply Z.pow_pos_nonneg; lia. }
  destruct f as [s1|s1| |s1 m1 e1]; [|done|done|]; (destruct g as [s2|s2| |s2 m2 e2]; [|done|done|]); intros Hf Hg _ _.
  - done.
  - cbn [SFcompare]. pose proof (valid_shape _ _ _ Hg). pose proof (Hpos m2 e2). cbn [scaled]. f_equal. symmetry.
    destruct s2; [apply Z.compare_gt_iff|apply Z.compare_lt_iff]; lia.
  - cbn [SFcompare]. pose proof (valid_shape _ _ _ Hf). pose proof (Hpos m1 e1). cbn [scaled]. f_equal. symmetry.
    destruct s1; [apply Z.compare_lt_iff|apply Z.compare_gt_iff]; lia.
  - cbn [SFcompare]. f_equal. pose proof (valid_shape _ _ _ Hf). pose proof (valid_shape _ _ _ Hg).
    pose proof (Hpos m1 e1) as Hp1. pose proof (Hpos m2 e2) as Hp2.
    destruct s1, s2.
    + pose proof (compare_scaled m1 e1 m2 e2 Hf Hg) as Hc. cbn [scaled] in *.
      rewrite Z.compare_opp, (Z.compare_antisym (Zpos m1 * _) (Zpos m2 * _)), <-Hc. destruct (e1 ?= e2); done.
    + symmetry. apply Z.compare_lt_iff. cbn [scaled]. lia.
    + symmetry. apply Z.compare_gt_iff. cbn [scaled]. lia.
    + by apply compare_scaled.
Qed.

Lemma f_leb_scaled f g :
  f_valid f = true → f_valid g = true → is_finite f = true → is_finite g = true →
  f_leb f g = true ↔ scaled f ≤ scaled g.
Proof.
  intros Hf Hg Hff Hgf. unfold f_leb, SFleb. rewrite (SFcompare_scaled f g) by done.
  rewrite <-Z.leb_le. unfold Z.leb. by destruct (scaled f ?= scaled g).
Qed.

Lemma trunc_scaled f : f_valid f = true → trunc_Z f = Z.quot (scaled f) (2 ^ unit_exp).
Proof.
  destruct f as [s|s| |s m e]; try done. intros Hv. destruct (valid_shape _ _ _ Hv) as [He _]. unfold trunc_Z, scaled.
  assert ((if 0 <=? e then Z.shiftl (Zpos m) e else Z.shiftr (Zpos m) (- e)) =
          Z.quot (Zpos m * 2 ^ (e + unit_exp)) (2 ^ unit_exp)) as Hq.
  { rewrite Z.quot_div_nonneg by (first [apply Z.mul_nonneg_nonneg; [lia|apply Z.pow_nonneg; lia]|apply Z.pow_pos_nonneg; done]).
    destruct (Z.leb_spec 0 e).
    - rewrite Z.shiftl_mul_pow2, Z.pow_add_r, Z.mul_assoc, Z.div_mul by done. done.
    - rewrite Z.shiftr_div_pow2 by lia. replace (2 ^ unit_exp) with (2 ^ (- e) * 2 ^ (e + unit_exp)).
      + by rewrite Z.div_mul_cancel_r by (apply Z.pow_nonzero; unfold unit_exp in *; lia).
      + rewrite <-Z.pow_add_r by (unfold unit_exp in *; lia). f_equal. lia. }
  rewrite Hq. destruct s; [|done]. by rewrite Z.quot_opp_l by (apply Z.pow_nonzero; done).
Qed.

(** An integer that the conversion to binary64 keeps. *)
Definition exact_int (n : Z) : bool := f_valid (f_of_Z n) && is_finite (f_of_Z n) && (scaled (f_of_Z n) =? n * 2 ^ unit_exp).

Lemma trunc_bounds f lo hi : f_valid f = true → is_finite f = true → exact_int lo = true → exact_int hi = true →
  f_leb (f_of_Z lo) f = true → f_leb f (f_of_Z hi) = true → lo ≤ trunc_Z f ≤ hi.
Proof.
  unfold exact_int. rewrite !andb_true_iff, !Z.eqb_eq. intros Hv Hf [[Hlv Hlf] Hlo] [[Hhv Hhf] Hhi] H1 H2.
  apply f_leb_scaled in H1; [|done..]. apply f_leb_scaled in H2; [|done..]. rewrite Hlo in H1. rewrite Hhi in H2.
  rewrite trunc_scaled by done. assert (0 < 2 ^ unit_exp) as Hu by (by apply Z.pow_pos_nonneg).
  rewrite <-(Z.quot_mul lo (2 ^ unit_exp)), <-(Z.quot_mul hi (2 ^ unit_exp)) by lia.
  split; apply Z.quot_le_mono; lia.
Qed.

(** ** Products of finite numbers *)

Lemma shr_1_nonneg r : 0 ≤ shr_m r → 0 ≤ shr_m (shr_1 r).
Proof. destruct r as [[|[p|p|]|[p|p|]] r s]; cbn; lia. Qed.

Lemma iter_shr_nonneg p r : 0 ≤ shr_m r → 0 ≤ shr_m (iter_pos shr_1 p r).
Proof. revert r. induction p as [p IH|p IH|]; intros r Hr; cbn; auto using shr_1_nonneg. Qed.

Lemma shr_fexp_nonneg m e l : 0 ≤ m → 0 ≤ shr_m (shr_fexp prec emax m e l).1.
Proof.
  intros Hm. unfold shr_fexp, shr. assert (0 ≤ shr_m (shr_record_of_loc m l)) by (by destruct l as [|[]]).
  destruct (_ - e); [done|by apply iter_shr_nonneg|done].
Qed.

Lemma binary_round_aux_not_nan s m e l : 0 ≤ m → is_nan (binary_round_aux prec emax s m e l) = false.
Proof.
  intros Hm. unfold binary_round_aux. pose proof (shr_fexp_nonneg m e l Hm) as H1.
  destruct (shr_fexp prec emax m e l) as [r1 e1]. cbn [fst] in H1.
  assert (0 ≤ round_nearest_even (shr_m r1) (loc_of_shr_record r1)) as H2.
  { unfold round_nearest_even. destruct (loc_of_shr_record r1) as [|[]]; try lia. destruct (Z.even _); lia. }
  pose proof (shr_fexp_nonneg _ e1 loc_Exact H2) as H3.
  destruct (shr_fexp prec emax (round_nearest_even _ _) e1 loc_Exact) as [r2 e2]. cbn [fst] in H3.
  destruct (shr_m r2); [done| |lia]. by destruct (e2 <=? emax - prec).
Qed.

Lemma f_mul_not_nan f g : is_finite f = true → f_zero f = false → is_nan g = false → is_nan (f_mul f g) = false.
Proof.
  destruct f, g; try done. intros _ _ _. unfold f_mul, SFmul. by apply binary_round_aux_not_nan.
Qed.

Lemma binary_normalize_not_nan m e s : is_nan (binary_normalize prec emax m e s) = false.
Proof.
  destruct m; [done|..]; cbn [binary_normalize]; unfold binary_round; destruct (shl_align _ _ _); by apply binary_round_aux_not_nan.
Qed.

(** ** The minimum *)

Lemma f_leb_refl f : is_nan f = false → f_leb f f = true.
Proof.
  intros Hf. pose proof (f_eqb_refl f Hf) as H. unfold f_eqb, SFeqb, f_leb, SFleb in *.
  destruct (SFcompare f f) as [[]|]; done.
Qed.

Lemma f_ltb_leb f g : f_ltb f g = true → f_leb f g = true.
Proof. unfold f_ltb, SFltb, f_leb, SFleb. by destruct (SFcompare f g) as [[]|]. Qed.

(** The minimum with a positive finite number is at most that number. *)
Lemma f_min_r f g : is_nan f = false → is_finite g = true → f_zero g = false → f_leb (f_min f g) g = true.
Proof.
  intros Hf Hg Hz. unfold f_min.
  assert (is_nan g = false ∧ f_is_inf true g = false) as [Hgn Hgi] by (by destruct g).
  rewrite Hgi, orb_false_r, Hf, Hgn, Hz, andb_false_r. cbn [orb].
  destruct (f_is_inf true f) eqn:Hi; [by destruct g as [| | |]|]. destruct (f_ltb f g) eqn:Hlt; [by apply f_ltb_leb|].
  by apply f_leb_refl.
Qed.

Lemma f_leb_trans f g h : f_leb f g = true → f_leb g h = true → f_leb f h = true.
Proof.
  unfold f_leb, SFleb, SFcompare.
  destruct f as [|[]| |[] mf ef], g as [|[]| |[] mg eg], h as [|[]| |[] mh eh]; try done; try (by destruct s);
    change (Pos.compare_cont Eq) with Pos.compare; intros H1 H2;
    destruct (Z.compare_spec ef eg), (Z.compare_spec eg eh), (Z.compare_spec ef eh); try lia; try done; subst; try lia;
    revert H1 H2; destruct (Pos.compare_spec mf mg), (Pos.compare_spec mg mh), (Pos.compare_spec mf mh); cbn; try done; lia.
Qed.

Lemma f_leb_total f g : is_nan f = false → is_nan g = false → f_ltb f g = false → f_leb g f = true.
Proof.
  unfold f_leb, SFleb, f_ltb, SFltb, SFcompare.
  destruct f as [[]|[]| |[] mf ef], g as [[]|[]| |[] mg eg]; try done;
    change (Pos.compare_cont Eq) with Pos.compare; intros _ _;
    destruct (Z.compare_spec ef eg), (Z.compare_spec eg ef); try lia; try done;
    destruct (Pos.compare_spec mf mg), (Pos.compare_spec mg mf); cbn; try done; lia.
Qed.

(** The minimum with a positive finite number is below both. *)
Lemma f_min_l f g : is_nan f = false → is_finite g = true → f_zero g = false → f_leb (f_min f g) f = true.
Proof.
  intros Hf Hg Hz. unfold f_min.
  assert (is_nan g = false ∧ f_is_inf true g = false) as [Hgn Hgi] by (by destruct g).
  rewrite Hgi, orb_false_r, Hf, Hgn, Hz, andb_false_r. cbn [orb].
  destruct (f_is_inf true f) eqn:Hi; [by destruct f as [|[]| |]|].
  destruct (f_ltb f g) eqn:Hlt; [by apply f_leb_refl|]. by apply f_leb_total.
Qed.
