(* ===== verification/GoAny.v ===== *)
(** The dynamic values of the runtime: Go's [any] as the code uses it, decoded
    JSON ([nil], [bool], [float64], [string], [[]any], [map[string]any]), the
    other numeric kinds and [[]string] that the type switches name, and the
    marker of an unresolved path. A [map[string]any] is a list of bindings with
    distinct keys ([wf_any]); its order is one iteration order of the map.
    At the end, the answer of a route (httpkit). *)
From S2P Require Import Prelude GoStrings GoFloat.

(** Go's integer types, for the type switches that list some of them. *)
Inductive int_kind :=
| KInt | KInt8 | KInt16 | KInt32 | KInt64
| KUint | KUint8 | KUint16 | KUint32 | KUint64 | KUintptr.

Inductive any : Type :=
| ANil
| AUndef
| ABool (b : bool)
| AF64 (f : float64)
| AF32 (f : float64)
| AInt (k : int_kind) (z : Z)
| AStr (s : string)
| AArr (l : list any)
| AStrs (l : list string)
| AObj (o : list (string * any)).

Abbreviation obj := (list (string * any)).

(** The induction principle with the hypothesis on every element and binding. *)
Section any_ind.
Variable P : any → Prop.
Hypothesis (Hnil : P ANil) (Hundef : P AUndef) (Hbool : ∀ b, P (ABool b))
  (Hf64 : ∀ f, P (AF64 f)) (Hf32 : ∀ f, P (AF32 f)) (Hint : ∀ k z, P (AInt k z))
  (Hstr : ∀ s, P (AStr s)) (Harr : ∀ l, Forall P l → P (AArr l))
  (Hstrs : ∀ l, P (AStrs l)) (Hobj : ∀ o, Forall (λ kv, P kv.2) o → P (AObj o)).
Fixpoint any_ind' (v : any) : P v :=
  match v with
  | ANil => Hnil | AUndef => Hundef | ABool b => Hbool b
  | AF64 f => Hf64 f | AF32 f => Hf32 f | AInt k z => Hint k z | AStr s => Hstr s
  | AArr l => Harr l ((fix go l : Forall P l :=
      match l with [] => Forall_nil_2 _ | x :: l' => Forall_cons_2 _ _ _ (any_ind' x) (go l') end) l)
  | AStrs l => Hstrs l
  | AObj o => Hobj o ((fix go o : Forall (λ kv, P kv.2) o :=
      match o with
      | [] => Forall_nil_2 _
      | (k, x) :: o' => Forall_cons_2 _ (k, x) o' (any_ind' x) (go o')
      end) o)
  end.
End any_ind.

(** ** Maps *)

(** [m[key]] with its presence. *)
Fixpoint obj_get (o : obj) (key : string) : option any :=
  match o with
  | [] => None
  | (k, v) :: o' => if String.eqb k key then Some v else obj_get o' key
  end.
Definition keys (o : obj) : list string := map fst o.

(** [m[key]] alone: the zero value [nil] when the key is absent. *)
Definition obj_at (o : obj) (key : string) : any := default ANil (obj_get o key).
Definition has_key (o : obj) (key : string) : bool := bool_decide (is_Some (obj_get o key)).

(** [m[key] = v]. *)
Fixpoint obj_set (o : obj) (key : string) (v : any) : obj :=
  match o with
  | [] => [(key, v)]
  | (k, w) :: o' => if String.eqb k key then (k, v) :: o' else (k, w) :: obj_set o' key v
  end.

Lemma obj_get_set o k v k' :
  obj_get (obj_set o k v) k' = if String.eqb k k' then Some v else obj_get o k'.
Proof.
  induction o as [|[k0 v0] o IH]; simpl; [done|].
  destruct (String.eqb_spec k0 k) as [->|Hne]; simpl.
  - by destruct (String.eqb k k').
  - rewrite IH. destruct (String.eqb_spec k0 k') as [->|]; [|done].
    destruct (String.eqb_spec k k') as [->|]; done.
Qed.

Lemma obj_get_elem o k v : obj_get o k = Some v → (k, v) ∈ o.
Proof.
  induction o as [|[k0 v0] o IH]; simpl; [done|].
  destruct (String.eqb_spec k0 k) as [->|]; intros ?; simplify_eq; set_solver.
Qed.
Lemma elem_obj_get o k v : NoDup (keys o) → (k, v) ∈ o → obj_get o k = Some v.
Proof.
  induction o as [|[k0 v0] o IH]; simpl; intros Hnd Hin; [by apply elem_of_nil in Hin|].
  inversion Hnd as [|? ? Hnotin Hnd']; subst. apply elem_of_cons in Hin as [Heq|Hin].
  - simplify_eq. by rewrite String.eqb_refl.
  - destruct (String.eqb_spec k0 k) as [->|]; [|by apply IH].
    destruct Hnotin. apply list_elem_of_In, in_map_iff. exists (k, v). split; [done|].
    by apply list_elem_of_In.
Qed.
Lemma obj_get_None o k : obj_get o k = None ↔ k ∉ keys o.
Proof.
  induction o as [|[k0 v0] o IH]; simpl; [set_solver|].
  destruct (String.eqb_spec k0 k) as [->|Hne]; [set_solver|rewrite IH; set_solver].
Qed.
Lemma has_key_elem o k : has_key o k = true ↔ k ∈ keys o.
Proof.
  unfold has_key. rewrite bool_decide_eq_true. destruct (obj_get o k) eqn:E.
  - split; [intros _|by eauto]. destruct (decide (k ∈ keys o)) as [|Hn]; [done|].
    apply obj_get_None in Hn. congruence.
  - apply obj_get_None in E. split; [intros []; congruence|done].
Qed.

(** Every object inside a value binds each key once. *)
Inductive wf_any : any → Prop :=
| wf_nil : wf_any ANil
| wf_undef : wf_any AUndef
| wf_bool b : wf_any (ABool b)
| wf_f64 f : wf_any (AF64 f)
| wf_f32 f : wf_any (AF32 f)
| wf_int k z : wf_any (AInt k z)
| wf_str s : wf_any (AStr s)
| wf_arr l : Forall wf_any l → wf_any (AArr l)
| wf_strs l : wf_any (AStrs l)
| wf_obj o : NoDup (keys o) → Forall (λ kv, wf_any kv.2) o → wf_any (AObj o).

(** ** Type assertions *)

Definition as_string (v : any) : option string := match v with AStr s => Some s | _ => None end.
Definition as_bool (v : any) : option bool := match v with ABool b => Some b | _ => None end.
Definition as_f64 (v : any) : option float64 := match v with AF64 f => Some f | _ => None end.
Definition as_arr (v : any) : option (list any) := match v with AArr l => Some l | _ => None end.
Definition as_obj (v : any) : option obj := match v with AObj o => Some o | _ => None end.
(** [s, _ := v.(string)] and the like: the zero value when the assertion fails. *)
Definition string_or_zero (v : any) : string := default EmptyString (as_string v).
Definition bool_or_zero (v : any) : bool := default false (as_bool v).

(** ** [reflect.DeepEqual] on decoded values *)

Definition int_kind_eqb (a b : int_kind) : bool :=
  match a, b with
  | KInt, KInt | KInt8, KInt8 | KInt16, KInt16 | KInt32, KInt32 | KInt64, KInt64
  | KUint, KUint | KUint8, KUint8 | KUint16, KUint16 | KUint32, KUint32
  | KUint64, KUint64 | KUintptr, KUintptr => true
  | _, _ => false
  end.

Fixpoint deep_equal (x y : any) : bool :=
  match x, y with
  | ANil, ANil | AUndef, AUndef => true
  | ABool a, ABool b => Bool.eqb a b
  | AF64 a, AF64 b | AF32 a, AF32 b => f_eqb a b
  | AInt k a, AInt k' b => int_kind_eqb k k' && (a =? b)%Z
  | AStr a, AStr b => String.eqb a b
  | AArr l, AArr l' =>
      (fix go (l l' : list any) : bool :=
         match l, l' with
         | [], [] => true
         | a :: l, b :: l' => deep_equal a b && go l l'
         | _, _ => false
         end) l l'
  | AStrs l, AStrs l' => bool_decide (l = l')
  | AObj o, AObj o' =>
      (length o =? length o') &&
      forallb (λ kv, match obj_get o' kv.1 with Some w => deep_equal kv.2 w | None => false end) o
  | _, _ => false
  end.

Fixpoint deep_equal_list (l l' : list any) : bool :=
  match l, l' with
  | [], [] => true
  | a :: l, b :: l' => deep_equal a b && deep_equal_list l l'
  | _, _ => false
  end.
Lemma deep_equal_arr l l' : deep_equal (AArr l) (AArr l') = deep_equal_list l l'.
Proof. revert l'. induction l as [|a l IH]; intros [|b l']; done. Qed.

(** ** Sorting

    [sort.SliceStable] and [slices.Sort]: the stable sort for a strict order. *)
Section sort.
Context {A : Type} (less : A → A → bool).
Fixpoint insert_before (x : A) (l : list A) : list A :=
  match l with
  | [] => [x]
  | y :: l' => if less y x then y :: insert_before x l' else x :: l
  end.
Fixpoint stable_sort (l : list A) : list A :=
  match l with [] => [] | x :: l' => insert_before x (stable_sort l') end.

Lemma insert_before_perm x l : insert_before x l ≡ₚ x :: l.
Proof.
  induction l as [|y l IH]; simpl; [done|]. destruct (less y x); [|done].
  rewrite IH. constructor.
Qed.
Lemma stable_sort_perm l : stable_sort l ≡ₚ l.
Proof. induction l as [|x l IH]; simpl; [done|]. by rewrite insert_before_perm, IH. Qed.
Lemma elem_of_stable_sort l x : x ∈ stable_sort l ↔ x ∈ l.
Proof. by rewrite stable_sort_perm. Qed.
Lemma length_stable_sort l : length (stable_sort l) = length l.
Proof. by rewrite stable_sort_perm. Qed.

(** No element is less than one before it. *)
Inductive sorted_by : list A → Prop :=
| sorted_by_nil : sorted_by []
| sorted_by_cons x l : (∀ y, y ∈ l → less y x = false) → sorted_by l → sorted_by (x :: l).

Hypothesis less_asym : ∀ x y, less x y = true → less y x = false.
Hypothesis less_cotrans : ∀ x y z, less x z = true → less x y = true ∨ less y z = true.

Lemma insert_before_sorted x l : sorted_by l → sorted_by (insert_before x l).
Proof.
  induction 1 as [|y l Hy Hl IH]; simpl; [by constructor; [set_solver|constructor]|].
  destruct (less y x) eqn:E.
  - constructor; [|done]. intros z. rewrite insert_before_perm, elem_of_cons.
    intros [->|Hz]; [by apply less_asym|by apply Hy].
  - constructor; [|by constructor]. intros z Hz. apply elem_of_cons in Hz as [->|Hz]; [done|].
    destruct (less z x) eqn:Ezx; [|done].
    destruct (less_cotrans z y x Ezx) as [Hc|Hc]; [|congruence].
    rewrite (Hy z Hz) in Hc. done.
Qed.
Lemma stable_sort_sorted l : sorted_by (stable_sort l).
Proof. induction l; simpl; [constructor|]. by apply insert_before_sorted. Qed.
End sort.

(** [slices.Sort] on strings: byte order. *)
Definition string_less (a b : string) : bool := String.ltb a b.
Definition sort_strings : list string → list string := stable_sort string_less.
(** [slices.Sorted(maps.Keys(m))]. *)
Definition sorted_keys (o : obj) : list string := sort_strings (keys o).

Lemma elem_of_sort_strings l s : s ∈ sort_strings l ↔ s ∈ l.
Proof. apply elem_of_stable_sort. Qed.

(** * Answers of a route *)

Section answer.
Local Open Scope string_scope.
Local Open Scope list_scope.
(** The answer of an operation; the zero value has the status 0 and no data. *)
Record opResult := mkResult { rs_status : Z; rs_code : string; rs_message : string; rs_data : any }.
Definition no_result : opResult := mkResult 0 "" "" ANil.
Definition opOK (data : any) : opResult := mkResult 200 "" "" data.
Definition PublicErrorStatus (code : string) (status : Z) : Z := if String.eqb code "internal_error" then 500 else status.
Definition opError (status : Z) (code message : string) : opResult :=
  mkResult (PublicErrorStatus code status) code (if String.eqb code "internal_error" then "Internal error" else message) ANil.
Definition internal : opResult := opError 500 "internal_error" "Internal error".
Definition succeeded (r : opResult) : bool :=
  negb (match rs_data r with ANil => true | _ => false end) || ((200 <=? rs_status r)%Z && (rs_status r <? 300)%Z && String.eqb (rs_code r) "").
(** The writers hand the status to net/http, which panics below 100 and above 999. *)
Definition written (r : opResult) : bool := (100 <=? rs_status r)%Z && (rs_status r <=? 999)%Z.

Definition textOrNull (t : option string) : any := match t with Some s => AStr s | None => ANil end.
End answer.
