(* ===== verification/Regex.v ===== *)
(** Regular expressions on bytes, for the anchored patterns the runtime passes
    to [regexp.MatchString]: a matcher by derivatives and its correctness with
    respect to the language of the expression. *)
From S2P Require Import Prelude GoStrings.

Inductive re : Type :=
| Void
| Eps
| Cls (p : ascii → bool)
| Cat (a b : re)
| Alt (a b : re)
| Star (a : re).

(** The language of an expression. *)
Inductive matches : re → list ascii → Prop :=
| m_eps : matches Eps []
| m_cls p c : p c = true → matches (Cls p) [c]
| m_cat a b l k : matches a l → matches b k → matches (Cat a b) (l ++ k)
| m_alt_l a b l : matches a l → matches (Alt a b) l
| m_alt_r a b l : matches b l → matches (Alt a b) l
| m_star_nil a : matches (Star a) []
| m_star_app a l k : matches a l → matches (Star a) k → matches (Star a) (l ++ k).

Fixpoint nullable (r : re) : bool :=
  match r with
  | Void | Cls _ => false
  | Eps | Star _ => true
  | Cat a b => nullable a && nullable b
  | Alt a b => nullable a || nullable b
  end.

(** Constructors that drop [Void] and [Eps], so derivatives stay small. *)
Definition cat (a b : re) : re :=
  match a, b with Void, _ | _, Void => Void | Eps, _ => b | _, _ => Cat a b end.
Definition alt (a b : re) : re :=
  match a, b with Void, _ => b | _, Void => a | _, _ => Alt a b end.

Fixpoint deriv (c : ascii) (r : re) : re :=
  match r with
  | Void | Eps => Void
  | Cls p => if p c then Eps else Void
  | Cat a b => if nullable a then alt (cat (deriv c a) b) (deriv c b) else cat (deriv c a) b
  | Alt a b => alt (deriv c a) (deriv c b)
  | Star a => cat (deriv c a) (Star a)
  end.

Fixpoint re_match (r : re) (l : list ascii) : bool :=
  match l with [] => nullable r | c :: l' => re_match (deriv c r) l' end.

(** [MatchString] of a pattern anchored at both ends. *)
Definition MatchString (r : re) (s : string) : bool := re_match r (bytes s).

(** Pattern combinators. *)
Definition Plus (r : re) : re := Cat r (Star r).
Definition Opt (r : re) : re := Alt Eps r.
Definition Chr (c : ascii) : re := Cls (Ascii.eqb c).
Fixpoint Lit_bytes (l : list ascii) : re :=
  match l with [] => Eps | c :: l' => Cat (Chr c) (Lit_bytes l') end.
Definition Lit (s : string) : re := Lit_bytes (bytes s).
Definition Digit : re := Cls is_digit.
Definition one_of (s : string) (c : ascii) : bool := existsb (Ascii.eqb c) (bytes s).

Lemma nullable_spec r : nullable r = true ↔ matches r [].
Proof.
  split.
  - induction r; simpl; intros; bool_split; try done; try by constructor.
    + apply (m_cat _ _ [] []); auto.
    + apply orb_true_iff in H as [?|?]; [apply m_alt_l|apply m_alt_r]; auto.
  - intros Hm. remember [] as l eqn:E. induction Hm; simplify_eq/=; try done.
    + apply app_eq_nil in E as [-> ->]. rewrite IHHm1, IHHm2; done.
    + by rewrite IHHm.
    + rewrite IHHm by done. apply orb_true_r.
Qed.

Lemma cat_spec a b l : matches (cat a b) l ↔ matches (Cat a b) l.
Proof.
  assert (∀ c k, matches (Cat Void c) k → False) as Hv1.
  { intros c k Hm. inversion Hm; subst. by inversion H1. }
  assert (∀ c k, matches (Cat c Void) k → False) as Hv2.
  { intros c k Hm. inversion Hm; subst. by inversion H3. }
  assert (∀ k, matches Void k → False) as Hv by (by intros k Hm; inversion Hm).
  assert (∀ c k, matches c k ↔ matches (Cat Eps c) k) as He.
  { intros c k. split; [intros; by apply (m_cat _ _ []); [constructor|]|].
    intros Hm. inversion Hm as [| |? ? ? ? H1 H2| | | |]; subst. by inversion H1. }
  destruct a, b; simpl; try done; try (split; intros Hm; exfalso; eauto; fail); apply He.
Qed.

Lemma alt_spec a b l : matches (alt a b) l ↔ matches (Alt a b) l.
Proof.
  assert (∀ c k, matches c k ↔ matches (Alt Void c) k) as Hv1.
  { intros c k. split; [by apply m_alt_r|]. intros Hm.
    inversion Hm as [| | |? ? ? H1|? ? ? H1| |]; subst; [by inversion H1|done]. }
  assert (∀ c k, matches c k ↔ matches (Alt c Void) k) as Hv2.
  { intros c k. split; [by apply m_alt_l|]. intros Hm.
    inversion Hm as [| | |? ? ? H1|? ? ? H1| |]; subst; [done|by inversion H1]. }
  destruct a, b; simpl; try done; try apply Hv1; apply Hv2.
Qed.

Lemma star_cons a c l :
  matches (Star a) (c :: l) → ∃ l1 l2, l = l1 ++ l2 ∧ matches a (c :: l1) ∧ matches (Star a) l2.
Proof.
  intros Hm. remember (Star a) as r eqn:Er. remember (c :: l) as k eqn:Ek.
  induction Hm as [| | | | | |a' l1 l2 H1 _ H2 IH2]; simplify_eq.
  destruct l1 as [|c' l1]; simplify_eq/=; [by apply IH2|]. by exists l1, l2.
Qed.

Lemma deriv_spec c r l : matches (deriv c r) l ↔ matches r (c :: l).
Proof.
  revert l. induction r as [| |p|a IHa b IHb|a IHa b IHb|a IHa]; intros l; simpl.
  - split; intros Hm; inversion Hm.
  - split; intros Hm; inversion Hm.
  - destruct (p c) eqn:E; split; intros Hm; inversion Hm; subst; [by constructor|constructor|congruence].
  - assert (matches (Cat (deriv c a) b) l → matches (Cat a b) (c :: l)) as Hl.
    { intros Hm. inversion Hm as [| |? ? l1 l2 H1 H2| | | |]; subst.
      apply (m_cat _ _ (c :: l1)); [by apply IHa|done]. }
    assert (matches (Cat a b) (c :: l) →
      matches (Cat (deriv c a) b) l ∨ (nullable a = true ∧ matches b (c :: l))) as Hr.
    { intros Hm. remember (c :: l) as k eqn:Ek. inversion Hm as [| |? ? l1 l2 H1 H2| | | |]; subst.
      destruct l1 as [|c' l1]; simplify_eq/=.
      - right. split; [by apply nullable_spec|done].
      - left. constructor; [by apply IHa|done]. }
    destruct (nullable a) eqn:En.
    + rewrite alt_spec. split.
      * intros Hm. inversion Hm as [| | |? ? ? H1|? ? ? H1| |]; subst.
        -- apply cat_spec in H1. auto.
        -- apply (m_cat _ _ [] (c :: l)); [by apply nullable_spec|by apply IHb].
      * intros Hm. destruct (Hr Hm) as [H1|[_ H1]].
        -- apply m_alt_l, cat_spec, H1.
        -- apply m_alt_r, IHb, H1.
    + rewrite cat_spec. split; [done|]. intros Hm. destruct (Hr Hm) as [|[]]; done.
  - rewrite alt_spec. split; intros Hm; inversion Hm as [| | |? ? ? H1|? ? ? H1| |]; subst.
    + apply m_alt_l, IHa, H1.
    + apply m_alt_r, IHb, H1.
    + apply m_alt_l, IHa, H1.
    + apply m_alt_r, IHb, H1.
  - rewrite cat_spec. split; intros Hm.
    + inversion Hm as [| |? ? l1 l2 H1 H2| | | |]; subst.
      apply (m_star_app _ (c :: l1)); [by apply IHa|done].
    + apply star_cons in Hm as (l1 & l2 & -> & H1 & H2). constructor; [by apply IHa|done].
Qed.

(** The matcher decides the language. *)
Lemma re_match_spec r l : re_match r l = true ↔ matches r l.
Proof.
  revert r. induction l as [|c l IH]; intros r; simpl; [apply nullable_spec|].
  by rewrite IH, deriv_spec.
Qed.
