(* ===== verification/JsValue.v ===== *)
(** internal/grammar/jsvalue.go: JavaScript value semantics over decoded JSON
    (undefined against null, truthiness, Number(), String(), equality and the
    UTF-16 string order). *)
From S2P Require Import Prelude GoStrings GoFloat GoAny Regex.

(** ** Definitions *)

Definition isUndefined (v : any) : bool := match v with AUndef => true | _ => false end.
Definition is_nil (v : any) : bool := match v with ANil => true | _ => false end.

Definition jsTruthy (v : any) : bool :=
  match v with
  | AUndef | ANil => false
  | ABool b => b
  | AF64 f => negb (f_eqb f (f! 0)) && negb (is_nan f)
  | AStr s => negb (String.eqb s "")
  | _ => true
  end.

Definition strictEquals (left right : any) : bool :=
  if isUndefined left || isUndefined right then isUndefined left && isUndefined right
  else match left with
  | ANil => is_nil right
  | ABool l => match right with ABool r => Bool.eqb l r | _ => false end
  | AF64 l => match right with AF64 r => f_eqb l r | _ => false end
  | AStr l => match right with AStr r => String.eqb l r | _ => false end
  | _ => false
  end.

Definition numbersEqual (a b : float64) : bool :=
  if is_nan a || is_nan b then false else f_eqb a b.

Definition boolToNumber (b : bool) : float64 := if b then f! 1 else f! 0.

(** [^[+-]?(\d+\.?\d*|\.\d+)([eE][+-]?\d+)?$] *)
Definition jsDecimalPattern : re :=
  Cat (Opt (Cls (one_of "+-")))
    (Cat (Alt (Cat (Plus Digit) (Cat (Opt (Chr ".")) (Star Digit)))
              (Cat (Chr ".") (Plus Digit)))
         (Opt (Cat (Cls (one_of "eE")) (Cat (Opt (Cls (one_of "+-"))) (Plus Digit))))).

(** The value of a digit in bases up to 16; [None] for another byte. *)
Definition radix_digit (c : ascii) : option Z :=
  if is_digit c then Some (digit_val c)
  else if in_range 97 102 c then Some (Z.of_nat (code c) - 87)%Z
  else if in_range 65 70 c then Some (Z.of_nat (code c) - 55)%Z
  else None.

(** [strconv.ParseUint(s, base, 64)]: no value on a foreign byte, on the empty
    string or beyond 64 bits. *)
Fixpoint parse_uint_loop (base acc : Z) (l : list ascii) : option Z :=
  match l with
  | [] => Some acc
  | c :: l' =>
      match radix_digit c with
      | Some d => if (d <? base)%Z
                  then (if (base * acc + d <? 2 ^ 64)%Z then parse_uint_loop base (base * acc + d) l' else None)
                  else None
      | None => None
      end
  end.
Definition ParseUint (l : list ascii) (base : Z) : option Z :=
  match l with [] => None | _ => parse_uint_loop base 0 l end.

(** The longest prefix of bytes that satisfy [p], and the rest. *)
Fixpoint span (p : ascii → bool) (l : list ascii) : list ascii * list ascii :=
  match l with
  | [] => ([], [])
  | c :: l' => if p c then let '(a, b) := span p l' in (c :: a, b) else ([], l)
  end.
Definition sign_of (l : list ascii) : bool * list ascii :=
  match l with
  | c :: l' => if Ascii.eqb c "-" then (true, l') else if Ascii.eqb c "+" then (false, l') else (false, l)
  | [] => (false, [])
  end.
(** [strconv.ParseFloat] on a numeral of [jsDecimalPattern]. *)
Definition parse_decimal (l : list ascii) : float64 :=
  let '(neg, l) := sign_of l in
  let '(ip, l) := span is_digit l in
  let '(fp, l) := match l with
                  | c :: l' => if Ascii.eqb c "." then span is_digit l' else ([], l)
                  | [] => ([], [])
                  end in
  let e := match l with
           | c :: l' => let '(eneg, l2) := sign_of l' in
                        let v := digits_val (span is_digit l2).1 in
                        if eneg then (- v)%Z else v
           | [] => 0%Z
           end in
  f_of_decimal neg (digits_val (ip ++ fp)) (e - Z.of_nat (length fp)).

Definition jsNumber (s : string) : float64 :=
  let t := TrimSpace s in
  if String.eqb t "" then f! 0
  else if String.eqb t "Infinity" || String.eqb t "+Infinity" then S754_infinity false
  else if String.eqb t "-Infinity" then S754_infinity true
  else
    let base := match bytes t with
                | z :: c :: _ :: _ =>
                    if Ascii.eqb z "0" then
                      if one_of "xX" c then 16%Z else if one_of "oO" c then 8%Z
                      else if one_of "bB" c then 2%Z else 0%Z
                    else 0%Z
                | _ => 0%Z
                end in
    if negb (base =? 0)%Z then
      match ParseUint (drop 2 (bytes t)) base with
      | Some n => f_of_Z n
      | None => S754_nan
      end
    else if negb (MatchString jsDecimalPattern t) then S754_nan
    else let n := parse_decimal (bytes t) in
         (* ParseFloat reports a range error on overflow. *)
         if is_inf n then S754_nan else n.

(** A boolean operand is first converted to a number. *)
Definition unbool (v : any) : any := match v with ABool b => AF64 (boolToNumber b) | _ => v end.
Definition nilish (v : any) : bool := is_nil v || isUndefined v.

Definition looseEquals (left right : any) : bool :=
  if nilish left || nilish right then nilish left && nilish right
  else match unbool left, unbool right with
  | AF64 l, AF64 r => f_eqb l r
  | AF64 l, AStr r => numbersEqual l (jsNumber r)
  | AStr l, AStr r => String.eqb l r
  | AStr l, AF64 r => numbersEqual (jsNumber l) r
  | _, _ => false
  end.

Definition two_21 : float64 := f_of_Z (10 ^ 21).

Definition jsString (v : any) : string :=
  match v with
  | AStr t => t
  | ABool t => if t then "true" else "false"
  | AF64 t =>
      if is_nan t then "NaN"
      else match t with
      | S754_infinity s => if s then "-Infinity" else "Infinity"
      | _ => if f_eqb t (Trunc t) && f_ltb (SFabs t) two_21
             then FormatFloat t FmtF else FormatFloat t FmtG
      end
  | _ => ""
  end%string.

Fixpoint compare_units (a b : list N) : Z :=
  match a, b with
  | x :: a', y :: b' => if (x =? y)%N then compare_units a' b'
                        else if (x <? y)%N then (-1)%Z else 1%Z
  | [], _ :: _ => (-1)%Z
  | _ :: _, [] => 1%Z
  | [], [] => 0%Z
  end.
Definition utf16Compare (a b : string) : Z :=
  compare_units (utf16_encode (runes a)) (utf16_encode (runes b)).

(** ** Concrete values *)

Example jsNumber_exp : jsNumber " 1.5e2 " = f! 150. Proof. reflexivity. Qed.
Example jsNumber_hex : jsNumber "0xFf" = f! 255. Proof. reflexivity. Qed.
Example jsNumber_gosyntax : jsNumber "0x1p3" = S754_nan. Proof. reflexivity. Qed.
Example jsNumber_inf : jsNumber "inf" = S754_nan. Proof. reflexivity. Qed.
Example jsNumber_range : jsNumber "1e400" = S754_nan. Proof. vm_compute. reflexivity. Qed.
Example jsString_int : jsString (AF64 (f! 1500)) = "1500"%string. Proof. reflexivity. Qed.
Example jsString_frac : jsString (AF64 (jsNumber "-0.25")) = "-0.25"%string. Proof. reflexivity. Qed.
Example loose_num_str : looseEquals (AF64 (f! 1)) (AStr "01") = true. Proof. reflexivity. Qed.
Example loose_bool_str : looseEquals (ABool true) (AStr "1") = true. Proof. reflexivity. Qed.

(** ** Theorems *)

Lemma numbersEqual_sym a b : numbersEqual a b = numbersEqual b a.
Proof. unfold numbersEqual. rewrite orb_comm. destruct (_ || _); [done|]. apply f_eqb_sym. Qed.

(** Both equality operators of the expression language are symmetric, on
    every pair of values, undefined, null and NaN included. *)
Theorem equality_symmetric (a b : any) :
  strictEquals a b = strictEquals b a ∧ looseEquals a b = looseEquals b a.
Proof.
  split.
  - destruct a, b; simpl; try done; try apply f_eqb_sym; try apply String.eqb_sym.
    by destruct b0, b.
  - unfold looseEquals. rewrite (orb_comm (nilish a)), (andb_comm (nilish a)).
    destruct (nilish b || nilish a); [done|].
    destruct a, b; simpl; try done;
      try apply f_eqb_sym; try apply String.eqb_sym; try apply numbersEqual_sym.
Qed.

(** Strict equality refines loose equality: what [===] accepts, [==] accepts. *)
Theorem strict_implies_loose (a b : any) :
  strictEquals a b = true → looseEquals a b = true.
Proof.
  destruct a, b; simpl; try done.
  intros H. apply Bool.eqb_prop in H as ->. by destruct b.
Qed.

Lemma strict_implies_loose_witness :
  strictEquals (AStr "a") (AStr "a") = true ∧ looseEquals (AStr "a") (AStr "a") = true.
Proof. split; [reflexivity|]. apply (strict_implies_loose (AStr "a") (AStr "a")). reflexivity. Defined.
