(* ===== verification/Json.v ===== *)
(** [encoding/json] as the runtime uses it on dynamic values: [Marshal], and
    [Unmarshal] into an [any]. *)
From S2P Require Import Prelude GoStrings GoFloat GoAny.

(** ** Strings *)

Definition hex_digit (n : nat) : ascii := if n <? 10 then chr (48 + n) else chr (87 + n).

(** The escape of one byte below 128; the HTML characters are escaped too. *)
Definition escape_byte (c : ascii) : list ascii :=
  let b := code c in
  if (b =? 34) || (b =? 92) then [chr 92; c]
  else if b =? 8 then bytes "\b" else if b =? 12 then bytes "\f"
  else if b =? 10 then bytes "\n" else if b =? 13 then bytes "\r" else if b =? 9 then bytes "\t"
  else if (b <? 32) || (b =? 60) || (b =? 62) || (b =? 38)
  then bytes "\u00" ++ [hex_digit (b / 16); hex_digit (b mod 16)]
  else [c].

(** The body of a string literal: invalid UTF-8 becomes the replacement
    character, U+2028 and U+2029 are escaped. *)
Fixpoint escape_bytes (fuel : nat) (l : list ascii) : list ascii :=
  match fuel, l with
  | S f, c :: l' =>
      if code c <? 128 then escape_byte c ++ escape_bytes f l'
      else
        let '(r, rest) := decode_rune c l' in
        (if (length rest =? length l')%nat then bytes "\ufffd"
         else if (r =? 8232)%N then bytes "\u2028"
         else if (r =? 8233)%N then bytes "\u2029"
         else c :: take (length l' - length rest) l') ++ escape_bytes f rest
  | _, _ => []
  end.
Definition json_string (s : string) : list ascii :=
  chr 34 :: escape_bytes (len s) (bytes s) ++ [chr 34].

(** [Unmarshal] replaces invalid UTF-8 by the replacement character. *)
Definition replacement : list ascii := [chr 239; chr 191; chr 189].

(** ** Numbers *)

(** The two digits of an exponent below ten lose the leading zero. *)
Definition clean_exponent (l : list ascii) : list ascii :=
  match rev l with
  | d :: z :: s :: e :: r =>
      if Ascii.eqb z (chr 48) && Ascii.eqb e (chr 101) && (Ascii.eqb s (chr 45) || Ascii.eqb s (chr 43))
      then rev (d :: s :: e :: r) else l
  | _ => l
  end.

(** [None] for the NaN and infinities, which [Marshal] refuses. *)
Definition json_float (read : Z → Z → float64) (f : float64) : option (list ascii) :=
  match f with
  | S754_nan | S754_infinity _ => None
  | S754_zero s => Some (if s then bytes "-0" else bytes "0")
  | S754_finite s m e =>
      let '(ds, dp) := shortest read m e in
      let a := SFabs f in
      let body := if f_ltb a (f_of_decimal false 1 (-6)) || f_leb (f_of_Z (10 ^ 21)) a
                  then clean_exponent (format_e ds dp) else format_f ds dp in
      Some (if s then chr 45 :: body else body)
  end.

(** ** [json.Marshal] *)

Fixpoint join_bytes (l : list (list ascii)) : list ascii :=
  match l with
  | [] => []
  | [x] => x
  | x :: l' => x ++ chr 44 :: join_bytes l'
  end.
Definition json_array (l : list (list ascii)) : list ascii := chr 91 :: join_bytes l ++ [chr 93].
(** A map is written with its keys in byte order. *)
Definition json_object (l : list (string * list ascii)) : list ascii :=
  chr 123 :: join_bytes (map (λ kv, json_string kv.1 ++ chr 58 :: kv.2)
    (stable_sort (λ a b, string_less a.1 b.1) l)) ++ [chr 125].

Section all_some.
Context {A B : Type} (f : A → option B).
Fixpoint all_some (l : list A) : option (list B) :=
  match l with
  | [] => Some []
  | x :: l' => match f x, all_some l' with Some y, Some ys => Some (y :: ys) | _, _ => None end
  end.
End all_some.

(** [None] is an error. The marker of an unresolved path is an empty struct. *)
Fixpoint marshal (v : any) : option (list ascii) :=
  match v with
  | ANil => Some (bytes "null")
  | AUndef => Some (bytes "{}")
  | ABool b => Some (bytes (if b then "true" else "false")%string)
  | AF64 f => json_float (f_of_decimal false) f
  | AF32 f => json_float (f32_of_decimal false) f
  | AInt _ z => Some (bytes (Itoa z))
  | AStr s => Some (json_string s)
  | AArr l => json_array <$> all_some marshal l
  | AStrs l => Some (json_array (map json_string l))
  | AObj o => json_object <$> all_some (λ kv, pair kv.1 <$> marshal kv.2) o
  end.
Definition Marshal (v : any) : option string := of_bytes <$> marshal v.

(** ** [json.Unmarshal] into an [any] *)

Definition is_json_space (c : ascii) : bool :=
  (code c =? 32) || (code c =? 9) || (code c =? 10) || (code c =? 13).
Fixpoint skip_space (l : list ascii) : list ascii :=
  match l with c :: l' => if is_json_space c then skip_space l' else l | [] => [] end.

Definition hex_val (c : ascii) : option N :=
  if is_digit c then Some (N.of_nat (code c - 48))
  else if in_range 97 102 c then Some (N.of_nat (code c - 87))
  else if in_range 65 70 c then Some (N.of_nat (code c - 55))
  else None.
Definition hex4_val (a b c d : ascii) : option N :=
  match hex_val a, hex_val b, hex_val c, hex_val d with
  | Some a, Some b, Some c, Some d => Some (((a * 16 + b) * 16 + c) * 16 + d)%N
  | _, _, _, _ => None
  end.

Definition utf8_encode (r : N) : list ascii :=
  let byte n := chr (N.to_nat n) in
  if (r <? 128)%N then [byte r]
  else if (r <? 2048)%N then [byte (192 + r / 64); byte (128 + r mod 64)]%N
  else if (r <? 65536)%N then
    [byte (224 + r / 4096); byte (128 + r / 64 mod 64); byte (128 + r mod 64)]%N
  else [byte (240 + r / 262144); byte (128 + r / 4096 mod 64); byte (128 + r / 64 mod 64);
        byte (128 + r mod 64)]%N.
Definition high_surrogate (r : N) : bool := (55296 <=? r)%N && (r <? 56320)%N.
Definition low_surrogate (r : N) : bool := (56320 <=? r)%N && (r <? 57344)%N.

Definition simple_escape (c : ascii) : option ascii :=
  let b := code c in
  if (b =? 34) || (b =? 92) || (b =? 47) then Some c
  else if b =? 98 then Some (chr 8) else if b =? 102 then Some (chr 12)
  else if b =? 110 then Some (chr 10) else if b =? 114 then Some (chr 13)
  else if b =? 116 then Some (chr 9) else None.

(** The body of a string literal up to its closing quote. A surrogate that is not
    half of a pair becomes the replacement character. *)
Fixpoint parse_string (fuel : nat) (l : list ascii) : option (list ascii * list ascii) :=
  match fuel, l with
  | S f, c :: l1 =>
      let emit out rest := match parse_string f rest with
                           | Some (s, r) => Some (out ++ s, r) | None => None end in
      if code c =? 34 then Some ([], l1)
      else if code c <? 32 then None
      else if code c =? 92 then
        match l1 with
        | e :: l2 =>
            match simple_escape e with
            | Some out => emit [out] l2
            | None =>
                if negb (code e =? 117) then None
                else match l2 with
                | x1 :: x2 :: x3 :: x4 :: l3 =>
                    match hex4_val x1 x2 x3 x4 with
                    | None => None
                    | Some r =>
                        if high_surrogate r then
                          match l3 with
                          | b1 :: u1 :: y1 :: y2 :: y3 :: y4 :: l4 =>
                              match (if (code b1 =? 92) && (code u1 =? 117) then hex4_val y1 y2 y3 y4 else None) with
                              | Some r' =>
                                  if low_surrogate r'
                                  then emit (utf8_encode (65536 + (r - 55296) * 1024 + (r' - 56320))%N) l4
                                  else emit replacement l3
                              | None => emit replacement l3
                              end
                          | _ => emit replacement l3
                          end
                        else if low_surrogate r then emit replacement l3
                        else emit (utf8_encode r) l3
                    end
                | _ => None
                end
            end
        | [] => None
        end
      else if code c <? 128 then emit [c] l1
      else
        let '(_, rest) := decode_rune c l1 in
        if (length rest =? length l1)%nat then emit replacement l1
        else emit (c :: take (length l1 - length rest) l1) rest
  | _, _ => None
  end.

Fixpoint digit_run (l : list ascii) : list ascii * list ascii :=
  match l with
  | c :: l' => if is_digit c then let '(a, b) := digit_run l' in (c :: a, b) else ([], l)
  | [] => ([], [])
  end.

(** A number literal; the value of an out-of-range one is an error. *)
Definition parse_number (l : list ascii) : option (float64 * list ascii) :=
  let '(neg, l1) := match l with c :: l' => if code c =? 45 then (true, l') else (false, l) | [] => (false, l) end in
  let '(int_, l2) := digit_run l1 in
  if match int_ with [] => true | z :: _ :: _ => code z =? 48 | _ => false end then None
  else
    let frac := match l2 with
                | c :: l' => if code c =? 46 then
                               let '(ds, r) := digit_run l' in
                               match ds with [] => None | _ => Some (ds, r) end
                             else Some ([], l2)
                | [] => Some ([], l2)
                end in
    match frac with
    | None => None
    | Some (fs, l3) =>
        let exp := match l3 with
                   | c :: l' => if (code c =? 101) || (code c =? 69) then
                       let '(sg, l'') := match l' with
                                         | d :: r => if code d =? 45 then ((-1)%Z, r)
                                                     else if code d =? 43 then (1%Z, r) else (1%Z, l')
                                         | [] => (1%Z, l')
                                         end in
                       let '(ds, r) := digit_run l'' in
                       match ds with [] => None | _ => Some ((sg * digits_val ds)%Z, r) end
                     else Some (0%Z, l3)
                   | [] => Some (0%Z, l3)
                   end in
        match exp with
        | None => None
        | Some (e, rest) =>
            let f := f_of_decimal neg (digits_val (int_ ++ fs)) (e - Z.of_nat (length fs)) in
            if is_finite f then Some (f, rest) else None
        end
    end.

Definition max_depth : nat := 10000.

(** One value, then the items after a [[] or members after a [{]. A later member
    of the same key replaces the earlier one. *)
Fixpoint parse_value (fuel depth : nat) (l : list ascii) : option (any * list ascii) :=
  match fuel with
  | 0 => None
  | S f =>
      let fix items (n : nat) (l : list ascii) : option (list any * list ascii) :=
        match n with
        | 0 => None
        | S n' =>
            match parse_value f (S depth) l with
            | None => None
            | Some (v, l1) =>
                match skip_space l1 with
                | c :: l2 =>
                    if code c =? 93 then Some ([v], l2)
                    else if code c =? 44 then
                      match items n' l2 with Some (vs, l3) => Some (v :: vs, l3) | None => None end
                    else None
                | [] => None
                end
            end
        end in
      let fix members (n : nat) (l : list ascii) (o : obj) : option (obj * list ascii) :=
        match n with
        | 0 => None
        | S n' =>
            match skip_space l with
            | q :: l1 =>
                if negb (code q =? 34) then None
                else match parse_string (length l1) l1 with
                | None => None
                | Some (k, l2) =>
                    match skip_space l2 with
                    | c :: l3 =>
                        if negb (code c =? 58) then None
                        else match parse_value f (S depth) l3 with
                        | None => None
                        | Some (v, l4) =>
                            let o' := obj_set o (of_bytes k) v in
                            match skip_space l4 with
                            | d :: l5 =>
                                if code d =? 125 then Some (o', l5)
                                else if code d =? 44 then members n' l5 o' else None
                            | [] => None
                            end
                        end
                    | [] => None
                    end
                end
            | [] => None
            end
        end in
      match skip_space l with
      | [] => None
      | c :: l1 =>
          if code c =? 34 then
            match parse_string (length l1) l1 with Some (s, r) => Some (AStr (of_bytes s), r) | None => None end
          else if code c =? 91 then
            if max_depth <? depth then None
            else match skip_space l1 with
            | d :: l2 => if code d =? 93 then Some (AArr [], l2)
                         else match items (S (length l1)) l1 with
                              | Some (vs, r) => Some (AArr vs, r) | None => None end
            | [] => None
            end
          else if code c =? 123 then
            if max_depth <? depth then None
            else match skip_space l1 with
            | d :: l2 => if code d =? 125 then Some (AObj [], l2)
                         else match members (S (length l1)) l1 [] with
                              | Some (o, r) => Some (AObj o, r) | None => None end
            | [] => None
            end
          else match strip_prefix (bytes "null") (c :: l1) with
          | Some r => Some (ANil, r)
          | None =>
          match strip_prefix (bytes "true") (c :: l1) with
          | Some r => Some (ABool true, r)
          | None =>
          match strip_prefix (bytes "false") (c :: l1) with
          | Some r => Some (ABool false, r)
          | None => match parse_number (c :: l1) with Some (x, r) => Some (AF64 x, r) | None => None end
          end end end
      end
  end.

(** [None] is an error; the whole text is one value. *)
Definition Unmarshal (s : string) : option any :=
  match parse_value (S (len s)) 1 (bytes s) with
  | Some (v, rest) => match skip_space rest with [] => Some v | _ => None end
  | None => None
  end.

Lemma all_some_Some {A B} (f : A → option B) l k :
  all_some f l = Some k ↔ Forall2 (λ x y, f x = Some y) l k.
Proof.
  revert k. induction l as [|x l IH]; intros k; cbn.
  - split; [by intros [= <-]|]. by inversion 1.
  - destruct (f x) as [y|] eqn:Hx.
    + destruct (all_some f l) as [ys|].
      * split.
        -- intros [= <-]. constructor; [done|]. by apply IH.
        -- inversion 1; subst. f_equal. f_equal; [congruence|].
           assert (Some ys = Some l') as [= ->] by (by apply IH). done.
      * split; [done|]. inversion 1; subst. assert (None = Some l') by (by apply IH). done.
    + split; [done|]. inversion 1; congruence.
Qed.

Example marshal_example :
  Marshal (AObj [("b", AArr [ANil; AF64 (f_of_decimal false 15 (-1))]); ("a", AStr "<x>")])
  = Some (of_bytes ([chr 123; chr 34] ++ bytes "a" ++ [chr 34] ++ bytes ":" ++ [chr 34]
      ++ bytes "\u003cx\u003e" ++ [chr 34] ++ bytes "," ++ [chr 34] ++ bytes "b" ++ [chr 34]
      ++ bytes ":[null,1.5]}")).
Proof. vm_compute. reflexivity. Qed.

Example unmarshal_example :
  (let v := AObj [("a", AArr [ANil; ABool true; AF64 (f_of_decimal true 15 (-1)); AStr "x<y"]);
                  ("b", AObj [])]%string in
   match Marshal v with Some t => Unmarshal t | None => None end = Some v).
Proof. vm_compute. reflexivity. Qed.
