(* ===== verification/Expression.v ===== *)
(** internal/grammar/expression.go: the limited expression language of
    condition nodes and edge conditions. The scanner's index loops are
    recursions on the bytes left to visit, and the recursive descent carries a
    fuel that [evaluate_terminates] shows never runs out. *)
From S2P Require Import Prelude GoStrings GoFloat GoAny Regex JsValue.

(** ** Scanning *)

Record Scope := mkScope { Context_ : any; Inputs : any }.

Definition is_quote (c : ascii) : bool := Ascii.eqb c (chr 34) || Ascii.eqb c (chr 39).
Definition isSpaceByte (c : ascii) : bool :=
  existsb (λ k, code c =? k) [32; 9; 10; 13; 12; 11].

(** The number of backslashes that end just before index [i]. *)
Fixpoint backslashes (bs : list ascii) (i : nat) : nat :=
  match i with
  | 0 => 0
  | S j => match bs !! j with
           | Some c => if Ascii.eqb c "\" then S (backslashes bs j) else 0
           | None => 0
           end
  end.
Definition isEscaped (bs : list ascii) (i : nat) : bool := Nat.odd (backslashes bs i).

(** [switch quote { case char: quote = 0; case 0: quote = char }]. *)
Definition toggle_quote (q : option ascii) (c : ascii) : option ascii :=
  match q with
  | Some d => if Ascii.eqb d c then None else Some d
  | None => Some c
  end.

(** The depth change of an opening or closing byte. *)
Definition depth_step (o c char : ascii) (d : Z) : Z :=
  (if Ascii.eqb char o then d + 1 else if Ascii.eqb char c then d - 1 else d)%Z.

Record scan := mkScan {
  s_parts : list string; s_paren : Z; s_bracket : Z; s_quote : option ascii; s_start : nat }.

(** [bs[i:i+len(op)] == op], within bounds. *)
Definition op_at (bs op : list ascii) (i : nat) : bool :=
  (i + length op <=? length bs) && bool_decide (slice_bytes bs i (i + length op) = op).

(** The loop of both splitters: [here i] is the test that an operator stands at
    [i], [ol] its length. *)
Fixpoint split_scan (fuel : nat) (bs : list ascii) (ol : nat) (here : nat → bool)
    (i : nat) (st : scan) : scan :=
  match fuel with
  | 0 => st
  | S f =>
      match bs !! i with
      | None => st
      | Some char =>
          if is_quote char && negb (isEscaped bs i) then
            split_scan f bs ol here (S i)
              (mkScan (s_parts st) (s_paren st) (s_bracket st) (toggle_quote (s_quote st) char) (s_start st))
          else match s_quote st with
          | Some _ => split_scan f bs ol here (S i) st
          | None =>
              let p := depth_step "(" ")" char (s_paren st) in
              let b := depth_step "[" "]" char (s_bracket st) in
              if (p =? 0)%Z && (b =? 0)%Z && here i then
                split_scan f bs ol here (i + ol)
                  (mkScan (s_parts st ++ [of_bytes (trim_space_bytes (slice_bytes bs (s_start st) i))])
                     p b None (i + ol))
              else split_scan f bs ol here (S i) (mkScan (s_parts st) p b None (s_start st))
          end
      end
  end.

Definition split_with (expression : string) (ol : nat) (here : nat → bool) : list string :=
  let bs := bytes expression in
  let st := split_scan (length bs) bs ol here 0 (mkScan [] 0 0 None 0) in
  match s_parts st with
  | [] => [TrimSpace expression]
  | parts => parts ++ [TrimSpace (slice_from expression (s_start st))]
  end.

Definition splitTopLevel (expression operator : string) : list string :=
  let bs := bytes expression in
  split_with expression (len operator) (op_at bs (bytes operator)).

Definition space_at (bs : list ascii) (i : nat) : bool :=
  match bs !! i with Some c => isSpaceByte c | None => false end.

Definition splitWordComparison (expression operator : string) : list string :=
  let bs := bytes expression in
  split_with expression (len operator) (λ i,
    (0 <? i) && (i + len operator <? length bs) && op_at bs (bytes operator) i
    && space_at bs (i - 1) && space_at bs (i + len operator)).

Fixpoint wraps_scan (fuel : nat) (bs : list ascii) (i : nat) (depth : Z) (quote : option ascii) : bool :=
  match fuel with
  | 0 => (depth =? 0)%Z
  | S f =>
      match bs !! i with
      | None => (depth =? 0)%Z
      | Some char =>
          if is_quote char && negb (isEscaped bs i) then
            wraps_scan f bs (S i) depth (toggle_quote quote char)
          else match quote with
          | Some _ => wraps_scan f bs (S i) depth quote
          | None =>
              let depth := depth_step "(" ")" char depth in
              if (depth =? 0)%Z && (i <? length bs - 1) then false
              else wraps_scan f bs (S i) depth None
          end
      end
  end.
Definition wrapsWholeExpression (expression : string) : bool :=
  let bs := bytes expression in wraps_scan (length bs) bs 0 0 None.

Fixpoint strip_parens_loop (fuel : nat) (current : string) : string :=
  match fuel with
  | 0 => current
  | S f =>
      if HasPrefix current "(" && HasSuffix current ")" && wrapsWholeExpression current
      then strip_parens_loop f (TrimSpace (slice current 1 (len current - 1)))
      else current
  end.
Definition stripOuterParens (expression : string) : string := strip_parens_loop (len expression) expression.

(** ** Reading values *)

(** [^(context|inputs)(\.[A-Za-z0-9_$-]+|\[\d+\])*$] *)
Definition safePathPattern : re :=
  Cat (Alt (Lit "context") (Lit "inputs"))
      (Star (Alt (Cat (Chr ".") (Plus (Cls (λ c, is_alnum c || one_of "_$-" c))))
                 (Cat (Chr "[") (Cat (Plus Digit) (Chr "]"))))).
(** [^-?\d+(\.\d+)?$] *)
Definition numberLiteralPattern : re :=
  Cat (Opt (Chr "-")) (Cat (Plus Digit) (Opt (Cat (Chr ".") (Plus Digit)))).

(** [pathIndexPattern.ReplaceAllString(path, ".$1")]: every bracketed index
    becomes a dotted segment. *)
Fixpoint replace_index (fuel : nat) (l : list ascii) : list ascii :=
  match fuel, l with
  | S f, c :: l' =>
      if Ascii.eqb c "[" then
        match span is_digit l' with
        | (d :: ds, e :: rest) =>
            if Ascii.eqb e "]" then "."%char :: (d :: ds) ++ replace_index f rest
            else c :: replace_index f l'
        | _ => c :: replace_index f l'
        end
      else c :: replace_index f l'
  | _, _ => []
  end.

Fixpoint parse_index_loop (n : Z) (rs : list N) : option Z :=
  match rs with
  | [] => Some n
  | c :: rs' =>
      if (c <? 48)%N || (57 <? c)%N then None
      else let n' := (n * 10 + (Z.of_N c - 48))%Z in
           if (2 ^ 30 <? n')%Z then None else parse_index_loop n' rs'
  end.
Definition parseIndex (key : string) : option Z :=
  if String.eqb key "" then None else parse_index_loop 0 (runes key).

Definition childValue (parent : any) (key : string) : any :=
  match parent with
  | AObj p => match obj_get p key with None => AUndef | Some v => v end
  | AArr p =>
      match parseIndex key with
      | None => AUndef
      | Some index =>
          if (index <? 0)%Z || (Z.of_nat (length p) <=? index)%Z then AUndef
          else default AUndef (p !! Z.to_nat index)
      end
  | _ => AUndef
  end.

Fixpoint walk_path (current : any) (segs : list string) : any :=
  match segs with
  | [] => current
  | key :: segs' =>
      let current := childValue current key in
      if isUndefined current then AUndef else walk_path current segs'
  end.

Definition getBySafePath (scope : Scope) (path : string) : any :=
  let normalized := of_bytes (replace_index (len path) (bytes path)) in
  match Split normalized "." with
  | root :: segs =>
      if String.eqb root "context" then walk_path (Context_ scope) segs
      else if String.eqb root "inputs" then walk_path (Inputs scope) segs
      else AUndef
  | [] => AUndef
  end.

Definition isQuoted (s : string) : bool :=
  (2 <=? len s) && ((HasPrefix s dq && HasSuffix s dq) || (HasPrefix s "'" && HasSuffix s "'")).

Definition unsupported (t : string) : res string any :=
  Err ("Unsupported expression token: " +:+ t)%string.

Definition readPrimitiveArrayItem (token : string) : res string any :=
  let trimmed := stripOuterParens (TrimSpace token) in
  if String.eqb trimmed "true" then Ok (ABool true)
  else if String.eqb trimmed "false" then Ok (ABool false)
  else if String.eqb trimmed "null" then Ok ANil
  else if MatchString numberLiteralPattern trimmed then Ok (AF64 (jsNumber trimmed))
  else if isQuoted trimmed then Ok (AStr (slice trimmed 1 (len trimmed - 1)))
  else unsupported trimmed.

Fixpoint read_items (items : list string) : res string (list any) :=
  match items with
  | [] => Ok []
  | item :: items' =>
      let? parsed := readPrimitiveArrayItem item in
      let? rest := read_items items' in Ok (parsed :: rest)
  end.

Definition readValue (token : string) (scope : Scope) : res string any :=
  let trimmed := stripOuterParens (TrimSpace token) in
  if String.eqb trimmed "" then Err "Expression value cannot be empty"%string
  else if String.eqb trimmed "true" then Ok (ABool true)
  else if String.eqb trimmed "false" then Ok (ABool false)
  else if String.eqb trimmed "null" then Ok ANil
  else if HasPrefix trimmed "[" && HasSuffix trimmed "]" then
    let inner := TrimSpace (slice trimmed 1 (len trimmed - 1)) in
    if String.eqb inner "" then Ok (AArr [])
    else let? out := read_items (splitTopLevel inner ",") in Ok (AArr out)
  else if MatchString numberLiteralPattern trimmed then Ok (AF64 (jsNumber trimmed))
  else if isQuoted trimmed then Ok (AStr (slice trimmed 1 (len trimmed - 1)))
  else if MatchString safePathPattern trimmed then Ok (getBySafePath scope trimmed)
  else unsupported trimmed.

(** ** Operators *)

Definition maxGlobPatternChars : Z := 256.
Definition maxGlobValueChars : Z := 16384.
(** [len(s) > bound]. *)
Definition longer (s : string) (bound : Z) : bool := (bound <? Z.of_nat (len s))%Z.

Definition is_number (v : any) : bool := match v with AF64 _ => true | _ => false end.
Definition is_string (v : any) : bool := match v with AStr _ => true | _ => false end.
(** The operand that did resolve, when one of the two is undefined. *)
Definition known_operand (left right : any) : any := if isUndefined left then right else left.

Definition coerceOrderedNumber (v : any) : float64 :=
  match v with AF64 t => t | AStr t => jsNumber t | _ => S754_nan end.

Definition ordered (operator : string) (comparison : float64) : any :=
  ABool (if String.eqb operator ">" then f_ltb (f! 0) comparison
         else if String.eqb operator "<" then f_ltb comparison (f! 0)
         else if String.eqb operator ">=" then f_leb (f! 0) comparison
         else f_leb comparison (f! 0)).

Definition compareOrdered (left right : any) (operator : string) (validateOnly : bool)
  : res string any :=
  let two_kinds : res string any :=
    Err ("Ordered comparison " +:+ operator +:+ " requires two numbers or two strings")%string in
  if isUndefined left || isUndefined right then
    let known := known_operand left right in
    if validateOnly && negb (isUndefined known) && negb (is_number known) && negb (is_string known)
    then two_kinds
    else Ok (ABool false)
  else match left, right with
  | AF64 l, AF64 r =>
      if negb (is_finite l) || negb (is_finite r) then
        if validateOnly
        then Err ("Ordered comparison " +:+ operator +:+ " requires finite numbers")%string
        else Ok (ABool false)
      else Ok (ordered operator (f_sub l r))
  | AStr l, AStr r => Ok (ordered operator (f_of_Z (utf16Compare l r)))
  | _, _ =>
      let l := coerceOrderedNumber left in
      let r := coerceOrderedNumber right in
      if negb (is_finite l) || negb (is_finite r) then
        if validateOnly then two_kinds else Ok (ABool false)
      else Ok (ordered operator (f_sub l r))
  end.

Definition containsValue (left right : any) (validateOnly : bool) : res string any :=
  if isUndefined left || isUndefined right then Ok (ABool false)
  else match left, right with
  | AStr l, AStr r => Ok (ABool (Contains l r))
  | AArr l, _ => Ok (ABool (existsb (λ item, strictEquals item right) l))
  | _, _ => if validateOnly then Err "contains requires a string or array on the left"%string
            else Ok (ABool false)
  end.

Definition startsWithValue (left right : any) (validateOnly : bool) : res string any :=
  let two_strings : res string any := Err "startsWith requires two strings"%string in
  if isUndefined left || isUndefined right then
    let known := known_operand left right in
    if validateOnly && negb (isUndefined known) && negb (is_string known)
    then two_strings else Ok (ABool false)
  else match left, right with
  | AStr l, AStr r => Ok (ABool (HasPrefix l r))
  | _, _ => if validateOnly then two_strings else Ok (ABool false)
  end.

Definition pattern_too_long : string := "matches pattern exceeds 256 characters".
Definition value_too_long : string := "matches value exceeds 16384 characters".

(** The state of the backtracking walk: the two cursors, and the last star with
    the value position its run ends at. *)
Record glob_state := mkGlob {
  valueIndex : nat; patternIndex : nat; starIndex : option nat; starValueIndex : nat }.

(** One iteration of the loop: the next state, or [None] for [return false]. *)
Definition glob_step (value pattern : list ascii) (st : glob_state) : option glob_state :=
  let '(mkGlob vi pi si sv) := st in
  let pc := pattern !! pi in
  let here := match pc with
              | Some c => Ascii.eqb c "?" || bool_decide (value !! vi = Some c)
              | None => false
              end in
  if here then Some (mkGlob (S vi) (S pi) si sv)
  else if match pc with Some c => Ascii.eqb c "*" | None => false end
  then Some (mkGlob vi (S pi) (Some pi) vi)
  else match si with
  | Some s => Some (mkGlob (S sv) (S s) si (S sv))
  | None => None
  end.

Fixpoint glob_loop (fuel : nat) (value pattern : list ascii) (st : glob_state) : option (option nat) :=
  if length value <=? valueIndex st then Some (Some (patternIndex st))
  else match fuel with
  | 0 => None
  | S f => match glob_step value pattern st with
           | Some st' => glob_loop f value pattern st'
           | None => Some None
           end
  end.

(** The final loop over trailing stars. *)
Fixpoint skip_stars (l : list ascii) : list ascii :=
  match l with c :: l' => if Ascii.eqb c "*" then skip_stars l' else l | [] => [] end.

(** Enough iterations: every one advances the pattern or moves the star's run. *)
Definition glob_fuel (value pattern : list ascii) : nat :=
  (S (length value)) * (length pattern + 2).

Definition matchesGlob (value pattern : string) : res string bool :=
  if longer pattern maxGlobPatternChars then Err pattern_too_long
  else if longer value maxGlobValueChars then Err value_too_long
  else
    let v := bytes value in
    let p := bytes pattern in
    match glob_loop (glob_fuel v p) v p (mkGlob 0 0 None 0) with
    | Some (Some pi) => Ok (match skip_stars (drop pi p) with [] => true | _ => false end)
    | _ => Ok false
    end.

Definition matchesValue (left right : any) (validateOnly : bool) : res string any :=
  let needs_glob : res string any := Err "matches requires a string value and a glob pattern"%string in
  let long_value := match left with AStr l => longer l maxGlobValueChars | _ => false end in
  let long_pattern := match right with AStr r => longer r maxGlobPatternChars | _ => false end in
  if validateOnly && long_value then Err value_too_long
  else if validateOnly && long_pattern then Err pattern_too_long
  else if isUndefined left || isUndefined right then
    let known := known_operand left right in
    if validateOnly && negb (isUndefined known) && negb (is_string known)
    then needs_glob else Ok (ABool false)
  else match left, right with
  | AStr l, AStr r => let? b := matchesGlob l r in Ok (ABool b)
  | _, _ => if validateOnly then needs_glob else Ok (ABool false)
  end.

Definition isValueIn (left right : any) (validateOnly : bool) : res string any :=
  if isUndefined right then Ok (ABool false)
  else match right with
  | AArr arr =>
      if isUndefined left then Ok (ABool false)
      else Ok (ABool (existsb (λ item, strictEquals item left) arr))
  | _ => if validateOnly then Err "in requires an array on the right"%string else Ok (ABool false)
  end.

(** ** The recursive descent *)

Definition comparisonOperators : list string :=
  ["==="; "!=="; ">="; "<="; "=="; "!="; ">"; "<"; "contains"; "startsWith"; "matches"; "in"]%string.
Definition wordComparisonOperators (op : string) : bool :=
  existsb (String.eqb op) ["contains"; "startsWith"; "matches"; "in"]%string.

Definition splitComparison (expression operator : string) : option (string * string) :=
  let parts := if wordComparisonOperators operator then splitWordComparison expression operator
               else splitTopLevel expression operator in
  match parts with [l; r] => Some (l, r) | _ => None end.

(** The [switch operator] of [evaluateBoolean]. *)
Definition apply_operator (operator : string) (left right : any) (validateOnly : bool) : res string any :=
  if String.eqb operator "===" then Ok (ABool (strictEquals left right))
  else if String.eqb operator "!==" then Ok (ABool (negb (strictEquals left right)))
  else if String.eqb operator "==" then Ok (ABool (looseEquals left right))
  else if String.eqb operator "!=" then Ok (ABool (negb (looseEquals left right)))
  else if String.eqb operator "contains" then containsValue left right validateOnly
  else if String.eqb operator "startsWith" then startsWithValue left right validateOnly
  else if String.eqb operator "matches" then matchesValue left right validateOnly
  else if String.eqb operator "in" then isValueIn left right validateOnly
  else compareOrdered left right operator validateOnly.

(** The loop over the comparison operators, falling through to a bare value. *)
Fixpoint compare_with (operators : list string) (trimmed : string) (scope : Scope) (validateOnly : bool)
  : res string any :=
  match operators with
  | [] => readValue trimmed scope
  | operator :: rest =>
      match splitComparison trimmed operator with
      | None => compare_with rest trimmed scope validateOnly
      | Some (l, r) =>
          let? lhs := readValue l scope in
          let? rhs := readValue r scope in
          apply_operator operator lhs rhs validateOnly
      end
  end.

Section loops.
Variable eval : string → option (res string any).
Variable validateOnly : bool.
(** The bodies of the two composition loops; [stop] is the truth value that
    decides the result ([true] for [||], [false] for [&&]). *)
Fixpoint compose (stop : bool) (parts : list string) (result : bool) : option (res string any) :=
  match parts with
  | [] => Some (Ok (ABool result))
  | part :: rest =>
      match eval part with
      | None => None
      | Some (Err e) => Some (Err e)
      | Some (Ok v) =>
          if Bool.eqb (jsTruthy v) stop then
            if validateOnly then compose stop rest stop else Some (Ok (ABool stop))
          else compose stop rest result
      end
  end.
End loops.

(** [None] is the exhaustion of the fuel. *)
Fixpoint evaluateBoolean (fuel : nat) (expression : string) (scope : Scope) (validateOnly : bool)
  : option (res string any) :=
  match fuel with
  | 0 => None
  | S f =>
      let eval part := evaluateBoolean f part scope validateOnly in
      let orParts := splitTopLevel expression "||" in
      if 1 <? length orParts then compose eval validateOnly true orParts false
      else
        let andParts := splitTopLevel expression "&&" in
        if 1 <? length andParts then compose eval validateOnly false andParts true
        else
          let trimmed := stripOuterParens (TrimSpace expression) in
          if HasPrefix trimmed "!" then
            match eval (slice_from trimmed 1) with
            | None => None
            | Some (Err e) => Some (Err e)
            | Some (Ok inner) => Some (Ok (ABool (negb (jsTruthy inner))))
            end
          else if String.eqb trimmed "true" then Some (Ok (ABool true))
          else if String.eqb trimmed "false" then Some (Ok (ABool false))
          else Some (compare_with comparisonOperators trimmed scope validateOnly)
  end.

Definition evaluateInternal (expression : string) (scope : Scope) (validateOnly : bool)
  : option (res string bool) :=
  let trimmed := stripOuterParens (TrimSpace expression) in
  if String.eqb trimmed "" then Some (Err "Expression cannot be empty"%string)
  else match evaluateBoolean (S (len trimmed)) trimmed scope validateOnly with
  | None => None
  | Some (Err e) => Some (Err e)
  | Some (Ok value) => Some (Ok (jsTruthy value))
  end.

Definition EvaluateExpression (expression : string) (scope : Scope) : option (res string bool) :=
  evaluateInternal expression scope false.

Record ValidationResult := mkValidation { Valid : bool; Message : string; Code : string; Token : string }.

Definition unsupported_prefix : string := "Unsupported expression token: ".
Definition empty_scope : Scope := mkScope (AObj []) (AObj []).

Definition ValidateExpression (expression : string) : option ValidationResult :=
  match evaluateInternal expression empty_scope true with
  | None => None
  | Some (Ok _) => Some (mkValidation true "" "" "")
  | Some (Err message) =>
      Some (if String.eqb message "Expression cannot be empty"
            then mkValidation false message "empty_expression" ""
            else if String.eqb message "Expression value cannot be empty"
            then mkValidation false message "empty_value" ""
            else if HasPrefix message unsupported_prefix
            then mkValidation false message "unsupported_token" (TrimPrefix message unsupported_prefix)
            else mkValidation false message "invalid_expression" "")
  end.

(** The adapter of the domain package: (valid, message). *)
Definition DomainValidator (expression : string) : option (bool * string) :=
  match ValidateExpression expression with Some r => Some (Valid r, Message r) | None => None end.
