(* ===== verification/ExpressionFacts.v ===== *)
(** Theorems on the expression language: the recursive descent terminates, a
    validated expression cannot fail at run time except on the glob bounds, and
    the backtracking glob matcher against its reference definition. *)
From S2P Require Import Prelude GoStrings GoFloat GoAny Regex JsValue Expression.

(** ** The splitters return shorter parts *)

Definition shorter_than (n : nat) (p : string) : Prop := len p < n.

Record scan_ok (n i : nat) (st : scan) : Prop := {
  scan_start : s_start st ≤ i;
  scan_parts : Forall (shorter_than n) (s_parts st);
  scan_found : s_parts st ≠ [] → 1 ≤ s_start st }.

Section splitting.
Variables (bs : list ascii) (ol : nat) (here : nat → bool).
Hypothesis Hol : 1 ≤ ol.
Hypothesis Hhere : ∀ i, here i = true → i + ol ≤ length bs.

Lemma split_scan_ok fuel i st :
  scan_ok (length bs) i st →
  ∃ j, scan_ok (length bs) j (split_scan fuel bs ol here i st).
Proof.
  revert i st. induction fuel as [|f IH]; intros i st [Hs Hp Hf]; simpl; [by exists i|].
  destruct (bs !! i) as [char|] eqn:Echar; [|by exists i].
  destruct (is_quote char && negb (isEscaped bs i)); [apply IH; split; simpl; auto|].
  destruct (s_quote st); [apply IH; split; auto|].
  set (p := depth_step _ _ _ _). set (b := depth_step _ _ _ (s_bracket st)).
  destruct (_ && here i) eqn:E; apply IH; split; simpl; auto; try lia.
  - bool_split. apply Hhere in H0. apply Forall_app; split; [done|].
    apply Forall_singleton. unfold shorter_than. rewrite len_of_bytes.
    pose proof (length_trim_space (slice_bytes bs (s_start st) i)).
    pose proof (length_slice_bytes bs (s_start st) i). lia.
Qed.

Lemma split_with_shorter expression :
  bs = bytes expression → 1 < length (split_with expression ol here) →
  Forall (shorter_than (len expression)) (split_with expression ol here).
Proof.
  intros Hbs. unfold split_with. rewrite <-Hbs.
  destruct (split_scan_ok (length bs) 0 (mkScan [] 0 0 None 0)) as [j [Hs Hp Hf]].
  { by split. }
  set (st := split_scan _ _ _ _ _ _) in *.
  destruct (s_parts st) as [|p ps] eqn:Eparts; [simpl; lia|]. intros _.
  rewrite Hbs in Hp. apply Forall_app; split; [done|]. apply Forall_singleton.
  assert (s_start st ≤ length bs ∨ length bs < s_start st) as Hcase by lia.
  specialize (Hf ltac:(done)). unfold shorter_than.
  pose proof (len_TrimSpace (slice_from expression (s_start st))) as Ht.
  rewrite len_slice_from in Ht.
  assert (0 < len expression).
  { rewrite Forall_cons in Hp. destruct Hp as [Hp _]. unfold shorter_than in Hp.
    change (len p < len expression) in Hp. lia. }
  lia.
Qed.
End splitting.

Lemma op_at_bound bs op i : op_at bs op i = true → i + length op ≤ length bs.
Proof. unfold op_at. intros H. bool_split. by apply Nat.leb_le. Qed.

Lemma splitTopLevel_shorter e op p :
  1 ≤ len op → 1 < length (splitTopLevel e op) → p ∈ splitTopLevel e op → len p < len e.
Proof.
  intros Hop Hlen Hin. unfold splitTopLevel in *.
  assert (Forall (shorter_than (len e)) (split_with e (len op) (op_at (bytes e) (bytes op)))) as Hall.
  { apply (split_with_shorter (bytes e)); [done| |done|done]. apply op_at_bound. }
  rewrite Forall_forall in Hall. by apply Hall.
Qed.

Lemma len_stripOuterParens e : len (stripOuterParens e) ≤ len e.
Proof.
  unfold stripOuterParens. generalize (len e) at 1. intros fuel. revert e.
  induction fuel as [|f IH]; intros e; simpl; [done|].
  destruct (_ && _); [|done]. etrans; [apply IH|]. etrans; [apply len_TrimSpace|].
  pose proof (len_slice e 1 (len e - 1)). lia.
Qed.

(** ** Termination *)

Lemma compose_total eval vo stop parts result :
  (∀ p, p ∈ parts → eval p ≠ None) → compose eval vo stop parts result ≠ None.
Proof.
  revert result. induction parts as [|p parts IH]; intros result Hall; simpl; [done|].
  pose proof (Hall p ltac:(set_solver)) as Hp.
  destruct (eval p) as [[v|e]|]; [|done|done].
  destruct (Bool.eqb _ _); [destruct vo; [|done]|]; apply IH; set_solver.
Qed.

Lemma evaluateBoolean_total fuel e sc vo :
  len e < fuel → evaluateBoolean fuel e sc vo ≠ None.
Proof.
  revert e. induction fuel as [|f IH]; intros e He; [lia|]. simpl.
  destruct (1 <? length (splitTopLevel e "||")) eqn:Eor.
  { apply Nat.ltb_lt in Eor. apply compose_total. intros p Hp. apply IH.
    pose proof (splitTopLevel_shorter e "||" p ltac:(cbv; lia) Eor Hp). lia. }
  destruct (1 <? length (splitTopLevel e "&&")) eqn:Eand.
  { apply Nat.ltb_lt in Eand. apply compose_total. intros p Hp. apply IH.
    pose proof (splitTopLevel_shorter e "&&" p ltac:(cbv; lia) Eand Hp). lia. }
  set (trimmed := stripOuterParens (TrimSpace e)).
  destruct (HasPrefix trimmed "!") eqn:Eneg.
  - apply HasPrefix_spec in Eneg as [r Hr].
    assert (len (slice_from trimmed 1) < f) as Hlt.
    { rewrite len_slice_from. pose proof (len_stripOuterParens (TrimSpace e)) as H1.
      pose proof (len_TrimSpace e) as H2. fold trimmed in H1.
      assert (0 < len trimmed) by (rewrite Hr, len_app; cbv; lia). lia. }
    specialize (IH _ Hlt). by destruct (evaluateBoolean f _ sc vo) as [[?|?]|].
  - destruct (String.eqb trimmed "true"); [done|]. by destruct (String.eqb trimmed "false").
Qed.

Lemma evaluateInternal_total expression sc vo : ∃ r, evaluateInternal expression sc vo = Some r.
Proof.
  unfold evaluateInternal. destruct (String.eqb _ ""); [by eexists|].
  pose proof (evaluateBoolean_total (S (len (stripOuterParens (TrimSpace expression))))
    (stripOuterParens (TrimSpace expression)) sc vo ltac:(lia)) as Ht.
  destruct (evaluateBoolean _ _ sc vo) as [[?|?]|]; [by eexists|by eexists|done].
Qed.

(** The recursive descent terminates on every input: splitting on a top-level
    operator, removing outer parentheses and consuming a negation all shorten the
    expression, so evaluation and static validation always return a result. *)
Theorem evaluate_terminates (expression : string) (scope : Scope) :
  (∃ r, EvaluateExpression expression scope = Some r) ∧
  (∃ v, ValidateExpression expression = Some v).
Proof.
  pose proof (evaluateInternal_total expression) as Htot.
  split; [apply Htot|]. unfold ValidateExpression.
  destruct (Htot empty_scope true) as [[b|m] ->]; by eexists.
Qed.

(** ** What validation promises at run time *)

Definition glob_bound_error (m : string) : Prop := m = pattern_too_long ∨ m = value_too_long.

(** Reading a token fails or not whatever the scope holds. *)
Lemma readValue_scope_free t sc sc' v m :
  readValue t sc = Ok v → readValue t sc' = Err m → False.
Proof. unfold readValue, unsupported. cbv zeta. generalize (stripOuterParens (TrimSpace t)). intros s.
  repeat match goal with |- context [if ?b then _ else _] => destruct b; try congruence end.
Qed.

Lemma matchesGlob_error l r m : matchesGlob l r = Err m → glob_bound_error m.
Proof.
  unfold matchesGlob, glob_bound_error. cbv zeta.
  destruct (longer r _); [intros; left; congruence|].
  destruct (longer l _); [intros; right; congruence|].
  destruct (glob_loop _ _ _ _) as [[?|]|]; congruence.
Qed.

(** At run time only the glob matcher raises an error. *)
Lemma apply_operator_runtime op l r m :
  apply_operator op l r false = Err m → glob_bound_error m.
Proof.
  unfold apply_operator, containsValue, startsWithValue, matchesValue, isValueIn, compareOrdered.
  cbv zeta. unfold res_bind. rewrite !andb_false_l.
  repeat (match goal with |- context [match ?x with _ => _ end] => destruct x eqn:? end;
    try (intros; congruence)).
  intros; simplify_eq. by eapply matchesGlob_error.
Qed.

Lemma compare_with_safe ops t sc sc' v m :
  compare_with ops t sc' true = Ok v → compare_with ops t sc false = Err m → glob_bound_error m.
Proof.
  induction ops as [|op ops IH]; simpl; intros Hok Herr; [exfalso; by eapply (readValue_scope_free _ sc' sc)|].
  destruct (splitComparison t op) as [[l r]|]; [|by apply IH].
  unfold res_bind in *.
  destruct (readValue l sc') as [lv'|] eqn:El'; [|congruence].
  destruct (readValue r sc') as [rv'|] eqn:Er'; [|congruence].
  destruct (readValue l sc) as [lv|] eqn:El; [|exfalso; by eapply (readValue_scope_free l sc' sc)].
  destruct (readValue r sc) as [rv|] eqn:Er; [|exfalso; by eapply (readValue_scope_free r sc' sc)].
  by eapply apply_operator_runtime.
Qed.

(** Validation visits every part, so a part that fails at run time was checked. *)
Lemma compose_safe (evt evf : string → option (res string any)) (G : string → Prop) stop parts :
  (∀ p v m, p ∈ parts → evt p = Some (Ok v) → evf p = Some (Err m) → G m) →
  ∀ r r' v m, compose evt true stop parts r = Some (Ok v) →
    compose evf false stop parts r' = Some (Err m) → G m.
Proof.
  induction parts as [|p parts IH]; intros Hsafe r r' v m Ht Hf; simplify_eq/=.
  destruct (evt p) as [[vt|]|] eqn:Et; simplify_eq.
  assert (∃ r'', compose evt true stop parts r'' = Some (Ok v)) as [r'' Ht'].
  { destruct (Bool.eqb _ _); by eexists. }
  destruct (evf p) as [[vf|mf]|] eqn:Ef; simplify_eq.
  - destruct (Bool.eqb (jsTruthy vf) stop); [done|].
    eapply IH; [|exact Ht'|exact Hf]. intros q ? ? Hq. apply Hsafe. set_solver.
  - eapply (Hsafe p); [set_solver|done|done].
Qed.

#[local] Arguments compare_with : simpl never.

Lemma evaluateBoolean_safe fuel e sc sc' v m :
  evaluateBoolean fuel e sc' true = Some (Ok v) →
  evaluateBoolean fuel e sc false = Some (Err m) → glob_bound_error m.
Proof.
  revert e v m. induction fuel as [|f IH]; intros e v m Ht Hf; [done|]. simpl in Ht, Hf.
  destruct (1 <? length (splitTopLevel e "||")).
  { eapply (compose_safe _ _ glob_bound_error); [|exact Ht|exact Hf]. intros p v1 m1 _ H1 H2; exact (IH p v1 m1 H1 H2). }
  destruct (1 <? length (splitTopLevel e "&&")).
  { eapply (compose_safe _ _ glob_bound_error); [|exact Ht|exact Hf]. intros p v1 m1 _ H1 H2; exact (IH p v1 m1 H1 H2). }
  destruct (HasPrefix _ "!").
  - destruct (evaluateBoolean f _ sc' true) as [[?|?]|] eqn:E1; simplify_eq.
    destruct (evaluateBoolean f _ sc false) as [[?|?]|] eqn:E2; simplify_eq. by eapply IH.
  - destruct (String.eqb _ "true"); [done|]. destruct (String.eqb _ "false"); [done|].
    injection Ht as Ht. injection Hf as Hf. exact (compare_with_safe _ _ _ _ _ _ Ht Hf).
Qed.

(** C23: An expression that static validation accepts against empty scopes never
    fails when it is evaluated against any run context: no syntax, token or
    operand error is left for run time, only the two length bounds of the glob
    matcher, which depend on the data. *)
Theorem validated_expression_is_safe (expression : string) (scope : Scope) (r : ValidationResult) (m : string) :
  ValidateExpression expression = Some r → Valid r = true →
  EvaluateExpression expression scope = Some (Err m) → glob_bound_error m.
Proof.
  unfold ValidateExpression, EvaluateExpression, evaluateInternal.
  destruct (String.eqb _ "") eqn:Eempty.
  { cbv iota. intros [= <-]. done. }
  destruct (evaluateBoolean _ _ empty_scope true) as [[v|e]|] eqn:Et; [| |done].
  - intros _ _. destruct (evaluateBoolean _ _ scope false) as [[?|?]|] eqn:Ef; [done| |done].
    intros [= ->]. exact (evaluateBoolean_safe _ _ _ _ _ _ Et Ef).
  - cbv iota. intros [= <-].
    repeat match goal with |- context [if ?b then _ else _] => destruct b; [done|] end. done.
Qed.

Definition long_pattern_scope : Scope :=
  mkScope (AObj [("v"%string, AStr (of_bytes (replicate 300 "a"%char)))]) (AObj []).
Lemma validated_expression_is_safe_witness :
  ∃ r, ValidateExpression "'x' matches context.v" = Some r ∧ Valid r = true ∧
       glob_bound_error pattern_too_long.
Proof.
  eexists. split; [vm_compute; reflexivity|]. split; [reflexivity|].
  apply (validated_expression_is_safe "'x' matches context.v" long_pattern_scope
    (mkValidation true "" "" "")); vm_compute; reflexivity.
Defined.

(** * Globs

    The backtracking walk of [matchesGlob] terminates and decides [Glob] on every value without
    a literal star; a value that begins with a star shows where it departs from it. *)

Definition star : ascii := "*".
Definition any_char : ascii := "?".

(** What the pattern language means: a star matches any run of bytes, a question
    mark one byte, any other byte itself. *)
Inductive Glob : list ascii → list ascii → Prop :=
| glob_nil : Glob [] []
| glob_star_end p v : Glob p v → Glob (star :: p) v
| glob_star_more p c v : Glob (star :: p) v → Glob (star :: p) (c :: v)
| glob_one p c v : Glob p v → Glob (any_char :: p) (c :: v)
| glob_lit p c v : c ≠ star → c ≠ any_char → Glob p v → Glob (c :: p) (c :: v).

Lemma Glob_star p v : Glob (star :: p) v ↔ ∃ k, k ≤ length v ∧ Glob p (drop k v).
Proof.
  split.
  - intros H. remember (star :: p) as q eqn:Eq. revert p Eq.
    induction H as [|q w Hq IH|q c w Hq IH|q c w Hq IH|q c w Hc Hc' Hq IH]; intros p' Eq;
      simplify_eq/=.
    + exists 0. split; [lia|]. by rewrite drop_0.
    + destruct (IH p' eq_refl) as (k & Hk & Hg). exists (S k). simpl. split; [lia|done].
  - intros (k & Hk & Hg). revert v Hk Hg. induction k as [|k IH]; intros v Hk Hg.
    + rewrite drop_0 in Hg. by constructor.
    + destruct v as [|c v]; simpl in *; [lia|]. apply glob_star_more, IH; [lia|done].
Qed.

Lemma Glob_cons c p d v :
  c ≠ star → Glob (c :: p) (d :: v) ↔ (c = any_char ∨ c = d) ∧ Glob p v.
Proof.
  intros Hc. split.
  - intros H. inversion H; subst; auto; done.
  - intros [[->| ->] Hg]; [by constructor|].
    destruct (decide (d = any_char)) as [->|]; by constructor.
Qed.

Lemma Glob_cons_nil c p : c ≠ star → ¬ Glob (c :: p) [].
Proof. intros Hc H. inversion H; subst; done. Qed.

Lemma Glob_nil_r p : Glob p [] ↔ skip_stars p = [].
Proof.
  induction p as [|c p IH]; simpl; [split; [done|constructor]|].
  destruct (Ascii.eqb_spec c "*") as [->|Hne].
  - rewrite Glob_star, <-IH. split.
    + intros (k & Hk & Hg). simpl in Hk. by replace k with 0 in Hg by lia.
    + intros Hg. exists 0. done.
  - split; [intros H; by apply Glob_cons_nil in H|done].
Qed.

Section walk.
Variables v p : list ascii.
Hypothesis no_star : star ∉ v.

Definition G (i j : nat) : Prop := Glob (drop i p) (drop j v).

Lemma G_step i j c d :
  p !! i = Some c → v !! j = Some d → c ≠ star →
  G i j ↔ (c = any_char ∨ c = d) ∧ G (S i) (S j).
Proof. intros Hc Hd Hne. unfold G. rewrite (drop_S p c i), (drop_S v d j) by done. by apply Glob_cons. Qed.

Lemma G_star i j :
  p !! i = Some star → j ≤ length v → G i j ↔ ∃ k, j ≤ k ∧ k ≤ length v ∧ G (S i) k.
Proof.
  intros Hc Hj. unfold G. rewrite (drop_S p star i) by done. rewrite Glob_star. split.
  - intros (k & Hk & Hg). rewrite drop_drop in Hg. rewrite length_drop in Hk.
    exists (j + k). split_and!; [lia|lia|done].
  - intros (k & Hjk & Hk & Hg). exists (k - j). rewrite length_drop, drop_drop.
    split; [lia|]. by replace (j + (k - j)) with k by lia.
Qed.

Lemma G_end i j : p !! i = None → j < length v → ¬ G i j.
Proof.
  intros Hc Hj Hg. unfold G in Hg. rewrite (drop_ge p) in Hg by (by apply lookup_ge_None).
  destruct (lookup_lt_is_Some_2 v j Hj) as [d Hd]. rewrite (drop_S v d j) in Hg by done.
  inversion Hg.
Qed.

(** Bytes of the pattern without a star consume as many bytes of the value. *)
Lemma G_segment a n k :
  (∀ i, a ≤ i → i < a + n → p !! i ≠ Some star) → a + n ≤ length p → k ≤ length v →
  G a k → k + n ≤ length v ∧ G (a + n) (k + n).
Proof.
  revert a k. induction n as [|n IH]; intros a k Hseg Hp Hk Hg.
  - rewrite !Nat.add_0_r. done.
  - destruct (lookup_lt_is_Some_2 p a ltac:(lia)) as [c Hc].
    assert (c ≠ star) as Hne by (intros ->; by apply (Hseg a ltac:(lia) ltac:(lia))).
    destruct (decide (k < length v)) as [Hlt|Hge].
    + destruct (lookup_lt_is_Some_2 v k Hlt) as [d Hd].
      rewrite (G_step a k c d Hc Hd Hne) in Hg. destruct Hg as [_ Hg].
      destruct (IH (S a) (S k)) as [H1 H2]; try done; try lia.
      { intros i Hi Hi'. apply Hseg; lia. }
      replace (a + S n) with (S a + n) by lia. replace (k + S n) with (S k + n) by lia. done.
    + unfold G in Hg. rewrite (drop_ge v) in Hg by lia. rewrite (drop_S p c a) in Hg by done.
      by apply Glob_cons_nil in Hg.
Qed.

Record walk_ok (st : glob_state) : Prop := {
  wo_v : valueIndex st ≤ length v;
  wo_p : patternIndex st ≤ length p;
  wo_sv : starValueIndex st ≤ valueIndex st;
  wo_inv : match starIndex st with
    | None => Glob p v ↔ G (patternIndex st) (valueIndex st)
    | Some s =>
        s < patternIndex st ∧
        valueIndex st - starValueIndex st = patternIndex st - S s ∧
        (∀ i, S s ≤ i → i < patternIndex st → p !! i ≠ Some star) ∧
        (Glob p v ↔ G (patternIndex st) (valueIndex st) ∨
          ∃ k, starValueIndex st < k ∧ k ≤ length v ∧ G (S s) k)
    end }.

Definition walk_measure (st : glob_state) : nat :=
  (length v - starValueIndex st) * (length p + 2) + (length p - patternIndex st).

(** Matching a byte. *)
Lemma walk_match vi pi si sv c d :
  walk_ok (mkGlob vi pi si sv) → p !! pi = Some c → v !! vi = Some d → c ≠ star →
  c = any_char ∨ c = d → walk_ok (mkGlob (S vi) (S pi) si sv).
Proof.
  intros [Hv Hp Hsv Hinv] Hc Hd Hne Hcd; simpl in *.
  pose proof (lookup_lt_Some _ _ _ Hc). pose proof (lookup_lt_Some _ _ _ Hd).
  pose proof (G_step pi vi c d Hc Hd Hne) as HG.
  split; simpl; try lia. destruct si as [s|].
  - destruct Hinv as (Hs & Hlen & Hseg & Hiff). split_and!; [lia|lia| |rewrite Hiff, HG; tauto].
    intros i Hi Hi'. destruct (decide (i = pi)) as [->|]; [congruence|]. apply Hseg; lia.
  - rewrite Hinv, HG. tauto.
Qed.

(** Meeting a star: the older star cannot do better than this one. *)
Lemma walk_star vi pi si sv :
  walk_ok (mkGlob vi pi si sv) → p !! pi = Some star → walk_ok (mkGlob vi (S pi) (Some pi) vi).
Proof.
  intros [Hv Hp Hsv Hinv] Hc; simpl in *. pose proof (lookup_lt_Some _ _ _ Hc).
  pose proof (G_star pi vi Hc Hv) as HG.
  split; simpl; try lia. split_and!; [lia|lia|intros; lia|].
  assert (G pi vi ↔ G (S pi) vi ∨ ∃ k, vi < k ∧ k ≤ length v ∧ G (S pi) k) as HG'.
  { rewrite HG. split.
    - intros (k & Hk & Hk' & Hg). destruct (decide (k = vi)) as [->|]; [by left|].
      right. exists k. split_and!; [lia|done|done].
    - intros [Hg|(k & Hk & Hk' & Hg)]; [exists vi|exists k]; split_and!; try done; lia. }
  rewrite <-HG'. destruct si as [s|]; [|done].
  destruct Hinv as (Hs & Hlen & Hseg & ->). split; [|tauto]. intros [Hg|(k & Hk & Hk' & Hg)]; [done|].
  destruct (G_segment (S s) (pi - S s) k) as [Hb Hg']; try done; try lia.
  { intros i Hi Hi'. apply Hseg; lia. }
  replace (S s + (pi - S s)) with pi in Hg' by lia.
  apply HG. rewrite (G_star pi _ Hc Hb) in Hg'. destruct Hg' as (k' & Hk1 & Hk2 & Hg').
  exists k'. split_and!; [lia|done|done].
Qed.

(** Backtracking: the star takes one more byte. *)
Lemma walk_back vi pi s sv :
  walk_ok (mkGlob vi pi (Some s) sv) → vi < length v → ¬ G pi vi →
  walk_ok (mkGlob (S sv) (S s) (Some s) (S sv)).
Proof.
  intros [Hv Hp Hsv Hinv] Hlt HnG; simpl in *. destruct Hinv as (Hs & Hlen & Hseg & Hiff).
  split; simpl; try lia. split_and!; [lia|lia|intros; lia|]. rewrite Hiff. split.
  - intros [Hg|(k & Hk & Hk' & Hg)]; [done|].
    destruct (decide (k = S sv)) as [->|]; [by left|]. right. exists k. split_and!; [lia|done|done].
  - intros [Hg|(k & Hk & Hk' & Hg)]; right; [exists (S sv)|exists k]; split_and!; try done; lia.
Qed.

Lemma walk_done vi pi si sv :
  walk_ok (mkGlob vi pi si sv) → length v ≤ vi → Glob p v ↔ skip_stars (drop pi p) = [].
Proof.
  intros [Hv Hp Hsv Hinv] Hge; simpl in *. rewrite <-Glob_nil_r.
  assert (G pi vi ↔ Glob (drop pi p) []) as HG by (unfold G; by rewrite (drop_ge v) by lia).
  rewrite <-HG. destruct si as [s|]; [|done]. destruct Hinv as (Hs & Hlen & Hseg & ->).
  split; [|tauto]. intros [Hg|(k & Hk & Hk' & Hg)]; [done|].
  destruct (G_segment (S s) (pi - S s) k) as [Hb Hg']; try done; try lia.
  intros i Hi Hi'. apply Hseg; lia.
Qed.

Lemma glob_step_ok st :
  walk_ok st → valueIndex st < length v →
  match glob_step v p st with
  | Some st' => walk_ok st' ∧ walk_measure st' < walk_measure st
  | None => ¬ Glob p v
  end.
Proof.
  destruct st as [vi pi si sv]; intros Hok Hlt; simpl in *.
  destruct (lookup_lt_is_Some_2 v vi Hlt) as [d Hd].
  assert (d ≠ star) as Hdstar by (intros ->; apply no_star; by eapply list_elem_of_lookup_2).
  pose proof Hok as [Hv Hp Hsv Hinv]; simpl in Hv, Hp, Hsv, Hinv.
  assert (¬ G pi vi →
    match match si with Some s => Some (mkGlob (S sv) (S s) si (S sv)) | None => None end with
    | Some st' => walk_ok st' ∧ walk_measure st' < walk_measure (mkGlob vi pi si sv)
    | None => ¬ Glob p v
    end) as Hback.
  { intros HnG. destruct si as [s|]; [|by rewrite Hinv].
    destruct Hinv as (Hs & Hinv). split; [by eapply walk_back|]. unfold walk_measure; simpl. nia. }
  destruct (p !! pi) as [c|] eqn:Hc.
  2: { apply Hback. by apply G_end. }
  pose proof (lookup_lt_Some _ _ _ Hc) as Hpi.
  destruct (Ascii.eqb c "?" || bool_decide (v !! vi = Some c)) eqn:Ehere.
  - assert (c = any_char ∨ c = d) as Hcd.
    { apply orb_true_iff in Ehere as [E|E]; [left; by apply Ascii.eqb_eq|right].
      apply bool_decide_eq_true_1 in E. congruence. }
    assert (c ≠ star) as Hne by (destruct Hcd as [->| ->]; done).
    split; [by eapply walk_match|]. unfold walk_measure; simpl. nia.
  - apply orb_false_iff in Ehere as [E1 E2]. apply Ascii.eqb_neq in E1.
    apply bool_decide_eq_false_1 in E2.
    destruct (Ascii.eqb_spec c "*") as [->|Hne].
    + split; [by eapply walk_star|]. unfold walk_measure; simpl. nia.
    + apply Hback. rewrite (G_step pi vi c d Hc Hd Hne). intros [[->| ->] _]; [done|congruence].
Qed.

Lemma glob_loop_ok fuel st :
  walk_ok st → walk_measure st < fuel →
  match glob_loop fuel v p st with
  | Some (Some pi) => Glob p v ↔ skip_stars (drop pi p) = []
  | Some None => ¬ Glob p v
  | None => False
  end.
Proof.
  revert st. induction fuel as [|f IH]; intros st Hok Hm; [lia|]. simpl.
  destruct (length v <=? valueIndex st) eqn:E.
  { apply Nat.leb_le in E. destruct st. by eapply walk_done. }
  apply Nat.leb_gt in E. pose proof (glob_step_ok st Hok E) as Hstep.
  destruct (glob_step v p st) as [st'|]; [|done].
  destruct Hstep as [Hok' Hm']. apply IH; [done|lia].
Qed.
End walk.

(** The backtracking glob matcher terminates within the length bounds and, on a
    value that holds no literal star, answers exactly whether the value belongs
    to the language of the pattern. *)
Theorem matchesGlob_correct (value pattern : string) :
  star ∉ bytes value → longer pattern maxGlobPatternChars = false →
  longer value maxGlobValueChars = false →
  ∃ b, matchesGlob value pattern = Ok b ∧ (b = true ↔ Glob (bytes pattern) (bytes value)).
Proof.
  intros Hns Hp Hv. unfold matchesGlob. rewrite Hp, Hv.
  set (v := bytes value) in *. set (p := bytes pattern).
  assert (walk_ok v p (mkGlob 0 0 None 0)) as Hok.
  { split; simpl; try lia. unfold G. by rewrite !drop_0. }
  pose proof (glob_loop_ok v p Hns (glob_fuel v p) _ Hok) as Hloop.
  assert (walk_measure v p (mkGlob 0 0 None 0) < glob_fuel v p) as Hm.
  { unfold walk_measure, glob_fuel; simpl. nia. }
  specialize (Hloop Hm). destruct (glob_loop _ v p _) as [[pi|]|]; [| |done].
  - eexists. split; [done|]. rewrite Hloop. by destruct (skip_stars (drop pi p)).
  - eexists. split; [done|]. split; [done|tauto].
Qed.

Lemma matchesGlob_correct_witness :
  ∃ b, matchesGlob "report-2024.csv" "rep*-20??.c*" = Ok b ∧
    (b = true ↔ Glob (bytes "rep*-20??.c*") (bytes "report-2024.csv")).
Proof.
  apply (matchesGlob_correct "report-2024.csv" "rep*-20??.c*").
  - vm_compute. intros H. repeat (apply elem_of_cons in H as [H|H]; [discriminate H|]).
    by apply elem_of_nil in H.
  - reflexivity.
  - reflexivity.
Defined.

(** Every value that begins with a star and goes on is rejected by
    the pattern that matches every value: the walk takes the pattern's star for a
    literal because it compares the bytes before it tests for the wildcard. *)
Theorem matchesGlob_star_literal (c : ascii) (rest : string) :
  longer (String star (String c rest)) maxGlobValueChars = false →
  matchesGlob (String star (String c rest)) "*" = Ok false ∧
  Glob (bytes "*") (bytes (String star (String c rest))).
Proof.
  intros Hlong. split.
  - unfold matchesGlob. rewrite Hlong. reflexivity.
  - cbn. apply glob_star_more, glob_star_more. generalize (list_ascii_of_string rest). intros l.
    induction l as [|d l IH]; [apply glob_star_end, glob_nil|by apply glob_star_more].
Qed.

Lemma matchesGlob_star_literal_witness :
  matchesGlob "*abc" "*" = Ok false ∧ Glob (bytes "*") (bytes "*abc").
Proof. apply (matchesGlob_star_literal "a" "bc"). reflexivity. Defined.
