(* ===== verification/Redact.v ===== *)
(** Redaction (grammar/redact.go): values tracked by the renderer, and the keys
    that look like credentials. Both walkers are copy-on-write: they return the
    tree with a flag, and rebuild a container only under a change. *)
From S2P Require Import Prelude GoStrings GoFloat GoAny Regex.

Definition RedactedPlaceholder : string := "[redacted]".
Definition MinRedactedLength : nat := 4.

(** ** By value *)

Definition RedactString (s : string) (redactedValues : list string) : string :=
  fold_left (λ s secret, if String.eqb secret "" then s
                         else ReplaceAll s secret RedactedPlaceholder) redactedValues s.

(** The copy-on-write walk over a slice or map: [out] is [None] until the first
    change, when it becomes a copy of the original. *)
Section cow.
Context {A : Type} (walk : A → A * bool).
Fixpoint cow_walk (i : nat) (l : list A) (orig : list A) (out : option (list A)) : option (list A) :=
  match l with
  | [] => out
  | item :: l' =>
      let '(next, changed) := walk item in
      if changed then cow_walk (S i) l' orig (Some (<[i := next]> (default orig out)))
      else cow_walk (S i) l' orig out
  end.
Definition cow (l : list A) : list A * bool :=
  match cow_walk 0 l l None with
  | None => (l, false)
  | Some out => (out, true)
  end.
End cow.

Fixpoint redactValuesCOW (redactedValues : list string) (value : any) : any * bool :=
  match value with
  | AStr v => let replaced := RedactString v redactedValues in
              (AStr replaced, negb (String.eqb replaced v))
  | AArr v => let '(out, changed) := cow (redactValuesCOW redactedValues) v in (AArr out, changed)
  | AObj v =>
      let '(out, changed) :=
        cow (λ kv, let '(next, changed) := redactValuesCOW redactedValues kv.2 in
                   ((kv.1, next), changed)) v in (AObj out, changed)
  | _ => (value, false)
  end.

Definition RedactValues (value : any) (redactedValues : list string) : any :=
  match redactedValues with
  | [] => value
  | _ => (redactValuesCOW redactedValues value).1
  end.

(** ** By key *)

(** One letter under [(?i)]: RE2 folds [s] with U+017F and [k] with U+212A. *)
Definition fold_letter (c : ascii) : re :=
  let both := Cls (λ d, Ascii.eqb d c || Ascii.eqb d (upper_byte c)) in
  if Ascii.eqb c "s" then Alt both (Lit_bytes [chr 197; chr 191])
  else if Ascii.eqb c "k" then Alt both (Lit_bytes [chr 226; chr 132; chr 170])
  else both.
Fixpoint fold_lit (l : list ascii) : re :=
  match l with [] => Eps | c :: l' => Cat (fold_letter c) (fold_lit l') end.
Definition ci (s : string) : re := fold_lit (bytes s).
Definition any_of (l : list re) : re := fold_right Alt Void l.
(** [.] does not match a newline. *)
Definition Dot : re := Cls (λ c, negb (code c =? 10)).
Definition sep_class : re := Cls (one_of "_-").

Definition sensitiveKeyPattern : re :=
  Alt
    (Cat (any_of [ci "secret"; ci "password"; ci "token"])
         (any_of [Eps; Cat sep_class (Star Dot); Cat (Cls is_upper) (Star Dot)]))
    (any_of
       [Cat (ci "api") (Cat (Opt sep_class) (ci "key")); ci "authorization"; ci "cookie";
        ci "x-api-key"; Cat (ci "client") (Cat (Opt sep_class) (ci "secret"));
        Cat (ci "private") (Cat (Opt sep_class) (ci "key"));
        Cat (any_of [ci "api"; ci "access"; ci "refresh"; ci "id"]) (Cat (Opt sep_class) (ci "token"));
        ci "x-auth-token"; ci "set-cookie"; ci "proxy-authorization"; ci "credentials"; ci "passwd";
        Cat (ci "api") (Cat (Opt sep_class) (ci "secret"))]).

Definition IsSensitiveKey (key : string) : bool := MatchString sensitiveKeyPattern key.

Fixpoint redactKeysCOW (value : any) : any * bool :=
  match value with
  | AArr v => let '(out, changed) := cow redactKeysCOW v in (AArr out, changed)
  | AObj v =>
      let '(out, changed) :=
        cow (λ kv, if IsSensitiveKey kv.1 then ((kv.1, AStr RedactedPlaceholder), true)
                   else let '(next, changed) := redactKeysCOW kv.2 in ((kv.1, next), changed)) v in
      (AObj out, changed)
  | _ => (value, false)
  end.

Definition RedactSensitiveKeys (value : any) : any := (redactKeysCOW value).1.

(** ** The copy-on-write walk is the plain map *)

Section cow_facts.
Context {A : Type} (walk : A → A * bool).

Lemma cow_walk_spec pre l orig out :
  orig = pre ++ l ∨ is_Some out →
  (∀ x, x ∈ l → (walk x).2 = false → (walk x).1 = x) →
  ∀ cur, length cur = length pre → (out = None → cur = pre) →
  (∀ o, out = Some o → o = cur ++ l) →
  match cow_walk walk (length pre) l orig out with
  | None => out = None ∧ forallb (λ x, negb (walk x).2) l = true
  | Some o => o = cur ++ map (λ x, (walk x).1) l ∧ (is_Some out ∨ existsb (λ x, (walk x).2) l = true)
  end.
Proof.
  revert pre out. induction l as [|x l IH]; intros pre out Horig Hsame cur Hlen Hnone Hsome; cbn.
  { destruct out as [o|]; [|done]. split; [by apply Hsome|by left]. }
  destruct (walk x) as [next changed] eqn:Hx.
  assert (S (length pre) = length (pre ++ [x])) as -> by (rewrite length_app; cbn; lia).
  assert (∀ y, y ∈ l → (walk y).2 = false → (walk y).1 = y) as Hsame' by set_solver.
  destruct changed; cbn.
  - assert (<[length pre := next]> (default orig out) = (cur ++ [next]) ++ l) as ->.
    { destruct out as [o|]; cbn.
      - rewrite (Hsome o eq_refl), <-Hlen, insert_app_r_alt, Nat.sub_diag by lia.
        cbn. by rewrite <-app_assoc.
      - rewrite Hnone in * by done. destruct Horig as [->|[? [=]]].
        rewrite insert_app_r_alt, Nat.sub_diag by lia. cbn. by rewrite <-app_assoc. }
    specialize (IH (pre ++ [x]) (Some ((cur ++ [next]) ++ l)) ltac:(by right; eexists) Hsame'
      (cur ++ [next]) ltac:(rewrite !length_app; cbn; lia) ltac:(done) ltac:(naive_solver)).
    destruct (cow_walk walk _ l orig _) as [o|]; [|naive_solver].
    destruct IH as [-> _]. rewrite <-app_assoc. split; [done|by right].
  - assert (next = x) as -> by (specialize (Hsame x ltac:(set_solver)); rewrite Hx in Hsame; by apply Hsame).
    specialize (IH (pre ++ [x]) out ltac:(rewrite <-app_assoc; done) Hsame' (cur ++ [x])
      ltac:(rewrite !length_app; cbn; lia) ltac:(intros ->; by rewrite Hnone)
      ltac:(intros o Ho; rewrite <-app_assoc; by apply Hsome)).
    destruct (cow_walk walk _ l orig out) as [o|]; [|done].
    destruct IH as [-> ?]. by rewrite <-app_assoc.
Qed.

Lemma cow_spec l :
  (∀ x, x ∈ l → (walk x).2 = false → (walk x).1 = x) →
  cow walk l = (map (λ x, (walk x).1) l, existsb (λ x, (walk x).2) l).
Proof.
  intros Hsame. unfold cow.
  pose proof (cow_walk_spec [] l l None ltac:(by left) Hsame [] eq_refl ltac:(done) ltac:(done)) as H.
  destruct (cow_walk walk _ l l None) as [o|].
  - destruct H as [-> [[? [=]]|Hex]]. cbn. by rewrite Hex.
  - destruct H as [_ Hall]. f_equal.
    + symmetry. rewrite <-(map_id l) at 2. apply map_ext_in. intros x Hx.
      apply list_elem_of_In in Hx. apply Hsame; [done|].
      rewrite forallb_elem in Hall. specialize (Hall x Hx). by apply negb_true_iff in Hall.
    + symmetry. apply existsb_false_elem. intros x Hx.
      rewrite forallb_elem in Hall. specialize (Hall x Hx). by apply negb_true_iff in Hall.
Qed.
End cow_facts.
