(* ===== verification/SafePersist.v ===== *)
(** The persistence gate (grammar/safepersist.go): normalization of the value,
    redaction by value and by key, and the bound on the bytes written. *)
From S2P Require Import Prelude GoStrings GoFloat GoAny Json Redact.

Definition DefaultPersistMaxBytes : Z := 256000.
Definition PersistUnbounded : Z := -1.
Definition persistPreviewDivisor : Z := 2.

Record PersistOptions := mkPersistOptions
  { opt_RedactedValues : list string; opt_MaxBytes : Z }.

Record Persister := mkPersister { maxBytes : Z }.

Definition NewPersister (max : Z) : res string Persister :=
  guard (2 <=? max)%Z else "persistence max bytes must be at least 2"%string in
  Ok (mkPersister max).

Definition MaxBytes (p : Persister) : Z :=
  if (maxBytes p =? 0)%Z then DefaultPersistMaxBytes else maxBytes p.

(** ** Normalization *)

Definition normalizeFastPathMaxDepth : nat := 64.

Fixpoint isTransparentJSONTree (value : any) (depth : nat) : bool :=
  if normalizeFastPathMaxDepth <? depth then false
  else match value with
  | ANil | ABool _ | AStr _ | AInt _ _ => true
  | AF32 f | AF64 f => is_finite f
  | AArr l => forallb (λ item, isTransparentJSONTree item (S depth)) l
  | AObj o => forallb (λ kv, isTransparentJSONTree kv.2 (S depth)) o
  | _ => false
  end.

(** The fallback marshals the tree and reads it back; an error gives an empty
    object. *)
Definition NormalizeJSON (value : any) : any :=
  if isTransparentJSONTree value 0 then value
  else match Marshal value with
  | None => AObj []
  | Some raw => default (AObj []) (Unmarshal raw)
  end.

(** ** The bound *)

Definition rune_start (c : ascii) : bool := negb (cont c).

(** The largest cut at most [cut] in front of the first byte of a rune. *)
Fixpoint back_to_rune (l : list ascii) (cut : nat) : nat :=
  match cut with
  | 0 => 0
  | S c => match l !! cut with
           | Some b => if rune_start b then cut else back_to_rune l c
           | None => cut
           end
  end.
Definition slicePersistUTF8 (s : string) (limit : Z) : string :=
  if (Z.of_nat (len s) <=? limit)%Z then s
  else of_bytes (take (back_to_rune (bytes s) (Z.to_nat limit)) (bytes s)).

Section bound.
Context (raw : string) (cap : Z).

Definition build (previewBytes : Z) : option string :=
  Marshal (AObj [("__truncated", ABool true); ("originalBytes", AInt KInt (Z.of_nat (len raw)));
                 ("maxBytes", AInt KInt cap); ("preview", AStr (slicePersistUTF8 raw previewBytes))])%string.

(** A candidate that exists, is not empty and fits. *)
Definition fits (candidate : option string) : bool :=
  match candidate with
  | Some c => (0 <? len c)%nat && (Z.of_nat (len c) <=? cap)%Z
  | None => false
  end.

(** [for low <= high]; [None] when the fuel runs out. *)
Fixpoint bound_search (fuel : nat) (low high : Z) (best : string) : option string :=
  if (low <=? high)%Z then
    match fuel with
    | 0 => None
    | S f =>
        let mid := (low + (high - low) ÷ 2)%Z in
        let candidate := build mid in
        if fits candidate then bound_search f (mid + 1) high (default best candidate)
        else bound_search f low (mid - 1) best
    end
  else Some best.

Definition minimal : string := of_bytes (chr 123 :: json_string "__truncated" ++ bytes ":true}").

Definition BoundPersistPayload : option string :=
  if (Z.of_nat (len raw) <=? cap)%Z then Some raw
  else
    let high := Z.min (Z.of_nat (len raw)) (cap ÷ persistPreviewDivisor) in
    let best := build 0 in
    if negb (fits best) then
      if (Z.of_nat (len minimal) <=? cap)%Z then Some minimal else Some "{}"%string
    else bound_search (Z.to_nat (high + 1)) 0 high (default ""%string best).
End bound.

(** ** The gate *)

(** The value that is marshalled. *)
Definition persisted_value (value : any) (opts : PersistOptions) : any :=
  let working := NormalizeJSON value in
  let working := match opt_RedactedValues opts with
                 | [] => working
                 | vs => RedactValues working vs
                 end in
  RedactSensitiveKeys working.

Definition SafePersistPayload (value : any) (opts : PersistOptions) : option string :=
  match Marshal (persisted_value value opts) with
  | None => Some "{}"%string
  | Some raw =>
      let cap := if (opt_MaxBytes opts =? 0)%Z then DefaultPersistMaxBytes else opt_MaxBytes opts in
      if (cap <? 0)%Z then Some raw else BoundPersistPayload raw cap
  end.

Definition Payload (p : Persister) (value : any) (opts : PersistOptions) : option string :=
  SafePersistPayload value
    (if (opt_MaxBytes opts =? 0)%Z then mkPersistOptions (opt_RedactedValues opts) (MaxBytes p)
     else opts).
