(* ===== verification/PersistFacts.v ===== *)
(** The persistence gate: redaction leaves no credential-shaped key readable, the
    copy-on-write walks are the plain recursive maps, and what is written
    respects the byte bound. *)
From S2P Require Import Prelude GoStrings GoFloat GoAny Regex Json Redact SafePersist.

(** ** Reference definitions *)

Fixpoint redact_strings (rs : list string) (v : any) : any :=
  match v with
  | AStr s => AStr (RedactString s rs)
  | AArr l => AArr (map (redact_strings rs) l)
  | AObj o => AObj (map (λ kv, (kv.1, redact_strings rs kv.2)) o)
  | _ => v
  end.

Fixpoint redact_keys (v : any) : any :=
  match v with
  | AArr l => AArr (map redact_keys l)
  | AObj o => AObj (map (λ kv, (kv.1, if IsSensitiveKey kv.1 then AStr RedactedPlaceholder
                                      else redact_keys kv.2)) o)
  | _ => v
  end.

(** No binding of a credential-shaped key is readable, at any depth. *)
Inductive clean : any → Prop :=
| clean_arr l : (∀ v, v ∈ l → clean v) → clean (AArr l)
| clean_obj o :
    (∀ k v, (k, v) ∈ o → IsSensitiveKey k = true → v = AStr RedactedPlaceholder) →
    (∀ k v, (k, v) ∈ o → IsSensitiveKey k = false → clean v) → clean (AObj o)
| clean_leaf v : as_arr v = None → as_obj v = None → clean v.

#[local] Arguments IsSensitiveKey : simpl never.
#[local] Arguments RedactString : simpl never.

Lemma map_ext_elem {A B} (f g : A → B) l : (∀ x, x ∈ l → f x = g x) → map f l = map g l.
Proof. intros H. apply map_ext_in. intros x Hx. apply H. by apply list_elem_of_In. Qed.

Lemma redactValuesCOW_spec rs v :
  (redactValuesCOW rs v).1 = redact_strings rs v ∧
  ((redactValuesCOW rs v).2 = false ↔ redact_strings rs v = v).
Proof.
  induction v as [| | | | | |s|l IH|l|o IH] using any_ind'; try (split; [done|done]).
  - cbn. split; [done|]. rewrite negb_false_iff, String.eqb_eq. split; [by intros ->|congruence].
  - rewrite Forall_forall in IH. cbn.
    rewrite cow_spec by (intros x Hx; destruct (IH x Hx) as [-> ->]; done). cbn. split.
    + f_equal. apply map_ext_elem. intros x Hx. apply (IH x Hx).
    + rewrite existsb_false_elem. split.
      * intros Hall. f_equal. rewrite <-(map_id l) at 2. apply map_ext_elem.
        intros x Hx. by apply (IH x Hx), Hall.
      * intros [= Heq] x Hx. apply (IH x Hx). apply list_elem_of_lookup in Hx as [i Hi].
        assert (map (redact_strings rs) l !! i = Some x) as Hmap by congruence.
        change (map ?f ?l) with (f <$> l) in Hmap. rewrite list_lookup_fmap, Hi in Hmap.
        cbn in Hmap. congruence.
  - rewrite Forall_forall in IH. cbn.
    assert (∀ x : string * any, (let '(next, changed) := redactValuesCOW rs x.2 in
      ((x.1, next), changed)) = ((x.1, (redactValuesCOW rs x.2).1), (redactValuesCOW rs x.2).2)) as Hx'
      by (intros x; by destruct (redactValuesCOW rs x.2)).
    rewrite cow_spec.
    2: { intros [k x] Hx. rewrite Hx'. cbn. intros Hf. destruct (IH _ Hx) as [Heq Hiff].
         cbn in *. rewrite Heq. f_equal. by apply Hiff. }
    cbn. split.
    + f_equal. apply map_ext_elem. intros x Hx. rewrite Hx'. cbn. f_equal. apply (IH x Hx).
    + rewrite existsb_false_elem. split.
      * intros Hall. f_equal. rewrite <-(map_id o) at 2. apply map_ext_elem.
        intros [k x] Hx. cbn. f_equal. apply (IH _ Hx). specialize (Hall _ Hx). by rewrite Hx' in Hall.
      * intros [= Heq] x Hx. rewrite Hx'. cbn. apply (IH x Hx). apply list_elem_of_lookup in Hx as [i Hi].
        assert (map (λ kv, (kv.1, redact_strings rs kv.2)) o !! i = Some x) as Hmap by congruence.
        change (map ?f ?l) with (f <$> l) in Hmap. rewrite list_lookup_fmap, Hi in Hmap.
        cbn in Hmap. destruct x. naive_solver.
Qed.

Lemma redactKeysCOW_spec v :
  (redactKeysCOW v).1 = redact_keys v ∧ ((redactKeysCOW v).2 = false → redact_keys v = v).
Proof.
  induction v as [| | | | | |s|l IH|l|o IH] using any_ind'; try (split; done).
  - rewrite Forall_forall in IH. cbn.
    rewrite cow_spec by (intros x Hx; destruct (IH x Hx) as [-> ?]; done). cbn. split.
    + f_equal. apply map_ext_elem. intros x Hx. apply (IH x Hx).
    + rewrite existsb_false_elem. intros Hall. f_equal. rewrite <-(map_id l) at 2.
      apply map_ext_elem. intros x Hx. by apply (IH x Hx), Hall.
  - rewrite Forall_forall in IH. cbn.
    set (walk := λ kv : string * any, _).
    assert (∀ x, walk x = if IsSensitiveKey x.1 then ((x.1, AStr RedactedPlaceholder), true)
      else ((x.1, (redactKeysCOW x.2).1), (redactKeysCOW x.2).2)) as Hw.
    { intros x. unfold walk. destruct (IsSensitiveKey x.1); [done|]. by destruct (redactKeysCOW x.2). }
    clearbody walk.
    rewrite cow_spec.
    2: { intros [k x] Hx. rewrite Hw. cbn. destruct (IsSensitiveKey k); [done|]. cbn.
         intros Hf. destruct (IH _ Hx) as [Heq Hiff]. cbn in *. rewrite Heq. f_equal. by apply Hiff. }
    cbn. split.
    + f_equal. apply map_ext_elem. intros [k x] Hx. rewrite Hw. cbn.
      destruct (IsSensitiveKey k); [done|]. cbn. f_equal. apply (IH _ Hx).
    + rewrite existsb_false_elem. intros Hall. f_equal. rewrite <-(map_id o) at 2.
      apply map_ext_elem. intros [k x] Hx. specialize (Hall _ Hx). rewrite Hw in Hall.
      cbn in *. destruct (IsSensitiveKey k); [done|]. f_equal. by apply (IH _ Hx).
Qed.

Lemma redact_keys_clean v : clean (redact_keys v).
Proof.
  induction v as [| | | | | |s|l IH|l|o IH] using any_ind'; try by constructor 3.
  - rewrite Forall_forall in IH. cbn. constructor 1.
    intros v (x & -> & Hx)%list_elem_of_fmap. by apply IH.
  - rewrite Forall_forall in IH. cbn.
    constructor 2; intros k v (x & [= -> ->] & Hx)%list_elem_of_fmap Hk; rewrite Hk; [done|].
    by apply (IH x).
Qed.

Lemma redact_keys_idem v : redact_keys (redact_keys v) = redact_keys v.
Proof.
  induction v as [| | | | | |s|l IH|l|o IH] using any_ind'; try done; cbn; f_equal;
    rewrite map_map; rewrite Forall_forall in IH; apply map_ext_elem; intros x Hx; [by apply IH|].
  cbn. destruct (IsSensitiveKey x.1); [done|]. f_equal. by apply (IH x).
Qed.


(** ** The bound *)

Lemma bound_search_ok raw cap fuel low high best :
  (high - low < Z.of_nat fuel)%Z → (Z.of_nat (len best) <= cap)%Z →
  (∃ n, build raw cap n = Some best) →
  ∃ out, bound_search raw cap fuel low high best = Some out ∧ (Z.of_nat (len out) <= cap)%Z ∧
         ∃ n, build raw cap n = Some out.
Proof.
  revert low high best. induction fuel as [|fuel IH]; intros low high best Hfuel Hbest Hbuild;
    cbn [bound_search]; destruct (Z.leb_spec low high) as [Hle|]; [lia|by eexists| |by eexists].
  assert (0 <= (high - low) ÷ 2 <= high - low)%Z.
  { rewrite Z.quot_div_nonneg by lia. split; [apply Z.div_pos; lia|]. apply Z.div_le_upper_bound; lia. }
  destruct (fits cap _) eqn:Hfits; apply IH; try done; try lia;
    unfold fits in Hfits; destruct (build raw cap _) as [c|] eqn:Hc; try done; bool_split; cbn.
  - by apply Z.leb_le.
  - eexists. apply Hc.
Qed.

(** Bounding terminates for every payload and cap and the result
    fits the cap, except the two bytes of an empty object under a smaller cap; it is the
    payload itself when that fits, otherwise one of the truncation markers. *)
Lemma BoundPersistPayload_bound (raw : string) (cap : Z) :
  ∃ out, BoundPersistPayload raw cap = Some out ∧
    (Z.of_nat (len out) <= Z.max cap 2)%Z ∧
    ((Z.of_nat (len raw) <= cap)%Z → out = raw) ∧
    ((cap < Z.of_nat (len raw))%Z →
       (∃ n, build raw cap n = Some out) ∨ out = minimal ∨ out = "{}"%string).
Proof.
  unfold BoundPersistPayload. destruct (Z.leb_spec (Z.of_nat (len raw)) cap) as [Hle|Hgt].
  { eexists. split_and!; [done|lia|done|lia]. }
  destruct (fits cap (build raw cap 0)) eqn:Hfits; cbn [negb].
  - unfold fits in Hfits. destruct (build raw cap 0) as [best|] eqn:Hb; [|done]. bool_split.
    set (high := Z.min _ _). change (default EmptyString (Some best)) with best.
    edestruct (bound_search_ok raw cap (Z.to_nat (high + 1)) 0 high best) as (out & -> & Hlen & Hout);
      [lia|by apply Z.leb_le|by eexists|].
    eexists. split_and!; [done|lia|lia|by left].
  - destruct (Z.leb_spec (Z.of_nat (len minimal)) cap) as [Hmin|Hmin].
    + eexists. split_and!; [done|lia|lia|auto].
    + eexists. split_and!; [done| |lia|auto]. change (len "{}") with 2%nat. lia.
Qed.

(** C27: Every payload is written: what is marshalled has no readable
    credential-shaped key; under a cap of at least two bytes the result fits the cap and is
    the marshalled value whenever that fits; without a cap it is never truncated. *)
Theorem SafePersistPayload_safe (value : any) (opts : PersistOptions) :
  let cap := if (opt_MaxBytes opts =? 0)%Z then DefaultPersistMaxBytes else opt_MaxBytes opts in
  clean (persisted_value value opts) ∧
  ∃ out, SafePersistPayload value opts = Some out ∧
    ((2 <= cap)%Z → (Z.of_nat (len out) <= cap)%Z) ∧
    (∀ raw, Marshal (persisted_value value opts) = Some raw →
       (cap < 0 ∨ Z.of_nat (len raw) <= cap)%Z → out = raw).
Proof.
  intros cap. split.
  { unfold persisted_value, RedactSensitiveKeys.
    rewrite (proj1 (redactKeysCOW_spec _)). apply redact_keys_clean. }
  unfold SafePersistPayload. fold cap. destruct (Marshal (persisted_value value opts)) as [raw|].
  - destruct (Z.ltb_spec cap 0); [eexists; split_and!; [done|lia|congruence]|].
    destruct (BoundPersistPayload_bound raw cap) as (out & -> & Hlen & Hsame & _).
    eexists. split_and!; [done|lia|]. intros ? [= <-] [?|?]; [lia|auto].
  - eexists. split_and!; [done| |done]. change (len "{}") with 2%nat. lia.
Qed.
