(* ===== verification/Template.v ===== *)
(** The template engine (grammar/template.go): references of node configs and tool
    inputs resolved against a scope, the environment and the secret store, with
    the list of values to redact and the paths left unresolved. *)
From S2P Require Import Prelude GoStrings GoFloat GoAny Json JsValue Expression Redact.

Definition MaxRecordedUnresolvedPaths : nat := 20.

(** ** The two patterns *)

(** The bytes of [\s]. *)
Definition is_re_space (c : ascii) : bool :=
  (code c =? 9) || (code c =? 10) || (code c =? 12) || (code c =? 13) || (code c =? 32).
Definition not_close (c : ascii) : bool := negb (Ascii.eqb c "}").

(** A match of [\{\{\s*([^}]+?)\s*\}\}] at the head: the bytes between the braces,
    which hold at least one, and the rest. The group is them without the white
    space around, which [strings.TrimSpace] removes again. *)
Definition ref_at (l : list ascii) : option (list ascii * list ascii) :=
  match strip_prefix (bytes "{{") l with
  | None => None
  | Some l1 =>
      let '(content, l2) := span not_close l1 in
      match content, strip_prefix (bytes "}}") l2 with
      | _ :: _, Some l3 => Some (content, l3)
      | _, _ => None
      end
  end.

(** [singleRefPattern]: the reference with white space only around it. *)
Definition WholeTemplateReference (value : string) : string * bool :=
  let '(_, l) := span is_re_space (bytes value) in
  match ref_at l with
  | Some (content, rest) =>
      if forallb is_re_space rest then
        let expression := TrimSpace (of_bytes content) in
        if String.eqb expression "" then (""%string, false) else (expression, true)
      else (""%string, false)
  | None => (""%string, false)
  end.

(** ** Paths *)

Definition pathRoot (expr : string) : string := (Cut expr ".").1.1.

Fixpoint walk_keys (current : any) (path : list string) : option any :=
  match path with
  | [] => Some current
  | key :: path' =>
      let child := childValue current key in
      if isUndefined child then None else walk_keys child path'
  end.
Definition GetByPath (source : any) (path : string) : option any :=
  walk_keys source (Split path ".").

(** ** The state of a rendering *)

(** Nil sources read as all-missing. *)
Record RenderOptions := mkRenderOptions
  { LookupEnv : string → option string; LookupSecret : string → option string;
    DeferredRoots : list string }.

(** The [Seen] and [Set] maps hold the elements of the lists. *)
Record renderState := mkRenderState { redacted : list string; unresolved : list string }.

Record RenderResult := mkRenderResult
  { Rendered : any; RedactedValues : list string; UnresolvedPaths : list string }.

Definition trackRedacted (s : renderState) (value : string) : renderState :=
  if bool_decide (value ∈ redacted s) then s
  else mkRenderState (redacted s ++ [value]) (unresolved s).

Definition safe_path (path : string) : string :=
  if HasPrefix path "secret." then "secret.*"%string
  else if HasPrefix path "env." then "env.*"%string
  else if 160 <? len path then slice path 0 160
  else path.
Definition trackUnresolved (s : renderState) (path : string) : renderState :=
  let safe := safe_path path in
  if bool_decide (safe ∈ unresolved s) then s
  else mkRenderState (redacted s) (unresolved s ++ [safe]).

(** The error is the name of a [MissingSecretError]. *)
Definition MissingSecretError := string.

Section render.
Context (upper : string → string) (opts : RenderOptions) (scope : obj).

Definition resolveSecret (expr : string) (state : renderState)
  : res MissingSecretError (any * renderState) :=
  let name := ToUpper upper (TrimPrefix expr "secret.") in
  match LookupSecret opts name with
  | None => Err name
  | Some resolved =>
      guard negb (String.eqb resolved "") else name in
      Ok (AStr resolved,
          if MinRedactedLength <=? len resolved then trackRedacted state resolved else state)
  end.

Definition resolveEnv (expr : string) (state : renderState) : any * renderState :=
  let name := ToUpper upper (TrimPrefix expr "env.") in
  match LookupEnv opts name with
  | None => (AStr "", trackUnresolved state expr)
  | Some value =>
      (AStr value,
       if negb (String.eqb value "") && (MinRedactedLength <=? len value)
       then trackRedacted state value else state)
  end.

Definition deferred (expr : string) : bool := bool_decide (pathRoot expr ∈ DeferredRoots opts).

(** The text of a resolved value inside a longer string. *)
Definition interpolated (resolved : any) : string :=
  match resolved with
  | ANil => ""
  | AObj _ | AArr _ => default EmptyString (Marshal resolved)
  | _ => jsString resolved
  end.

(** One match of [multiRefPattern]: the text that replaces it. *)
Definition render_ref (match_ content : string) (state : renderState)
  : res MissingSecretError (string * renderState) :=
  let expr := TrimSpace content in
  if deferred expr then Ok (match_, state)
  else if HasPrefix expr "secret." then
    let? (resolved, state') := resolveSecret expr state in Ok (string_or_zero resolved, state')
  else if HasPrefix expr "env." then
    let '(resolved, state') := resolveEnv expr state in Ok (string_or_zero resolved, state')
  else match GetByPath (AObj scope) expr with
  | None => Ok (""%string, trackUnresolved state expr)
  | Some resolved => Ok (interpolated resolved, state)
  end.

(** [ReplaceAllStringFunc]: the matches from the left, the first error last. *)
Fixpoint render_refs (fuel : nat) (l : list ascii) (state : renderState)
  : res MissingSecretError (list ascii * renderState) :=
  match fuel, l with
  | S f, c :: l' =>
      match ref_at l with
      | Some (content, rest) =>
          let whole := of_bytes (bytes "{{" ++ content ++ bytes "}}") in
          let? (text, state1) := render_ref whole (of_bytes content) state in
          let? (out, state2) := render_refs f rest state1 in
          Ok (bytes text ++ out, state2)
      | None => let? (out, state1) := render_refs f l' state in Ok (c :: out, state1)
      end
  | _, _ => Ok ([], state)
  end.

Definition renderString (value : string) (state : renderState)
  : res MissingSecretError (any * renderState) :=
  match WholeTemplateReference value with
  | (expr, true) =>
      if deferred expr then Ok (AStr value, state)
      else if HasPrefix expr "secret." then resolveSecret expr state
      else if HasPrefix expr "env." then Ok (resolveEnv expr state)
      else match GetByPath (AObj scope) expr with
      | None => Ok (AStr "", trackUnresolved state expr)
      | Some ANil => Ok (AStr "", state)
      | Some resolved => Ok (resolved, state)
      end
  | _ => let? (out, state') := render_refs (len value) (bytes value) state in
         Ok (AStr (of_bytes out), state')
  end.
End render.

(** The items of a slice or map, from left to right. *)
Section render_all.
Context {A : Type} (render : A → renderState → res MissingSecretError (A * renderState)).
Fixpoint render_all (l : list A) (state : renderState)
  : res MissingSecretError (list A * renderState) :=
  match l with
  | [] => Ok ([], state)
  | x :: l' =>
      let? (y, state1) := render x state in
      let? (ys, state2) := render_all l' state1 in Ok (y :: ys, state2)
  end.
End render_all.

Fixpoint renderValue (upper : string → string) (opts : RenderOptions) (scope : obj)
    (value : any) (state : renderState) : res MissingSecretError (any * renderState) :=
  match value with
  | AStr v => renderString upper opts scope v state
  | AArr v => let? (out, state') := render_all (renderValue upper opts scope) v state in
              Ok (AArr out, state')
  | AObj v =>
      let? (out, state') :=
        render_all (λ kv st, let? (x, st') := renderValue upper opts scope kv.2 st in
                             Ok ((kv.1, x), st')) v state in
      Ok (AObj out, state')
  | _ => Ok (value, state)
  end.

Definition RenderTemplateWithRedactions (upper : string → string) (value : any) (scope : obj)
    (opts : RenderOptions) : res MissingSecretError RenderResult :=
  let? (rendered, state) := renderValue upper opts scope value (mkRenderState [] []) in
  Ok (mkRenderResult rendered (redacted state) (sort_strings (unresolved state))).

Definition no_options : RenderOptions := mkRenderOptions (λ _, None) (λ _, None) [].
Definition RenderTemplate (upper : string → string) (value : any) (scope : obj)
  : res MissingSecretError any :=
  let? result := RenderTemplateWithRedactions upper value scope no_options in Ok (Rendered result).

Definition MapInput (upper : string → string) (mapping : any) (scope : obj)
  : res MissingSecretError any :=
  match mapping with
  | ANil => Ok (AObj [])
  | _ => RenderTemplate upper mapping scope
  end.

(** The strict-policy envelope. *)
Record UnresolvedTemplatePathError := mkUnresolved
  { Count : nat; Paths : list string; Truncated : bool }.
Definition NewUnresolvedTemplatePathError (paths : list string) : UnresolvedTemplatePathError :=
  let bounded := if MaxRecordedUnresolvedPaths <? length paths
                 then take MaxRecordedUnresolvedPaths paths else paths in
  mkUnresolved (length paths) bounded (length bounded <? length paths).
Definition UnresolvedTemplatePathError_Error (e : UnresolvedTemplatePathError) : string :=
  "Node config contains " +:+ Itoa (Z.of_nat (Count e)) +:+ " unresolved template path"
    +:+ (if Count e =? 1 then "" else "s").

Example render_whole :
  RenderTemplate id (AStr " {{ context.a.0 }} ") [("context", AObj [("a", AArr [ABool true])])]%string
  = Ok (ABool true).
Proof. vm_compute. reflexivity. Qed.
Example render_mixed :
  RenderTemplate id (AStr "x={{context.a}}, y={{ context.b }}{{}}!")
    [("context", AObj [("a", ABool true)])]%string
  = Ok (AStr "x=true, y={{}}!").
Proof. vm_compute. reflexivity. Qed.
