(* ===== verification/TemplateFacts.v ===== *)
(** What a rendering reveals: the rendered value depends on no secret or
    environment value of at least four bytes outside its redaction list. *)
From S2P Require Import Prelude GoStrings GoFloat GoAny JsValue Expression Redact Template.

#[local] Arguments Nat.leb : simpl never.
#[local] Arguments MinRedactedLength : simpl never.

(** [agrees R f g]: [g] answers like [f], except perhaps where [f] gives a value
    long enough to be tracked that is not in [R]. *)
Definition agrees (R : list string) (f g : string → option string) : Prop :=
  ∀ n, g n = f n ∨ ∃ v, f n = Some v ∧ MinRedactedLength ≤ len v ∧ v ∉ R.

Lemma agrees_mono R1 R2 f g : R1 ⊆ R2 → agrees R2 f g → agrees R1 f g.
Proof. intros Hsub Hag n. destruct (Hag n) as [|(v & ? & ? & ?)]; [by left|right; exists v; set_solver]. Qed.

Section noninterference.
Context (upper : string → string) (scope : obj) (o1 o2 : RenderOptions)
  (Hroots : DeferredRoots o2 = DeferredRoots o1).

Definition same_stores (R : list string) : Prop :=
  agrees R (LookupEnv o1) (LookupEnv o2) ∧ agrees R (LookupSecret o1) (LookupSecret o2).

(** A step that only adds to the redaction list, and gives the same result under
    any stores that agree with it on what the list holds. *)
Definition blind {A} (c1 c2 : renderState → res MissingSecretError (A * renderState)) : Prop :=
  ∀ st x st', c1 st = Ok (x, st') →
    redacted st ⊆ redacted st' ∧ (same_stores (redacted st') → c2 st = Ok (x, st')).

Lemma blind_ret {A} (f : renderState → A * renderState) :
  (∀ st, redacted st ⊆ redacted (f st).2) → blind (λ st, Ok (f st)) (λ st, Ok (f st)).
Proof. intros Hf st x st' [= Heq]. specialize (Hf st). rewrite Heq in Hf. by rewrite Heq. Qed.

Lemma blind_bind {A B} c1 c2 (k1 k2 : A → renderState → res MissingSecretError (B * renderState)) :
  blind c1 c2 → (∀ x, blind (k1 x) (k2 x)) →
  blind (λ st, let? (x, st') := c1 st in k1 x st') (λ st, let? (x, st') := c2 st in k2 x st').
Proof.
  intros Hc Hk st y st2 Heq. destruct (c1 st) as [[x st1]|e] eqn:Hc1; [|done]. cbn in Heq.
  destruct (Hc _ _ _ Hc1) as [Hsub1 Hsame1]. destruct (Hk x _ _ _ Heq) as [Hsub2 Hsame2].
  split; [set_solver|]. intros Hag.
  rewrite Hsame1; [by apply Hsame2|].
  destruct Hag. by split; eapply agrees_mono.
Qed.

Lemma trackRedacted_spec st v : redacted st ⊆ redacted (trackRedacted st v) ∧ v ∈ redacted (trackRedacted st v).
Proof. unfold trackRedacted. case_bool_decide; cbn; set_solver. Qed.
Lemma trackUnresolved_redacted st p : redacted (trackUnresolved st p) = redacted st.
Proof. unfold trackUnresolved. by case_bool_decide. Qed.

Lemma blind_secret expr : blind (resolveSecret upper o1 expr) (resolveSecret upper o2 expr).
Proof.
  intros st x st'. unfold resolveSecret. set (n := ToUpper upper _).
  destruct (LookupSecret o1 n) as [v|] eqn:Hv; [|done].
  destruct (negb (String.eqb v "")) eqn:Hne; [|done]. intros [= <- <-].
  destruct (MinRedactedLength <=? len v)%nat eqn:Hlen.
  - destruct (trackRedacted_spec st v) as [Hsub Hin]. split; [done|]. intros [_ Hag].
    destruct (Hag n) as [->|(w & Hw & _ & Hw')]; [|congruence]. by rewrite Hv, Hne, Hlen.
  - split; [done|]. intros [_ Hag]. apply Nat.leb_gt in Hlen.
    destruct (Hag n) as [->|(w & Hw & Hw' & _)]; [|simplify_eq; lia].
    rewrite Hv, Hne. by apply Nat.leb_gt in Hlen as ->.
Qed.

Lemma blind_env expr :
  blind (λ st, Ok (resolveEnv upper o1 expr st)) (λ st, Ok (resolveEnv upper o2 expr st)).
Proof.
  intros st x st'. unfold resolveEnv. set (n := ToUpper upper _).
  destruct (LookupEnv o1 n) as [v|] eqn:Hv.
  2: { intros [= <- <-]. rewrite trackUnresolved_redacted. split; [done|]. intros [Hag _].
       destruct (Hag n) as [->|(w & Hw & _)]; [by rewrite Hv|congruence]. }
  intros [= <- <-]. destruct (MinRedactedLength <=? len v)%nat eqn:Hlen.
  - destruct (negb (String.eqb v "")) eqn:Hne; cbn [andb].
    + destruct (trackRedacted_spec st v) as [Hsub Hin]. split; [done|]. intros [Hag _].
      destruct (Hag n) as [->|(w & Hw & _ & Hw')]; [by rewrite Hv, Hne, Hlen|congruence].
    + bool_split. subst v. by vm_compute in Hlen.
  - rewrite andb_false_r. split; [done|]. intros [Hag _]. apply Nat.leb_gt in Hlen as Hlt.
    destruct (Hag n) as [->|(w & Hw & Hw' & _)]; [|simplify_eq; lia].
    by rewrite Hv, Hlen, andb_false_r.
Qed.

Lemma deferred_same expr : deferred o2 expr = deferred o1 expr.
Proof. unfold deferred. by rewrite Hroots. Qed.

Lemma blind_ref whole content :
  blind (render_ref upper o1 scope whole content) (render_ref upper o2 scope whole content).
Proof.
  unfold render_ref. set (expr := TrimSpace content). cbv zeta.
  intros st x st'. rewrite deferred_same.
  destruct (deferred o1 expr); [by intros [= <- <-]|].
  destruct (HasPrefix expr "secret.").
  { apply (blind_bind _ _ _ _ (blind_secret expr)). intros y. by apply (blind_ret (λ st, (_, st))). }
  destruct (HasPrefix expr "env.").
  { intros Heq. pose proof (blind_bind _ _ _ _ (blind_env expr)
      (λ y, blind_ret (λ st, (string_or_zero y, st)) (λ st, reflexivity _))) as Hb.
    specialize (Hb st x st'). cbn in Hb. destruct (resolveEnv upper o1 expr st) as [y s].
    destruct (Hb Heq) as [Hsub Hsame]. split; [done|]. intros Hag. specialize (Hsame Hag).
    by destruct (resolveEnv upper o2 expr st). }
  destruct (GetByPath _ _); intros [= <- <-]; [done|]. by rewrite trackUnresolved_redacted.
Qed.

Lemma blind_refs fuel l :
  blind (render_refs upper o1 scope fuel l) (render_refs upper o2 scope fuel l).
Proof.
  revert l. induction fuel as [|fuel IH]; intros l; [by apply (blind_ret (λ st, ([], st)))|].
  destruct l as [|c l]; [by apply (blind_ret (λ st, ([], st)))|]. cbn [render_refs].
  destruct (ref_at (c :: l)) as [[content rest]|].
  - apply (blind_bind _ _ _ _ (blind_ref _ _)). intros text.
    apply (blind_bind _ _ _ _ (IH _)). intros out. by apply (blind_ret (λ st, (_, st))).
  - apply (blind_bind _ _ _ _ (IH _)). intros out. by apply (blind_ret (λ st, (_, st))).
Qed.

Lemma blind_string value :
  blind (renderString upper o1 scope value) (renderString upper o2 scope value).
Proof.
  unfold renderString. destruct (WholeTemplateReference value) as [expr [|]].
  - intros st x st'. rewrite deferred_same.
    destruct (deferred o1 expr); [by intros [= <- <-]|].
    destruct (HasPrefix expr "secret."); [apply blind_secret|].
    destruct (HasPrefix expr "env."); [apply blind_env|].
    destruct (GetByPath _ _) as [[]|]; intros [= <- <-]; try done.
    by rewrite trackUnresolved_redacted.
  - apply (blind_bind _ _ _ _ (blind_refs _ _)). intros out. by apply (blind_ret (λ st, (_, st))).
Qed.

Lemma blind_all {A} (r1 r2 : A → renderState → res MissingSecretError (A * renderState)) l :
  (∀ x, x ∈ l → blind (r1 x) (r2 x)) → blind (render_all r1 l) (render_all r2 l).
Proof.
  induction l as [|x l IH]; intros Hr; [by apply (blind_ret (λ st, ([], st)))|]. cbn [render_all].
  apply (blind_bind _ _ _ _ (Hr x ltac:(set_solver))). intros y.
  apply (blind_bind _ _ _ _ (IH ltac:(set_solver))). intros ys. by apply (blind_ret (λ st, (_, st))).
Qed.

Lemma blind_value value :
  blind (renderValue upper o1 scope value) (renderValue upper o2 scope value).
Proof.
  induction value as [| | | | | |s|l IH|l|o IH] using any_ind';
    try (by apply (blind_ret (λ st, (_, st)))); cbn [renderValue].
  - apply blind_string.
  - rewrite Forall_forall in IH. apply (blind_bind _ _ _ _ (blind_all _ _ _ IH)).
    intros out. by apply (blind_ret (λ st, (_, st))).
  - rewrite Forall_forall in IH. apply (blind_bind (A := obj)).
    + apply blind_all. intros [k x] Hx. cbn.
      apply (blind_bind _ _ _ _ (IH _ Hx)). intros y. by apply (blind_ret (λ st, (_, st))).
    + intros out. by apply (blind_ret (λ st, (_, st))).
Qed.
End noninterference.

(** C29: A rendered template depends on no tracked secret or
    environment value outside the redaction list: replacing every value of at least four
    bytes that is not in the list by any other, or by none, gives the same result. *)
Theorem rendering_reveals_only_redacted (upper : string → string) (value : any) (scope : obj)
    (o1 o2 : RenderOptions) (r : RenderResult) :
  RenderTemplateWithRedactions upper value scope o1 = Ok r →
  DeferredRoots o2 = DeferredRoots o1 →
  agrees (RedactedValues r) (LookupEnv o1) (LookupEnv o2) →
  agrees (RedactedValues r) (LookupSecret o1) (LookupSecret o2) →
  RenderTemplateWithRedactions upper value scope o2 = Ok r.
Proof.
  unfold RenderTemplateWithRedactions. intros Hr Hroots Henv Hsec.
  destruct (renderValue upper o1 scope value _) as [[out st]|] eqn:H1; [|done].
  injection Hr as <-. destruct (blind_value upper scope o1 o2 Hroots value _ _ _ H1) as [_ Hsame].
  by rewrite Hsame.
Qed.

Definition demo_options (key token : option string) : RenderOptions :=
  mkRenderOptions (λ _, None)
    (λ n, if String.eqb n "KEY" then key else if String.eqb n "TOKEN" then token else None) [].

Lemma rendering_reveals_only_redacted_witness :
  RenderTemplateWithRedactions id (AStr "Bearer {{secret.key}}") [] (demo_options (Some "abcd") None)
  = Ok (mkRenderResult (AStr "Bearer abcd") ["abcd"] [])%string.
Proof.
  apply (rendering_reveals_only_redacted id _ _ (demo_options (Some "abcd") (Some "0123456789"))%string);
    [vm_compute; reflexivity|reflexivity|intros n; by left|].
  intros n. unfold demo_options. cbn. destruct (String.eqb n "KEY"); [by left|].
  destruct (String.eqb n "TOKEN"); [|by left]. right. exists "0123456789"%string.
  split; [done|]. split; [vm_compute; lia|]. by intros ?%list_elem_of_singleton.
Defined.
