(* ===== verification/Graph.v ===== *)
(** The workflow graph (domain/workflow.go [Node], [Edge]) and its cycle check
    (domain/validate.go [hasCycle]): an iterative three-colour depth-first search
    with an explicit stack of frames. *)
From S2P Require Import Prelude GoStrings GoAny.

Record Node := mkNode { ID : string; Type_ : string; Label : string; Config : obj }.

Record Edge := mkEdge
  { EdgeID : string; From : string; To : string; Condition : string; OnError : bool }.

(** ** The adjacency of [hasCycle] *)

(** [graph[node.ID] = nil] for every node, then the targets of every edge whose
    source is a key, in edge order. *)
Definition graph_nodes (nodes : list Node) : gmap string (list string) :=
  fold_left (λ g n, <[ID n := []]> g) nodes ∅.
Definition graph_edge (g : gmap string (list string)) (e : Edge) : gmap string (list string) :=
  match g !! From e with
  | Some ts => <[From e := ts ++ [To e]]> g
  | None => g
  end.
Definition build_graph (nodes : list Node) (edges : list Edge) : gmap string (list string) :=
  fold_left graph_edge edges (graph_nodes nodes).

(** [graph[id]]: nil for a missing key. *)
Definition successors (g : gmap string (list string)) (id : string) : list string :=
  default [] (g !! id).

(** ** The search *)

(** The constants [unvisited], [visiting] and [visited]; a missing key of the
    [state] map reads as [unvisited]. *)
Inductive color := unvisited | visiting | visited.
#[export] Instance color_eq_dec : EqDecision color.
Proof. solve_decision. Defined.

Abbreviation colors := (gmap string color).
Definition color_of (state : colors) (id : string) : color := default unvisited (state !! id).

Record frame := mkFrame { frame_id : string; frame_next : nat }.

(** One iteration of the inner loop on a non-empty stack, whose head is the top. *)
Inductive dfs_result := DfsCycle | DfsNext (state : colors) (stack : list frame).

Definition dfs_step (g : gmap string (list string)) (state : colors)
    (current : frame) (rest : list frame) : dfs_result :=
  let '(mkFrame id next) := current in
  match successors g id !! next with
  | None => DfsNext (<[id := visited]> state) rest
  | Some nextID =>
      let stack := mkFrame id (S next) :: rest in
      match color_of state nextID with
      | visiting => DfsCycle
      | visited => DfsNext state stack
      | unvisited => DfsNext (<[nextID := visiting]> state) (mkFrame nextID 0 :: stack)
      end
  end.

(** [for len(stack) > 0]: [None] when the fuel runs out, [Some None] for
    [return true], otherwise the colours when the stack is empty. *)
Fixpoint dfs_loop (fuel : nat) (g : gmap string (list string)) (state : colors)
    (stack : list frame) : option (option colors) :=
  match stack with
  | [] => Some (Some state)
  | current :: rest =>
      match fuel with
      | 0 => None
      | S f =>
          match dfs_step g state current rest with
          | DfsCycle => Some None
          | DfsNext state' stack' => dfs_loop f g state' stack'
          end
      end
  end.

(** The loop over the nodes. *)
Fixpoint dfs_nodes (fuel : nat) (g : gmap string (list string)) (nodes : list Node)
    (state : colors) : option (option colors) :=
  match nodes with
  | [] => Some (Some state)
  | node :: rest =>
      if bool_decide (color_of state (ID node) = unvisited) then
        match dfs_loop fuel g (<[ID node := visiting]> state) [mkFrame (ID node) 0] with
        | Some (Some state') => dfs_nodes fuel g rest state'
        | r => r
        end
      else dfs_nodes fuel g rest state
  end.

(** Every id a frame can carry, and a bound on the iterations of one search:
    each id is pushed at most once and visited once per outgoing edge plus one. *)
Definition dfs_ids (nodes : list Node) (edges : list Edge) : list string :=
  (ID <$> nodes) ++ (To <$> edges).
Definition dfs_cost (g : gmap string (list string)) (id : string) : nat :=
  S (length (successors g id)).
Definition dfs_fuel (nodes : list Node) (edges : list Edge) : nat :=
  sum_list (dfs_cost (build_graph nodes edges) <$> dfs_ids nodes edges).

Definition hasCycle (nodes : list Node) (edges : list Edge) : option bool :=
  match dfs_nodes (dfs_fuel nodes edges) (build_graph nodes edges) nodes ∅ with
  | None => None
  | Some None => Some true
  | Some (Some _) => Some false
  end.

(** ** The specification: the edges whose source is a declared node *)

Definition edge_rel (nodes : list Node) (edges : list Edge) (x y : string) : Prop :=
  x ∈ ID <$> nodes ∧ ∃ e, e ∈ edges ∧ From e = x ∧ To e = y.
