(* ===== verification/GraphFacts.v ===== *)
(** The cycle check decides whether the workflow graph has a cycle, and its
    search always terminates. *)
From S2P Require Import Prelude GoStrings GoAny Graph.
From stdpp Require Import relations.

(** ** The adjacency *)

Lemma graph_nodes_lookup nodes x :
  graph_nodes nodes !! x = if bool_decide (x ∈ ID <$> nodes) then Some [] else None.
Proof.
  unfold graph_nodes.
  assert (∀ l g, fold_left (λ (g : gmap string (list string)) n, <[ID n := []]> g) l g !! x =
    if bool_decide (x ∈ ID <$> l) then Some [] else g !! x) as Hgen.
  { induction l as [|n l IH]; intros g; csimpl; [done|]. rewrite IH.
    destruct (decide (x = ID n)) as [->|Hx].
    - rewrite lookup_insert_eq. rewrite !bool_decide_decide.
      destruct (decide (ID n ∈ _ :: _)) as [_|Hn]; [by destruct (decide _)|].
      exfalso. apply Hn. set_solver.
    - rewrite lookup_insert_ne by done.
      by rewrite (bool_decide_ext (x ∈ ID n :: (ID <$> l)) (x ∈ ID <$> l)) by set_solver. }
  rewrite Hgen, lookup_empty. by destruct (bool_decide _).
Qed.

Lemma build_graph_successors nodes edges x y :
  y ∈ successors (build_graph nodes edges) x ↔ edge_rel nodes edges x y.
Proof.
  assert (∀ l g, y ∈ successors (fold_left graph_edge l g) x ↔
    y ∈ successors g x ∨ is_Some (g !! x) ∧ ∃ e, e ∈ l ∧ From e = x ∧ To e = y) as Hgen.
  { induction l as [|e l IH]; intros g; csimpl; [set_solver|]. rewrite IH. clear IH.
    unfold graph_edge, successors.
    destruct (g !! From e) as [ts|] eqn:He.
    - destruct (decide (From e = x)) as [<-|Hx].
      + rewrite lookup_insert_eq, He. cbn. rewrite elem_of_app, list_elem_of_singleton.
        split; [|set_solver]. intros [[?| ->]|(_ & e' & ?)]; [by left|..]; right;
          (split; [by eexists|]); [exists e|exists e']; set_solver.
      + rewrite lookup_insert_ne by done. set_solver.
    - destruct (decide (From e = x)) as [<-|Hx]; [|set_solver].
      rewrite He. split; [|intros [?|[[? [=]] _]]]; [intros [?|[[? [=]] _]]|]; by left. }
  unfold build_graph. rewrite Hgen. unfold edge_rel, successors.
  rewrite graph_nodes_lookup. case_bool_decide as Hx; cbn.
  - split; [intros [?%elem_of_nil|[_ ?]]; done|]. intros [_ ?]. right. by split; [eexists|].
  - split; [intros [?%elem_of_nil|[[? [=]] _]]; done|]. tauto.
Qed.

(** ** The invariant of the search *)

Section search.
Context (g : gmap string (list string)).
Definition E (x y : string) : Prop := y ∈ successors g x.

(** No infinite walk starts at a [done_id]. *)
Abbreviation done_id := (Acc (flip E)).

(** [stack_ok above stack]: the frame under [above] leads to it, and every
    successor a frame has passed, [above] excepted, is done. *)
Inductive stack_ok : option string → list frame → Prop :=
| stack_nil above : stack_ok above []
| stack_cons above f rest :
    (∀ i y, i < frame_next f → successors g (frame_id f) !! i = Some y →
       done_id y ∨ above = Some y) →
    (∀ a, above = Some a → E (frame_id f) a) →
    stack_ok (Some (frame_id f)) rest → stack_ok above (f :: rest).

(** The colours: grey exactly on the stack, black only when done. *)
Record search_ok (state : colors) (stack : list frame) : Prop := {
  so_stack : stack_ok None stack;
  so_grey : ∀ x, color_of state x = visiting ↔ x ∈ frame_id <$> stack;
  so_black : ∀ x, color_of state x = visited → done_id x;
  so_nodup : NoDup (frame_id <$> stack) }.

Lemma color_of_insert state x c y :
  color_of (<[x := c]> state) y = if decide (x = y) then c else color_of state y.
Proof.
  unfold color_of. case_decide as Hxy.
  - subst. by rewrite lookup_insert_eq.
  - by rewrite lookup_insert_ne.
Qed.

Lemma stack_ok_pop a rest : done_id a → stack_ok (Some a) rest → stack_ok None rest.
Proof.
  intros Ha Hok. inversion Hok as [|? f rest' Hpast Habove Hrest]; subst; constructor; [|done..].
  intros i y Hi Hy. destruct (Hpast i y Hi Hy) as [|[= ->]]; by left.
Qed.

(** A frame of the stack reaches the top. *)
Lemma stack_path above stack x :
  stack_ok above stack → x ∈ frame_id <$> stack →
  ∀ a, above = Some a → tc E x a.
Proof.
  induction 1 as [|above f rest _ Habove _ IH]; csimpl; [by rewrite elem_of_nil|].
  intros [->|Hx]%elem_of_cons a Ha; [by apply tc_once, Habove|].
  eapply tc_r; [by apply IH|]. by apply Habove.
Qed.

Lemma dfs_step_ok state current rest :
  search_ok state (current :: rest) →
  match dfs_step g state current rest with
  | DfsCycle => ∃ x, tc E x x
  | DfsNext state' stack' => search_ok state' stack'
  end.
Proof.
  intros [Hst Hgrey Hblack Hnd]. destruct current as [id next]. cbn -[successors].
  inversion Hst as [|? ? ? Hpast _ Hrest]; subst. cbn in *.
  apply NoDup_cons in Hnd as [Hid Hnd].
  destruct (successors g id !! next) as [y|] eqn:Hy.
  - assert (E id y) as Hidy by (by eapply list_elem_of_lookup_2).
    destruct (color_of state y) eqn:Hc.
    + split; [|..].
      * constructor; cbn; [intros ?? ?; lia|done|].
        constructor; cbn; [|by intros ? [= <-]|done].
        intros i z Hi Hz. destruct (decide (i = next)) as [->|Hn]; [right; congruence|].
        destruct (Hpast i z) as [?|?]; [lia|done|by left|done].
      * intros z. rewrite color_of_insert. cbn. case_decide as Hz; [set_solver|].
        rewrite Hgrey. set_solver.
      * intros z. rewrite color_of_insert. case_decide; [done|]. apply Hblack.
      * cbn. assert (y ∉ id :: (frame_id <$> rest)).
        { intros Hin. apply Hgrey in Hin. congruence. }
        by constructor; [|constructor].
    + apply Hgrey in Hc. exists y. apply elem_of_cons in Hc as [->|Hin]; [by apply tc_once|].
      eapply tc_r; [by eapply stack_path|done].
    + split; [|done|done|by constructor]. constructor; cbn; [|done|done].
      intros i z Hi Hz. destruct (decide (i = next)) as [->|Hn].
      * left. rewrite Hy in Hz. injection Hz as <-. by apply Hblack.
      * destruct (Hpast i z) as [?|?]; [lia|done|by left|done].
  - assert (done_id id) as Hdone.
    { constructor. intros y Hy'. apply list_elem_of_lookup in Hy' as [i Hi].
      apply lookup_ge_None in Hy. pose proof (lookup_lt_Some _ _ _ Hi).
      destruct (Hpast i y) as [?|?]; [lia|done..]. }
    split.
    + by eapply stack_ok_pop.
    + intros z. rewrite color_of_insert. case_decide as Hz; [|rewrite Hgrey; set_solver].
      subst. split; [done|]. intros Hin. by destruct Hid.
    + intros z. rewrite color_of_insert. case_decide; [by subst|]. apply Hblack.
    + done.
Qed.

(** ** Termination *)

Section termination.
Context (ids : list string) (Hclosed : ∀ x y, E x y → y ∈ ids).

Definition unvisited_cost (state : colors) (u : string) : nat :=
  if bool_decide (color_of state u = unvisited) then dfs_cost g u else 0.
Definition frame_cost (f : frame) : nat := dfs_cost g (frame_id f) - frame_next f.
#[local] Arguments frame_cost : simpl never.
Definition dfs_measure (state : colors) (stack : list frame) : nat :=
  sum_list (unvisited_cost state <$> ids) + sum_list (frame_cost <$> stack).

Definition frame_ok (f : frame) : Prop := frame_next f ≤ length (successors g (frame_id f)).

Lemma unvisited_cost_paint state x c :
  c ≠ unvisited →
  sum_list (unvisited_cost (<[x := c]> state) <$> ids) ≤ sum_list (unvisited_cost state <$> ids).
Proof.
  intros Hc. apply sum_list_fmap_le. intros u _. unfold unvisited_cost.
  rewrite color_of_insert. case_decide; [|done]. rewrite bool_decide_eq_false_2 by done. lia.
Qed.

Lemma unvisited_cost_drop state x c :
  c ≠ unvisited → x ∈ ids → color_of state x = unvisited →
  sum_list (unvisited_cost (<[x := c]> state) <$> ids) + dfs_cost g x
  ≤ sum_list (unvisited_cost state <$> ids).
Proof.
  intros Hc Hx Hun. apply sum_list_fmap_drop with (x := x); [done|..].
  - unfold unvisited_cost. rewrite color_of_insert, decide_True by done.
    rewrite bool_decide_eq_false_2, bool_decide_eq_true_2 by done. lia.
  - intros u _. unfold unvisited_cost. rewrite color_of_insert.
    case_decide; [|done]. rewrite bool_decide_eq_false_2 by done. lia.
Qed.

Lemma dfs_step_measure state current rest state' stack' :
  Forall frame_ok (current :: rest) →
  dfs_step g state current rest = DfsNext state' stack' →
  Forall frame_ok stack' ∧ dfs_measure state' stack' < dfs_measure state (current :: rest).
Proof.
  intros [Hf Hrest]%Forall_cons Hstep. destruct current as [id next].
  unfold frame_ok in Hf. cbn in Hf. unfold dfs_measure, dfs_step in *. csimpl.
  assert (frame_cost (mkFrame id next) = S (length (successors g id)) - next) as -> by done.
  destruct (successors g id !! next) as [y|] eqn:Hy.
  - pose proof (lookup_lt_Some _ _ _ Hy).
    assert (frame_ok (mkFrame id (S next))) by (unfold frame_ok; cbn; lia).
    assert (frame_cost (mkFrame id (S next)) = S (length (successors g id)) - S next) as Hcost by done.
    assert (E id y) as Hidy by (by eapply list_elem_of_lookup_2).
    destruct (color_of state y) eqn:Hc; [|done|]; injection Hstep as <- <-; csimpl.
    + split; [by repeat constructor; unfold frame_ok; cbn; try lia|].
      pose proof (unvisited_cost_drop state y visiting ltac:(done) (Hclosed _ _ Hidy) Hc).
      unfold dfs_cost in *. rewrite Hcost. lia.
    + split; [by constructor|]. rewrite Hcost. lia.
  - apply lookup_ge_None in Hy. injection Hstep as <- <-. split; [done|].
    pose proof (unvisited_cost_paint state id visited ltac:(done)). lia.
Qed.

Lemma dfs_loop_ok fuel state stack :
  dfs_measure state stack ≤ fuel → Forall frame_ok stack → search_ok state stack →
  match dfs_loop fuel g state stack with
  | None => False
  | Some None => ∃ x, tc E x x
  | Some (Some state') => search_ok state' [] ∧
      (∀ x, color_of state x = visited → color_of state' x = visited) ∧
      (∀ x, x ∈ frame_id <$> stack → color_of state' x = visited)
  end.
Proof.
  revert state stack. induction fuel as [|fuel IH]; intros state stack Hfuel Hframes Hok.
  - destruct stack as [|[id next] rest]; [by split_and!; [..|set_solver]|].
    apply Forall_cons in Hframes as [Hf _]. unfold frame_ok in Hf. cbn in Hf.
    unfold dfs_measure in Hfuel. csimpl. unfold frame_cost, dfs_cost in Hfuel. cbn in Hfuel. lia.
  - destruct stack as [|current rest]; [by split_and!; [..|set_solver]|].
    cbn [dfs_loop]. pose proof (dfs_step_ok state current rest Hok) as Hnext.
    destruct (dfs_step g state current rest) as [|state' stack'] eqn:Hstep; [done|].
    destruct (dfs_step_measure _ _ _ _ _ Hframes Hstep) as [Hframes' Hlt].
    specialize (IH state' stack' ltac:(lia) Hframes' Hnext).
    destruct (dfs_loop fuel g state' stack') as [[state''|]|]; [|done..].
    destruct IH as (Hdone & Hmono & Hstack). destruct current as [id next]. unfold dfs_step in Hstep.
    destruct Hok as [_ Hgrey _ _].
    destruct (successors g id !! next) as [y|] eqn:Hy;
      [destruct (color_of state y) eqn:Hc; [|done|]|]; injection Hstep as <- <-;
      (split; [done|]); csimpl.
    + split; intros x Hx; [|apply Hstack; set_solver].
      apply Hmono. rewrite color_of_insert. case_decide; [congruence|done].
    + by split.
    + split.
      * intros x Hx. apply Hmono. rewrite color_of_insert. by case_decide.
      * intros x [->|Hx]%elem_of_cons; [|by apply Hstack].
        apply Hmono. rewrite color_of_insert. by rewrite decide_True.
Qed.


(** Painting a root grey starts a search in a good state. *)
Lemma search_ok_root state x :
  search_ok state [] → color_of state x = unvisited →
  search_ok (<[x := visiting]> state) [mkFrame x 0].
Proof.
  intros [_ Hgrey Hblack _] Hx. split.
  - constructor; cbn; [intros ?? ?; lia|done|constructor].
  - intros z. rewrite color_of_insert. csimpl. rewrite list_elem_of_singleton.
    case_decide; [by subst|]. rewrite Hgrey. set_solver.
  - intros z. rewrite color_of_insert. case_decide; [done|apply Hblack].
  - apply NoDup_singleton.
Qed.

Lemma dfs_measure_root state x :
  x ∈ ids → color_of state x = unvisited →
  dfs_measure (<[x := visiting]> state) [mkFrame x 0] ≤ sum_list (dfs_cost g <$> ids).
Proof.
  intros Hx Hun. unfold dfs_measure.
  pose proof (unvisited_cost_drop state x visiting ltac:(done) Hx Hun).
  assert (sum_list (unvisited_cost state <$> ids) ≤ sum_list (dfs_cost g <$> ids)).
  { apply sum_list_fmap_le. intros u _. unfold unvisited_cost. case_bool_decide; lia. }
  csimpl. unfold dfs_cost in *. lia.
Qed.

Lemma dfs_nodes_ok nodes fuel state :
  (∀ n, n ∈ nodes → ID n ∈ ids) → sum_list (dfs_cost g <$> ids) ≤ fuel → search_ok state [] →
  match dfs_nodes fuel g nodes state with
  | None => False
  | Some None => ∃ x, tc E x x
  | Some (Some state') => search_ok state' [] ∧
      (∀ x, color_of state x = visited → color_of state' x = visited) ∧
      (∀ n, n ∈ nodes → color_of state' (ID n) = visited)
  end.
Proof.
  intros Hin Hfuel. revert state. induction nodes as [|n nodes IH]; intros state Hok; cbn.
  { by split_and!; [..|set_solver]. }
  specialize (IH ltac:(set_solver)). case_bool_decide as Hun.
  - pose proof (dfs_measure_root state (ID n) ltac:(set_solver) Hun).
    pose proof (dfs_loop_ok fuel (<[ID n := visiting]> state) [mkFrame (ID n) 0] ltac:(lia)
      ltac:(repeat constructor; unfold frame_ok; cbn; lia) (search_ok_root _ _ Hok Hun)) as Hloop.
    destruct (dfs_loop fuel g _ _) as [[state'|]|]; [|done..].
    destruct Hloop as (Hok' & Hmono & Hroot). specialize (IH state' Hok').
    destruct (dfs_nodes fuel g nodes state') as [[state''|]|]; [|done..].
    destruct IH as (Hok'' & Hmono' & Hall). split_and!; [done|..].
    + intros x Hx. apply Hmono', Hmono. rewrite color_of_insert. case_decide; [congruence|done].
    + intros m [->|Hm]%elem_of_cons; [|by apply Hall]. apply Hmono', Hroot. set_solver.
  - specialize (IH state Hok).
    destruct (dfs_nodes fuel g nodes state) as [[state''|]|]; [|done..].
    destruct IH as (Hok'' & Hmono' & Hall). split_and!; [done..|].
    intros m [->|Hm]%elem_of_cons; [|by apply Hall]. apply Hmono'.
    destruct (color_of state (ID n)) eqn:Hc; [done| |done].
    apply Hok in Hc. by apply elem_of_nil in Hc.
Qed.
End termination.
End search.

Lemma Acc_no_cycle {A} (R : relation A) x : Acc (flip R) x → ¬ tc R x x.
Proof.
  intros Hacc. induction Hacc as [x _ IH]. intros Hx.
  inversion Hx as [? ? Hxx|? y ? Hxy Hyx]; subst; [by eapply (IH x)|].
  eapply (IH y Hxy). by eapply tc_r.
Qed.

(** The answer of the search: a cycle, or every walk is finite. *)
Lemma hasCycle_spec nodes edges :
  match hasCycle nodes edges with
  | None => False
  | Some true => ∃ x, tc (edge_rel nodes edges) x x
  | Some false => ∀ x, Acc (flip (edge_rel nodes edges)) x
  end.
Proof.
  set (g := build_graph nodes edges).
  assert (∀ x y, E g x y ↔ edge_rel nodes edges x y) as HE by apply build_graph_successors.
  assert (search_ok g ∅ []) as Hok.
  { split; [constructor| |done|constructor]. intros x. by rewrite elem_of_nil. }
  assert (∀ x y, E g x y → y ∈ dfs_ids nodes edges) as Hclosed.
  { intros x y (_ & e & ? & _ & <-)%HE. unfold dfs_ids. set_solver. }
  pose proof (dfs_nodes_ok g _ Hclosed nodes (dfs_fuel nodes edges) ∅
    ltac:(unfold dfs_ids; set_solver) ltac:(done) Hok) as Hrun.
  unfold hasCycle. fold g. destruct (dfs_nodes _ g nodes ∅) as [[state|]|]; [| |done].
  - destruct Hrun as (Hok' & _ & Hall).
    assert (∀ x, Acc (flip (E g)) x → Acc (flip (edge_rel nodes edges)) x) as Hacc.
    { induction 1 as [x _ IH]. constructor. intros y Hy. apply IH. by apply HE. }
    intros x. destruct (decide (x ∈ ID <$> nodes)) as [(n & -> & Hn)%list_elem_of_fmap|Hx].
    + apply Hacc, (so_black _ _ _ Hok'). by apply Hall.
    + constructor. intros y [Hx' _]. done.
  - destruct Hrun as (x & Hx). exists x. revert Hx. apply tc_congruence with (f := id). apply HE.
Qed.

(** C19: The iterative search always terminates and reports a cycle exactly
    when the edges that leave a declared node contain one, whatever the duplicate ids,
    parallel edges, self loops and dangling targets of the document. *)
Theorem hasCycle_correct (nodes : list Node) (edges : list Edge) :
  ∃ b, hasCycle nodes edges = Some b ∧
       (b = true ↔ ∃ x, tc (edge_rel nodes edges) x x).
Proof.
  pose proof (hasCycle_spec nodes edges) as Hspec.
  destruct (hasCycle nodes edges) as [[|]|]; [..|done]; eexists; (split; [done|]); [done|].
  split; [done|]. intros (x & Hx). by destruct (Acc_no_cycle _ x (Hspec x)).
Qed.
