(* ===== verification/Closure.v ===== *)
(** The worklist walks of the domain (readiness.go [downstreamJoins] and
    [collectAncestors], recoverydag.go [reachableNodesWithout]): the ids reached from a
    list of ids along a list of links, each visited once. *)
From S2P Require Import Prelude.

(** A link leads from its first id to its second. *)
Abbreviation links := (list (string * string)).

Definition next_ids (ls : links) (id : string) : list string := (filter (λ l, l.1 = id) ls).*2.

Section walk.
Context (ls : links) (push : list string → list string → list string).

(** [seen] holds the visited ids, oldest first; [push new todo] schedules the links
    of the visited id. [None] is the exhaustion of the fuel. *)
Fixpoint walk (fuel : nat) (seen todo : list string) : option (list string) :=
  match todo with
  | [] => Some seen
  | id :: todo' =>
      match fuel with
      | 0 => None
      | S f =>
          if bool_decide (id ∈ seen) then walk f seen todo'
          else walk f (seen ++ [id]) (push (next_ids ls id) todo')
      end
  end.
End walk.

(** A stack pops what was pushed last: the links of an id, last first. *)
Definition push_stack (new todo : list string) : list string := rev new ++ todo.
Definition push_queue (new todo : list string) : list string := todo ++ new.

(** Every link is scheduled once. *)
Definition walk_fuel (ls : links) (todo : list string) : nat := length todo + length ls.
Definition closure (ls : links) (push : list string → list string → list string) (todo : list string)
  : option (list string) := walk ls push (walk_fuel ls todo) [] todo.

(** ** The walk computes reachability *)

Definition link_rel (ls : links) : relation string := λ x y, (x, y) ∈ ls.

Lemma elem_of_next_ids ls x y : y ∈ next_ids ls x ↔ link_rel ls x y.
Proof.
  unfold next_ids, link_rel. rewrite list_elem_of_fmap. setoid_rewrite list_elem_of_filter. split.
  - intros ([a b] & -> & [<- ?]). done.
  - intros. by exists (x, y).
Qed.

Definition unseen_links (ls : links) (seen : list string) : nat := length (filter (λ l, l.1 ∉ seen) ls).

Lemma unseen_links_visit ls seen id :
  id ∉ seen → unseen_links ls (seen ++ [id]) + length (next_ids ls id) = unseen_links ls seen.
Proof.
  intros Hid. unfold unseen_links, next_ids. rewrite length_fmap.
  induction ls as [|l ls IH]; [done|]. rewrite !filter_cons.
  destruct (decide (l.1 = id)) as [Heq|Hne].
  - rewrite (decide_False (P := l.1 ∉ seen ++ [id])) by (subst; set_solver).
    rewrite (decide_True (P := l.1 ∉ seen)) by (subst; done). cbn. lia.
  - destruct (decide (l.1 ∉ seen)) as [Hs|Hs].
    + rewrite decide_True by set_solver. cbn. lia.
    + rewrite decide_False by set_solver. lia.
Qed.

Section walk_facts.
Context (ls : links) (push : list string → list string → list string).
Context (Hpush : ∀ new todo, push new todo ≡ₚ new ++ todo).

Lemma walk_spec fuel seen todo :
  length todo + unseen_links ls seen ≤ fuel → NoDup seen →
  (∀ x y, x ∈ seen → link_rel ls x y → y ∈ seen ++ todo) →
  ∃ out, walk ls push fuel seen todo = Some out ∧ NoDup out ∧ seen ⊆ out ∧
    (∀ x, x ∈ todo → x ∈ out) ∧
    (∀ x y, x ∈ out → link_rel ls x y → y ∈ out) ∧
    (∀ x, x ∈ out → x ∈ seen ∨ ∃ y, y ∈ todo ∧ rtc (link_rel ls) y x).
Proof.
  revert seen todo. induction fuel as [|fuel IH]; intros seen [|id todo] Hfuel Hnd Hclosed; cbn in *; try lia.
  1,2: exists seen; split_and!; [done|done|done|set_solver| |auto]; intros x y Hx Hxy;
    specialize (Hclosed x y Hx Hxy); rewrite app_nil_r in Hclosed; done.
  case_bool_decide as Hin.
  - destruct (IH seen todo) as (out & -> & Hnd' & Hsub & Htodo & Hcl & Hreach); [lia|done| |].
    { intros x y Hx Hxy. specialize (Hclosed x y Hx Hxy). set_solver. }
    exists out. split_and!; [done|done|done|set_solver|done|]. intros x Hx. destruct (Hreach x Hx); set_solver.
  - pose proof (unseen_links_visit ls seen id Hin) as Hvisit.
    assert (∀ x, x ∈ push (next_ids ls id) todo ↔ x ∈ next_ids ls id ∨ x ∈ todo) as Helem
      by (intros x; by rewrite Hpush, elem_of_app).
    destruct (IH (seen ++ [id]) (push (next_ids ls id) todo)) as (out & -> & Hnd' & Hsub & Htodo & Hcl & Hreach).
    + rewrite Hpush, length_app. lia.
    + apply NoDup_app. split_and!; [done|set_solver|apply NoDup_singleton].
    + intros x y [Hx| ->%list_elem_of_singleton]%elem_of_app Hxy.
      * specialize (Hclosed x y Hx Hxy). rewrite elem_of_app, Helem. set_solver.
      * rewrite elem_of_app, Helem. right. left. by apply elem_of_next_ids.
    + exists out. split_and!; [done|done|set_solver| |done|].
      * intros x [->|Hx]%elem_of_cons; [set_solver|]. apply Htodo, Helem. by right.
      * intros x Hx. destruct (Hreach x Hx) as [[?| ->%list_elem_of_singleton]%elem_of_app|(y & Hy%Helem & Hyx)].
        -- by left.
        -- right. exists id. split; [set_solver|done].
        -- right. destruct Hy as [Hy%elem_of_next_ids|Hy]; [|exists y; split; [set_solver|done]].
           exists id. split; [set_solver|]. by eapply rtc_l.
Qed.

(** The ids reached from the start, each once. *)
Lemma closure_spec todo : ∃ out, closure ls push todo = Some out ∧ NoDup out ∧
  ∀ x, x ∈ out ↔ ∃ y, y ∈ todo ∧ rtc (link_rel ls) y x.
Proof.
  destruct (walk_spec (walk_fuel ls todo) [] todo) as (out & Hw & Hnd & _ & Htodo & Hcl & Hreach).
  - unfold walk_fuel, unseen_links. pose proof (length_filter_le (λ l, l.1 ∉ []) ls). lia.
  - constructor.
  - set_solver.
  - exists out. split; [done|]. split; [done|]. intros x. split.
    + intros Hx. destruct (Hreach x Hx) as [Hx'|?]; [by apply elem_of_nil in Hx'|done].
    + intros (y & Hy & Hyx). apply Htodo in Hy. induction Hyx as [|x y z Hxy _ IH]; [done|].
      apply IH. by eapply Hcl.
Qed.
End walk_facts.

Lemma push_stack_perm new todo : push_stack new todo ≡ₚ new ++ todo.
Proof. unfold push_stack. by rewrite <-(Permutation_rev new). Qed.
Lemma push_queue_perm new todo : push_queue new todo ≡ₚ new ++ todo.
Proof. unfold push_queue. apply Permutation_app_comm. Qed.
