(* ===== verification/Inputs.v ===== *)
(** Declared inputs (domain/inputs.go, domain/defaults.go): the schema subset, its
    structural check with a node budget, validation of a value, and the fill of
    declared defaults. A nil child schema makes the walks panic: [None]. *)
From S2P Require Import Prelude GoStrings GoFloat GoAny Json.

(** [Default] is the decoded raw message, [None] when the keyword is absent. *)
Inductive InputSchema := mkSchema
  { Type_ : string; Description : string; Properties : list (string * option InputSchema);
    Required : list string; Items : option InputSchema; Enum : list any; Default : option any }.

Definition InputSchemaNodeMax : nat := 512.

(** ** The shape check: an explicit stack, its top first *)

Fixpoint shape_loop (fuel : nat) (pending : list (option InputSchema)) (visited : nat) : option bool :=
  match pending with
  | [] => Some true
  | current :: rest =>
      match fuel with
      | 0 => None
      | S f =>
          let visited := S visited in
          match current with
          | None => Some false
          | Some schema =>
              if InputSchemaNodeMax <? visited then Some false
              else if existsb (String.eqb (Type_ schema)) ["string"; "number"; "boolean"]%string
              then shape_loop f rest visited
              else if String.eqb (Type_ schema) "object" then
                shape_loop f (rev (map snd (Properties schema)) ++ rest) visited
              else if String.eqb (Type_ schema) "array" then
                shape_loop f (match Items schema with Some i => Some i :: rest | None => rest end) visited
              else Some false
          end
      end
  end.
(** The budget stops the loop after [InputSchemaNodeMax + 1] iterations. *)
Definition validInputSchemaShape (schema : option InputSchema) : option bool :=
  shape_loop (S InputSchemaNodeMax) [schema] 0.

(** ** Validation *)

Definition HasDefault (s : InputSchema) : bool := bool_decide (is_Some (Default s)).
Definition DefaultValue (s : InputSchema) : any := default ANil (Default s).

Definition matchesInputType (schemaType : string) (value : any) : bool :=
  if String.eqb schemaType "string" then match value with AStr _ => true | _ => false end
  else if String.eqb schemaType "number" then match value with AF64 _ => true | _ => false end
  else if String.eqb schemaType "boolean" then match value with ABool _ => true | _ => false end
  else if String.eqb schemaType "object" then match value with AObj _ => true | _ => false end
  else if String.eqb schemaType "array" then match value with AArr _ => true | _ => false end
  else false.

Definition describeActual (value : any) : string :=
  match value with
  | ANil => "null" | AArr _ => "array" | AObj _ => "object" | AStr _ => "string"
  | AF64 _ => "number" | ABool _ => "boolean" | _ => "unknown"
  end.

(** The JSON text of a value, empty when it has none. *)
Definition json_text (v : any) : string := default EmptyString (Marshal v).

(** Bindings in the order of their keys. *)
Definition by_key {A} : list (string * A) → list (string * A) :=
  stable_sort (λ a b, string_less a.1 b.1).

(** Run every step in order and concatenate, [None] when one panics. *)
Fixpoint concat_some {A} (l : list (option (list A))) : option (list A) :=
  match l with
  | [] => Some []
  | None :: _ => None
  | Some x :: l' => match concat_some l' with Some y => Some (x ++ y) | None => None end
  end.

Definition enum_errors (schema : InputSchema) (value : any) (path : string) : list string :=
  match Enum schema with
  | [] => []
  | allowed =>
      if existsb (λ a, deep_equal a value) allowed then []
      else [path +:+ " must be one of " +:+ json_text (AArr allowed) +:+ ", got " +:+ json_text value]
  end.

Fixpoint walkInput (schema : InputSchema) (value : any) (path : string) : option (list string) :=
  let 'mkSchema type _ properties required items _ _ := schema in
  if negb (matchesInputType type value) then
    Some [path +:+ " must be " +:+ type +:+ ", got " +:+ describeActual value]
  else
    let members :=
      map (λ kv, (kv.1, λ v, match kv.2 with
                             | Some child => walkInput child v (path +:+ "." +:+ kv.1)
                             | None => None
                             end)) properties in
    let of_object :=
      match value with
      | AObj obj =>
          Some (flat_map (λ k, if has_key obj k then [] else [path +:+ "." +:+ k +:+ " is required"]) required)
          :: map (λ kv, match obj_get obj kv.1 with Some v => kv.2 v | None => Some [] end) (by_key members)
      | _ => []
      end in
    let of_array :=
      match value, items with
      | AArr l, Some child =>
          imap (λ i item, walkInput child item (path +:+ "[" +:+ Itoa (Z.of_nat i) +:+ "]")) l
      | _, _ => []
      end in
    concat_some (Some (enum_errors schema value path)
      :: (if String.eqb type "object" then of_object else [])
      ++ (if String.eqb type "array" then of_array else [])).

Definition ValidateInputValue (schema : InputSchema) (value : any) (path : string)
  : option (list string) := walkInput schema value path.

Record invalidDefault := mkInvalidDefault { Path : string; Problem : string }.

Fixpoint invalidInputDefaults (schema : InputSchema) (path : string) : option (list invalidDefault) :=
  let own :=
    if HasDefault schema then
      match ValidateInputValue schema (DefaultValue schema) path with
      | None => None
      | Some [] => Some []
      | Some errs => Some [mkInvalidDefault path ("is invalid: " +:+ Join errs "; ")]
      end
    else Some [] in
  let 'mkSchema _ _ properties _ _ _ _ := schema in
  concat_some (own :: map snd (by_key (map (λ kv,
    (kv.1, match kv.2 with
           | Some child => invalidInputDefaults child (path +:+ "." +:+ kv.1)
           | None => None
           end)) properties))).

(** ** Defaults (domain/defaults.go) *)

(** The fill of one map by its sorted properties; each property comes with its own
    [applyDefaults]. *)
Fixpoint fill (props : list (string * (any → bool → option (any * bool)))) (filled : obj) : option obj :=
  match props with
  | [] => Some filled
  | (key, apply_) :: props' =>
      match apply_ (obj_at filled key) (has_key filled key) with
      | None => None
      | Some (resolved, ok) => fill props' (if ok then obj_set filled key resolved else filled)
      end
  end.

Fixpoint applyDefaults (schema : InputSchema) (value : any) (present : bool) : option (any * bool) :=
  let 'mkSchema type _ properties _ _ _ _ := schema in
  if negb (String.eqb type "object") then
    if negb present then Some (DefaultValue schema, HasDefault schema) else Some (value, true)
  else
    let base := if present then value else DefaultValue schema in
    let basePresent := if present then true else HasDefault schema in
    if basePresent && negb (bool_decide (is_Some (as_obj base))) then Some (base, true)
    else
      let props :=
        by_key (map (λ kv, (kv.1, λ v p, match kv.2 with
                                         | Some child => applyDefaults child v p
                                         | None => None
                                         end)) properties) in
      match fill props (default [] (as_obj base)) with
      | None => None
      | Some filled =>
          if negb basePresent && bool_decide (filled = []) then Some (ANil, false)
          else Some (AObj filled, true)
      end.

Definition ApplyInputDefaults (schema : InputSchema) (value : any) : option any :=
  fst <$> applyDefaults schema value (match value with ANil => false | _ => true end).
