(* ===== verification/InputsFacts.v ===== *)
(** Declared inputs: an accepted schema makes no walk panic, validation reports an
    error exactly on a value that does not conform, filling defaults is idempotent. *)
From S2P Require Import Prelude GoStrings GoFloat GoAny Json Inputs.

(** ** Induction on schemas *)

Section schema_ind.
Variable P : InputSchema → Prop.
Hypothesis H : ∀ s, (∀ k c, (k, Some c) ∈ Properties s → P c) → (∀ c, Items s = Some c → P c) → P s.
Fixpoint schema_ind' (s : InputSchema) : P s.
Proof.
  destruct s as [t d props r items e df]. apply H; cbn.
  - induction props as [|[k' [c'|]] props IH]; intros k c Hin; [|pose proof (schema_ind' c') as Hc'|].
    + clear schema_ind'. by apply elem_of_nil in Hin.
    + clear schema_ind'. apply elem_of_cons in Hin as [Heq|Hin]; [|by apply (IH k)].
      congruence.
    + clear schema_ind'. apply elem_of_cons in Hin as [Heq|Hin]; [congruence|by apply (IH k)].
  - destruct items as [i|]; [pose proof (schema_ind' i) as Hi|]; clear schema_ind'; [|done]. intros c Hc. congruence.
Defined.
End schema_ind.

(** A schema that the shape check accepts, as an inductive predicate. *)
Inductive sound (s : InputSchema) : Prop :=
| sound_intro :
    Type_ s ∈ ["string"; "number"; "boolean"; "object"; "array"]%string →
    (Type_ s = "object"%string → ∀ k oc, (k, oc) ∈ Properties s → ∃ c, oc = Some c ∧ sound c) →
    (Type_ s = "array"%string → ∀ c, Items s = Some c → sound c) → sound s.

Lemma shape_loop_sound fuel pending visited :
  shape_loop fuel pending visited = Some true → ∀ x, x ∈ pending → ∃ s, x = Some s ∧ sound s.
Proof.
  revert pending visited. induction fuel as [|fuel IH]; intros [|[s|] rest] visited; cbn [shape_loop];
    try (intros _ x Hx; by apply elem_of_nil in Hx); try done.
  destruct (_ <? _); [done|].
  assert (∀ visited pend, shape_loop fuel (pend ++ rest) visited = Some true →
    (Type_ s = "object"%string → ∀ k oc, (k, oc) ∈ Properties s → oc ∈ pend) →
    (Type_ s = "array"%string → ∀ c, Items s = Some c → Some c ∈ pend) →
    Type_ s ∈ ["string"; "number"; "boolean"; "object"; "array"]%string →
    ∀ x, x ∈ Some s :: rest → ∃ s', x = Some s' ∧ sound s') as Hgo.
  { intros v pend Hrun Ho Ha Ht x [->|Hx]%elem_of_cons; [|apply (IH _ _ Hrun); set_solver].
    exists s. split; [done|]. constructor; [done|..].
    - intros Hty k oc Hin. apply (IH _ _ Hrun). apply elem_of_app. left. by eapply Ho.
    - intros Hty c Hc. destruct (IH _ _ Hrun (Some c)) as (c' & [= <-] & ?); [|done].
      apply elem_of_app. left. by eapply Ha. }
  destruct (existsb _ _) eqn:Hleaf.
  { apply existsb_elem in Hleaf as (t & Ht & <-%String.eqb_eq).
    intros Hrun. cbn in Ht. rewrite !elem_of_cons, elem_of_nil in Ht.
    apply (Hgo _ [] Hrun); [intros Heq|intros Heq|set_solver]; rewrite Heq in Ht; naive_solver. }
  destruct (String.eqb_spec (Type_ s) "object") as [Hty|Hty].
  { intros Hrun. apply (Hgo _ _ Hrun); [|by rewrite Hty|rewrite Hty; set_solver].
    intros _ k oc Hin. apply list_elem_of_In, in_rev. rewrite rev_involutive. apply list_elem_of_In, list_elem_of_fmap. by exists (k, oc). }
  destruct (String.eqb_spec (Type_ s) "array") as [Hty'|Hty']; [|done].
  destruct (Items s) as [i|]; intros Hrun.
  - apply (Hgo _ [Some i] Hrun); [done| |rewrite Hty'; set_solver]. intros _ c [= ->]. set_solver.
  - apply (Hgo _ [] Hrun); [done|done|rewrite Hty'; set_solver].
Qed.

Lemma shape_loop_total fuel pending visited :
  fuel + visited = S InputSchemaNodeMax → fuel ≠ 0 → is_Some (shape_loop fuel pending visited).
Proof.
  revert pending visited. induction fuel as [|fuel IH]; intros pending visited Hsum Hne; [done|].
  destruct pending as [|[s|] rest]; cbn [shape_loop]; try by eexists.
  destruct (Nat.ltb_spec InputSchemaNodeMax (S visited)); [by eexists|].
  repeat case_match; try (by eexists); apply IH; lia.
Qed.

(** ** Conformance *)

(** A value conforms to a schema: its type, the enumeration, the required keys,
    and the values of the declared properties or items. *)
Inductive conforms (s : InputSchema) (v : any) : Prop :=
| conforms_intro :
    matchesInputType (Type_ s) v = true →
    (Enum s = [] ∨ ∃ a, a ∈ Enum s ∧ deep_equal a v = true) →
    (∀ o k, Type_ s = "object"%string → v = AObj o → k ∈ Required s → has_key o k = true) →
    (∀ o k c w, Type_ s = "object"%string → v = AObj o → (k, Some c) ∈ Properties s →
       obj_get o k = Some w → conforms c w) →
    (∀ l c w, Type_ s = "array"%string → v = AArr l → Items s = Some c → w ∈ l → conforms c w) →
    conforms s v.

(** [good x Q]: the step [x] does not panic, and reports nothing exactly when [Q]
    holds; [good_all] is the same for a list of steps. *)
Definition good {A} (x : option (list A)) (Q : Prop) : Prop := ∃ r, x = Some r ∧ (r = [] ↔ Q).
Definition good_all {A} (l : list (option (list A))) (Q : Prop) : Prop :=
  (∀ x, x ∈ l → is_Some x) ∧ ((∀ x, x ∈ l → x = Some []) ↔ Q).

Lemma concat_good {A} (l : list (option (list A))) Q : good_all l Q → good (concat_some l) Q.
Proof.
  intros [Hsome HQ]. assert (good (concat_some l) (∀ x, x ∈ l → x = Some [])) as (r & ? & ?).
  2: { exists r. split; [done|]. by rewrite <-HQ. }
  clear Q HQ. induction l as [|x l IH]; cbn.
  { exists []. split; [done|]. split; [|done]. intros _ x Hx. by apply elem_of_nil in Hx. }
  destruct (Hsome x ltac:(set_solver)) as [a ->]. destruct IH as (r & -> & Hr); [set_solver|].
  eexists. split; [done|]. split.
  - intros [-> ->]%app_nil. intros y [->|Hy]%elem_of_cons; [done|]. by apply Hr.
  - intros Hnil. assert (Some a = Some []) as [= ->] by set_solver. cbn. apply Hr. set_solver.
Qed.

Lemma good_all_nil {A} : good_all (A := A) [] True.
Proof. split; [set_solver|]. split; [done|set_solver]. Qed.
Lemma good_all_app {A} (l k : list (option (list A))) P Q :
  good_all l P → good_all k Q → good_all (l ++ k) (P ∧ Q).
Proof.
  intros [Hl HP] [Hk HQ]. split; [intros x [?|?]%elem_of_app; auto|]. rewrite <-HP, <-HQ.
  split; [intros Hall; split; intros; apply Hall, elem_of_app; auto|].
  intros [? ?] x [?|?]%elem_of_app; auto.
Qed.
Lemma good_all_cons {A} (x : option (list A)) l P Q :
  good x P → good_all l Q → good_all (x :: l) (P ∧ Q).
Proof.
  intros (r & -> & HP). apply (good_all_app [Some r]). split.
  - intros x ->%list_elem_of_singleton. by eexists.
  - rewrite <-HP. split; [intros Hall; apply (inj Some), Hall; set_solver|].
    by intros -> x ->%list_elem_of_singleton.
Qed.
Lemma good_all_map {A B} (f : B → option (list A)) l Q :
  (∀ x, x ∈ l → good (f x) (Q x)) → good_all (map f l) (∀ x, x ∈ l → Q x).
Proof.
  intros Hf. split.
  - intros y (x & -> & Hx)%list_elem_of_fmap. destruct (Hf x Hx) as (r & -> & _). by eexists.
  - split.
    + intros Hall x Hx. destruct (Hf x Hx) as (r & Hr & <-). apply (inj Some). rewrite <-Hr.
      apply Hall, list_elem_of_fmap. by exists x.
    + intros HQ y (x & -> & Hx)%list_elem_of_fmap. destruct (Hf x Hx) as (r & -> & Hr).
      f_equal. by apply Hr, HQ.
Qed.
Lemma good_all_imap {A B} (f : nat → B → option (list A)) l Q :
  (∀ i x, x ∈ l → good (f i x) (Q x)) → good_all (imap f l) (∀ x, x ∈ l → Q x).
Proof.
  revert f. induction l as [|x l IH]; intros f Hf.
  - destruct (good_all_nil (A := A)) as [Hs HQ]. split; [done|]. cbn. rewrite HQ. set_solver.
  - cbn. assert (good_all (f 0 x :: imap (f ∘ S) l) (Q x ∧ ∀ y, y ∈ l → Q y)) as [Hs HQ].
    { apply good_all_cons; [apply Hf; set_solver|]. apply IH. intros i y Hy. apply Hf. set_solver. }
    split; [done|]. rewrite HQ. set_solver.
Qed.
Lemma good_all_if {A} (b : bool) (l : list (option (list A))) Q :
  (b = true → good_all l Q) → good_all (if b then l else []) (b = true → Q).
Proof.
  destruct b; intros H.
  - destruct (H eq_refl) as [Hs HQ]. split; [done|]. rewrite HQ. naive_solver.
  - destruct (good_all_nil (A := A)) as [Hs HQ]. split; [done|]. rewrite HQ. naive_solver.
Qed.
Lemma good_all_iff {A} (l : list (option (list A))) P Q : good_all l P → (P ↔ Q) → good_all l Q.
Proof. intros [? HP] ?. split; [done|]. tauto. Qed.
Lemma good_iff {A} (x : option (list A)) P Q : good x P → (P ↔ Q) → good x Q.
Proof. intros (r & ? & ?) ?. exists r. split; [done|]. tauto. Qed.

Lemma elem_of_by_key {A} (l : list (string * A)) x : x ∈ by_key l ↔ x ∈ l.
Proof. apply elem_of_stable_sort. Qed.

Lemma enum_errors_nil s v path :
  enum_errors s v path = [] ↔ Enum s = [] ∨ ∃ a, a ∈ Enum s ∧ deep_equal a v = true.
Proof.
  unfold enum_errors. destruct (Enum s) as [|a l]; [by split; [left|]|].
  destruct (existsb _ _) eqn:Hex.
  - apply existsb_elem in Hex. split; [by right|done].
  - rewrite existsb_false_elem in Hex. split; [done|]. intros [?|(b & Hb & Heq)]; [done|].
    rewrite Hex in Heq by done. done.
Qed.

Lemma required_nil o path req :
  flat_map (λ k, if has_key o k then [] else [path +:+ "." +:+ k +:+ " is required"]) req = []
  ↔ ∀ k, k ∈ req → has_key o k = true.
Proof.
  induction req as [|k req IH]; cbn.
  - split; [|done]. intros _ k Hk. by apply elem_of_nil in Hk.
  - rewrite app_nil, IH. destruct (has_key o k) eqn:Hk; split.
    + intros [_ Hall] k' [->|?]%elem_of_cons; auto.
    + intros Hall. split; [done|]. set_solver.
    + by intros [? _].
    + intros Hall. rewrite Hall in Hk by set_solver. done.
Qed.

Lemma good_own s v path : good (Some (enum_errors s v path)) (Enum s = [] ∨ ∃ a, a ∈ Enum s ∧ deep_equal a v = true).
Proof. eexists. split; [done|]. apply enum_errors_nil. Qed.

Definition child_ok (c : InputSchema) : Prop := ∀ v path, good (walkInput c v path) (conforms c v).

(** The properties of an object, each against its own schema. *)
Lemma good_members o props path :
  (∀ k oc, (k, oc) ∈ props → ∃ c, oc = Some c ∧ child_ok c) →
  good_all (map (λ kv : string * (any → option (list string)),
      match obj_get o kv.1 with Some v => kv.2 v | None => Some [] end)
    (by_key (map (λ kv : string * option InputSchema,
      (kv.1, λ v, match kv.2 with
                  | Some child => walkInput child v (path +:+ "." +:+ kv.1)
                  | None => None
                  end)) props)))
    (∀ k c w, (k, Some c) ∈ props → obj_get o k = Some w → conforms c w).
Proof.
  intros Hprops.
  assert (∀ kv, kv ∈ by_key (map (λ kv : string * option InputSchema,
      (kv.1, λ v, match kv.2 with
                  | Some child => walkInput child v (path +:+ "." +:+ kv.1)
                  | None => None
                  end)) props) →
    good (match obj_get o kv.1 with Some v => kv.2 v | None => Some [] end)
      (∀ c w, (kv.1, Some c) ∈ props → obj_get o kv.1 = Some w → ∃ errs, kv.2 w = Some errs ∧ errs = [])) as Hg.
  { intros kv Hkv. apply elem_of_by_key, list_elem_of_fmap in Hkv as ([k oc] & -> & Hin). cbn.
    destruct (Hprops k oc Hin) as (c & -> & Hc). destruct (obj_get o k) as [w|].
    - destruct (Hc w (path +:+ "." +:+ k)) as (r & Hrun & Hr). exists r. split; [done|].
      split; [intros -> c' w' _ [= <-]; by exists []|]. intros Hall.
      destruct (Hall c w Hin eq_refl) as (e & He & ->). congruence.
    - exists []. split; [done|]. naive_solver. }
  destruct (good_all_map _ _ _ Hg) as [Hs HQ]. split; [done|]. rewrite HQ. split.
  - intros Hall k c w Hin Hw. destruct (Hprops _ _ Hin) as (c' & [= <-] & Hc).
    destruct (Hc w (path +:+ "." +:+ k)) as (r & Hr & Hiff). apply Hiff.
    destruct (Hall (k, λ v, walkInput c v (path +:+ "." +:+ k))
      ltac:(apply elem_of_by_key, list_elem_of_fmap; by exists (k, Some c)) c w Hin Hw) as (e & He & ->).
    cbn in He. congruence.
  - intros Hall kv Hkv. apply elem_of_by_key, list_elem_of_fmap in Hkv as ([k oc] & -> & Hin). cbn.
    intros c w Hin' Hw. destruct (Hprops k oc Hin) as (c' & -> & Hc).
    destruct (Hc w (path +:+ "." +:+ k)) as (r & Hr & Hiff). exists r. split; [done|].
    apply Hiff. by eapply Hall.
Qed.

(** The steps of [walkInput] on a value of the right type. *)
Lemma walkInput_ok s : sound s → child_ok s.
Proof.
  induction s as [s IHp IHi] using schema_ind'. intros [_ Hobj Harr] v path.
  destruct s as [type d props req items enum df]. cbn [Type_ Properties Items] in *. cbn [walkInput].
  destruct (matchesInputType type v) eqn:Hm; cbn [negb].
  2: { eexists. split; [done|]. split; [done|]. intros [Hm' _ _ _ _]. cbn in Hm'. congruence. }
  set (s := mkSchema type d props req items enum df).
  set (QO := ∀ o, v = AObj o → (∀ k, k ∈ req → has_key o k = true) ∧
    ∀ k c w, (k, Some c) ∈ props → obj_get o k = Some w → conforms c w).
  set (QA := ∀ l, v = AArr l → ∀ c, items = Some c → ∀ w, w ∈ l → conforms c w).
  apply (good_iff _ ((Enum s = [] ∨ ∃ a, a ∈ Enum s ∧ deep_equal a v = true) ∧
    ((String.eqb type "object" = true → QO) ∧ (String.eqb type "array" = true → QA)))).
  { apply concat_good, good_all_cons; [apply good_own|].
    apply good_all_app; apply good_all_if; intros Ht%String.eqb_eq.
    - destruct v; try by (destruct (good_all_nil (A := string)) as [? HQ]; split; [done|]; rewrite HQ).
      eapply good_all_iff; [apply good_all_cons; [eexists; split; [done|apply required_nil]|]|].
      + apply good_members. intros k oc Hin. destruct (Hobj Ht k oc Hin) as (c & -> & Hc).
        exists c. split; [done|]. exact (IHp _ _ Hin Hc).
      + unfold QO. split; [by intros ? o' [= <-]|]. intros Hall. by apply Hall.
    - destruct v; try by (destruct (good_all_nil (A := string)) as [? HQ]; split; [done|]; rewrite HQ).
      destruct items as [c|].
      + eapply good_all_iff; [apply (good_all_imap _ _ (conforms c))|].
        2: { unfold QA. split; [by intros ? l' [= <-] c' [= <-]|]. intros Hall. by apply (Hall l). }
        intros i x _. apply IHi; [done|]. by apply Harr.
      + eapply good_all_iff; [apply good_all_nil|]. by unfold QA. }
  rewrite !String.eqb_eq. unfold QO, QA. split.
  - intros (He & HO & HA). constructor; naive_solver.
  - intros [? ? Hreq Hprop Hit]. naive_solver.
Qed.

(** ** Defaults *)

Lemma fill_total props : (∀ k f, (k, f) ∈ props → ∀ v p, is_Some (f v p)) →
  ∀ filled, is_Some (fill props filled).
Proof.
  induction props as [|[k f] props IH]; intros Hall filled; cbn; [by eexists|].
  destruct (Hall k f ltac:(set_solver) (obj_at filled k) (has_key filled k)) as [[r ok] ->].
  apply IH. set_solver.
Qed.

Lemma applyDefaults_total s : sound s → ∀ v p, is_Some (applyDefaults s v p).
Proof.
  induction s as [s IHp IHi] using schema_ind'. intros [_ Hobj _] v p.
  destruct s as [type d props req items enum df]. cbn [Type_ Properties Items] in *. cbn [applyDefaults].
  destruct (String.eqb_spec type "object") as [Ht|]; cbn [negb]; [|by destruct p; eexists].
  destruct (_ && _); [by eexists|].
  destruct (fill_total (by_key (map (λ kv : string * option InputSchema, (kv.1, λ v p,
    match kv.2 with Some child => applyDefaults child v p | None => None end)) props)))
    with (filled := default [] (as_obj (if p then v else DefaultValue (mkSchema type d props req items enum df))))
    as [filled ->]; [|by destruct (_ && _); eexists].
  intros k f Hf w q. apply elem_of_by_key, list_elem_of_fmap in Hf as ([k' oc] & [= -> ->] & Hin).
  destruct (Hobj Ht _ _ Hin) as (c & -> & Hc). by apply (IHp _ _ Hin).
Qed.

(** Property names are the keys of a map, at every level. *)
Inductive unique (s : InputSchema) : Prop :=
| unique_intro :
    NoDup (Properties s).*1 → (∀ k c, (k, Some c) ∈ Properties s → unique c) → unique s.

Lemma obj_set_same o k v : obj_get o k = Some v → obj_set o k v = o.
Proof.
  induction o as [|[k' w] o IH]; cbn; [done|].
  destruct (String.eqb_spec k' k) as [->|]; [by intros [= ->]|]. intros ?. by rewrite IH.
Qed.

Lemma fill_spec props b F : NoDup props.*1 → fill props b = Some F →
  (∀ k, k ∉ props.*1 → obj_get F k = obj_get b k) ∧
  ∀ k f, (k, f) ∈ props → ∃ r ok, f (obj_at b k) (has_key b k) = Some (r, ok) ∧
    obj_get F k = if ok : bool then Some r else obj_get b k.
Proof.
  revert b. induction props as [|[k f] props IH]; intros b Hnd Hfill; cbn in *.
  { injection Hfill as <-. split; [done|]. intros k f Hf. by apply elem_of_nil in Hf. }
  apply NoDup_cons in Hnd as [Hk Hnd].
  destruct (f (obj_at b k) (has_key b k)) as [[r ok]|] eqn:Hf; [|done].
  destruct (IH _ Hnd Hfill) as [Hout Hin]. clear IH Hfill.
  assert (∀ k', k' ≠ k → obj_get (if ok then obj_set b k r else b) k' = obj_get b k') as Hne.
  { intros k' Hk'. destruct ok; [|done]. rewrite obj_get_set. destruct (String.eqb_spec k k'); [congruence|done]. }
  split.
  - intros k' [? ?]%not_elem_of_cons. by rewrite Hout, Hne.
  - intros k' f' Hkf. apply elem_of_cons in Hkf as [Heq|Hin']; [injection Heq as -> ->|].
    + exists r, ok. split; [done|]. rewrite Hout by done. destruct ok; [|done].
      by rewrite obj_get_set, String.eqb_refl.
    + assert (k' ≠ k) as Hk'.
      { intros ->. apply Hk. apply list_elem_of_fmap. by exists (k, f'). }
      destruct (Hin k' f' Hin') as (r' & ok' & Hr' & Hget). exists r', ok'.
      unfold obj_at, has_key in Hr' |- *. rewrite Hne in Hr' by done. split; [done|].
      rewrite Hget. by rewrite Hne.
Qed.

Lemma fill_fixed props F :
  (∀ k f, (k, f) ∈ props → ∃ r ok, f (obj_at F k) (has_key F k) = Some (r, ok) ∧
     (ok = true → obj_get F k = Some r)) → fill props F = Some F.
Proof.
  induction props as [|[k f] props IH]; intros Hall; cbn; [done|].
  destruct (Hall k f ltac:(set_solver)) as (r & ok & -> & Hok).
  destruct ok; [rewrite obj_set_same by auto|]; apply IH; set_solver.
Qed.

Lemma applyDefaults_present s v r ok : applyDefaults s v true = Some (r, ok) → ok = true.
Proof. destruct s. cbn. repeat case_match; by intros [= _ <-]. Qed.

Lemma applyDefaults_again s : unique s → ∀ v p r,
  applyDefaults s v p = Some (r, true) → applyDefaults s r true = Some (r, true).
Proof.
  induction s as [s IHp _] using schema_ind'. intros [Hnd Huniq] v p r.
  destruct s as [type d props req items enum df]. cbn [Properties] in *. cbn [applyDefaults].
  destruct (String.eqb_spec type "object") as [_|]; cbn [negb].
  2: { destruct p; [by intros [= <-]|by intros [= <- _]]. }
  set (base := if p then v else _). set (bp := if p then true else _).
  set (mprops := by_key _).
  assert (∀ k f, (k, f) ∈ mprops → ∃ c, (k, c) ∈ props ∧ f = λ v p,
    match c with Some child => applyDefaults child v p | None => None end) as Hm.
  { intros k f Hin. apply elem_of_by_key, list_elem_of_fmap in Hin as ([k' c] & [= -> ->] & Hin).
    by eexists. }
  assert (NoDup mprops.*1) as Hndm.
  { unfold mprops, by_key. rewrite stable_sort_perm, <-list_fmap_compose.
    by erewrite list_fmap_ext by done. }
  destruct (bp && _) eqn:Hbp.
  { intros [= ->]. apply andb_true_iff in Hbp as [_ Hbp]. cbn. by rewrite Hbp. }
  destruct (fill mprops _) as [F|] eqn:Hfill; [|done].
  destruct (negb bp && bool_decide (F = [])); [done|]. intros [= <-]. cbn.
  destruct (fill_spec _ _ _ Hndm Hfill) as [_ Hget].
  rewrite fill_fixed; [done|]. intros k f Hf. destruct (Hget k f Hf) as (r & ok & Hr & HF).
  destruct (Hm k f Hf) as ([c|] & Hc & ->); [|done]. destruct ok.
  - exists r, true. unfold obj_at, has_key. rewrite HF. cbn. split; [|done].
    eapply IHp; [done|by eapply Huniq|done].
  - unfold has_key in Hr. destruct (bool_decide _) eqn:Hb in Hr.
    { by apply applyDefaults_present in Hr. }
    apply bool_decide_eq_false in Hb. exists r, false. split; [|done].
    unfold obj_at, has_key in Hr |- *. rewrite HF. rewrite bool_decide_eq_false_2; done.
Qed.

Lemma shape_sound s : validInputSchemaShape (Some s) = Some true → sound s.
Proof. intros H. destruct (shape_loop_sound _ _ _ H (Some s)) as (s' & [= <-] & ?); set_solver. Qed.

(** C30: The shape check always answers, and under a schema it accepts the
    validation of any value panics on nothing and returns no error exactly when the value
    conforms to the schema. *)
Theorem ValidateInputValue_correct (s : InputSchema) (v : any) (path : string) :
  is_Some (validInputSchemaShape (Some s)) ∧
  (validInputSchemaShape (Some s) = Some true →
   ∃ errs, ValidateInputValue s v path = Some errs ∧ (errs = [] ↔ conforms s v)).
Proof.
  split; [by apply shape_loop_total|]. intros Hs. apply walkInput_ok. by apply shape_sound.
Qed.

Definition demo_schema : InputSchema :=
  mkSchema "object" ""
    [("n", Some (mkSchema "number" "" [] [] None [] (Some (AF64 (f_of_Z 3)))));
     ("tags", Some (mkSchema "array" "" [] [] (Some (mkSchema "string" "" [] [] None [] None)) [] None))]
    ["n"] None [] None.

Lemma ValidateInputValue_correct_witness :
  ∃ errs, ValidateInputValue demo_schema (AObj [("tags", AArr [ABool true])]) "$" = Some errs ∧
    (errs = [] ↔ conforms demo_schema (AObj [("tags", AArr [ABool true])])).
Proof.
  apply (proj2 (ValidateInputValue_correct demo_schema _ "$")). vm_compute. reflexivity.
Defined.

Lemma applyDefaults_absent s v p r : applyDefaults s v p = Some (r, false) → r = ANil.
Proof.
  destruct s as [type ? ? ? ? ? df]. cbn [applyDefaults].
  destruct (String.eqb type "object"); cbn [negb].
  - intros. repeat case_match; naive_solver.
  - destruct p; [done|]. unfold HasDefault, DefaultValue. cbn. intros [= <- Hd].
    destruct df; [|done]. by rewrite bool_decide_eq_true_2 in Hd by (by eexists).
Qed.
Lemma applyDefaults_nil s v ok : applyDefaults s v true = Some (ANil, ok) → v = ANil.
Proof.
  destruct s. cbn. destruct (String.eqb _ "object"); cbn; [|by intros [= ->]].
  repeat case_match; naive_solver.
Qed.

(** Under an accepted schema whose maps have distinct keys, filling
    the declared defaults always returns, and filling the result again changes nothing. *)
Theorem ApplyInputDefaults_idempotent (s : InputSchema) (v : any) :
  validInputSchemaShape (Some s) = Some true → unique s →
  ∃ r, ApplyInputDefaults s v = Some r ∧ ApplyInputDefaults s r = Some r.
Proof.
  intros Hs Hu. apply shape_sound in Hs. unfold ApplyInputDefaults.
  set (present v := match v with ANil => false | _ => true end).
  assert (∀ w, present w = false ↔ w = ANil) as Hpresent by (by intros []).
  destruct (applyDefaults_total s Hs v (present v)) as [[r ok] Hr].
  exists r. change (match v with ANil => false | _ => true end) with (present v).
  change (match r with ANil => false | _ => true end) with (present r).
  rewrite Hr. split; [done|].
  destruct (present r) eqn:Hp.
  - assert (ok = true) as ->.
    { destruct ok; [done|]. apply applyDefaults_absent in Hr. apply Hpresent in Hr. congruence. }
    by rewrite (applyDefaults_again s Hu v _ _ Hr).
  - apply Hpresent in Hp as ->. destruct (present v) eqn:Hv.
    + apply applyDefaults_nil in Hr. apply Hpresent in Hr. congruence.
    + apply Hpresent in Hv as ->. by rewrite Hr.
Qed.

Lemma ApplyInputDefaults_idempotent_witness :
  ∃ r, ApplyInputDefaults demo_schema ANil = Some r ∧ ApplyInputDefaults demo_schema r = Some r.
Proof.
  apply ApplyInputDefaults_idempotent; [vm_compute; reflexivity|].
  constructor.
  - cbn. repeat (constructor; [set_solver|]). constructor.
  - cbn. intros k c [[= -> ->]|[[= -> ->]|[]%elem_of_nil]%elem_of_cons]%elem_of_cons;
      (constructor; [constructor|]); intros k' c' []%elem_of_nil.
Defined.
