(* ===== verification/JsonTree.v ===== *)
(** JSON documents as trees that keep what decoding into a struct looks at: the order and
    the repetition of the members and the text of the numbers; and encoding/json's rules for
    decoding them into typed values. *)
From S2P Require Import Prelude GoStrings GoInt GoFloat GoAny Json.
Local Open Scope string_scope.
Local Open Scope list_scope.

Inductive json :=
| JNull
| JBool (b : bool)
| JNum (literal : list ascii)
| JStr (s : string)
| JArr (l : list json)
| JObj (o : list (string * json)).
Abbreviation members := (list (string * json)).

(** ** Reading a text *)

(** The literal of a number and the bytes after it. *)
Definition scan_number (l : list ascii) : option (list ascii * list ascii) :=
  let sign := match l with c :: _ => if Ascii.eqb c "-" then 1 else 0 | [] => 0 end%nat in
  let '(whole, l2) := digit_run (drop sign l) in
  if match whole with [] => true | z :: _ :: _ => Ascii.eqb z "0" | _ => false end then None
  else
    let l3 := match l2 with
              | c :: l' => if Ascii.eqb c "." then
                             match digit_run l' with ([], _) => None | (_, r) => Some r end else Some l2
              | [] => Some l2
              end in
    match l3 with
    | None => None
    | Some l3 =>
        let rest := match l3 with
                    | c :: l' =>
                        if Ascii.eqb c "e" || Ascii.eqb c "E" then
                          let l' := match l' with
                                    | d :: r => if Ascii.eqb d "-" || Ascii.eqb d "+" then r else l' | [] => l' end in
                          match digit_run l' with ([], _) => None | (_, r) => Some r end
                        else Some l3
                    | [] => Some l3
                    end in
        match rest with
        | None => None
        | Some rest => Some (take (length l - length rest) l, rest)
        end
    end.

Fixpoint parse_tree (fuel depth : nat) (l : list ascii) : option (json * list ascii) :=
  match fuel with
  | O => None
  | S f =>
      let fix items (n : nat) (l : list ascii) : option (list json * list ascii) :=
        match n with
        | O => None
        | S n' =>
            '(v, l1) ← parse_tree f (S depth) l;
            match skip_space l1 with
            | c :: l2 =>
                if Ascii.eqb c "]" then Some ([v], l2)
                else if Ascii.eqb c "," then '(vs, l3) ← items n' l2; Some (v :: vs, l3) else None
            | [] => None
            end
        end in
      let fix fields (n : nat) (l : list ascii) : option (members * list ascii) :=
        match n with
        | O => None
        | S n' =>
            match skip_space l with
            | q :: l1 =>
                if negb (Ascii.eqb q (chr 34)) then None
                else
                  '(k, l2) ← parse_string (length l1) l1;
                  match skip_space l2 with
                  | c :: l3 =>
                      if negb (Ascii.eqb c ":") then None
                      else
                        '(v, l4) ← parse_tree f (S depth) l3;
                        match skip_space l4 with
                        | d :: l5 =>
                            if Ascii.eqb d "}" then Some ([(of_bytes k, v)], l5)
                            else if Ascii.eqb d "," then '(o, l6) ← fields n' l5; Some ((of_bytes k, v) :: o, l6)
                            else None
                        | [] => None
                        end
                  | [] => None
                  end
            | [] => None
            end
        end in
      match skip_space l with
      | [] => None
      | c :: l1 =>
          if Ascii.eqb c (chr 34) then '(s, r) ← parse_string (length l1) l1; Some (JStr (of_bytes s), r)
          else if Ascii.eqb c "[" then
            if (max_depth <? depth)%nat then None
            else
              match skip_space l1 with
              | d :: l2 => if Ascii.eqb d "]" then Some (JArr [], l2)
                           else '(vs, r) ← items (S (length l1)) l1; Some (JArr vs, r)
              | [] => None
              end
          else if Ascii.eqb c "{" then
            if (max_depth <? depth)%nat then None
            else
              match skip_space l1 with
              | d :: l2 => if Ascii.eqb d "}" then Some (JObj [], l2)
                           else '(o, r) ← fields (S (length l1)) l1; Some (JObj o, r)
              | [] => None
              end
          else match strip_prefix (bytes "null") (c :: l1) with
          | Some r => Some (JNull, r)
          | None =>
          match strip_prefix (bytes "true") (c :: l1) with
          | Some r => Some (JBool true, r)
          | None =>
          match strip_prefix (bytes "false") (c :: l1) with
          | Some r => Some (JBool false, r)
          | None => '(lit, r) ← scan_number (c :: l1); Some (JNum lit, r)
          end end end
      end
  end.
Definition ReadTree (s : string) : option json :=
  match parse_tree (S (len s)) 1 (bytes s) with
  | Some (v, rest) => match skip_space rest with [] => Some v | _ => None end
  | None => None
  end.

(** ** Numbers and dynamic values *)

Definition num_float (literal : list ascii) : option float64 :=
  match parse_number literal with Some (f, []) => Some f | _ => None end.
Definition num_int (literal : list ascii) : option Z := Atoi (of_bytes literal).

(** Decoding into [any]; [bad] stands for a number out of range. A repeated member keeps
    the last value. *)
Fixpoint as_any (bad : any) (v : json) : any :=
  match v with
  | JNull => ANil
  | JBool b => ABool b
  | JNum literal => match num_float literal with Some f => AF64 f | None => bad end
  | JStr s => AStr s
  | JArr l => AArr (map (as_any bad) l)
  | JObj o => AObj (fold_left (λ acc kv, obj_set acc kv.1 kv.2) (map (λ kv, (kv.1, as_any bad kv.2)) o) [])
  end.
Fixpoint numbers_ok (v : json) : bool :=
  match v with
  | JNum literal => match num_float literal with Some _ => true | None => false end
  | JArr l => forallb numbers_ok l
  | JObj o => forallb (λ kv, numbers_ok kv.2) o
  | _ => true
  end.
Definition to_any (v : json) : option any := if numbers_ok v then Some (as_any ANil v) else None.

(** [m[key]] of a [map[string]json.RawMessage]: the last member with the key. *)
Fixpoint jget (o : members) (key : string) : option json :=
  match o with
  | [] => None
  | (k, v) :: o' => match jget o' key with Some w => Some w | None => if String.eqb k key then Some v else None end
  end.
Definition jkeys (o : members) : list string := remove_dups (map fst o).
Definition isJSONNull (v : json) : bool := match v with JNull => true | _ => false end.

(** ** The field a member sets

    encoding/json looks for the exact name, then for a name that folds to the same
    text; two letters outside ASCII fold into it (long s, Kelvin sign). *)
Fixpoint fold_bytes (l : list ascii) : list ascii :=
  match l with
  | c :: ((d :: l2) as l1) =>
      match l2 with
      | e :: l3 =>
          if ((code c =? 197) && (code d =? 191))%nat then "S"%char :: fold_bytes l2
          else if ((code c =? 226) && (code d =? 132) && (code e =? 170))%nat then "K"%char :: fold_bytes l3
          else upper_byte c :: fold_bytes l1
      | [] => if ((code c =? 197) && (code d =? 191))%nat then ["S"%char] else upper_byte c :: fold_bytes l1
      end
  | [c] => [upper_byte c]
  | [] => []
  end.
Definition same_field (key name : string) : bool :=
  String.eqb key name || bool_decide (fold_bytes (bytes key) = fold_bytes (bytes name)).
Definition field_of (names : list string) (key : string) : option string :=
  match filter (λ n, key = n) names with
  | n :: _ => Some n
  | [] => match filter (λ n, same_field key n = true) names with n :: _ => Some n | [] => None end
  end.

(** ** Readers

    A reader takes a tree and the value the target holds; [None] is a value of another
    type, an error of the whole document. A null leaves a string, a number, a boolean and a
    struct as they are, and clears a slice, a map and a pointer. A field met twice goes on
    from its value: structs and maps merge, the elements of a slice are read over the
    elements they replace. *)
Definition reader (A : Type) : Type := json → A → option A.

Definition read_string : reader string := λ v prev,
  match v with JNull => Some prev | JStr s => Some s | _ => None end.
Definition read_bool : reader bool := λ v prev,
  match v with JNull => Some prev | JBool b => Some b | _ => None end.
Definition read_int : reader Z := λ v prev,
  match v with JNull => Some prev | JNum literal => num_int literal | _ => None end.
Definition read_float : reader float64 := λ v prev,
  match v with JNull => Some prev | JNum literal => num_float literal | _ => None end.
Definition read_any : reader any := λ v _, to_any v.
(** [json.RawMessage]: empty when the field is absent. *)
Definition read_raw : reader (option json) := λ v _, Some (Some v).

Section readers.
Context {A : Type} (read : reader A) (zero : A).
Definition read_pointer : reader (option A) := λ v prev,
  match v with JNull => Some None | _ => Some <$> read v (default zero prev) end.
Fixpoint read_elements (l : list json) (prev : list A) : option (list A) :=
  match l with
  | [] => Some []
  | v :: l => x ← read v (default zero (head prev)); xs ← read_elements l (tail prev); Some (x :: xs)
  end.
Definition read_slice : reader (list A) := λ v prev,
  match v with JNull => Some [] | JArr l => read_elements l prev | _ => None end.
Fixpoint set_binding (l : list (string * A)) (key : string) (x : A) : list (string * A) :=
  match l with
  | [] => [(key, x)]
  | (k, y) :: l' => if String.eqb k key then (k, x) :: l' else (k, y) :: set_binding l' key x
  end.
Fixpoint read_bindings (o : members) (m : list (string * A)) : option (list (string * A)) :=
  match o with
  | [] => Some m
  | (key, v) :: o => x ← read v zero; read_bindings o (set_binding m key x)
  end.
(** The nil map is [None]. *)
Definition read_map : reader (option (list (string * A))) := λ v prev,
  match v with JNull => Some None | JObj o => Some <$> read_bindings o (default [] prev) | _ => None end.

(** A struct, from the names of its fields and the way one of them is set. *)
Context (names : list string) (set : string → json → A → option A).
Fixpoint read_fields (o : members) (x : A) : option A :=
  match o with
  | [] => Some x
  | (key, v) :: o =>
      match field_of names key with
      | Some field => x ← set field v x; read_fields o x
      | None => read_fields o x
      end
  end.
Definition read_struct : reader A := λ v prev,
  match v with JNull => Some prev | JObj o => read_fields o prev | _ => None end.
End readers.

Example read_tree_example :
  ReadTree (of_bytes ([chr 123; chr 34] ++ bytes "a" ++ [chr 34] ++ bytes ": [1.50, null, true], " ++ [chr 34] ++ bytes "a" ++
    [chr 34] ++ bytes ":-2e3}")) =
  Some (JObj [("a", JArr [JNum (bytes "1.50"); JNull; JBool true]); ("a", JNum (bytes "-2e3"))]).
Proof. vm_compute. reflexivity. Qed.
