(* ===== verification/JsonPrint.v ===== *)
(** The text of a JSON tree as encoding/json writes structs, and its round trip through the
    reader of [JsonTree]. *)
From S2P Require Import Prelude GoStrings GoInt GoFloat GoAny Json JsonTree.
Local Open Scope nat_scope.
Local Open Scope list_scope.

Fixpoint print_tree (v : json) : list ascii :=
  match v with
  | JNull => bytes "null"
  | JBool b => bytes (if b then "true" else "false")
  | JNum literal => literal
  | JStr s => json_string s
  | JArr l => json_array (map print_tree l)
  | JObj o => chr 123 :: join_bytes (map (λ kv : string * json, json_string kv.1 ++ ":"%char :: print_tree kv.2) o) ++ [chr 125]
  end.

(** Trees whose strings are ASCII and whose numbers are natural; [depth] is where the tree
    stands in the document. *)
Definition ascii_text (s : string) : bool := forallb (λ c, code c <? 128) (bytes s).
Fixpoint good_tree (depth : nat) (v : json) : Prop :=
  match v with
  | JNull | JBool _ => True
  | JNum literal => ∃ n, (0 ≤ n)%Z ∧ literal = digits n
  | JStr s => ascii_text s = true
  | JArr l => depth ≤ max_depth ∧ Forall id (map (good_tree (S depth)) l)
  | JObj o => depth ≤ max_depth ∧ Forall id (map (λ kv : string * json, ascii_text kv.1 = true ∧ good_tree (S depth) kv.2) o)
  end.
Fixpoint height (v : json) : nat :=
  match v with
  | JArr l => S (fold_right max 0 (map height l))
  | JObj o => S (fold_right max 0 (map (λ kv : string * json, height kv.2) o))
  | _ => 0
  end.
(** What may follow a value. *)
Definition delimited (rest : list ascii) : bool :=
  match rest with [] => true | c :: _ => Ascii.eqb c "," || Ascii.eqb c "]" || Ascii.eqb c "}" end.

(** ** Strings *)

Lemma parse_escaped c f rest : code c < 128 →
  parse_string (S f) (escape_byte c ++ rest) =
  match parse_string f rest with Some (s, r) => Some (c :: s, r) | None => None end.
Proof.
  destruct c as [[] [] [] [] [] [] [] []]; intros Hc; try (exfalso; vm_compute in Hc; lia); clear Hc; reflexivity.
Qed.
Lemma escape_length c : 1 ≤ length (escape_byte c).
Proof. unfold escape_byte. repeat case_match; cbn; lia. Qed.
Lemma parse_string_print l f g rest : forallb (λ c, code c <? 128) l = true → length l ≤ g → length l < f →
  parse_string f (escape_bytes g l ++ chr 34 :: rest) = Some (l, rest).
Proof.
  revert f g. induction l as [|c l IH]; intros [|f] [|g] Ha Hg Hf; cbn [length] in *; try lia; try reflexivity.
  cbn [escape_bytes]. cbn [forallb] in Ha. apply andb_true_iff in Ha as [Hc Ha]. rewrite Hc.
  rewrite <-app_assoc, parse_escaped by (by apply Nat.ltb_lt). by rewrite IH by (done || lia).
Qed.
Lemma escaped_length g l : forallb (λ c, code c <? 128) l = true → length l ≤ g → length l ≤ length (escape_bytes g l).
Proof.
  revert g. induction l as [|c l IH]; intros [|g] Ha Hg; cbn [length] in *; try lia.
  cbn [escape_bytes]. cbn [forallb] in Ha. apply andb_true_iff in Ha as [Hc Ha]. rewrite Hc, length_app.
  pose proof (escape_length c). specialize (IH g Ha). lia.
Qed.
(** A literal after its opening quote. *)
Lemma parse_literal s rest : ascii_text s = true →
  ∃ l1, json_string s ++ rest = chr 34 :: l1 ∧ parse_string (length l1) l1 = Some (bytes s, rest).
Proof.
  intros Ha. exists (escape_bytes (len s) (bytes s) ++ chr 34 :: rest). split.
  - unfold json_string. cbn [app]. by rewrite <-app_assoc.
  - apply parse_string_print; [done|done|]. rewrite length_app. cbn [length].
    pose proof (escaped_length (len s) (bytes s) Ha ltac:(done)). lia.
Qed.

(** ** Numbers *)

Lemma digits_rev_digits f n : (0 ≤ n)%Z → forallb is_digit (digits_rev f n) = true.
Proof.
  revert n. induction f as [|f IH]; intros n Hn; cbn [digits_rev]; [done|].
  assert (is_digit (chr (48 + Z.to_nat (n mod 10))) = true) as Hd.
  { pose proof (Z.mod_pos_bound n 10). assert (Z.to_nat (n mod 10) < 10) as Hlt by lia. revert Hlt.
    generalize (Z.to_nat (n mod 10)). intros k Hk. do 10 (destruct k as [|k]; [reflexivity|]). lia. }
  destruct (n <? 10)%Z; cbn [forallb]; rewrite Hd; [done|]. apply IH. by apply Z.div_pos.
Qed.
Lemma digits_rev_last f n : (0 < n)%Z → (Z.of_nat f > Z.log2 n)%Z → ∃ l c, digits_rev f n = l ++ [c] ∧ Ascii.eqb c "0" = false.
Proof.
  revert n. induction f as [|f IH]; intros n Hn Hf; [pose proof (Z.log2_nonneg n); lia|]. cbn [digits_rev].
  destruct (Z.ltb_spec n 10).
  - exists [], (chr (48 + Z.to_nat (n mod 10))). split; [done|]. rewrite Z.mod_small by lia.
    assert (0 < Z.to_nat n < 10) as Hlt by lia. revert Hlt. generalize (Z.to_nat n). intros k Hk.
    destruct k as [|k]; [lia|]. do 9 (destruct k as [|k]; [reflexivity|]). lia.
  - destruct (IH (n / 10)%Z) as (l & c & -> & Hc).
    + apply Z.div_str_pos. lia.
    + assert (Z.log2 (n / 10) < Z.log2 n)%Z; [|lia]. apply Z.log2_lt_pow2; [apply Z.div_str_pos; lia|].
      pose proof (Z.log2_spec n Hn) as [_ Hs]. rewrite Z.pow_succ_r in Hs by apply Z.log2_nonneg.
      apply Z.div_lt_upper_bound; lia.
    + by exists (chr (48 + Z.to_nat (n mod 10)) :: l), c.
Qed.
Lemma digit_run_all l rest : forallb is_digit l = true → match rest with c :: _ => is_digit c = false | [] => True end →
  digit_run (l ++ rest) = (l, rest).
Proof.
  intros Hl Hr. induction l as [|c l IH]; cbn [app].
  - destruct rest as [|c rest]; [done|]. cbn [digit_run]. by rewrite Hr.
  - cbn [forallb] in Hl. apply andb_true_iff in Hl as [Hc Hl]. cbn [digit_run]. rewrite Hc. by rewrite IH.
Qed.
Lemma digits_shape n : (0 ≤ n)%Z → forallb is_digit (digits n) = true ∧
  ∃ c l, digits n = c :: l ∧ (Ascii.eqb c "0" = true → l = []).
Proof.
  intros Hn. unfold digits. split.
  - apply forallb_forall. intros c Hc%in_rev. by apply (proj1 (forallb_forall _ _) (digits_rev_digits (S (Z.to_nat (Z.log2 n))) n Hn)).
  - destruct (decide (n = 0)%Z) as [->|]; [by exists "0"%char, []|].
    destruct (digits_rev_last (S (Z.to_nat (Z.log2 n))) n) as (l & c & -> & Hc); [lia|pose proof (Z.log2_nonneg n); lia|].
    rewrite rev_app_distr. exists c, (rev l). split; [done|]. by rewrite Hc.
Qed.
Lemma scan_digits n rest : (0 ≤ n)%Z → delimited rest = true → scan_number (digits n ++ rest) = Some (digits n, rest).
Proof.
  intros Hn Hr. destruct (digits_shape n Hn) as [Hall (c & l & Heq & Hzero)].
  assert (match rest with c :: _ => is_digit c = false ∧ Ascii.eqb c "." = false ∧ (Ascii.eqb c "e" || Ascii.eqb c "E" = false) | [] => True end) as Hrest.
  { destruct rest as [|d rest]; [done|]. cbn [delimited] in Hr. apply orb_true_iff in Hr as [[Hd|Hd]%orb_true_iff|Hd];
      apply Ascii.eqb_eq in Hd as ->; by vm_compute. }
  assert (Ascii.eqb c "-" = false) as Hminus.
  { rewrite Heq in Hall. cbn [forallb] in Hall. apply andb_true_iff in Hall as [Hc _]. destruct (Ascii.eqb_spec c "-") as [->|]; [by vm_compute in Hc|done]. }
  unfold scan_number. set (L := digits n ++ rest).
  assert (match L with c :: _ => if Ascii.eqb c "-" then 1 else 0 | [] => 0 end = 0) as ->.
  { unfold L. rewrite Heq. cbn [app]. by rewrite Hminus. }
  rewrite drop_0. assert (digit_run L = (digits n, rest)) as ->.
  { apply digit_run_all; [done|by destruct rest as [|d rest]; [|destruct Hrest]]. }
  assert (match digits n with [] => true | z :: _ :: _ => Ascii.eqb z "0" | _ => false end = false) as ->.
  { rewrite Heq. destruct l as [|d l]; [done|]. destruct (Ascii.eqb c "0") eqn:E; [|done]. by specialize (Hzero eq_refl). }
  assert (take (length L - length rest) L = digits n) as Htake.
  { unfold L. rewrite length_app, Nat.add_sub. by rewrite take_app_length. }
  destruct rest as [|d rest]; [by rewrite Htake|]. destruct Hrest as (_ & -> & ->). by rewrite Htake.
Qed.

(** ** Trees *)

(** The loops of [parse_tree], over the parser of a member. *)
Definition items_of (parse : list ascii → option (json * list ascii)) :=
  fix items (n : nat) (l : list ascii) : option (list json * list ascii) :=
    match n with
    | O => None
    | S n' =>
        '(v, l1) ← parse l;
        match skip_space l1 with
        | c :: l2 =>
            if Ascii.eqb c "]" then Some ([v], l2)
            else if Ascii.eqb c "," then '(vs, l3) ← items n' l2; Some (v :: vs, l3) else None
        | [] => None
        end
    end.
Definition fields_of (parse : list ascii → option (json * list ascii)) :=
  fix fields (n : nat) (l : list ascii) : option (members * list ascii) :=
    match n with
    | O => None
    | S n' =>
        match skip_space l with
        | q :: l1 =>
            if negb (Ascii.eqb q (chr 34)) then None
            else
              '(k, l2) ← parse_string (length l1) l1;
              match skip_space l2 with
              | c :: l3 =>
                  if negb (Ascii.eqb c ":") then None
                  else
                    '(v, l4) ← parse l3;
                    match skip_space l4 with
                    | d :: l5 =>
                        if Ascii.eqb d "}" then Some ([(of_bytes k, v)], l5)
                        else if Ascii.eqb d "," then '(o, l6) ← fields n' l5; Some ((of_bytes k, v) :: o, l6)
                        else None
                    | [] => None
                    end
              | [] => None
              end
        | [] => None
        end
    end.
Lemma parse_tree_S f depth l : parse_tree (S f) depth l =
  match skip_space l with
  | [] => None
  | c :: l1 =>
      if Ascii.eqb c (chr 34) then '(s, r) ← parse_string (length l1) l1; Some (JStr (of_bytes s), r)
      else if Ascii.eqb c "[" then
        if (max_depth <? depth)%nat then None
        else match skip_space l1 with
             | d :: l2 => if Ascii.eqb d "]" then Some (JArr [], l2)
                          else '(vs, r) ← items_of (parse_tree f (S depth)) (S (length l1)) l1; Some (JArr vs, r)
             | [] => None
             end
      else if Ascii.eqb c "{" then
        if (max_depth <? depth)%nat then None
        else match skip_space l1 with
             | d :: l2 => if Ascii.eqb d "}" then Some (JObj [], l2)
                          else '(o, r) ← fields_of (parse_tree f (S depth)) (S (length l1)) l1; Some (JObj o, r)
             | [] => None
             end
      else match strip_prefix (bytes "null") (c :: l1) with
      | Some r => Some (JNull, r)
      | None =>
      match strip_prefix (bytes "true") (c :: l1) with
      | Some r => Some (JBool true, r)
      | None =>
      match strip_prefix (bytes "false") (c :: l1) with
      | Some r => Some (JBool false, r)
      | None => '(lit, r) ← scan_number (c :: l1); Some (JNum lit, r)
      end end end
  end.
Proof. reflexivity. Qed.

(** How the text of a value begins: with none of the characters that the loops look at. *)
Definition starts_value (l : list ascii) : Prop :=
  match l with c :: _ => is_json_space c = false ∧ Ascii.eqb c "]" = false ∧ Ascii.eqb c "}" = false | [] => False end.
Lemma digit_starts c : is_digit c = true → is_json_space c = false ∧ Ascii.eqb c "]" = false ∧ Ascii.eqb c "}" = false ∧
  Ascii.eqb c (chr 34) = false ∧ Ascii.eqb c "[" = false ∧ Ascii.eqb c "{" = false ∧
  Ascii.eqb "n" c = false ∧ Ascii.eqb "t" c = false ∧ Ascii.eqb "f" c = false.
Proof. destruct c as [[] [] [] [] [] [] [] []]; intros Hd; try discriminate Hd; vm_compute; repeat split. Qed.
Lemma print_starts depth v rest : good_tree depth v → starts_value (print_tree v ++ rest).
Proof.
  destruct v as [|[]|lit|s|l|o]; try done. intros (n & Hn & ->). destruct (digits_shape n Hn) as [Hall (c & l & Heq & _)].
  cbn [print_tree]. rewrite Heq in Hall |- *. cbn [forallb] in Hall. apply andb_true_iff in Hall as [Hc _].
  by apply digit_starts in Hc as (? & ? & ? & _).
Qed.
Lemma skip_starts l : starts_value l → skip_space l = l.
Proof. destruct l as [|c l]; [done|]. intros [Hc _]. cbn [skip_space]. by rewrite Hc. Qed.

Section members.
Context (parse : list ascii → option (json * list ascii)) (depth : nat).
(** The parser of the members reads them back. *)
Definition reads (v : json) : Prop := ∀ rest, delimited rest = true → parse (print_tree v ++ rest) = Some (v, rest).

Lemma items_print l n rest : Forall (λ v, reads v) l → l ≠ [] → length l ≤ n →
  items_of parse n (join_bytes (map print_tree l) ++ "]"%char :: rest) = Some (l, rest).
Proof.
  revert n. induction l as [|v l IH]; intros [|n] Hl Hne Hn; cbn [length] in *; [done|done|lia|].
  inversion Hl as [|? ? Hv Hl']; subst. cbn [items_of map join_bytes]. destruct l as [|v' l].
  - cbn [map]. rewrite Hv by done. reflexivity.
  - cbn [map]. rewrite <-app_assoc. cbn [app]. change (print_tree v' :: map print_tree l) with (map print_tree (v' :: l)).
    rewrite Hv by done. cbn [mbind option_bind skip_space]. change (is_json_space (chr 44)) with false. cbn beta iota.
    change (Ascii.eqb (chr 44) "]") with false. change (Ascii.eqb (chr 44) ",") with true. cbn beta iota.
    fold (items_of parse). rewrite IH by (done || lia). reflexivity.
Qed.
Definition print_field (kv : string * json) : list ascii := json_string kv.1 ++ ":"%char :: print_tree kv.2.
Lemma fields_print (o : members) n rest : Forall (λ kv : string * json, ascii_text kv.1 = true ∧ reads kv.2) o → o ≠ [] → length o ≤ n →
  fields_of parse n (join_bytes (map print_field o) ++ "}"%char :: rest) = Some (o, rest).
Proof.
  revert n. induction o as [|[k v] o IH]; intros [|n] Hl Hne Hn; cbn [length] in *; [done|done|lia|].
  inversion Hl as [|? ? [Hk Hv] Hl']; subst. cbn [fst snd] in Hk, Hv. 
  assert (∀ tail, delimited tail = true → fields_of parse (S n) (print_field (k, v) ++ tail) =
    match skip_space tail with
    | d :: l5 =>
        if Ascii.eqb d "}" then Some ([(k, v)], l5)
        else if Ascii.eqb d "," then '(o, l6) ← fields_of parse n l5; Some ((k, v) :: o, l6) else None
    | [] => None
    end) as Hfield.
  { intros tail Htail. unfold print_field. cbn [fst snd]. rewrite <-app_assoc. destruct (parse_literal k (":"%char :: print_tree v ++ tail) Hk) as (l1 & Heq & Hp).
    cbn [app]. rewrite Heq. cbn [fields_of skip_space]. change (is_json_space (chr 34)) with false. cbn beta iota.
    change (Ascii.eqb (chr 34) (chr 34)) with true. cbn [negb]. rewrite Hp. cbn [mbind option_bind skip_space].
    change (is_json_space ":") with false. cbn beta iota. change (Ascii.eqb ":" ":") with true. cbn [negb].
    rewrite Hv by done. cbn [mbind option_bind]. by rewrite of_bytes_bytes. }
  destruct o as [|kv o].
  - cbn [map join_bytes]. rewrite Hfield by done. reflexivity.
  - cbn [map join_bytes]. rewrite <-app_assoc. cbn [app]. change (print_field kv :: map print_field o) with (map print_field (kv :: o)).
    rewrite Hfield by done. cbn [skip_space]. change (is_json_space (chr 44)) with false. cbn beta iota.
    change (Ascii.eqb (chr 44) "}") with false. change (Ascii.eqb (chr 44) ",") with true. cbn beta iota.
    rewrite IH by (done || lia). reflexivity.
Qed.
End members.

(** ** The round trip *)

Lemma forall_map {A} (P : A → Prop) l : Forall id (map P l) → Forall P l.
Proof. induction l as [|x l IH]; [done|]. cbn [map]. inversion 1; subst. constructor; [done|by apply IH]. Qed.
Lemma height_member {A} (f : A → nat) l x : In x l → f x ≤ fold_right max 0 (map f l).
Proof. induction l as [|y l IH]; [done|]. cbn [map fold_right]. intros [->|Hx]; [lia|]. specialize (IH Hx). lia. Qed.
Lemma max_bound {A} (f : A → nat) l m : (∀ x, In x l → f x ≤ m) → fold_right max 0 (map f l) ≤ m.
Proof. induction l as [|x l IH]; intros H; cbn [map fold_right]; [lia|]. pose proof (H x (or_introl eq_refl)). pose proof (IH (λ y Hy, H y (or_intror Hy))). lia. Qed.
Lemma print_length v depth : good_tree depth v → 1 ≤ length (print_tree v).
Proof.
  intros Hv. pose proof (print_starts depth v [] Hv) as Hs. rewrite app_nil_r in Hs. destruct (print_tree v); [done|cbn; lia].
Qed.
Lemma join_length (texts : list (list ascii)) : Forall (λ t, 1 ≤ length t) texts → length texts ≤ length (join_bytes texts).
Proof.
  induction 1 as [|t texts Ht _ IH]; [done|]. cbn [join_bytes]. destruct texts as [|u texts]; [cbn; lia|].
  rewrite length_app. cbn [length] in *. lia.
Qed.
Lemma join_member t (texts : list (list ascii)) : In t texts → length t ≤ length (join_bytes texts).
Proof.
  induction texts as [|u texts IH]; [done|]. intros [->|Ht]; cbn [join_bytes]; destruct texts as [|v texts]; try done; rewrite length_app; cbn [length]; [lia|].
  specialize (IH Ht). cbn [length] in IH. lia.
Qed.

Lemma value_roundtrip fuel : ∀ depth v rest, good_tree depth v → height v < fuel → delimited rest = true →
  parse_tree fuel depth (print_tree v ++ rest) = Some (v, rest).
Proof.
  induction fuel as [|f IH]; intros depth v rest Hgood Hf Hrest; [lia|].
  rewrite parse_tree_S, skip_starts by (by eapply print_starts).
  destruct v as [|[]|lit|s|l|o]; try reflexivity.
  - destruct Hgood as (n & Hn & ->). cbn [print_tree]. pose proof (scan_digits n rest Hn Hrest) as Hscan.
    destruct (digits_shape n Hn) as [Hall (c & l & Heq & _)]. rewrite Heq in Hall, Hscan |- *.
    cbn [forallb] in Hall. apply andb_true_iff in Hall as [Hc _].
    apply digit_starts in Hc as (_ & _ & _ & Hq & Hb & Ho & Hnn & Ht & Hff). cbn [app] in Hscan |- *. rewrite Hq, Hb, Ho.
    cbn [bytes list_ascii_of_string strip_prefix]. rewrite Hnn, Ht, Hff. by rewrite Hscan.
  - cbn [print_tree]. destruct (parse_literal s rest Hgood) as (l1 & Heq & Hp). rewrite Heq.
    change (Ascii.eqb (chr 34) (chr 34)) with true. cbn beta iota. rewrite Hp. cbn [mbind option_bind]. by rewrite of_bytes_bytes.
  - destruct Hgood as [Hdepth Hl%forall_map]. cbn [print_tree]. unfold json_array. cbn [app]. rewrite <-app_assoc. cbn [app].
    change (Ascii.eqb (chr 91) (chr 34)) with false. change (Ascii.eqb (chr 91) "[") with true. cbn beta iota.
    assert ((max_depth <? depth) = false) as -> by (by apply Nat.ltb_ge).
    destruct l as [|v l]; [reflexivity|].
    assert (Forall (λ v, reads (parse_tree f (S depth)) v) (v :: l)) as Hreads.
    { apply Forall_forall. intros w Hw%list_elem_of_In tail Htail. apply IH; [|cbn [height] in Hf; pose proof (height_member height _ _ Hw); lia|done].
      rewrite Forall_forall in Hl. apply Hl. by apply list_elem_of_In. }
    set (body := join_bytes (map print_tree (v :: l)) ++ chr 93 :: rest).
    assert (starts_value body) as Hstart.
    { unfold body. inversion Hl; subst. cbn [map join_bytes]. destruct (map print_tree l); [|rewrite <-app_assoc]; by eapply print_starts. }
    rewrite skip_starts by done. destruct body as [|d body'] eqn:Hbody; [done|].
    destruct Hstart as (_ & Hd & _). rewrite Hd. rewrite <-Hbody. unfold body.
    rewrite items_print; [done|done|done|]. rewrite length_app, <-(length_map print_tree).
    rewrite (join_length (map print_tree (v :: l))); [cbn [length]; lia|].
    apply Forall_map. eapply Forall_impl; [exact Hl|]. intros w Hw. by eapply print_length.
  - destruct Hgood as [Hdepth Hl%forall_map]. cbn [print_tree]. change (λ kv : string * json, json_string kv.1 ++ ":"%char :: print_tree kv.2) with print_field.
    cbn [app]. rewrite <-app_assoc. cbn [app].
    change (Ascii.eqb (chr 123) (chr 34)) with false. change (Ascii.eqb (chr 123) "[") with false. change (Ascii.eqb (chr 123) "{") with true. cbn beta iota.
    assert ((max_depth <? depth) = false) as -> by (by apply Nat.ltb_ge).
    destruct o as [|[k v] o]; [reflexivity|].
    assert (Forall (λ kv : string * json, ascii_text kv.1 = true ∧ reads (parse_tree f (S depth)) kv.2) ((k, v) :: o)) as Hreads.
    { apply Forall_forall. intros w Hw. rewrite Forall_forall in Hl. destruct (Hl w Hw) as [Hk Hgood]. split; [done|].
      intros tail Htail. apply IH; [done| |done]. cbn [height] in Hf. apply list_elem_of_In in Hw.
      pose proof (height_member (λ kv : string * json, height kv.2) _ _ Hw). cbn beta in *. lia. }
    set (body := join_bytes (map print_field ((k, v) :: o)) ++ chr 125 :: rest).
    assert (∃ tail, body = chr 34 :: tail) as [tail Hbody].
    { unfold body. cbn [map join_bytes]. destruct (map print_field o) as [|t ts]; eexists; reflexivity. }
    rewrite Hbody. cbn [skip_space]. change (is_json_space (chr 34)) with false. cbn beta iota. change (Ascii.eqb (chr 34) "}") with false. cbn beta iota.
    rewrite <-Hbody. unfold body. rewrite (fields_print (parse_tree f (S depth))); [done|done|done|].
    rewrite length_app, <-(length_map print_field). rewrite (join_length (map print_field ((k, v) :: o))); [cbn [length]; lia|].
    apply Forall_map. eapply Forall_impl; [exact Hl|]. intros w _. unfold print_field, json_string. cbn. lia.
Qed.

Lemma height_length v depth : good_tree depth v → height v < length (print_tree v).
Proof.
  revert depth. assert (∀ n v depth, height v < n → good_tree depth v → height v < length (print_tree v)) as H; [|intros depth; intros ?; by eapply (H (S (height v))); [lia|]].
  induction n as [|n IH]; [lia|]. intros w depth Hn Hgood. pose proof (print_length w depth Hgood) as Hone.
  destruct w as [|b|lit|s|l|o]; cbn [height] in *; try lia.
  - destruct Hgood as [_ Hl%forall_map]. cbn [print_tree]. unfold json_array. cbn [length]. rewrite length_app. cbn [length].
    assert (fold_right max 0 (map height l) <= length (join_bytes (map print_tree l))); [|lia].
    apply max_bound. intros u Hu. rewrite Forall_forall in Hl.
    rewrite <-(join_member (print_tree u)) by (by apply in_map).
    assert (height u < length (print_tree u)); [|lia]. apply (IH u (S depth)); [pose proof (height_member height _ _ Hu); lia|].
    apply Hl. by apply list_elem_of_In.
  - destruct Hgood as [_ Hl%forall_map]. cbn [print_tree]. change (λ kv : string * json, json_string kv.1 ++ ":"%char :: print_tree kv.2) with print_field.
    cbn [length]. rewrite length_app. cbn [length].
    assert (fold_right max 0 (map (λ kv : string * json, height kv.2) o) <= length (join_bytes (map print_field o))); [|lia].
    apply max_bound. intros kv Hv. rewrite Forall_forall in Hl.
    rewrite <-(join_member (print_field kv)) by (by apply in_map).
    assert (height kv.2 < length (print_tree kv.2)) as Hlt.
    { apply (IH _ (S depth)); [pose proof (height_member (λ kv : string * json, height kv.2) _ _ Hv); cbn beta in *; lia|]. apply Hl. by apply list_elem_of_In. }
    unfold print_field. rewrite length_app. cbn [length]. lia.
Qed.

(** The text of a tree reads back as the tree. *)
Theorem tree_roundtrip v : good_tree 1 v → ReadTree (of_bytes (print_tree v)) = Some v.
Proof.
  intros Hv. unfold ReadTree. rewrite bytes_of_bytes. rewrite <-(app_nil_r (print_tree v)) at 2.
  rewrite value_roundtrip; [done|done| |done]. pose proof (height_length v 1 Hv). unfold len. rewrite bytes_of_bytes. lia.
Qed.
Lemma tree_roundtrip_witness : ReadTree (of_bytes (print_tree (JObj [("a", JArr [JNum (digits 12); JNull])]))) =
  Some (JObj [("a", JArr [JNum (digits 12); JNull])]).
Proof. apply tree_roundtrip. split; [vm_compute; lia|]. constructor; [|constructor]. split; [reflexivity|]. split; [vm_compute; lia|].
  repeat constructor. by exists 12%Z. Defined.
