(* ===== verification/SchemaWire.v ===== *)
(** Input schemas read from JSON (domain/inputs.go): the struct with encoding/json's rules,
    the check of its text, and [ParseInputSchemaValue]. *)
From S2P Require Import Prelude GoStrings GoFloat GoAny Json JsonTree Inputs.
Local Open Scope string_scope.
Local Open Scope list_scope.

(** ** Reading the struct *)

Definition no_schema : InputSchema := mkSchema "" "" [] [] None [] None.
Definition schema_fields : list string :=
  ["type"; "description"; "properties"; "required"; "items"; "enum"; "default"].

(** One field; [read] reads a pointer to a schema. A default that holds a number out of
    range is decoded with nil in its place, as [DefaultValue] ignores the error. *)
Definition set_field (read : reader (option InputSchema)) (field : string) (v : json) (s : InputSchema)
  : option InputSchema :=
  let 'mkSchema type description properties required items enum dflt := s in
  if String.eqb field "type" then
    type ← read_string v type; Some (mkSchema type description properties required items enum dflt)
  else if String.eqb field "description" then
    description ← read_string v description; Some (mkSchema type description properties required items enum dflt)
  else if String.eqb field "properties" then
    match v with
    | JNull => Some (mkSchema type description [] required items enum dflt)
    | JObj o =>
        properties ← read_bindings read None o properties;
        Some (mkSchema type description properties required items enum dflt)
    | _ => None
    end
  else if String.eqb field "required" then
    required ← read_slice read_string "" v required;
    Some (mkSchema type description properties required items enum dflt)
  else if String.eqb field "items" then
    items ← read v items; Some (mkSchema type description properties required items enum dflt)
  else if String.eqb field "enum" then
    enum ← read_slice read_any ANil v enum; Some (mkSchema type description properties required items enum dflt)
  else Some (mkSchema type description properties required items enum (Some (as_any ANil v))).

(** A pointer to a schema. *)
Fixpoint read_schema (v : json) (prev : option InputSchema) {struct v} : option (option InputSchema) :=
  match v with
  | JNull => Some None
  | JObj o => Some <$> read_fields schema_fields (set_field read_schema) o (default no_schema prev)
  | _ => None
  end.

(** The top-level target is a struct, which a null leaves empty. *)
Definition unmarshal_schema (v : json) : option InputSchema :=
  match v with JNull => Some no_schema | _ => s ← read_schema v None; s end.

(** [Some None] is the zero pair of a rejected value. *)
Definition ParseInputSchemaValue (value : any) : option (option InputSchema) :=
  match (raw ← Marshal value; tree ← ReadTree raw; unmarshal_schema tree) with
  | None => Some None
  | Some schema =>
      valid ← validInputSchemaShape (Some schema);
      Some (if (valid : bool) then Some schema else None)
  end.

(** ** The optional-versus-null boundary of a workflow's inputs

    The check reads the same text with exact keys and refuses a null child before it is
    visited. A default is never opened. *)
Definition present_non_null (o : members) (key : string) (ok : json → bool) : bool :=
  match jget o key with None => true | Some JNull => false | Some v => ok v end.
Definition is_string_tree (v : json) : bool := match v with JStr _ => true | _ => false end.
Definition string_or_null (v : json) : bool := match v with JStr _ | JNull => true | _ => false end.
(** The last value of every key. *)
Definition bindings (o : members) : list (string * json) :=
  omap (λ k, v ← jget o k; Some (k, v)) (jkeys o).

Definition wire_object (o : members) : bool :=
  match jget o "type" with Some v => is_string_tree v | None => false end &&
  present_non_null o "description" is_string_tree &&
  present_non_null o "properties" (λ v,
    match v with JObj ps => forallb (λ kv, negb (isJSONNull kv.2)) (bindings ps) | _ => false end) &&
  present_non_null o "required" (λ v, match v with JArr l => forallb string_or_null l | _ => false end) &&
  present_non_null o "items" (λ _, true) &&
  present_non_null o "enum" (λ v, match v with JArr l => forallb numbers_ok l | _ => false end).
(** The children the check pushes, the last one visited first. *)
Definition wire_children (o : members) : list json :=
  match jget o "items" with Some v => [v] | None => [] end ++
  match jget o "properties" with Some (JObj ps) => rev (map snd (bindings ps)) | _ => [] end.

Fixpoint wire_loop (fuel : nat) (pending : list json) (visited : nat) : option bool :=
  match pending with
  | [] => Some true
  | current :: rest =>
      match fuel with
      | O => None
      | S f =>
          if (InputSchemaNodeMax <? S visited)%nat then Some false
          else
            match current with
            | JObj o => if wire_object o then wire_loop f (wire_children o ++ rest) (S visited) else Some false
            | _ => Some false
            end
      end
  end.
(** [None] is an absent message. *)
Definition validInputSchemaWire (raw : option json) : option bool :=
  match raw with None | Some JNull => Some false | Some v => wire_loop (S InputSchemaNodeMax) [v] 0 end.

Example parse_nested :
  ParseInputSchemaValue (AObj [("type", AStr "object");
    ("properties", AObj [("n", AObj [("type", AStr "number"); ("DEFAULT", ANil)])]);
    ("required", AArr [AStr "n"]); ("title", AF64 (f_of_Z 3))]) =
  Some (Some (mkSchema "object" "" [("n", Some (mkSchema "number" "" [] [] None [] (Some ANil)))] ["n"] None [] None)).
Proof. vm_compute. reflexivity. Qed.
Example parse_rejects : ParseInputSchemaValue (AObj [("type", AStr "object"); ("properties", AObj [("n", ANil)])]) = Some None.
Proof. vm_compute. reflexivity. Qed.
Example parse_mismatch : ParseInputSchemaValue (AObj [("type", AStr "string"); ("required", AStr "n")]) = Some None.
Proof. vm_compute. reflexivity. Qed.
