(* ===== verification/RecoveryContract.v ===== *)
(** The versioned recovery contract (domain/recoverycontract.go): its closed
    vocabularies, the validation of every section, and the circuit breaker
    threshold; and the parsed workflow document (domain/workflow.go). *)
From S2P Require Import Prelude GoStrings Graph GoFloat GoAny Inputs.
Local Open Scope string_scope.
Local Open Scope list_scope.

Definition RecoveryAutonomyMin : Z := 0.
Definition RecoveryAutonomyMax : Z := 4.

Definition ValidationEvidenceLevels : list string :=
  ["static"; "writes_skipped"; "provider_simulated"; "live_canary"].
Definition SupportsAutonomousRecovery (level : string) : bool :=
  String.eqb level "provider_simulated" || String.eqb level "live_canary".
Definition ParseValidationEvidenceLevel (value : string) : string :=
  if in_list ValidationEvidenceLevels value then value else "static".

Definition RecoveryEvidenceKinds : list string :=
  ["failure_snapshot"; "run_timeline"; "audit_trail"; "validation_receipt"; "effect_receipt";
   "terminal_outcome"].
Definition RecoveryEffectKinds : list string :=
  ["external_write"; "financial_mutation"; "notification"; "human_action"].
Definition RecoveryEffectIdempotency : list string := ["required"; "provider_guaranteed"; "unavailable"].
Definition RecoveryEffectReceipts : list string := ["runtime"; "provider"; "manual"].
Definition RecoveryRepairClasses : list string :=
  ["retry"; "config_patch"; "structural_patch"; "rollback"; "credential_rotation"; "upstream_wait"].
Definition requiredBaseEvidence : list string := ["failure_snapshot"; "audit_trail"; "terminal_outcome"].
Definition RecoveryDetectorActions : list string := ["observe"; "quarantine"].

(** ** The contract *)

Record RecoveryEffect := mkEffect
  { eff_NodeID : string; eff_Kind : string; Idempotency : string; Receipt : string }.

(** A [map[string]int] is a list of bindings with distinct keys. *)
Record RecoveryTechnicalFailure := mkTechnical
  { TerminalNodeFailure : bool; StalledNode : bool; Autonomy : list (string * Z) }.

Record RecoverySemanticDetector := mkDetector
  { det_ID : string; det_SourceNodeID : string; det_Kind : string; PassWhen : string;
    Schema : option InputSchema; Action : string; Message : string; det_AutonomyLevel : option Z }.

Record RecoverySemanticFixture := mkFixture
  { fix_ID : string; fix_SourceNodeID : string; fix_Output : any; fix_Context : obj; Expected : string }.

Record RecoverySemanticFailure := mkSemantic
  { Mode : string; Detectors : list RecoverySemanticDetector;
    EvaluationFixtures : list RecoverySemanticFixture }.

Record RecoveryNarrowAutonomy := mkNarrow
  { AllowedRepairClasses : list string; MinimumPriorVerifiedRecoveries : Z;
    MaxAffectedExecutions : Z; RollbackRequired : bool }.

Record RecoveryContract := mkContract
  { Version : string; Technical : RecoveryTechnicalFailure; Semantic : RecoverySemanticFailure;
    EvidenceRequired : list string; Effects : list RecoveryEffect; RepairsAllowed : list string;
    MinimumEvidenceLevel : string; ProductionMutation : string; Permission : string;
    AutonomyLevel : Z; NarrowAutonomy : option RecoveryNarrowAutonomy; VerificationKind : string;
    WindowDays : Z }.

Record WorkflowRecovery := mkRecovery
  { CircuitBreaker : option any; Contract : option RecoveryContract }.

(** ** The circuit breaker *)

Definition RecoveryCircuitBreakerMin : Z := 2.
Definition RecoveryCircuitBreakerMax : Z := 100.

(** The conversion [int(value)] on amd64: the smallest int out of range. *)
Definition int_of_float (f : float64) : Z :=
  let z := trunc_Z f in
  if is_finite f && (- 2 ^ 63 <=? z)%Z && (z <? 2 ^ 63)%Z then z else (- 2 ^ 63)%Z.

Definition validateBreakerNumber (value : float64) : Z * bool * string :=
  let i := int_of_float value in
  if negb (f_eqb value (f_of_Z i)) || (i <? RecoveryCircuitBreakerMin)%Z || (RecoveryCircuitBreakerMax <? i)%Z
  then (0%Z, false, "circuitBreaker: threshold must be an integer " +:+ Itoa RecoveryCircuitBreakerMin
                    +:+ ".." +:+ Itoa RecoveryCircuitBreakerMax)
  else (i, true, "").

(** The argument is the decoded raw message, [None] when it is empty. *)
Definition ParseCircuitBreakerThreshold (raw : option any) : Z * bool * string :=
  let fail m := (0%Z, false, m) in
  match raw with
  | None => fail ""
  | Some ANil => fail "circuitBreaker: null is not a valid threshold"
  | Some (ABool b) => if b then fail "circuitBreaker: true is not a valid threshold" else fail ""
  | Some (AF64 f) => validateBreakerNumber f
  | Some (AObj [(k, v)]) =>
      if String.eqb k "consecutiveFailures" then
        match v with
        | ANil => fail "circuitBreaker.consecutiveFailures: must be false or an integer 2..100"
        | ABool b =>
            if b then fail "circuitBreaker.consecutiveFailures: true is not a valid threshold" else fail ""
        | AF64 f => validateBreakerNumber f
        | _ => fail "circuitBreaker: must be false, an integer 2..100, or {consecutiveFailures}"
        end
      else fail "circuitBreaker.consecutiveFailures: must be false or an integer 2..100"
  | Some _ => fail "circuitBreaker: must be false, an integer 2..100, or {consecutiveFailures}"
  end.

(** ** Validation *)

Definition isAutonomyLevel (level : Z) : bool :=
  (RecoveryAutonomyMin <=? level)%Z && (level <=? RecoveryAutonomyMax)%Z.
Definition hasDuplicateStrings (values : list string) : bool := dup_strings values.
Definition outside (lo hi n : Z) : bool := (n <? lo)%Z || (hi <? n)%Z.
Definition zlen {A} (l : list A) : Z := Z.of_nat (length l).
Definition slen (s : string) : Z := Z.of_nat (len s).
Definition eqs (a b : string) : bool := String.eqb a b.

Section validate.
Context `{UnicodeTables}.

Definition detector_problems (ceiling : Z) (i : nat) (d : RecoverySemanticDetector) : list string :=
  let at_ field msg := ("failure.semantic.detectors." +:+ Itoa (Z.of_nat i) +:+ "." +:+ field +:+ ": " +:+ msg) in
  push_if (eqs (det_ID d) "" || (200 <? slen (det_ID d))%Z) (at_ "id" "must be 1..200 chars") ++
  push_if (eqs (det_SourceNodeID d) "" || (200 <? slen (det_SourceNodeID d))%Z)
    (at_ "sourceNodeId" "must be 1..200 chars") ++
  (if eqs (det_Kind d) "expression" then
     push_if (eqs (PassWhen d) "" || (2000 <? slen (PassWhen d))%Z) (at_ "passWhen" "must be 1..2000 chars")
   else if eqs (det_Kind d) "schema" then
     match Schema d with
     | None => [at_ "schema" "schema detectors require a schema"]
     | Some s =>
         push_if (negb (default false (validInputSchemaShape (Some s))))
           (at_ "schema" ("must be a supported recursive schema with at most "
              +:+ Itoa (Z.of_nat InputSchemaNodeMax) +:+ " nodes"))
     end
   else [at_ "kind" "must be expression or schema"]) ++
  push_if (negb (in_list RecoveryDetectorActions (Action d))) (at_ "action" "must be observe or quarantine") ++
  push_if (eqs (Message d) "" || (500 <? slen (Message d))%Z) (at_ "message" "must be 1..500 chars") ++
  match det_AutonomyLevel d with
  | None => []
  | Some level =>
      if negb (isAutonomyLevel level) then [at_ "autonomyLevel" "must be 0..4"]
      else push_if (ceiling <? level)%Z
        (at_ "autonomyLevel" "A failure-specific autonomy level cannot exceed the workflow recovery level")
  end.

Definition fixture_problems (i : nat) (f : RecoverySemanticFixture) : list string :=
  let at_ field msg :=
    ("failure.semantic.evaluationFixtures." +:+ Itoa (Z.of_nat i) +:+ "." +:+ field +:+ ": " +:+ msg) in
  push_if (eqs (fix_ID f) "" || (200 <? slen (fix_ID f))%Z) (at_ "id" "must be 1..200 chars") ++
  push_if (eqs (fix_SourceNodeID f) "" || (200 <? slen (fix_SourceNodeID f))%Z)
    (at_ "sourceNodeId" "must be 1..200 chars") ++
  push_if (negb (eqs (Expected f) "pass") && negb (eqs (Expected f) "violation"))
    (at_ "expected" "must be pass or violation").

Definition validateSemanticV2 (semantic : RecoverySemanticFailure) (ceiling : Z) : list string :=
  push_if (outside 1 50 (zlen (Detectors semantic)))
    "failure.semantic.detectors: must declare 1..50 detectors" ++
  concat (imap (detector_problems ceiling) (Detectors semantic)) ++
  push_if (hasDuplicateStrings (map det_ID (Detectors semantic)))
    "failure.semantic.detectors: Semantic detector ids must be unique" ++
  push_if (outside 2 50 (zlen (EvaluationFixtures semantic)))
    "failure.semantic.evaluationFixtures: must declare 2..50 fixtures" ++
  concat (imap fixture_problems (EvaluationFixtures semantic)) ++
  push_if (hasDuplicateStrings (map fix_ID (EvaluationFixtures semantic)))
    "failure.semantic.evaluationFixtures: Semantic evaluation fixture ids must be unique".

Definition failure_class_problems (ceiling : Z) (entry : string * Z) : list string :=
  let '(failureClass, level) := entry in
  let at_ msg := ("failure.technical.autonomy." +:+ failureClass +:+ ": " +:+ msg) in
  if negb (eqs failureClass "terminalNodeFailure") && negb (eqs failureClass "stalledNode")
  then [at_ "unknown failure class"]
  else if negb (isAutonomyLevel level) then [at_ "level must be 0..4"]
  else push_if (ceiling <? level)%Z
    (at_ "A failure-specific autonomy level cannot exceed the workflow recovery level").

Definition validateRecoveryFailure (c : RecoveryContract) : list string :=
  push_if (negb (TerminalNodeFailure (Technical c)))
    "failure.technical.terminalNodeFailure: must be true" ++
  flat_map (failure_class_problems (AutonomyLevel c)) (by_key (Autonomy (Technical c))) ++
  (if eqs (Version c) "1" then
     push_if (negb (eqs (Mode (Semantic c)) "disabled"))
       ("failure.semantic.mode: contract v1 requires semantic mode " +:+ quoted "disabled") ++
     push_if ((0 <? zlen (Detectors (Semantic c)))%Z || (0 <? zlen (EvaluationFixtures (Semantic c)))%Z)
       "failure.semantic: contract v1 cannot declare detectors or fixtures"
   else if eqs (Version c) "2" then
     push_if (negb (eqs (Mode (Semantic c)) "deterministic"))
       ("failure.semantic.mode: contract v2 requires semantic mode " +:+ quoted "deterministic") ++
     validateSemanticV2 (Semantic c) (AutonomyLevel c)
   else []).

(** The returned set [requiredSet] is the list of required kinds itself. *)
Definition validateRecoveryEvidence (c : RecoveryContract) : list string :=
  push_if (outside 1 (zlen RecoveryEvidenceKinds) (zlen (EvidenceRequired c)))
    ("evidence.required: must declare 1.." +:+ Itoa (zlen RecoveryEvidenceKinds) +:+ " evidence kinds") ++
  push_if (hasDuplicateStrings (EvidenceRequired c))
    "evidence.required: Recovery evidence kinds must be unique" ++
  flat_map (λ kind, push_if (negb (in_list RecoveryEvidenceKinds kind))
    ("evidence.required: unknown evidence kind " +:+ Quote kind)) (EvidenceRequired c) ++
  flat_map (λ base, push_if (negb (in_list (EvidenceRequired c) base))
    ("evidence.required: Recovery contract must retain " +:+ base)) requiredBaseEvidence.

Definition effect_problems (i : nat) (e : RecoveryEffect) : list string :=
  let at_ field msg := ("effects." +:+ Itoa (Z.of_nat i) +:+ "." +:+ field +:+ ": " +:+ msg) in
  push_if (eqs (eff_NodeID e) "" || (200 <? slen (eff_NodeID e))%Z) (at_ "nodeId" "must be 1..200 chars") ++
  push_if (negb (in_list RecoveryEffectKinds (eff_Kind e)))
    (at_ "kind" ("unknown effect kind " +:+ Quote (eff_Kind e))) ++
  push_if (negb (in_list RecoveryEffectIdempotency (Idempotency e)))
    (at_ "idempotency" ("unknown idempotency " +:+ Quote (Idempotency e))) ++
  push_if (negb (in_list RecoveryEffectReceipts (Receipt e)))
    (at_ "receipt" ("unknown receipt " +:+ Quote (Receipt e))).

Definition validateRecoveryEffects (c : RecoveryContract) : list string :=
  push_if (100 <? zlen (Effects c))%Z "effects: at most 100 declared effects" ++
  concat (imap effect_problems (Effects c)) ++
  push_if (hasDuplicateStrings (map eff_NodeID (Effects c)))
    "effects: A workflow node may define only one recovery effect".

Definition validateRecoveryRepairs (c : RecoveryContract) : list string :=
  push_if (zlen (RepairsAllowed c) <? 1)%Z "repairs.allowed: must declare at least one repair class" ++
  push_if (hasDuplicateStrings (RepairsAllowed c))
    "repairs.allowed: Recovery repair classes must be unique" ++
  flat_map (λ repair, push_if (negb (in_list RecoveryRepairClasses repair))
    ("repairs.allowed: unknown repair class " +:+ Quote repair)) (RepairsAllowed c).

Definition validateRecoveryValidationLevel (c : RecoveryContract) : list string :=
  let level := MinimumEvidenceLevel c in
  push_if (negb (in_list ValidationEvidenceLevels level))
    ("validation.minimumEvidenceLevel: unknown evidence level " +:+ Quote level) ++
  push_if (negb (eqs level "static") && negb (in_list (EvidenceRequired c) "validation_receipt"))
    "evidence.required: Validation evidence above static requires validation_receipt retention" ++
  push_if (SupportsAutonomousRecovery level && negb (in_list (EvidenceRequired c) "effect_receipt"))
    "evidence.required: Provider-simulated or live-canary validation requires effect_receipt retention".

Definition validateRecoveryApproval (c : RecoveryContract) : list string :=
  push_if (negb (eqs (Permission c) "recovery.write")) "approval.permission: must be recovery.write" ++
  push_if (negb (eqs (ProductionMutation c) "required") && negb (eqs (ProductionMutation c) "autonomous_level_4"))
    "approval.productionMutation: must be required or autonomous_level_4".

Definition narrow_problems (c : RecoveryContract) (narrow : RecoveryNarrowAutonomy) : list string :=
  push_if (hasDuplicateStrings (AllowedRepairClasses narrow))
    "narrowAutonomy.allowedRepairClasses: Narrow-autonomy repair classes must be unique" ++
  push_if (zlen (AllowedRepairClasses narrow) <? 1)%Z
    "narrowAutonomy.allowedRepairClasses: must declare at least one repair class" ++
  concat (imap (λ i repair, push_if (negb (in_list (RepairsAllowed c) repair))
    ("narrowAutonomy.allowedRepairClasses." +:+ Itoa (Z.of_nat i)
      +:+ ": Narrow-autonomy repair classes must be allowed by the recovery contract"))
    (AllowedRepairClasses narrow)) ++
  push_if (outside 1 1000 (MinimumPriorVerifiedRecoveries narrow))
    "narrowAutonomy.minimumPriorVerifiedRecoveries: must be 1..1000" ++
  push_if (outside 1 100 (MaxAffectedExecutions narrow))
    "narrowAutonomy.maxAffectedExecutions: must be 1..100" ++
  push_if (negb (RollbackRequired narrow)) "narrowAutonomy.rollbackRequired: must be true".

Definition level4_effect_problems (i : nat) (e : RecoveryEffect) : list string :=
  push_if (eqs (Idempotency e) "unavailable")
    ("effects." +:+ Itoa (Z.of_nat i) +:+ ".idempotency: Level 4 autonomy cannot include an effect without idempotency") ++
  push_if (eqs (Receipt e) "manual")
    ("effects." +:+ Itoa (Z.of_nat i) +:+ ".receipt: Level 4 autonomy cannot depend on a manual effect receipt").

Definition validateRecoveryAutonomy (c : RecoveryContract) : list string :=
  let level := MinimumEvidenceLevel c in
  push_if (negb (isAutonomyLevel (AutonomyLevel c))) "autonomyLevel: must be 0..4" ++
  (if (AutonomyLevel c =? 4)%Z then
     push_if (negb (SupportsAutonomousRecovery level))
       "validation.minimumEvidenceLevel: Level 4 autonomy requires provider_simulated or live_canary evidence" ++
     push_if (negb (eqs (ProductionMutation c) "autonomous_level_4"))
       "approval.productionMutation: Level 4 autonomy requires an explicit autonomous_level_4 mutation policy" ++
     match NarrowAutonomy c with
     | None => ["narrowAutonomy: Level 4 autonomy requires prior-evidence, blast-radius, and rollback bounds"]
     | Some narrow => narrow_problems c narrow
     end ++
     concat (imap level4_effect_problems (Effects c))
   else
     push_if (negb (eqs (ProductionMutation c) "required"))
       "approval.productionMutation: Autonomous production mutation is valid only at autonomy level 4" ++
     push_if (bool_decide (is_Some (NarrowAutonomy c)))
       "narrowAutonomy: Narrow-autonomy bounds are valid only at autonomy level 4").

Definition validateRecoveryEnvelopes (c : RecoveryContract) : list string :=
  push_if (negb (eqs (VerificationKind c) "generation_bound_terminal_success"))
    "verification.kind: must be generation_bound_terminal_success" ++
  push_if (outside 1 30 (WindowDays c)) "recurrence.windowDays: must be 1..30".

Definition ValidateRecoveryContract (contract : option RecoveryContract) : list string :=
  match contract with
  | None => []
  | Some c =>
      if negb (eqs (Version c) "1") && negb (eqs (Version c) "2") then
        ["version: recovery contract version must be " +:+ quoted "1" +:+ " or " +:+ quoted "2"]
      else
        validateRecoveryFailure c ++ validateRecoveryEvidence c ++ validateRecoveryEffects c ++
        validateRecoveryRepairs c ++ validateRecoveryValidationLevel c ++ validateRecoveryApproval c ++
        validateRecoveryAutonomy c ++ validateRecoveryEnvelopes c
  end.
End validate.

(** * The parsed workflow document (domain/workflow.go) *)

Record WorkflowJSONMetadata := mkMetadata { meta_Description : string; Tags : list string }.
Record WorkflowPosition := mkPosition { X : float64; Y : float64 }.

(** The maps [outputs] and [ui.positions] are lists of bindings with distinct keys. *)
Record Workflow := mkWorkflow
  { DSLVersion : string; WorkflowID : string; Name : string; Metadata : option WorkflowJSONMetadata;
    WorkflowInputs : option InputSchema; Outputs : list (string * string); TemplatePolicy : string;
    Recovery : option WorkflowRecovery; UI : option (list (string * WorkflowPosition));
    Nodes : list Node; Edges : list Edge }.

Definition dslVersion : string := "1.0".

(** A document with a graph and declared outputs only. *)
Definition graph_workflow (nodes : list Node) (edges : list Edge) (outputs : list (string * string))
  : Workflow :=
  mkWorkflow dslVersion "" "" None None outputs "" None None nodes edges.
