(* ===== verification/RecoveryWire.v ===== *)
(** The recovery settings of a document: the structs of domain/recoverycontract.go read from
    JSON, and the strict check of their text (domain/recoverycontract_wire.go). *)
From S2P Require Import Prelude GoStrings GoInt GoFloat GoAny Json JsonTree Inputs SchemaWire RecoveryContract.
Local Open Scope string_scope.
Local Open Scope list_scope.

(** ** The structs *)

Definition read_effect : reader RecoveryEffect :=
  read_struct ["nodeId"; "kind"; "idempotency"; "receipt"] (λ field v x,
    let 'mkEffect nodeID kind idempotency receipt := x in
    if eqs field "nodeId" then s ← read_string v nodeID; Some (mkEffect s kind idempotency receipt)
    else if eqs field "kind" then s ← read_string v kind; Some (mkEffect nodeID s idempotency receipt)
    else if eqs field "idempotency" then s ← read_string v idempotency; Some (mkEffect nodeID kind s receipt)
    else s ← read_string v receipt; Some (mkEffect nodeID kind idempotency s)).

Definition read_technical : reader RecoveryTechnicalFailure :=
  read_struct ["terminalNodeFailure"; "stalledNode"; "autonomy"] (λ field v x,
    let 'mkTechnical terminal stalled autonomy := x in
    if eqs field "terminalNodeFailure" then b ← read_bool v terminal; Some (mkTechnical b stalled autonomy)
    else if eqs field "stalledNode" then b ← read_bool v stalled; Some (mkTechnical terminal b autonomy)
    else m ← read_map read_int 0%Z v (Some autonomy); Some (mkTechnical terminal stalled (default [] m))).

Definition read_detector : reader RecoverySemanticDetector :=
  read_struct ["id"; "sourceNodeId"; "kind"; "passWhen"; "schema"; "action"; "message"; "autonomyLevel"] (λ field v x,
    let 'mkDetector id source kind passWhen schema action message level := x in
    if eqs field "id" then s ← read_string v id; Some (mkDetector s source kind passWhen schema action message level)
    else if eqs field "sourceNodeId" then
      s ← read_string v source; Some (mkDetector id s kind passWhen schema action message level)
    else if eqs field "kind" then s ← read_string v kind; Some (mkDetector id source s passWhen schema action message level)
    else if eqs field "passWhen" then
      s ← read_string v passWhen; Some (mkDetector id source kind s schema action message level)
    else if eqs field "schema" then
      s ← read_schema v schema; Some (mkDetector id source kind passWhen s action message level)
    else if eqs field "action" then s ← read_string v action; Some (mkDetector id source kind passWhen schema s message level)
    else if eqs field "message" then s ← read_string v message; Some (mkDetector id source kind passWhen schema action s level)
    else l ← read_pointer read_int 0%Z v level; Some (mkDetector id source kind passWhen schema action message l)).

(** A map[string]any of its own, as a list of bindings. *)
Definition read_any_map : reader (option obj) := read_map read_any ANil.

Definition read_fixture : reader RecoverySemanticFixture :=
  read_struct ["id"; "sourceNodeId"; "output"; "context"; "expected"] (λ field v x,
    let 'mkFixture id source output context expected := x in
    if eqs field "id" then s ← read_string v id; Some (mkFixture s source output context expected)
    else if eqs field "sourceNodeId" then s ← read_string v source; Some (mkFixture id s output context expected)
    else if eqs field "output" then o ← read_any v output; Some (mkFixture id source o context expected)
    else if eqs field "context" then
      m ← read_any_map v (Some context); Some (mkFixture id source output (default [] m) expected)
    else s ← read_string v expected; Some (mkFixture id source output context s)).

Definition no_detector : RecoverySemanticDetector := mkDetector "" "" "" "" None "" "" None.
Definition no_fixture : RecoverySemanticFixture := mkFixture "" "" ANil [] "".
Definition read_semantic : reader RecoverySemanticFailure :=
  read_struct ["mode"; "detectors"; "evaluationFixtures"] (λ field v x,
    let 'mkSemantic mode detectors fixtures := x in
    if eqs field "mode" then s ← read_string v mode; Some (mkSemantic s detectors fixtures)
    else if eqs field "detectors" then
      l ← read_slice read_detector no_detector v detectors; Some (mkSemantic mode l fixtures)
    else l ← read_slice read_fixture no_fixture v fixtures; Some (mkSemantic mode detectors l)).

Definition read_failure : reader (RecoveryTechnicalFailure * RecoverySemanticFailure) :=
  read_struct ["technical"; "semantic"] (λ field v x,
    if eqs field "technical" then t ← read_technical v x.1; Some (t, x.2)
    else s ← read_semantic v x.2; Some (x.1, s)).

Definition read_narrow : reader RecoveryNarrowAutonomy :=
  read_struct ["allowedRepairClasses"; "minimumPriorVerifiedRecoveries"; "maxAffectedExecutions"; "rollbackRequired"]
    (λ field v x,
      let 'mkNarrow allowed prior affected rollback := x in
      if eqs field "allowedRepairClasses" then
        l ← read_slice read_string "" v allowed; Some (mkNarrow l prior affected rollback)
      else if eqs field "minimumPriorVerifiedRecoveries" then
        n ← read_int v prior; Some (mkNarrow allowed n affected rollback)
      else if eqs field "maxAffectedExecutions" then n ← read_int v affected; Some (mkNarrow allowed prior n rollback)
      else b ← read_bool v rollback; Some (mkNarrow allowed prior affected b)).

(** A struct with a single field. *)
Definition read_one {A} (name : string) (read : reader A) : reader A := read_struct [name] (λ _ v x, read v x).
Definition read_approval : reader (string * string) :=
  read_struct ["productionMutation"; "permission"] (λ field v x,
    if eqs field "productionMutation" then s ← read_string v x.1; Some (s, x.2)
    else s ← read_string v x.2; Some (x.1, s)).

Definition no_effect : RecoveryEffect := mkEffect "" "" "" "".
Definition no_narrow : RecoveryNarrowAutonomy := mkNarrow [] 0 0 false.
Definition no_contract : RecoveryContract :=
  mkContract "" (mkTechnical false false []) (mkSemantic "" [] []) [] [] [] "" "" "" 0 None "" 0.
Definition contract_fields : list string :=
  ["version"; "failure"; "evidence"; "effects"; "repairs"; "validation"; "approval"; "autonomyLevel"; "narrowAutonomy";
   "verification"; "recurrence"].
Definition read_contract : reader RecoveryContract :=
  read_struct contract_fields (λ field v c,
    let 'mkContract version tech sem evidence effects repairs minimum mutation permission level narrow kind days := c in
    if eqs field "version" then
      s ← read_string v version;
      Some (mkContract s tech sem evidence effects repairs minimum mutation permission level narrow kind days)
    else if eqs field "failure" then
      '(t, s) ← read_failure v (tech, sem);
      Some (mkContract version t s evidence effects repairs minimum mutation permission level narrow kind days)
    else if eqs field "evidence" then
      l ← read_one "required" (read_slice read_string "") v evidence;
      Some (mkContract version tech sem l effects repairs minimum mutation permission level narrow kind days)
    else if eqs field "effects" then
      l ← read_slice read_effect no_effect v effects;
      Some (mkContract version tech sem evidence l repairs minimum mutation permission level narrow kind days)
    else if eqs field "repairs" then
      l ← read_one "allowed" (read_slice read_string "") v repairs;
      Some (mkContract version tech sem evidence effects l minimum mutation permission level narrow kind days)
    else if eqs field "validation" then
      s ← read_one "minimumEvidenceLevel" read_string v minimum;
      Some (mkContract version tech sem evidence effects repairs s mutation permission level narrow kind days)
    else if eqs field "approval" then
      '(m, p) ← read_approval v (mutation, permission);
      Some (mkContract version tech sem evidence effects repairs minimum m p level narrow kind days)
    else if eqs field "autonomyLevel" then
      n ← read_int v level;
      Some (mkContract version tech sem evidence effects repairs minimum mutation permission n narrow kind days)
    else if eqs field "narrowAutonomy" then
      n ← read_pointer read_narrow no_narrow v narrow;
      Some (mkContract version tech sem evidence effects repairs minimum mutation permission level n kind days)
    else if eqs field "verification" then
      s ← read_one "kind" read_string v kind;
      Some (mkContract version tech sem evidence effects repairs minimum mutation permission level narrow s days)
    else
      n ← read_one "windowDays" read_int v days;
      Some (mkContract version tech sem evidence effects repairs minimum mutation permission level narrow kind n)).

(** A number out of range in the raw threshold is no number for its parser. *)
Definition read_recovery : reader WorkflowRecovery :=
  read_struct ["circuitBreaker"; "contract"] (λ field v x,
    let 'mkRecovery breaker contract := x in
    if eqs field "circuitBreaker" then Some (mkRecovery (Some (as_any AUndef v)) contract)
    else c ← read_pointer read_contract no_contract v contract; Some (mkRecovery breaker c)).

(** ** The strict check of the text

    Exact keys, every required member present and no null; a problem is a path below
    [recovery] and a message. The validator's list is threaded as a returned list. *)
Record workflowFieldProblem := mkFieldProblem { fp_path : string; fp_message : string }.
Abbreviation problems := (list workflowFieldProblem).

(** [strings.TrimSuffix(parent, ".")]. *)
Definition trim_dot (s : string) : string :=
  match rev (bytes s) with
  | c :: r => if Ascii.eqb c "." then of_bytes (rev r) else s
  | [] => s
  end.
Definition recoveryWirePath (parent key : string) : string := trim_dot parent +:+ "." +:+ key.

(** The continuation receives the members, when there are any. *)
Definition wire_members (raw : option json) (path : string) (required optional : list string)
    (next : members → problems) : problems :=
  match raw with
  | Some (JObj o) =>
      flat_map (λ key, push_if (negb (in_list (required ++ optional) key))
                         (mkFieldProblem (recoveryWirePath path key) "unknown field")) (sort_strings (jkeys o)) ++
      flat_map (λ key, push_if (match jget o key with None | Some JNull => true | Some _ => false end)
                         (mkFieldProblem (recoveryWirePath path key) "expected a non-null value")) required ++
      flat_map (λ key, push_if (match jget o key with Some JNull => true | _ => false end)
                         (mkFieldProblem (recoveryWirePath path key) "expected a non-null value")) optional ++
      next o
  | _ => [mkFieldProblem path "expected an object"]
  end.
Definition wire_shape (v : json) (path : string) (required optional : list string) : problems :=
  wire_members (Some v) path required optional (λ _, []).
Definition wire_array (v : json) (path : string) (element : nat → json → problems) : problems :=
  match v with JArr l => concat (imap element l) | _ => [mkFieldProblem path "expected an array"] end.
(** [nonNullRecoveryField] and the branch it guards. *)
Definition nonNullRecoveryField (o : members) (key : string) (next : json → problems) : problems :=
  match jget o key with Some v => if isJSONNull v then [] else next v | None => [] end.
Definition requireArray (o : members) (key path : string) : problems :=
  nonNullRecoveryField o key (λ v, wire_array v path (λ _ _, [])).
(** [json.Unmarshal] into a string with the error dropped. *)
Definition string_member (o : members) (key : string) : string :=
  match jget o key with Some (JStr s) => s | _ => "" end.
Definition index_path (path : string) (index : nat) : string := path +:+ "." +:+ Itoa (Z.of_nat index).

Definition detector_path (index : nat) : string := index_path ".contract.failure.semantic.detectors" index.
Definition detector_wire (index : nat) (raw : json) : problems :=
  let kind := match raw with JObj o => string_member o "kind" | _ => "" end in
  let required := ["id"; "sourceNodeId"; "kind"; "action"; "message"] in
  let '(required, optional) :=
    if eqs kind "expression" then (required ++ ["passWhen"], ["autonomyLevel"])
    else if eqs kind "schema" then (required ++ ["schema"], ["autonomyLevel"])
    else (required, ["autonomyLevel"; "passWhen"; "schema"]) in
  wire_members (Some raw) (detector_path index) required optional (λ object,
    if eqs kind "schema" then
      nonNullRecoveryField object "schema" (λ schema,
        push_if (negb (default false (validInputSchemaWire (Some schema))))
          (mkFieldProblem (detector_path index +:+ ".schema")
             ("expected a supported recursive schema with at most " +:+ Itoa (Z.of_nat InputSchemaNodeMax) +:+ " nodes")))
    else []).

Definition fixture_path (index : nat) : string :=
  index_path ".contract.failure.semantic.evaluationFixtures" index.
Definition fixture_wire (index : nat) (fixture : json) : problems :=
  wire_members (Some fixture) (fixture_path index) ["id"; "sourceNodeId"; "output"; "expected"] ["context"] (λ object,
    nonNullRecoveryField object "context" (λ context,
      match context with
      | JObj _ => []
      | _ => [mkFieldProblem (fixture_path index +:+ ".context") "expected an object"]
      end)).

Definition semantic_wire (raw : json) (version : string) : problems :=
  if eqs version "1" then wire_shape raw ".contract.failure.semantic" ["mode"] []
  else
    wire_members (Some raw) ".contract.failure.semantic" ["mode"; "detectors"; "evaluationFixtures"] [] (λ semantic,
      nonNullRecoveryField semantic "detectors" (λ l,
        wire_array l ".contract.failure.semantic.detectors" detector_wire) ++
      nonNullRecoveryField semantic "evaluationFixtures" (λ l,
        wire_array l ".contract.failure.semantic.evaluationFixtures" fixture_wire)).

Definition failure_wire (raw : json) (version : string) : problems :=
  wire_members (Some raw) ".contract.failure" ["technical"; "semantic"] [] (λ failure,
    nonNullRecoveryField failure "technical" (λ technical,
      wire_members (Some technical) ".contract.failure.technical" ["terminalNodeFailure"; "stalledNode"] ["autonomy"]
        (λ technical, nonNullRecoveryField technical "autonomy" (λ autonomy,
           wire_shape autonomy ".contract.failure.technical.autonomy" [] ["terminalNodeFailure"; "stalledNode"]))) ++
    nonNullRecoveryField failure "semantic" (λ semantic, semantic_wire semantic version)).

Definition contract_required : list string :=
  ["version"; "failure"; "evidence"; "effects"; "repairs"; "validation"; "approval"; "autonomyLevel"; "verification";
   "recurrence"].
Definition effect_fields : list string := ["nodeId"; "kind"; "idempotency"; "receipt"].
Definition narrow_fields : list string :=
  ["allowedRepairClasses"; "minimumPriorVerifiedRecoveries"; "maxAffectedExecutions"; "rollbackRequired"].
Definition contract_wire (raw : json) : problems :=
  wire_members (Some raw) ".contract" contract_required ["narrowAutonomy"] (λ contract,
    nonNullRecoveryField contract "failure" (λ v, failure_wire v (string_member contract "version")) ++
    nonNullRecoveryField contract "evidence" (λ v,
      wire_members (Some v) ".contract.evidence" ["required"] [] (λ evidence,
        requireArray evidence "required" ".contract.evidence.required")) ++
    nonNullRecoveryField contract "effects" (λ v,
      wire_array v ".contract.effects" (λ index effect,
        wire_shape effect (index_path ".contract.effects" index) effect_fields [])) ++
    nonNullRecoveryField contract "repairs" (λ v,
      wire_members (Some v) ".contract.repairs" ["allowed"] [] (λ repairs,
        requireArray repairs "allowed" ".contract.repairs.allowed")) ++
    nonNullRecoveryField contract "validation" (λ v, wire_shape v ".contract.validation" ["minimumEvidenceLevel"] []) ++
    nonNullRecoveryField contract "approval" (λ v,
      wire_shape v ".contract.approval" ["productionMutation"; "permission"] []) ++
    nonNullRecoveryField contract "narrowAutonomy" (λ v,
      wire_members (Some v) ".contract.narrowAutonomy" narrow_fields [] (λ narrow,
        requireArray narrow "allowedRepairClasses" ".contract.narrowAutonomy.allowedRepairClasses")) ++
    nonNullRecoveryField contract "verification" (λ v, wire_shape v ".contract.verification" ["kind"] []) ++
    nonNullRecoveryField contract "recurrence" (λ v, wire_shape v ".contract.recurrence" ["windowDays"] [])).

Definition validateWorkflowRecoveryWire (raw : option json) : problems :=
  wire_members raw "" [] ["circuitBreaker"; "contract"] (λ recovery,
    nonNullRecoveryField recovery "contract" contract_wire).

(** ** Normalisation *)

Definition normal_effect (e : RecoveryEffect) : RecoveryEffect :=
  let 'mkEffect nodeID kind idempotency receipt := e in mkEffect (TrimSpace nodeID) kind idempotency receipt.
Definition normal_detector (d : RecoverySemanticDetector) : RecoverySemanticDetector :=
  let 'mkDetector id source kind passWhen schema action message level := d in
  mkDetector (TrimSpace id) (TrimSpace source) kind (TrimSpace passWhen) schema action (TrimSpace message) level.
Definition normal_fixture (f : RecoverySemanticFixture) : RecoverySemanticFixture :=
  let 'mkFixture id source output context expected := f in
  mkFixture (TrimSpace id) (TrimSpace source) output context expected.
Definition normalizeRecoveryContract (contract : option RecoveryContract) : option RecoveryContract :=
  match contract with
  | None => None
  | Some (mkContract version tech (mkSemantic mode detectors fixtures) evidence effects repairs minimum mutation
            permission level narrow kind days) =>
      Some (mkContract version tech (mkSemantic mode (map normal_detector detectors) (map normal_fixture fixtures))
              evidence (map normal_effect effects) repairs minimum mutation permission level narrow kind days)
  end.
