(* ===== verification/NodeConfig.v ===== *)
(** The configuration grammars of fork, join, trigger and agent nodes and of prompt
    references (domain/forkjoin.go, promptconfig.go, triggerconfig.go,
    agentconfig.go), shared by the workflow gate and the executors. *)
From S2P Require Import Prelude GoStrings GoFloat GoAny Regex RecoveryContract.
Local Open Scope string_scope.
Local Open Scope list_scope.

(** ** Whole numbers of a decoded document (domain/validate.go, agentconfig.go) *)

(** The kinds the gate converts: not the eight- and sixteen-bit ones. *)
Definition validationFiniteNumber (value : any) : option float64 :=
  let finite number := if is_finite number then Some number else None in
  match value with
  | AF64 f | AF32 f => finite f
  | AInt (KInt | KInt32 | KInt64 | KUint | KUint32 | KUint64) z => finite (f_of_Z z)
  | _ => None
  end.
Definition within (number : float64) (minimum maximum : Z) : bool :=
  f_eqb (Trunc number) number && f_leb (f_of_Z minimum) number && f_leb number (f_of_Z maximum).
Definition boundedWholeNumber (value : any) (minimum maximum : Z) : bool :=
  match validationFiniteNumber value with Some number => within number minimum maximum | None => false end.

(** Every numeric kind, converted to int. *)
Definition boundedAgentInteger (raw : any) (minimum maximum : Z) : option Z :=
  let bounded value :=
    if is_finite value && within value minimum maximum then Some (int_of_float value) else None in
  match raw with
  | AF64 f | AF32 f => bounded f
  | AInt KUintptr _ => None
  | AInt _ z => bounded (f_of_Z z)
  | _ => None
  end.

(** ** Fork and join (domain/forkjoin.go) *)

Section forkjoin.
Context `{UnicodeTables}.

Definition ForkJoinMinBranches : nat := 2.
Definition ForkJoinMaxBranches : nat := 10.
Definition ForkJoinMaxBranchLabelLength : nat := 64.
Definition ForkJoinMaxBranchDescLength : nat := 280.

Definition nat_text (n : nat) : string := Itoa (Z.of_nat n).
Definition branch_at (index : nat) : string := "parallel_fork.config.branches[" +:+ nat_text index +:+ "]".

(** One entry, given the labels before it. *)
Definition resolve_branch (index : nat) (entry : any) (seen : list string) : res string (string * obj) :=
  match as_obj entry with
  | None => Err (branch_at index +:+ " must be an object with a `label` field")
  | Some item =>
      match as_string (obj_at item "label") with
      | None => Err (branch_at index +:+ ".label is required and must be a non-empty string")
      | Some label =>
          guard negb (String.eqb (TrimSpace label) "")
            else branch_at index +:+ ".label is required and must be a non-empty string" in
          guard String.eqb label (TrimSpace label)
            else branch_at index +:+ ".label must not have leading or trailing whitespace" in
          guard (RuneCount label <=? ForkJoinMaxBranchLabelLength)%nat
            else branch_at index +:+ ".label must be ≤ " +:+ nat_text ForkJoinMaxBranchLabelLength +:+ " chars (got " +:+
                 nat_text (RuneCount label) +:+ ")" in
          guard negb (in_list seen label)
            else "parallel_fork.config.branches has duplicate label " +:+ Quote label in
          match obj_get item "description" with
          | None => Ok (label, [("label", AStr label)])
          | Some description =>
              match as_string description with
              | None => Err (branch_at index +:+ ".description must be a string when provided")
              | Some text =>
                  guard (RuneCount text <=? ForkJoinMaxBranchDescLength)%nat
                    else branch_at index +:+ ".description must be ≤ " +:+ nat_text ForkJoinMaxBranchDescLength +:+
                         " chars" in
                  Ok (label, [("label", AStr label); ("description", AStr text)])
              end
          end
      end
  end.

Fixpoint resolve_branches (index : nat) (raw : list any) (seen : list string) : res string (list obj) :=
  match raw with
  | [] => Ok []
  | entry :: raw =>
      let? (label, branch) := resolve_branch index entry seen in
      let? branches := resolve_branches (S index) raw (label :: seen) in
      Ok (branch :: branches)
  end.

Definition ResolveParallelForkBranches (config : obj) : res string (list obj) :=
  match as_arr (obj_at config "branches") with
  | None => Err "parallel_fork.config.branches must be an array of { label, description? } entries"
  | Some raw =>
      guard (ForkJoinMinBranches <=? length raw)%nat
        else "parallel_fork.config.branches must declare at least " +:+ nat_text ForkJoinMinBranches +:+
             " branches (got " +:+ nat_text (length raw) +:+ ")" in
      guard (length raw <=? ForkJoinMaxBranches)%nat
        else "parallel_fork.config.branches supports at most " +:+ nat_text ForkJoinMaxBranches +:+
             " branches (got " +:+ nat_text (length raw) +:+ ")" in
      resolve_branches 0 raw []
  end.

(** One binding, given the predecessors before it. *)
Definition resolve_source (raw : obj) (label : string) (seen : list string) : res string string :=
  guard negb (String.eqb (TrimSpace label) "") else "join.config.sources contains an empty branch label" in
  guard String.eqb label (TrimSpace label)
    else "join.config.sources label " +:+ Quote label +:+ " must not have leading or trailing whitespace" in
  guard (RuneCount label <=? ForkJoinMaxBranchLabelLength)%nat
    else "join.config.sources label " +:+ Quote label +:+ " must be ≤ " +:+
         nat_text ForkJoinMaxBranchLabelLength +:+ " chars" in
  match as_string (obj_at raw label) with
  | None => Err ("join.config.sources[" +:+ Quote label +:+ "] must be a non-empty predecessor node id")
  | Some value =>
      guard negb (String.eqb (TrimSpace value) "")
        else "join.config.sources[" +:+ Quote label +:+ "] must be a non-empty predecessor node id" in
      guard String.eqb value (TrimSpace value)
        else "join.config.sources[" +:+ Quote label +:+
             "] predecessor node id must not have leading or trailing whitespace" in
      guard negb (in_list seen value)
        else "join.config.sources references predecessor " +:+ Quote value +:+ " more than once" in
      Ok value
  end.

Fixpoint resolve_sources (raw : obj) (labels seen : list string) : res string (list (string * string)) :=
  match labels with
  | [] => Ok []
  | label :: labels =>
      let? value := resolve_source raw label seen in
      let? sources := resolve_sources raw labels (value :: seen) in
      Ok ((label, value) :: sources)
  end.

Definition ResolveJoinSources (config : obj) : res string (list (string * string)) :=
  match as_obj (obj_at config "sources") with
  | None => Err "join.config.sources must be an object mapping branch labels to predecessor node ids"
  | Some raw =>
      guard (ForkJoinMinBranches <=? length raw)%nat
        else "join.config.sources must declare at least " +:+ nat_text ForkJoinMinBranches +:+ " branches (got " +:+
             nat_text (length raw) +:+ ")" in
      guard (length raw <=? ForkJoinMaxBranches)%nat
        else "join.config.sources supports at most " +:+ nat_text ForkJoinMaxBranches +:+ " branches (got " +:+
             nat_text (length raw) +:+ ")" in
      resolve_sources raw (sorted_keys raw) []
  end.
End forkjoin.

(** ** Prompt references (domain/promptconfig.go) *)

Definition PromptReferenceMaxNameLength : nat := 128.
Definition PromptReferenceMaxVersion : Z := 2147483647.

Definition promptNamePattern : re := Cat (Cls is_alnum) (Star (Cls (λ c, is_alnum c || one_of "_.-" c))).

Definition ValidatePromptName (name : string) : option string :=
  if String.eqb (TrimSpace name) "" || (PromptReferenceMaxNameLength <? RuneCount name)%nat ||
     negb (MatchString promptNamePattern name)
  then Some ("prompt name must be 1.." +:+ nat_text PromptReferenceMaxNameLength +:+
             " characters, start with a letter or number, and contain only letters, numbers, dot, underscore, or hyphen")
  else None.

Record PromptReference := mkPromptReference { pr_Name : string; pr_Version : Z }.

(** [None] in the result is an absent reference. *)
Definition ResolvePromptReference (config : obj) (field : string) : res string (option PromptReference) :=
  match obj_get config field with
  | None => Ok None
  | Some raw =>
      match as_obj raw with
      | None => Err (field +:+ " must be an object with a non-empty name")
      | Some ref =>
          let name := string_or_zero (obj_at ref "name") in
          guard negb (String.eqb (TrimSpace name) "") else field +:+ ".name must be a non-empty string" in
          match ValidatePromptName name with
          | Some e => Err (field +:+ ".name: " +:+ e)
          | None =>
              match obj_get ref "version" with
              | None => Ok (Some (mkPromptReference name 0))
              | Some rawVersion =>
                  match boundedAgentInteger rawVersion 1 PromptReferenceMaxVersion with
                  | Some version => Ok (Some (mkPromptReference name version))
                  | None => Err (field +:+ ".version must be an integer between 1 and " +:+ Itoa PromptReferenceMaxVersion)
                  end
              end
          end
      end
  end.

Section prompt.
Context `{UnicodeTables}.

(** The bindings in the iteration order of the map. *)
Fixpoint resolve_variables (values : obj) : res string (list (string * string)) :=
  match values with
  | [] => Ok []
  | (key, value) :: values =>
      match as_string value with
      | None => Err ("variables[" +:+ Quote key +:+ "] must be a string")
      | Some text => let? resolved := resolve_variables values in Ok ((key, text) :: resolved)
      end
  end.

Definition ResolvePromptVariables (config : obj) : res string (list (string * string)) :=
  match obj_get config "variables" with
  | None => Ok []
  | Some raw =>
      match as_obj raw with
      | None => Err "variables must be an object with string values"
      | Some values => resolve_variables values
      end
  end.
End prompt.

(** ** Triggers (domain/triggerconfig.go) *)

Section trigger.
Context (lower : string → string).

Definition webhookEndpointKeyPattern : re := Plus (Cls (λ c, is_alnum c || one_of "._-" c)).
Definition emailAliasKeyPattern : re := Plus (Cls (λ c, is_alnum c || one_of "._+-" c)).
Definition TriggerDefaultRateLimitPerMin : Z := 60.
Definition TriggerRateLimitMaxPerMin : Z := 10000.

Definition validateTriggerRateLimit (nodeType : string) (config : obj) : option string :=
  match obj_get config "rateLimitPerMin" with
  | Some raw =>
      if boundedWholeNumber raw 1 TriggerRateLimitMaxPerMin then None
      else Some (nodeType +:+ ".rateLimitPerMin must be an integer between 1 and " +:+ Itoa TriggerRateLimitMaxPerMin)
  | None => None
  end.
Definition ResolveTriggerRateLimitPerMin (rateLimitPerMin : any) : Z :=
  if boundedWholeNumber rateLimitPerMin 1 TriggerRateLimitMaxPerMin then
    match validationFiniteNumber rateLimitPerMin with Some value => int_of_float value | None => 0 end
  else TriggerDefaultRateLimitPerMin.

(** The empty key is an absent one. *)
Definition ResolveWebhookEndpointKey (config : obj) : res string string :=
  match obj_get config "endpointKey" with
  | None => Ok ""
  | Some value =>
      match as_string value with
      | None => Err "webhook_received.endpointKey must be a string"
      | Some raw =>
          let key := TrimSpace raw in
          if String.eqb key "" then Ok ""
          else
            guard String.eqb key raw
              else "webhook_received.endpointKey must not have leading or trailing whitespace" in
            guard (len key <=? 128)%nat else "webhook_received.endpointKey must be at most 128 characters" in
            guard MatchString webhookEndpointKeyPattern key
              else "webhook_received.endpointKey must use letters, numbers, dot, dash, or underscore" in
            Ok key
      end
  end.

Definition ValidateWebhookReceivedConfig (config : obj) : option string :=
  match ResolveWebhookEndpointKey config with
  | Err e => Some e
  | Ok key =>
      if String.eqb key "" then Some "webhook_received.endpointKey is required"
      else validateTriggerRateLimit "webhook_received" config
  end.

(** A list of entries: each is checked by [entry], which answers with the entry's
    identity; identities are distinct. *)
Fixpoint check_entries (entry : any → res string string) (duplicate : string) (entries : list any)
    (seen : list string) : option string :=
  match entries with
  | [] => None
  | raw :: rest =>
      match entry raw with
      | Err e => Some e
      | Ok key => if in_list seen key then Some duplicate else check_entries entry duplicate rest (key :: seen)
      end
  end.
Definition check_list (config : obj) (field : string) (max : nat) (too_many : string)
    (entry : any → res string string) (duplicate : string) : option string :=
  match obj_get config field with
  | None => None
  | Some raw =>
      match as_arr raw with
      | None => Some too_many
      | Some entries =>
          if (max <? length entries)%nat then Some too_many else check_entries entry duplicate entries []
      end
  end.
(** The first error of a sequence of checks. *)
Definition and_then (first second : option string) : option string :=
  match first with Some e => Some e | None => second end.

Definition domain_entry (raw : any) : res string string :=
  let domain := string_or_zero raw in
  guard negb (String.eqb (TrimSpace domain) "") else "email_received.fromDomains entries must be non-empty strings" in
  guard String.eqb domain (TrimSpace domain)
    else "email_received.fromDomains entries must not have leading or trailing whitespace" in
  Ok (ToLower lower domain).

Definition ValidateEmailReceivedConfig (config : obj) : option string :=
  let raw := string_or_zero (obj_at config "aliasKey") in
  let aliasKey := TrimSpace raw in
  if String.eqb aliasKey "" || (128 <? len aliasKey)%nat || negb (MatchString emailAliasKeyPattern aliasKey) then
    Some "email_received.aliasKey must be a valid email local-part"
  else if negb (String.eqb aliasKey raw) then
    Some "email_received.aliasKey must not have leading or trailing whitespace"
  else
    and_then
      (match obj_get config "dkimRequired" with
       | Some (ABool _) | None => None
       | Some _ => Some "email_received.dkimRequired must be a boolean"
       end)
      (and_then
        (check_list config "fromDomains" 50 "email_received.fromDomains must list at most 50 domains" domain_entry
           "email_received.fromDomains entries must be unique")
        (validateTriggerRateLimit "email_received" config)).

Definition ValidatePagerDutyIncidentConfig (config : obj) : option string :=
  let raw := string_or_zero (obj_at config "webhookCredential") in
  let credential := TrimSpace raw in
  if String.eqb credential "" || (200 <? len credential)%nat then
    Some "pagerduty_incident.webhookCredential is required"
  else if negb (String.eqb credential raw) then
    Some "pagerduty_incident.webhookCredential must not have leading or trailing whitespace"
  else validateTriggerRateLimit "pagerduty_incident" config.

Definition extension_entry (raw : any) : res string string :=
  let extension := string_or_zero raw in
  guard negb (String.eqb (TrimSpace extension) "") && (len extension <=? 32)%nat
    else "file_dropped.extensions entries must be short non-empty strings" in
  guard String.eqb extension (TrimSpace extension) && negb (HasPrefix extension ".")
    else "file_dropped.extensions entries must be canonical suffixes without whitespace or a leading dot" in
  Ok (ToLower lower extension).

Definition ValidateFileDroppedConfig (config : obj) : option string :=
  let bucket := string_or_zero (obj_at config "bucket") in
  if String.eqb (TrimSpace bucket) "" || (256 <? len bucket)%nat then Some "file_dropped.bucket is required"
  else if negb (String.eqb bucket (TrimSpace bucket)) then
    Some "file_dropped.bucket must not have leading or trailing whitespace"
  else
    and_then
      (match obj_get config "prefix" with
       | None => None
       | Some raw =>
           let bad := Some "file_dropped.prefix must be a string of at most 1024 characters" in
           match as_string raw with
           | Some prefix => if (1024 <? len prefix)%nat then bad else None
           | None => bad
           end
       end)
      (and_then
        (check_list config "extensions" 50 "file_dropped.extensions must list at most 50 entries" extension_entry
           "file_dropped.extensions entries must be unique")
        (validateTriggerRateLimit "file_dropped" config)).

Definition event_entry (raw : any) : res string string :=
  let eventType := string_or_zero raw in
  guard negb (String.eqb (TrimSpace eventType) "") && (len eventType <=? 128)%nat
    else "mcp_server_event.eventTypes entries must be non-empty strings" in
  guard String.eqb eventType (TrimSpace eventType)
    else "mcp_server_event.eventTypes entries must not have leading or trailing whitespace" in
  Ok eventType.

Definition ValidateMcpServerEventConfig (config : obj) : option string :=
  let alias := string_or_zero (obj_at config "connectionAlias") in
  let resourceURI := string_or_zero (obj_at config "resourceUri") in
  if String.eqb (TrimSpace alias) "" || (128 <? len alias)%nat then Some "mcp_server_event.connectionAlias is required"
  else if negb (String.eqb alias (TrimSpace alias)) then
    Some "mcp_server_event.connectionAlias must not have leading or trailing whitespace"
  else if String.eqb (TrimSpace resourceURI) "" || (2048 <? len resourceURI)%nat then
    Some "mcp_server_event.resourceUri is required"
  else if negb (String.eqb resourceURI (TrimSpace resourceURI)) then
    Some "mcp_server_event.resourceUri must not have leading or trailing whitespace"
  else
    and_then
      (check_list config "eventTypes" 20 "mcp_server_event.eventTypes must list at most 20 entries" event_entry
         "mcp_server_event.eventTypes entries must be unique")
      (validateTriggerRateLimit "mcp_server_event" config).

Definition ValidateTriggerConfig `{UnicodeTables} (nodeType : string) (config : obj) : option string :=
  if String.eqb nodeType "webhook_received" then ValidateWebhookReceivedConfig config
  else if String.eqb nodeType "email_received" then ValidateEmailReceivedConfig config
  else if String.eqb nodeType "file_dropped" then ValidateFileDroppedConfig config
  else if String.eqb nodeType "mcp_server_event" then ValidateMcpServerEventConfig config
  else if String.eqb nodeType "pagerduty_incident" then ValidatePagerDutyIncidentConfig config
  else Some ("unsupported trigger node type " +:+ Quote nodeType).
End trigger.

(** ** Agents (domain/agentconfig.go) *)

Definition AgentDefaultMaxSteps : Z := 3.
Definition MultiAgentDefaultMaxSteps : Z := 2.
Definition AgentMaxSteps : Z := 50.
Definition AgentMaxTimeoutMS : Z := 600000.
Definition MultiAgentMaxAgents : nat := 16.

Inductive AgentConfigErrorKind :=
| AgentConfigInvalidPlanner | AgentConfigInvalidMaxSteps | AgentConfigInvalidTimeout | AgentConfigInvalidBoolean
| AgentConfigInvalidField | MultiAgentConfigMissingAgents | MultiAgentConfigInvalidAgents
| MultiAgentConfigInvalidMode | MultiAgentConfigInvalidAgg | MultiAgentConfigInvalidBool.
Record AgentConfigError := mkAgentError { ErrorKind : AgentConfigErrorKind; ErrorMessage : string }.
Abbreviation agent_result A := (res AgentConfigError A).

Record AgentRuntimeConfig := mkAgentConfig
  { Planner : string; MaxSteps : Z; TimeoutMS : Z; HasTimeout : bool; Reflection : bool; AllowWrites : bool }.
Record MultiAgentRuntimeConfig := mkMultiAgentConfig
  { Agents : list any; mac_Mode : string; Aggregation : string; ContinueOnError : bool }.

Definition optionalAgentBool (config : obj) (field : string) (fallback : bool) : agent_result bool :=
  match obj_get config field with
  | None => Ok fallback
  | Some (ABool value) => Ok value
  | Some _ => Err (mkAgentError AgentConfigInvalidBoolean ("agent " +:+ field +:+ " must be a boolean"))
  end.

(** An optional string of a closed set, in which the empty string is the fallback. *)
Definition optional_choice (config : obj) (field : string) (choices : list string) (fallback : string)
    (error : AgentConfigError) : agent_result string :=
  match obj_get config field with
  | None => Ok fallback
  | Some (AStr value) =>
      if String.eqb value "" then Ok fallback else if in_list choices value then Ok value else Err error
  | Some _ => Err error
  end.
Definition optional_integer (config : obj) (field : string) (maximum fallback : Z) (error : AgentConfigError)
  : agent_result Z :=
  match obj_get config field with
  | None => Ok fallback
  | Some raw => match boundedAgentInteger raw 1 maximum with Some value => Ok value | None => Err error end
  end.

Definition agent_string_fields : list string :=
  ["name"; "role"; "persona"; "tool"; "value"; "text"; "path"; "url"; "method"; "model"].
Definition is_string_or_nil (v : any) : bool := match v with ANil | AStr _ => true | _ => false end.

Section agent.
Context `{UnicodeTables}.

Definition ResolveAgentRuntimeConfig (config : obj) (defaultMaxSteps : Z) (defaultReflection : bool)
  : agent_result AgentRuntimeConfig :=
  let? planner := optional_choice config "planner" ["rules"; "ai"] "rules"
    (mkAgentError AgentConfigInvalidPlanner "agent planner must be rules or ai") in
  let? maxSteps := optional_integer config "maxSteps" AgentMaxSteps defaultMaxSteps
    (mkAgentError AgentConfigInvalidMaxSteps ("agent maxSteps must be an integer between 1 and " +:+ Itoa AgentMaxSteps)) in
  let? timeoutMS := optional_integer config "timeoutMs" AgentMaxTimeoutMS 0
    (mkAgentError AgentConfigInvalidTimeout
      ("agent timeoutMs must be an integer between 1 and " +:+ Itoa AgentMaxTimeoutMS)) in
  let? reflection := optionalAgentBool config "reflection" defaultReflection in
  let? allowWrites := optionalAgentBool config "allowWriteTools" false in
  match List.find (λ field, negb (is_string_or_nil (obj_at config field))) agent_string_fields with
  | Some field => Err (mkAgentError AgentConfigInvalidField ("agent " +:+ field +:+ " must be a string"))
  | None =>
      match ResolvePromptReference config "systemPromptRef", ResolvePromptVariables config with
      | Err e, _ | Ok _, Err e => Err (mkAgentError AgentConfigInvalidField ("agent " +:+ e))
      | Ok _, Ok _ =>
          Ok (mkAgentConfig planner maxSteps timeoutMS (has_key config "timeoutMs") reflection allowWrites)
      end
  end.

Definition resolve_member (index : nat) (raw : any) : agent_result unit :=
  let at_index := "multi_agent agent at index " +:+ nat_text index in
  match as_obj raw with
  | None => Err (mkAgentError MultiAgentConfigInvalidAgents (at_index +:+ " must be an object"))
  | Some member =>
      match ResolveAgentRuntimeConfig member MultiAgentDefaultMaxSteps true with
      | Err e => Err (mkAgentError MultiAgentConfigInvalidAgents (at_index +:+ " is invalid: " +:+ ErrorMessage e))
      | Ok _ =>
          guard negb (String.eqb (TrimSpace (string_or_zero (obj_at member "goal"))) "")
            else mkAgentError MultiAgentConfigInvalidAgents (at_index +:+ " requires a non-empty goal") in
          Ok tt
      end
  end.
Fixpoint resolve_members (index : nat) (agents : list any) : agent_result unit :=
  match agents with
  | [] => Ok tt
  | raw :: agents => let? _ := resolve_member index raw in resolve_members (S index) agents
  end.

Definition ResolveMultiAgentRuntimeConfig (config : obj) : agent_result MultiAgentRuntimeConfig :=
  match as_arr (obj_at config "agents") with
  | None | Some [] => Err (mkAgentError MultiAgentConfigMissingAgents "multi_agent requires at least one agent")
  | Some agents =>
      guard (length agents <=? MultiAgentMaxAgents)%nat
        else mkAgentError MultiAgentConfigInvalidAgents
               ("multi_agent supports at most " +:+ nat_text MultiAgentMaxAgents +:+ " agents") in
      let? mode := optional_choice config "mode" ["sequential"; "parallel"] "sequential"
        (mkAgentError MultiAgentConfigInvalidMode "multi_agent mode must be sequential or parallel") in
      let? aggregation := optional_choice config "aggregation" ["last"; "first"; "all"; "best-effort"] "last"
        (mkAgentError MultiAgentConfigInvalidAgg "multi_agent aggregation must be last, first, all, or best-effort") in
      match optionalAgentBool config "continueOnError" false with
      | Err _ => Err (mkAgentError MultiAgentConfigInvalidBool "multi_agent continueOnError must be a boolean")
      | Ok continueOnError =>
          let? _ := ResolveAgentRuntimeConfig config MultiAgentDefaultMaxSteps true in
          let? _ := resolve_members 0 agents in
          Ok (mkMultiAgentConfig agents mode aggregation continueOnError)
      end
  end.
End agent.

(** The tool of an agent and its input; the empty name leaves the choice to the
    planner. *)
Definition AgentConfiguredTool (config : obj) : agent_result (string * obj) :=
  match obj_get config "tool" with
  | None | Some ANil => Ok ("", [])
  | Some (AStr tool) =>
      let tool := TrimSpace tool in
      if String.eqb tool "" then Ok ("", [])
      else
        match obj_get config "input" with
        | None | Some ANil => Ok (tool, [])
        | Some (AObj input) => Ok (tool, input)
        | Some _ => Err (mkAgentError AgentConfigInvalidField "agent input must be an object")
        end
  | Some _ => Err (mkAgentError AgentConfigInvalidField "agent tool must be a string")
  end.
