(* ===== verification/HttpConfig.v ===== *)
(** The shape and bounds of outbound HTTP nodes (httpcontract/bounds.go), shared by the
    workflow gate and the executor. *)
From S2P Require Import Prelude GoStrings GoFloat GoAny Regex Template RecoveryContract NodeConfig.
Local Open Scope string_scope.
Local Open Scope list_scope.
Local Open Scope Z_scope.

Definition DefaultTimeoutMS : Z := 30000.
Definition MaxTimeoutMS : Z := 600000.
Definition DefaultMaxResponseBytes : Z := 1000000.
Definition MaxResponseBytes : Z := 64 * 1048576.
Definition DefaultMaxRedirects : Z := 5.
Definition MaxRedirects : Z := 20.
Definition DefaultStreamPreview : Z := 65536.
Definition MinStreamPreview : Z := 1024.
Definition MaxStreamPreview : Z := 1048576.
Definition MaxURLBytes : Z := 4096.
Definition MaxHeaderCount : Z := 64.
Definition MaxHeaderNameBytes : Z := 128.
Definition MaxHeaderValueBytes : Z := 8192.
Definition MaxHeaderBytes : Z := 32768.

Record Bounds := mkBounds
  { b_TimeoutMs : float64; b_MaxResponseBytes : Z; b_MaxRedirects : Z; b_StreamPreviewBytes : Z }.

Inductive NodeConfigErrorKind := NodeConfigMissingURL | NodeConfigInvalid.
Record NodeConfigError := mkNodeConfigError { nce_Kind : NodeConfigErrorKind; nce_Message : string }.
Definition invalidNodeConfig (message : string) : NodeConfigError := mkNodeConfigError NodeConfigInvalid message.

(** The bounds are [None] for a node that declares none. *)
Record NodeConfig := mkNodeConfig
  { hc_URL : string; hc_Method : string; hc_Headers : list (string * string); hc_TimeoutMS : option Z;
    hc_MaxResponseBytes : option Z; hc_MaxRedirects : option Z; hc_BodyMode : string;
    hc_StreamPreviewBytes : option Z }.

(** A parsed URL as far as the code reads it. *)
Record RequestURI := mkURI { uri_Scheme : string; uri_Host : string; uri_HasUser : bool; uri_Fragment : string }.

(** The libraries of net/url and golang.org/x/net/http/httpguts. *)
Class HttpLibrary :=
  { ParseRequestURI : string → option RequestURI;
    ValidHeaderFieldName : string → bool;
    ValidHeaderFieldValue : string → bool }.

Definition methodTokenPattern : re := Plus (Cls (λ c, is_alnum c || one_of "!#$%&'*+-.^_`|~" c)).

Definition forbiddenRequestHeaders : list string :=
  ["connection"; "content-length"; "host"; "proxy-connection"; "te"; "trailer"; "transfer-encoding"; "upgrade"].

Definition isWholeTemplate (value : string) : bool := (WholeTemplateReference value).2.

(** [utf8.ValidString]: an invalid sequence is decoded to U+FFFD on a single byte. *)
Fixpoint valid_utf8 (fuel : nat) (l : list ascii) : bool :=
  match fuel, l with
  | S f, c :: l' =>
      let '(r, rest) := decode_rune c l' in
      if (r =? rune_error)%N && (length rest =? length l')%nat then false else valid_utf8 f rest
  | _, _ => true
  end.
Definition ValidString (s : string) : bool := valid_utf8 (len s) (bytes s).

Definition WholeNumber (raw : any) (minimum maximum : Z) : option Z :=
  let bounded value :=
    if negb (is_finite value) || negb (f_eqb (Trunc value) value) || f_ltb value (f_of_Z minimum) ||
       f_ltb (f_of_Z maximum) value
    then None else Some (int_of_float value) in
  match raw with
  | AF64 f | AF32 f => bounded f
  | AInt KUintptr _ => None
  | AInt _ z => bounded (f_of_Z z)
  | _ => None
  end.

Section http.
Context `{UnicodeTables, HttpLibrary} (lower upper : string → string).

(** One header in an iteration over the map: its name folded and its bytes. *)
Definition check_header (seen : list string) (name : string) (rawValue : any) : res NodeConfigError (string * Z) :=
  match rawValue with
  | AStr value =>
      let folded := ToLower lower name in
      guard negb (String.eqb name "" || (MaxHeaderNameBytes <? Z.of_nat (len name)) ||
                  (MaxHeaderValueBytes <? Z.of_nat (len value)) ||
                  negb (ValidHeaderFieldName name) || negb (ValidHeaderFieldValue value))
        else invalidNodeConfig "http.headers must use valid bounded HTTP names and values" in
      guard negb (in_list forbiddenRequestHeaders folded)
        else invalidNodeConfig ("http.headers[" +:+ Quote name +:+ "] is controlled by the transport") in
      guard negb (in_list seen folded)
        else invalidNodeConfig "http.headers must be unique case-insensitively" in
      Ok (value, Z.of_nat (len name) + Z.of_nat (len value))
  | _ => Err (invalidNodeConfig ("http.headers[" +:+ Quote name +:+ "] must be a string"))
  end.
Fixpoint check_headers (headers : obj) (seen : list string) (total : Z)
  : res NodeConfigError (list (string * string) * Z) :=
  match headers with
  | [] => Ok ([], total)
  | (name, rawValue) :: rest =>
      let? (value, size) := check_header seen name rawValue in
      let? (resolved, total) := check_headers rest (ToLower lower name :: seen) (total + size) in
      Ok ((name, value) :: resolved, total)
  end.
Definition validateHeaders (headers : obj) : res NodeConfigError (list (string * string)) :=
  guard negb (MaxHeaderCount <? Z.of_nat (length headers))
    else invalidNodeConfig ("http.headers supports at most " +:+ Itoa MaxHeaderCount +:+ " entries") in
  let? (resolved, total) := check_headers headers [] 0 in
  guard negb (MaxHeaderBytes <? total)
    else invalidNodeConfig ("http.headers exceeds " +:+ Itoa MaxHeaderBytes +:+ " bytes") in
  Ok resolved.

Definition resolve_url (config : obj) (allowWholeTemplates : bool) : res NodeConfigError string :=
  match obj_at config "url" with
  | AStr urlText =>
      if String.eqb (TrimSpace urlText) "" then Err (mkNodeConfigError NodeConfigMissingURL "HTTP node requires config.url")
      else
        guard String.eqb urlText (TrimSpace urlText) && ValidString urlText && (Z.of_nat (len urlText) <=? MaxURLBytes)
          else invalidNodeConfig ("http.url must be trimmed UTF-8 of at most " +:+ Itoa MaxURLBytes +:+ " bytes") in
        let containsTemplate := Contains urlText "{{" && Contains urlText "}}" in
        let absolute :=
          match ParseRequestURI urlText with
          | Some parsed => negb (String.eqb (uri_Host parsed) "" || uri_HasUser parsed ||
                                 negb (String.eqb (uri_Fragment parsed) "") || Contains urlText "#" ||
                                 negb (in_list ["http"; "https"] (uri_Scheme parsed)))
          | None => false
          end in
        guard (allowWholeTemplates && containsTemplate) || absolute
          else invalidNodeConfig "http.url must be an absolute HTTP(S) URL without userinfo or fragments" in
        Ok urlText
  | _ => Err (mkNodeConfigError NodeConfigMissingURL "HTTP node requires config.url")
  end.

Definition resolve_method (config : obj) (allowWholeTemplates : bool) : res NodeConfigError string :=
  match obj_get config "method" with
  | None => Ok "GET"
  | Some (AStr method) =>
      let method := TrimSpace method in
      if String.eqb method "" then Ok "GET"
      else if allowWholeTemplates && isWholeTemplate method then Ok method
      else if negb (MatchString methodTokenPattern method) then
        Err (invalidNodeConfig "http.method must be a valid HTTP method token")
      else Ok (ToUpper upper method)
  | Some _ => Err (invalidNodeConfig "http.method must be a string")
  end.

Definition resolve_headers (config : obj) (allowWholeTemplates : bool)
  : res NodeConfigError (list (string * string)) :=
  match obj_get config "headers" with
  | None => Ok []
  | Some raw =>
      if match raw with AStr text => allowWholeTemplates && isWholeTemplate text | _ => false end then Ok []
      else
        match raw with
        | AObj headers => validateHeaders headers
        | _ => Err (invalidNodeConfig "http.headers must be an object with string values")
        end
  end.

Definition resolve_bound (config : obj) (allowWholeTemplates : bool) (field : string) (minimum maximum : Z)
  : res NodeConfigError (option Z) :=
  match obj_get config field with
  | None => Ok None
  | Some raw =>
      if match raw with AStr text => allowWholeTemplates && isWholeTemplate text | _ => false end then Ok None
      else
        match WholeNumber raw minimum maximum with
        | Some value => Ok (Some value)
        | None => Err (invalidNodeConfig ("http." +:+ field +:+ " must be an integer between " +:+ Itoa minimum +:+
                                          " and " +:+ Itoa maximum))
        end
  end.

Definition resolve_body_mode (config : obj) (allowWholeTemplates : bool) : res NodeConfigError string :=
  match obj_get config "bodyMode" with
  | None => Ok "buffer"
  | Some (AStr mode) =>
      if (allowWholeTemplates && isWholeTemplate mode) || in_list ["buffer"; "stream"] mode then Ok mode
      else Err (invalidNodeConfig "http.bodyMode must be buffer or stream")
  | Some _ => Err (invalidNodeConfig "http.bodyMode must be buffer or stream")
  end.

Definition ResolveNodeConfig (config : obj) (allowWholeTemplates : bool) : res NodeConfigError NodeConfig :=
  let? url := resolve_url config allowWholeTemplates in
  let? method := resolve_method config allowWholeTemplates in
  let? headers := resolve_headers config allowWholeTemplates in
  let? timeout := resolve_bound config allowWholeTemplates "timeoutMs" 1 MaxTimeoutMS in
  let? responseBytes := resolve_bound config allowWholeTemplates "maxResponseBytes" 1 MaxResponseBytes in
  let? redirects := resolve_bound config allowWholeTemplates "maxRedirects" 0 MaxRedirects in
  let? preview := resolve_bound config allowWholeTemplates "streamPreviewBytes" MinStreamPreview MaxStreamPreview in
  let? bodyMode := resolve_body_mode config allowWholeTemplates in
  Ok (mkNodeConfig url method headers timeout responseBytes redirects bodyMode preview).
End http.

(** The defaults of a tenant, its valid values kept. *)
Definition Normalize (input : option Bounds) : Bounds :=
  match input with
  | None => mkBounds (f_of_Z DefaultTimeoutMS) DefaultMaxResponseBytes DefaultMaxRedirects DefaultStreamPreview
  | Some b =>
      let whole n minimum maximum fallback := default fallback (WholeNumber (AInt KInt n) minimum maximum) in
      mkBounds
        (match WholeNumber (AF64 (b_TimeoutMs b)) 1 MaxTimeoutMS with
         | Some v => f_of_Z v | None => f_of_Z DefaultTimeoutMS end)
        (whole (b_MaxResponseBytes b) 1 MaxResponseBytes DefaultMaxResponseBytes)
        (whole (b_MaxRedirects b) 0 MaxRedirects DefaultMaxRedirects)
        (whole (b_StreamPreviewBytes b) MinStreamPreview MaxStreamPreview DefaultStreamPreview)
  end.
