(* ===== verification/Waiting.v ===== *)
(** Waiting times: durations, absolute instants and the deadline policy of approvals
    (domain/approvalwaiting.go). *)
From S2P Require Import Prelude GoStrings GoFloat GoAny GoInt Calendar RecoveryContract.
Local Open Scope string_scope.
Local Open Scope list_scope.
Local Open Scope Z_scope.

Definition maxJSTimestampMillis : Z := 8640000000000000.
Definition maxJSSafeInteger : Z := 9007199254740991.
Definition secondMillis : Z := 1000.
Definition minuteMillis : Z := 60000.
Definition hourMillis : Z := 3600000.
Definition dayMillis : Z := 86400000.
Definition yearMillis : Z := 365 * dayMillis.
Definition monthMillis : Z := 30 * dayMillis.
Definition maxWaitUntilDurationMillis : Z := max_int64 / 1000000.

Record WaitingConfigError := mkWaitingError { we_Code : string; we_Message : string }.

(** ** Pieces of the two patterns *)

Fixpoint take_while (p : ascii → bool) (l : list ascii) : list ascii * list ascii :=
  match l with
  | c :: l' => if p c then let '(a, b) := take_while p l' in (c :: a, b) else ([], l)
  | [] => ([], [])
  end.
Definition expect (c : ascii) (l : list ascii) : option (list ascii) :=
  match l with d :: l' => if Ascii.eqb c d then Some l' else None | [] => None end.
(** [\d{n}] as a number. *)
Definition take_digits (n : nat) (l : list ascii) : option (Z * list ascii) :=
  if (n <=? length l)%nat && forallb is_digit (take n l) then Some (digits_val (take n l), drop n l) else None.

(** ** Durations *)

(** [\d+(?:\.\d+)?] as a decimal: its digits and the number of them after the point. *)
Definition take_decimal (l : list ascii) : option (Z * Z * list ascii) :=
  match take_while is_digit l with
  | ([], _) => None
  | (whole, rest) =>
      match expect "." rest with
      | Some rest' =>
          match take_while is_digit rest' with
          | ([], _) => Some (digits_val whole, 0, rest)
          | (frac, rest'') => Some (digits_val (whole ++ frac), Z.of_nat (length frac), rest'')
          end
      | None => Some (digits_val whole, 0, rest)
      end
  end.

(** Optional components in the order of their units: [inl] when the text does not
    match, with the components seen otherwise. *)
Fixpoint take_components (units : list (ascii * Z)) (l : list ascii) : list (Z * Z * Z) * list ascii :=
  match units with
  | [] => ([], l)
  | (letter, millis) :: units =>
      match take_decimal l with
      | Some (m, e, rest) =>
          match expect letter rest with
          | Some rest => let '(cs, rest) := take_components units rest in ((m, e, millis) :: cs, rest)
          | None => take_components units l
          end
      | None => take_components units l
      end
  end.
Definition date_units : list (ascii * Z) := [("Y"%char, yearMillis); ("M"%char, monthMillis); ("D"%char, dayMillis)].
Definition time_units : list (ascii * Z) := [("H"%char, hourMillis); ("M"%char, minuteMillis); ("S"%char, secondMillis)].

Definition waitUntilISODurationPattern (value : string) : option (list (Z * Z * Z)) :=
  l ← expect "P" (bytes value);
  let '(dates, l) := take_components date_units l in
  let '(times, l) := match expect "T" l with Some l => take_components time_units l | None => ([], l) end in
  match l with [] => Some (dates ++ times) | _ => None end.

(** [None] is a component or a sum that overflows. *)
Fixpoint sum_components (total : float64) (components : list (Z * Z * Z)) : option float64 :=
  match components with
  | [] => Some total
  | (m, e, millis) :: rest =>
      let component := f_of_decimal false m (- e) in
      let total := f_add total (f_mul component (f_of_Z millis)) in
      if is_finite component && is_finite total then sum_components total rest else None
  end.

Definition ParseISODurationMillis (value : string) : option float64 :=
  match waitUntilISODurationPattern value with
  | None | Some [] => None
  | Some components => sum_components (f_of_Z 0) components
  end.

(** ** Absolute instants *)

(** The groups of [approvalInstantPattern]; the zone is its sign and its fields. *)
Record instant_fields := mkFields
  { if_year : Z; if_month : Z; if_day : Z; if_hour : Z; if_minute : Z; if_second : Z; if_fraction : list ascii;
    if_zone : option (bool * Z * Z) }.

Definition take_seconds (l : list ascii) : option (Z * list ascii * list ascii) :=
  match expect ":" l with
  | None => Some (0, [], l)
  | Some l =>
      '(second, l) ← take_digits 2 l;
      match expect "." l with
      | None => Some (second, [], l)
      | Some l =>
          let '(fraction, l) := take_while is_digit l in
          if (1 <=? length fraction)%nat && (length fraction <=? 3)%nat then Some (second, fraction, l) else None
      end
  end.
Definition take_zone (l : list ascii) : option (option (bool * Z * Z)) :=
  match l with
  | ["Z"%char] => Some None
  | c :: l =>
      if Ascii.eqb c "+" || Ascii.eqb c "-" then
        '(h, l) ← take_digits 2 l; l ← expect ":" l; '(m, l) ← take_digits 2 l;
        match l with [] => Some (Some (Ascii.eqb c "-", h, m)) | _ => None end
      else None
  | [] => None
  end.

Definition approvalInstantPattern (value : string) : option instant_fields :=
  '(year, l) ← take_digits 4 (bytes value); l ← expect "-" l;
  '(month, l) ← take_digits 2 l; l ← expect "-" l;
  '(day, l) ← take_digits 2 l; l ← expect "T" l;
  '(hour, l) ← take_digits 2 l; l ← expect ":" l;
  '(minute, l) ← take_digits 2 l;
  '(second, fraction, l) ← take_seconds l;
  zone ← take_zone l;
  Some (mkFields year month day hour minute second fraction zone).

Definition waitingDaysInMonth (year month : Z) : Z :=
  if month =? 2 then
    if (year mod 4 =? 0) && (negb (year mod 100 =? 0) || (year mod 400 =? 0)) then 29 else 28
  else if (month =? 4) || (month =? 6) || (month =? 9) || (month =? 11) then 30 else 31.

Definition fields_valid (f : instant_fields) : bool :=
  negb ((if_month f <? 1) || (12 <? if_month f) || (if_day f <? 1) ||
        (waitingDaysInMonth (if_year f) (if_month f) <? if_day f) ||
        (23 <? if_hour f) || (59 <? if_minute f) || (59 <? if_second f) ||
        match if_zone f with Some (_, h, m) => (23 <? h) || (59 <? m) | None => false end).
(** The fraction padded to three digits. *)
Definition fraction_millis (fraction : list ascii) : Z :=
  match fraction with [] => 0 | _ => digits_val (fraction ++ replicate (3 - length fraction) "0"%char) end.
Definition offset_seconds (zone : option (bool * Z * Z)) : Z :=
  match zone with
  | Some (neg, h, m) => let s := h * 3600 + m * 60 in if (neg : bool) then - s else s
  | None => 0
  end.
Definition fields_instant (f : instant_fields) : instant :=
  Date (if_year f) (if_month f) (if_day f) (if_hour f) (if_minute f) (if_second f)
    (fraction_millis (if_fraction f) * 1000000) - offset_seconds (if_zone f) * second_ns.

Definition ParseAbsoluteInstant (value : string) : option instant :=
  f ← approvalInstantPattern (TrimSpace value);
  if fields_valid f then Some (fields_instant f) else None.

(** Decimal digits on at least [width] places. *)
Definition pad (width : nat) (n : Z) : list ascii :=
  let ds := digits (Z.abs n) in
  (if n <? 0 then ["-"%char] else []) ++ replicate (width - length ds) "0"%char ++ ds.
Definition Second (t : instant) : Z := t mod minute_ns / second_ns.
Definition Millisecond (t : instant) : Z := t mod second_ns / 1000000.

Definition FormatWaitingInstant (t : instant) : string :=
  of_bytes (pad 4 (Year t) ++ ["-"%char] ++ pad 2 (Month t) ++ ["-"%char] ++ pad 2 (Day t) ++ ["T"%char] ++
    pad 2 (Hour t) ++ [":"%char] ++ pad 2 (Minute t) ++ [":"%char] ++ pad 2 (Second t) ++ ["."%char] ++
    pad 3 (Millisecond t) ++ ["Z"%char]).

(** ** The timer of wait_until *)

Definition ValidateWaitUntilConfig (config : obj) : option WaitingConfigError :=
  match obj_get config "duration", obj_get config "until" with
  | Some _, Some _ => Some (mkWaitingError "wait_until_conflicting_time"
      "wait_until accepts either config.duration or config.until, not both")
  | None, None => Some (mkWaitingError "wait_until_missing_duration"
      "wait_until requires config.duration or config.until")
  | Some rawDuration, None =>
      let text := string_or_zero rawDuration in
      if String.eqb (TrimSpace text) "" then
        Some (mkWaitingError "wait_until_invalid_duration" "wait_until.duration must be a valid ISO 8601 duration")
      else
        match ParseISODurationMillis text with
        | None => Some (mkWaitingError "wait_until_invalid_duration"
            ("wait_until.duration must be a valid ISO 8601 duration, got: " +:+ text))
        | Some delay =>
            if f_leb delay (f_of_Z 0) then
              Some (mkWaitingError "wait_until_non_positive_duration"
                ("wait_until.duration must resolve to a positive number of milliseconds, got: " +:+
                 FormatFloat delay FmtG))
            else if f_ltb (f_mul delay (f_of_Z 1000000)) (f_of_Z 1) || f_ltb (f_of_Z maxWaitUntilDurationMillis) delay then
              Some (mkWaitingError "wait_until_invalid_duration"
                "wait_until.duration must resolve to a supported duration")
            else None
        end
  | None, Some rawUntil =>
      match ParseAbsoluteInstant (string_or_zero rawUntil) with
      | Some _ => None
      | None => Some (mkWaitingError "wait_until_invalid_until"
          "wait_until.until must be an ISO 8601 date-time with an explicit timezone")
      end
  end.

(** ** The deadline of an approval *)

Record ApprovalWaitingConfig := mkApproval
  { Assignee : string; RelativeTimeoutMS : option Z; DeadlineAt : string; DelayMS : Z; OnTimeout : string;
    EscalateTo : string }.

Definition optionalWaitingLabel (value : any) : string := TrimSpace (string_or_zero value).

Definition waitingNumber (value : any) : option float64 :=
  match value with
  | AF64 f | AF32 f => Some f
  | AInt (KInt | KInt64 | KInt32) z => Some (f_of_Z z)
  | _ => None
  end.
Definition safePositiveInteger (value : any) : option Z :=
  match waitingNumber value with
  | Some number =>
      if negb (is_finite number) || f_leb number (f_of_Z 0) || negb (f_eqb (Trunc number) number) ||
         f_ltb (f_of_Z maxJSSafeInteger) number
      then None else Some (int_of_float number)
  | None => None
  end.
Definition supported_millis (millis : Z) : bool := (- maxJSTimestampMillis <=? millis) && (millis <=? maxJSTimestampMillis).

(** The deadline fields: the relative timeout, or the instant and its delay. *)
Definition resolve_deadline (config : obj) (now : instant) : res WaitingConfigError (option Z * string * Z) :=
  if has_key config "decisionTimeoutMs" then
    match safePositiveInteger (obj_at config "decisionTimeoutMs") with
    | None => Err (mkWaitingError "approval_invalid_timeout"
        "Approval node config.decisionTimeoutMs must be a positive safe integer")
    | Some timeout =>
        guard supported_millis (UnixMilli now + timeout)
          else mkWaitingError "approval_invalid_timeout"
                 "Approval node config.decisionTimeoutMs must resolve to a supported date-time" in
        Ok (Some timeout, "", 0)
    end
  else
    match ParseAbsoluteInstant (string_or_zero (obj_at config "until")) with
    | None => Err (mkWaitingError "approval_invalid_until"
        "Approval node config.until must be an ISO 8601 date-time with an explicit timezone")
    | Some deadline => Ok (None, FormatWaitingInstant deadline, Z.max (UnixMilli deadline - UnixMilli now) 0)
    end.

Definition ResolveApprovalWaitingConfig (config : obj) (now : instant) : res WaitingConfigError ApprovalWaitingConfig :=
  let assignee := optionalWaitingLabel (obj_at config "assignee") in
  let escalateTo := optionalWaitingLabel (obj_at config "escalateTo") in
  let hasTimeout := has_key config "decisionTimeoutMs" in
  let hasUntil := has_key config "until" in
  let hasPolicy := has_key config "onTimeout" in
  let policy := string_or_zero (obj_at config "onTimeout") in
  guard negb (hasTimeout && hasUntil)
    else mkWaitingError "approval_conflicting_deadline"
           "Approval node accepts either config.decisionTimeoutMs or config.until, not both" in
  guard negb hasPolicy || in_list ["fail"; "auto_reject"; "escalate"] policy
    else mkWaitingError "approval_invalid_timeout_policy"
           "Approval node config.onTimeout must be fail, auto_reject, or escalate" in
  if negb hasTimeout && negb hasUntil then
    guard negb hasPolicy
      else mkWaitingError "approval_timeout_policy_without_deadline"
             "Approval node config.onTimeout requires config.decisionTimeoutMs or config.until" in
    guard String.eqb escalateTo ""
      else mkWaitingError "approval_escalation_without_policy"
             "Approval node config.escalateTo requires onTimeout: escalate and a deadline" in
    Ok (mkApproval assignee None "" 0 "" "")
  else
    let? (relative, deadlineAt, delay) := resolve_deadline config now in
    let policy := if hasPolicy then policy else "fail" in
    guard negb (String.eqb policy "escalate" && String.eqb escalateTo "")
      else mkWaitingError "approval_escalation_missing_assignee"
             "Approval node onTimeout: escalate requires a non-empty config.escalateTo" in
    guard String.eqb policy "escalate" || String.eqb escalateTo ""
      else mkWaitingError "approval_escalation_without_policy"
             "Approval node config.escalateTo requires onTimeout: escalate" in
    Ok (mkApproval assignee relative deadlineAt delay policy escalateTo).

(** [maps.Copy] gives a map of its own; the values are shared and not changed. *)
Definition MaterializeApprovalWaitingMetadata (metadata : obj) (checkpoint : instant) : obj :=
  if negb (String.eqb (string_or_zero (obj_at metadata "kind")) "approval") then metadata
  else if has_key metadata "deadlineAt" then metadata
  else
    match safePositiveInteger (obj_at metadata "decisionTimeoutMs") with
    | None => metadata
    | Some timeout =>
        let deadlineMillis := UnixMilli checkpoint + timeout in
        if supported_millis deadlineMillis then
          obj_set (obj_set metadata "deadlineAt" (AStr (FormatWaitingInstant (deadlineMillis * 1000000))))
            "delayMs" (AInt KInt64 timeout)
        else metadata
    end.
