(* ===== verification/WaitingFacts.v ===== *)
(** Instants survive their text, their text is never normalised, and the deadlines that
    have no readable text. *)
From S2P Require Import Prelude GoStrings GoFloat GoAny GoInt Calendar RecoveryContract Waiting.
Local Open Scope string_scope.
Local Open Scope list_scope.
Local Open Scope Z_scope.

(** ** Decimal fields *)

Definition pad_ok (w : nat) (n : Z) : bool :=
  (length (pad w n) =? w)%nat && forallb is_digit (pad w n) && (digits_val (pad w n) =? n).

Lemma pad_ok_all w n : (w, 10 ^ Z.of_nat w) ∈ [(2%nat, 100); (3%nat, 1000); (4%nat, 10000)] →
  0 ≤ n < 10 ^ Z.of_nat w → pad_ok w n = true.
Proof.
  intros Hw Hn. assert (forallb (pad_ok w) (seqZ 0 (10 ^ Z.of_nat w)) = true) as Hall.
  { rewrite !elem_of_cons, elem_of_nil in Hw. destruct Hw as [[= -> _]|[[= -> _]|[[= -> _]|[]]]]; by vm_compute. }
  rewrite forallb_elem in Hall. apply Hall, elem_of_seqZ. lia.
Qed.

Lemma take_digits_pad w n rest : pad_ok w n = true → take_digits w (pad w n ++ rest) = Some (n, rest).
Proof.
  unfold pad_ok, take_digits. rewrite !andb_true_iff, Nat.eqb_eq, Z.eqb_eq. intros [[Hlen Hd] Hv].
  rewrite take_app_length', drop_app_length' by done. rewrite length_app, Hd, Hv.
  rewrite (proj2 (Nat.leb_le _ _)) by lia. done.
Qed.

Lemma digits_val_app l k : digits_val (l ++ k) = digits_val l * 10 ^ Z.of_nat (length k) + digits_val k.
Proof.
  unfold digits_val. rewrite fold_left_app. generalize (fold_left (λ a c, 10 * a + digit_val c) l 0). intros a.
  assert (∀ a b, fold_left (λ a c, 10 * a + digit_val c) k (a + b) =
                 a * 10 ^ Z.of_nat (length k) + fold_left (λ a c, 10 * a + digit_val c) k b) as Hfold.
  { induction k as [|c k IH]; intros a' b; cbn [fold_left length]; [lia|].
    replace (10 * (a' + b) + digit_val c) with (10 * a' + (10 * b + digit_val c)) by lia. rewrite IH.
    rewrite Nat2Z.inj_succ, Z.pow_succ_r by lia. lia. }
  by rewrite <-(Hfold a 0), Z.add_0_r.
Qed.

Lemma digits_val_bounds l : forallb is_digit l = true → 0 ≤ digits_val l < 10 ^ Z.of_nat (length l).
Proof.
  induction l as [|c l IH] using rev_ind; [done|]. rewrite forallb_app, digits_val_app, length_app. cbn [forallb length].
  rewrite andb_true_r, andb_true_iff. intros [Hl Hc]. specialize (IH Hl).
  assert (0 ≤ digits_val [c] ≤ 9).
  { unfold digits_val, digit_val. cbn [fold_left]. unfold is_digit, in_range in Hc.
    apply andb_true_iff in Hc as [H1%Nat.leb_le H2%Nat.leb_le]. lia. }
  replace (Z.of_nat (length l + 1)) with (Z.succ (Z.of_nat (length l))) by lia. rewrite Z.pow_succ_r by lia.
  change (10 ^ Z.of_nat 1) with 10. lia.
Qed.

Lemma take_digits_bounds n l v rest : take_digits n l = Some (v, rest) → 0 ≤ v < 10 ^ Z.of_nat n.
Proof.
  unfold take_digits. destruct (_ && _) eqn:Hb; [|done]. intros [= <- _].
  apply andb_true_iff in Hb as [Hlen%Nat.leb_le Hd]. pose proof (digits_val_bounds _ Hd) as Hb.
  rewrite length_take in Hb. by replace (n `min` length l)%nat with n in Hb by lia.
Qed.

Lemma take_while_all p l : forallb p (take_while p l).1 = true.
Proof.
  induction l as [|c l IH]; cbn; [done|]. destruct (p c) eqn:Hc; [|done].
  destruct (take_while p l) as [a b]. cbn in *. by rewrite Hc.
Qed.

(** ** Texts without white space at their ends *)

Definition starts_no_space (seqs : list (list ascii)) (c : ascii) : bool :=
  forallb (λ p, match p with d :: _ => negb (Ascii.eqb d c) | [] => false end) seqs.

Lemma strip_any_none seqs c l : starts_no_space seqs c = true → strip_any seqs (c :: l) = None.
Proof.
  unfold starts_no_space. rewrite forallb_elem. induction seqs as [|p seqs IH]; intros Hall; [done|]. cbn [strip_any].
  pose proof (Hall p ltac:(by left)) as Hp. destruct p as [|d p]; [done|]. cbn [strip_prefix].
  apply negb_true_iff in Hp. rewrite Hp. apply IH. intros q Hq. apply Hall. by right.
Qed.

Lemma TrimSpace_id l : (∃ c k, l = c :: k ∧ starts_no_space space_seqs c = true) →
  (∃ c k, l = k ++ [c] ∧ starts_no_space (map (@rev ascii) space_seqs) c = true) →
  TrimSpace (of_bytes l) = of_bytes l.
Proof.
  intros (c & k & Hl & Hc) (d & j & Hr & Hd). unfold TrimSpace, trim_space_bytes. rewrite bytes_of_bytes. f_equal.
  assert (trim_front (length l) space_seqs l = l) as ->.
  { rewrite Hl. cbn [length trim_front]. by rewrite strip_any_none. }
  rewrite Hr, rev_app_distr, length_app, Nat.add_comm. cbn [length rev Nat.add trim_front app].
  rewrite strip_any_none by done. by rewrite <-(rev_involutive j) at 2.
Qed.

Lemma digit_cases c : is_digit c = true → c ∈ ["0"; "1"; "2"; "3"; "4"; "5"; "6"; "7"; "8"; "9"]%char.
Proof.
  destruct c as [[] [] [] [] [] [] [] []]; intros Hc; try discriminate Hc; apply (bool_decide_unpack _); by vm_compute.
Qed.
Lemma digit_no_space c : is_digit c = true → starts_no_space space_seqs c = true.
Proof.
  intros Hc%digit_cases. rewrite !elem_of_cons, elem_of_nil in Hc.
  repeat (destruct Hc as [->|Hc]; [by vm_compute|]). destruct Hc.
Qed.

(** ** From an instant to its text and back *)

Lemma days_shift y m d : days_from_civil y m 1 + (d - 1) = days_from_civil y m d.
Proof. unfold days_from_civil. lia. Qed.

Lemma Date_fields y m d h mi s ns : 1 ≤ m ≤ 12 →
  Date y m d h mi s ns = days_from_civil y m d * day_ns + h * hour_ns + mi * minute_ns + s * second_ns + ns.
Proof.
  intros Hm. unfold Date. rewrite Z.div_small, Z.mod_small, Z.add_0_r, Z.sub_add, days_shift by lia. done.
Qed.

Lemma waitingDaysInMonth_spec y m : waitingDaysInMonth y m = month_days (is_leap y) m.
Proof. done. Qed.

Lemma expect_hd c l : expect c (c :: l) = Some l.
Proof. cbn. by rewrite Ascii.eqb_refl. Qed.

Lemma take_while_digits w n c rest : pad_ok w n = true → is_digit c = false →
  take_while is_digit (pad w n ++ c :: rest) = (pad w n, c :: rest).
Proof.
  unfold pad_ok. intros Hp Hc. bool_split. rename select (forallb _ _ = true) into Hd. revert Hd. generalize (pad w n).
  induction l as [|d l IH]; cbn; [by rewrite Hc|]. intros [Hd ?]%andb_true_iff. by rewrite Hd, IH.
Qed.

Record time_ranges (t : instant) : Prop :=
  { tr_month : 1 ≤ Month t ≤ 12; tr_day : 1 ≤ Day t ≤ month_days (is_leap (Year t)) (Month t);
    tr_days : days_from_civil (Year t) (Month t) (Day t) = day_of t;
    tr_hour : 0 ≤ Hour t < 24; tr_minute : 0 ≤ Minute t < 60; tr_second : 0 ≤ Second t < 60;
    tr_milli : 0 ≤ Millisecond t < 1000 }.

Lemma instant_ranges t : time_ranges t.
Proof.
  destruct (civil (day_of t)) as [[y m] d] eqn:Hc. pose proof (civil_spec _ _ _ _ Hc) as [[Hm Hd] Hdays].
  assert (Year t = y ∧ Month t = m ∧ Day t = d) as (<- & <- & <-) by (unfold Year, Month, Day; by rewrite Hc).
  split; [done|done|done|..]; unfold Hour, Minute, Second, Millisecond, day_ns, hour_ns, minute_ns, second_ns;
    Z.div_mod_to_equations; lia.
Qed.

Lemma instant_parts t : t / 1000000 * 1000000 =
  day_of t * day_ns + Hour t * hour_ns + Minute t * minute_ns + Second t * second_ns + Millisecond t * 1000000.
Proof.
  unfold day_of, Hour, Minute, Second, Millisecond, day_ns, hour_ns, minute_ns, second_ns.
  Z.div_mod_to_equations. lia.
Qed.

Definition printable_year (t : instant) : Prop := 0 ≤ Year t ≤ 9999.

Lemma format_fields t : printable_year t →
  approvalInstantPattern (FormatWaitingInstant t) =
  Some (mkFields (Year t) (Month t) (Day t) (Hour t) (Minute t) (Second t) (pad 3 (Millisecond t)) None).
Proof.
  intros Hy. destruct (instant_ranges t) as [Hm Hd _ Hh Hmi Hs Hms].
  pose proof (month_days_bounds (is_leap (Year t)) (Month t)).
  assert (∀ n, 0 ≤ n < 100 → pad_ok 2 n = true) as H2 by (intros n Hn; apply pad_ok_all; [by left|done]).
  assert (pad_ok 3 (Millisecond t) = true) as H3 by (apply pad_ok_all; [right; by left|done]).
  assert (pad_ok 4 (Year t) = true) as H4 by (apply pad_ok_all; [right; right; by left|unfold printable_year in Hy; lia]).
  unfold approvalInstantPattern, FormatWaitingInstant. rewrite bytes_of_bytes. cbn [app].
  rewrite take_digits_pad by done. cbn [mbind option_bind]. rewrite expect_hd. cbn [mbind option_bind].
  do 4 (rewrite take_digits_pad by (apply H2; lia); cbn [mbind option_bind]; try rewrite expect_hd; cbn [mbind option_bind]).
  unfold take_seconds. rewrite expect_hd. rewrite take_digits_pad by (apply H2; lia). cbn [mbind option_bind].
  rewrite expect_hd, take_while_digits by done.
  assert (length (pad 3 (Millisecond t)) = 3%nat) as Hlen.
  { unfold pad_ok in H3. bool_split. by apply Nat.eqb_eq. }
  rewrite Hlen. done.
Qed.

Lemma format_trim t : printable_year t → TrimSpace (FormatWaitingInstant t) = FormatWaitingInstant t.
Proof.
  intros Hy. unfold FormatWaitingInstant. apply TrimSpace_id.
  - assert (pad_ok 4 (Year t) = true) as H4 by (apply pad_ok_all; [right; right; by left|unfold printable_year in Hy; lia]).
    unfold pad_ok in H4. bool_split. rename select (forallb _ _ = true) into Hd.
    rename select ((_ =? _)%nat = true) into Hlen. apply Nat.eqb_eq in Hlen.
    destruct (pad 4 (Year t)) as [|c k]; [done|]. exists c, (k ++ ["-"%char] ++ pad 2 (Month t) ++ ["-"%char] ++ pad 2 (Day t) ++
      ["T"%char] ++ pad 2 (Hour t) ++ [":"%char] ++ pad 2 (Minute t) ++ [":"%char] ++ pad 2 (Second t) ++ ["."%char] ++
      pad 3 (Millisecond t) ++ ["Z"%char]).
    split; [done|]. cbn [forallb] in Hd. apply andb_true_iff in Hd as [Hd _]. by apply digit_no_space.
  - eexists "Z"%char, _. split; [|by vm_compute]. rewrite !app_assoc. reflexivity.
Qed.

Lemma fraction_pad t : fraction_millis (pad 3 (Millisecond t)) = Millisecond t.
Proof.
  assert (pad_ok 3 (Millisecond t) = true) as H3.
  { apply pad_ok_all; [right; by left|]. apply (tr_milli _ (instant_ranges t)). }
  unfold pad_ok in H3. bool_split. rename select ((_ =? _)%nat = true) into Hlen. apply Nat.eqb_eq in Hlen.
  rename select ((_ =? _) = true) into Hv. apply Z.eqb_eq in Hv. unfold fraction_millis.
  destruct (pad 3 (Millisecond t)) as [|c k] eqn:Hp; [done|]. rewrite <-Hp in *. rewrite Hlen. cbn [Nat.sub replicate].
  by rewrite app_nil_r.
Qed.

Lemma ParseAbsoluteInstant_format t : printable_year t →
  ParseAbsoluteInstant (FormatWaitingInstant t) = Some (t / 1000000 * 1000000).
Proof.
  intros Hy. unfold ParseAbsoluteInstant. rewrite format_trim, format_fields by done. cbn [mbind option_bind].
  destruct (instant_ranges t) as [Hm Hd Hdays Hh Hmi Hs Hms].
  assert (fields_valid (mkFields (Year t) (Month t) (Day t) (Hour t) (Minute t) (Second t) (pad 3 (Millisecond t)) None) = true) as ->.
  { unfold fields_valid. cbn [if_month if_day if_year if_hour if_minute if_second if_zone].
    rewrite waitingDaysInMonth_spec. rewrite !(proj2 (Z.ltb_ge _ _)) by lia. done. }
  f_equal. unfold fields_instant. cbn [if_month if_day if_year if_hour if_minute if_second if_zone if_fraction].
  rewrite fraction_pad, Date_fields, Hdays, instant_parts by done. unfold offset_seconds. lia.
Qed.

(** ** An accepted text is not normalised *)

Lemma take_while_digits_bounds l : 0 ≤ digits_val (take_while is_digit l).1 < 10 ^ Z.of_nat (length (take_while is_digit l).1).
Proof. apply digits_val_bounds, take_while_all. Qed.

Lemma fraction_bounds l : (length l ≤ 3)%nat → forallb is_digit l = true → 0 ≤ fraction_millis l < 1000.
Proof.
  intros Hlen Hd. unfold fraction_millis. destruct l as [|c l]; [lia|]. set (k := c :: l) in *.
  assert (forallb is_digit (k ++ replicate (3 - length k) "0"%char) = true) as Hall.
  { rewrite forallb_app, Hd. cbn [andb]. generalize (3 - length k)%nat. induction n as [|n IH]; [done|]. cbn. by rewrite IH. }
  pose proof (digits_val_bounds _ Hall) as Hb. rewrite length_app, length_replicate in Hb.
  by replace (length k + (3 - length k))%nat with 3%nat in Hb by lia.
Qed.

(** What the pattern guarantees of the groups. *)
Record groups_ok (f : instant_fields) : Prop :=
  { go_year : 0 ≤ if_year f < 10000; go_hour : 0 ≤ if_hour f; go_minute : 0 ≤ if_minute f; go_second : 0 ≤ if_second f;
    go_fraction : 0 ≤ fraction_millis (if_fraction f) < 1000 }.

Lemma pattern_groups s f : approvalInstantPattern s = Some f → groups_ok f.
Proof.
  unfold approvalInstantPattern. intros Hp. 
  destruct (take_digits 4 _) as [[y l1]|] eqn:Hy; [|done]; cbn [mbind option_bind] in Hp.
  destruct (expect "-" l1) as [l2|]; [|done]; cbn [mbind option_bind] in Hp.
  destruct (take_digits 2 l2) as [[m l3]|]; [|done]; cbn [mbind option_bind] in Hp.
  destruct (expect "-" l3) as [l4|]; [|done]; cbn [mbind option_bind] in Hp.
  destruct (take_digits 2 l4) as [[d l5]|]; [|done]; cbn [mbind option_bind] in Hp.
  destruct (expect "T" l5) as [l6|]; [|done]; cbn [mbind option_bind] in Hp.
  destruct (take_digits 2 l6) as [[h l7]|] eqn:Hh; [|done]; cbn [mbind option_bind] in Hp.
  destruct (expect ":" l7) as [l8|]; [|done]; cbn [mbind option_bind] in Hp.
  destruct (take_digits 2 l8) as [[mi l9]|] eqn:Hmi; [|done]; cbn [mbind option_bind] in Hp.
  destruct (take_seconds l9) as [[[s' fr] l10]|] eqn:Hs; [|done]; cbn [mbind option_bind] in Hp.
  destruct (take_zone l10) as [z|]; [|done]; cbn [mbind option_bind] in Hp. injection Hp as <-.
  apply take_digits_bounds in Hy, Hh, Hmi.
  assert (0 ≤ s' ∧ 0 ≤ fraction_millis fr < 1000) as [Hs0 Hf].
  { unfold take_seconds in Hs. destruct (expect ":" l9) as [l|]; [|injection Hs as <- <- _; by vm_compute].
    destruct (take_digits 2 l) as [[sec l']|] eqn:Hsec; [|done]; cbn [mbind option_bind] in Hs.
    apply take_digits_bounds in Hsec. destruct (expect "." l') as [l''|]; [|injection Hs as <- <- _; by split; [lia|vm_compute]].
    pose proof (take_while_all is_digit l'') as Hall. destruct (take_while is_digit l'') as [a b]. cbn [fst] in Hall.
    destruct (_ && _) eqn:Hb in Hs; [|done]. injection Hs as <- <- _. apply andb_true_iff in Hb as [_ Hb%Nat.leb_le].
    split; [lia|by apply fraction_bounds]. }
  split; cbn; [exact Hy|lia|lia|done|done].
Qed.

Lemma local_fields y m d h mi s ms : valid_date y m d →
  0 ≤ h < 24 → 0 ≤ mi < 60 → 0 ≤ s < 60 → 0 ≤ ms < 1000 →
  let t := Date y m d h mi s (ms * 1000000) in
  Year t = y ∧ Month t = m ∧ Day t = d ∧ Hour t = h ∧ Minute t = mi ∧ Second t = s ∧ Millisecond t = ms.
Proof.
  intros Hv Hh Hmi Hs Hms t. unfold t. rewrite Date_fields by apply Hv. clear t.
  set (r := h * hour_ns + mi * minute_ns + s * second_ns + ms * 1000000).
  replace (_ + h * hour_ns + _ + _ + _) with (r + days_from_civil y m d * day_ns) by (unfold r; lia).
  assert (0 ≤ r < day_ns) as Hr by (unfold r, day_ns, hour_ns, minute_ns, second_ns; lia).
  assert (day_of (r + days_from_civil y m d * day_ns) = days_from_civil y m d) as Hday.
  { unfold day_of. rewrite Z.div_add, Z.div_small by done. lia. }
  unfold Year, Month, Day. rewrite Hday, civil_days by done. cbn [fst snd]. split_and!; [done..| | | |].
  - unfold Hour. rewrite Z.mod_add, Z.mod_small by done. unfold r, hour_ns, minute_ns, second_ns. Z.div_mod_to_equations. lia.
  - unfold Minute. replace (r + _ * day_ns) with (r + days_from_civil y m d * 24 * hour_ns) by (unfold day_ns; lia).
    rewrite Z.mod_add by done. unfold r, hour_ns, minute_ns, second_ns. Z.div_mod_to_equations. lia.
  - unfold Second. replace (r + _ * day_ns) with (r + days_from_civil y m d * 1440 * minute_ns) by (unfold day_ns, hour_ns; lia).
    rewrite Z.mod_add by done. unfold r, hour_ns, minute_ns, second_ns. Z.div_mod_to_equations. lia.
  - unfold Millisecond. replace (r + _ * day_ns) with (r + days_from_civil y m d * 86400 * second_ns)
      by (unfold day_ns, hour_ns, minute_ns; lia).
    rewrite Z.mod_add by done. unfold r, hour_ns, minute_ns, second_ns. Z.div_mod_to_equations. lia.
Qed.

(** C40: The text the engine stores for a deadline reads back as the
    same instant, cut to the millisecond, for every instant of the years 0 to 9999. *)
Theorem format_parse_roundtrip t (Hy : 0 ≤ Year t ≤ 9999) :
  ParseAbsoluteInstant (FormatWaitingInstant t) = Some (t / 1000000 * 1000000).
Proof. by apply ParseAbsoluteInstant_format. Qed.

(** 2024-02-29T12:34:56.789Z and a fraction of a millisecond. *)
Lemma format_parse_roundtrip_witness :
  let t := 1709210096789123456 in
  FormatWaitingInstant t = "2024-02-29T12:34:56.789Z" ∧ ParseAbsoluteInstant (FormatWaitingInstant t) = Some 1709210096789000000.
Proof. split; [by vm_compute|]. refine (format_parse_roundtrip 1709210096789123456 _). split; by vm_compute. Defined.

(** The wall clock of [t] in its zone shows the fields of [f]. *)
Record shows (local : instant) (f : instant_fields) : Prop :=
  { sh_date : Year local = if_year f ∧ Month local = if_month f ∧ Day local = if_day f;
    sh_time : Hour local = if_hour f ∧ Minute local = if_minute f ∧ Second local = if_second f;
    sh_fraction : Millisecond local = fraction_millis (if_fraction f) }.

(** An accepted date-time denotes exactly the wall clock it
    spells: in the zone of the text, the instant shows the year, month, day, hour, minute,
    second and milliseconds of the text (so 30 February or 24:00 are refused, never moved to
    another day, as a lenient reader of dates does). *)
Theorem accepted_instant_is_literal s t (Hp : ParseAbsoluteInstant s = Some t) :
  ∃ f, approvalInstantPattern (TrimSpace s) = Some f ∧ shows (t + offset_seconds (if_zone f) * second_ns) f.
Proof.
  unfold ParseAbsoluteInstant in Hp. destruct (approvalInstantPattern _) as [f|] eqn:Hf; [|done].
  cbn [mbind option_bind] in Hp. destruct (fields_valid f) eqn:Hv; [|done]. injection Hp as <-. exists f. split; [done|].
  destruct (pattern_groups _ _ Hf) as [Hy Hh Hmi Hs Hfr]. unfold fields_valid in Hv.
  rewrite negb_true_iff, !orb_false_iff, !Z.ltb_ge, waitingDaysInMonth_spec in Hv.
  destruct Hv as [[[[[[[? ?] ?] ?] ?] ?] ?] _]. unfold fields_instant. rewrite Z.sub_add.
  destruct (local_fields (if_year f) (if_month f) (if_day f) (if_hour f) (if_minute f) (if_second f)
              (fraction_millis (if_fraction f))) as (? & ? & ? & ? & ? & ? & ?); [split; lia|lia..|].
  by split.
Qed.

(** Half past nine in a zone behind UTC, on a leap day. *)
Lemma accepted_instant_is_literal_witness :
  let s := "2024-02-29T21:30:05.25-05:30" in let t := 1709262005250000000 in
  ParseAbsoluteInstant s = Some t ∧
  ∃ f, approvalInstantPattern (TrimSpace s) = Some f ∧ shows (t + offset_seconds (if_zone f) * second_ns) f.
Proof.
  split; [by vm_compute|]. apply (accepted_instant_is_literal "2024-02-29T21:30:05.25-05:30"). by vm_compute.
Defined.

Definition long_timeout : obj := [("decisionTimeoutMs", AF64 (f_of_Z 8000000000000000))].
Definition late_until : obj := [("until", AStr "9999-12-31T23:59:00-10:00")].
Definition now_2024 : instant := 1709210096789000000.

(** Two deadlines that the validation of an approval accepts
    and that the engine cannot read back: a relative timeout within the range of JavaScript
    dates, and a date-time of the last day of year 9999 in a zone behind UTC. The text stored
    for them has a year of five or more digits, which the reader of the same file refuses. *)
Theorem accepted_deadline_unreadable :
  (∃ c, ResolveApprovalWaitingConfig long_timeout now_2024 = Ok c ∧ RelativeTimeoutMS c = Some 8000000000000000 ∧
     ParseAbsoluteInstant (string_or_zero (obj_at (MaterializeApprovalWaitingMetadata
       [("kind", AStr "approval"); ("decisionTimeoutMs", AInt KInt64 8000000000000000)] now_2024) "deadlineAt")) = None) ∧
  (∃ c, ResolveApprovalWaitingConfig late_until now_2024 = Ok c ∧ DeadlineAt c = "10000-01-01T09:59:00.000Z" ∧
     ParseAbsoluteInstant (DeadlineAt c) = None).
Proof.
  split.
  - eexists. split; [vm_compute; reflexivity|]. split; by vm_compute.
  - eexists. split; [vm_compute; reflexivity|]. split; by vm_compute.
Qed.
