(* ===== verification/RetryPolicy.v ===== *)
(** Retry policies (domain/retrypolicy.go) and their evaluation on a serialized error
    (engine/retry.go, with the failure patterns of signature/signature.go). *)
From S2P Require Import Prelude GoStrings GoFloat GoAny Regex Redact RecoveryContract NodeConfig.
Local Open Scope string_scope.
Local Open Scope list_scope.

(** ** The policy *)

Definition RetryMaxAttempts : Z := 10.
Definition RetryMaxDelayMS : Z := 3600000.
Definition RetryMaxInitialDelayMS : Z := 600000.
Definition RetryMaxMatchers : nat := 20.
Definition RetryMaxMatcherChars : nat := 64.
Definition RetryDefaultDelayMS : Z := 1000.

Record RetryPolicy := mkRetryPolicy
  { MaxAttempts : Z; DelayMs : float64; MaxDelayMs : option float64; Backoff : string; Jitter : bool;
    RetryOn : list string; IgnoreOn : list string }.

Definition retryPolicyKeys : list string :=
  ["maxAttempts"; "delayMs"; "maxDelayMs"; "backoff"; "jitter"; "retryOn"; "ignoreOn"].

Definition mustFiniteNumber (value : any) : float64 := default (f_of_Z 0) (validationFiniteNumber value).

Section policy.
Context `{UnicodeTables}.

(** A bounded whole number of milliseconds, [None] when the field is absent. *)
Definition retry_delay (raw : obj) (field : string) (maximum : Z) : res string (option float64) :=
  match obj_get raw field with
  | None => Ok None
  | Some value =>
      guard boundedWholeNumber value 1 maximum
        else "config.retry." +:+ field +:+ " must be an integer between 1 and " +:+ Itoa maximum in
      Ok (Some (mustFiniteNumber value))
  end.

Fixpoint matcher_strings (field : string) (values : list any) : res string (list string) :=
  match values with
  | [] => Ok []
  | AStr item :: values => let? items := matcher_strings field values in Ok (item :: items)
  | _ :: _ => Err ("config.retry." +:+ field +:+ " must contain only strings")
  end.

Fixpoint check_matchers (field : string) (items seen : list string) : option string :=
  match items with
  | [] => None
  | item :: items =>
      if String.eqb item "" || negb (String.eqb item (TrimSpace item)) || (RetryMaxMatcherChars <? RuneCount item)%nat then
        Some ("config.retry." +:+ field +:+ " entries must be 1.." +:+ nat_text RetryMaxMatcherChars +:+
              " trimmed characters")
      else if in_list seen item then Some ("config.retry." +:+ field +:+ " entries must be unique")
      else check_matchers field items (item :: seen)
  end.

Definition resolveRetryMatchers (field : string) (value : any) : res string (list string) :=
  match value with
  | ANil => Ok []
  | _ =>
      let? items := match value with
        | AStrs l => Ok l
        | AArr l => matcher_strings field l
        | _ => Err ("config.retry." +:+ field +:+ " must be an array")
        end in
      guard (length items <=? RetryMaxMatchers)%nat
        else "config.retry." +:+ field +:+ " must contain at most " +:+ nat_text RetryMaxMatchers +:+ " entries" in
      match check_matchers field items [] with Some e => Err e | None => Ok items end
  end.

Definition ResolveRetryPolicy (value : any) : res string RetryPolicy :=
  match as_obj value with
  | None => Err "config.retry must be an object"
  | Some [] => Err "config.retry.maxAttempts is required"
  | Some raw =>
      match List.find (λ key, negb (in_list retryPolicyKeys key)) (keys raw) with
      | Some key => Err ("config.retry contains unsupported field " +:+ Quote key)
      | None =>
          let attempts := obj_at raw "maxAttempts" in
          guard has_key raw "maxAttempts" && boundedWholeNumber attempts 1 RetryMaxAttempts
            else "config.retry.maxAttempts must be an integer between 1 and " +:+ Itoa RetryMaxAttempts in
          let? delay := retry_delay raw "delayMs" RetryMaxInitialDelayMS in
          let? maximum := retry_delay raw "maxDelayMs" RetryMaxDelayMS in
          let? backoff := match obj_get raw "backoff" with
            | None => Ok ""
            | Some value =>
                guard in_list ["fixed"; "exponential"] (string_or_zero value)
                  else "config.retry.backoff must be fixed or exponential" in
                Ok (string_or_zero value)
            end in
          let? jitter := match obj_get raw "jitter" with
            | None => Ok false
            | Some (ABool value) => Ok value
            | Some _ => Err "config.retry.jitter must be a boolean"
            end in
          let? retryOn := resolveRetryMatchers "retryOn" (obj_at raw "retryOn") in
          let? ignoreOn := resolveRetryMatchers "ignoreOn" (obj_at raw "ignoreOn") in
          Ok (mkRetryPolicy (int_of_float (mustFiniteNumber attempts)) (default (f_of_Z RetryDefaultDelayMS) delay)
                maximum backoff jitter retryOn ignoreOn)
      end
  end.

Definition parseRetryPolicy (config : obj) : option RetryPolicy :=
  match obj_get config "retry" with
  | None => None
  | Some raw => match ResolveRetryPolicy raw with Ok policy => Some policy | Err _ => None end
  end.
End policy.

(** ** Failure wording (signature/signature.go) *)

Definition word_byte (c : ascii) : bool := is_alnum c || Ascii.eqb c "_".
Definition any_text : re := Star (Cls (λ _, true)).
Definition ws : re := Cls (one_of (of_bytes [chr 9; chr 10; chr 12; chr 13; chr 32])).
(** Words separated by white space, in any case. *)
Definition spaced (l : list string) : re :=
  match l with
  | [] => Eps
  | w :: l => Cat (ci w) (fold_right (λ w r, Cat (Plus ws) (Cat (ci w) r)) Eps l)
  end.
(** [\b] before a word byte, and after one. *)
Definition word_start : re := Alt Eps (Cat any_text (Cls (λ c, negb (word_byte c)))).
Definition word_end : re := Alt Eps (Cat (Cls (λ c, negb (word_byte c))) any_text).
Definition whole_words (l : list re) : re := Cat word_start (Cat (any_of l) word_end).
Definition anywhere (r : re) : re := Cat any_text (Cat r any_text).

Definition timeoutFailurePattern : re :=
  whole_words [ci "timeout"; spaced ["timed"; "out"]; spaced ["deadline"; "exceeded"]; ci "etimedout";
               Cat (ci "und_err_") (any_of [ci "connect_timeout"; ci "headers_timeout"; ci "body_timeout"])].

(** The folding of [s] contains U+017F, which is not a word character: the boundary
    before it needs a word byte. *)
Definition server_misbehaving : re :=
  let rest := Cat (spaced ["erver"; "misbehaving"]) word_end in
  Alt (Cat word_start (Cat (Cls (one_of "sS")) rest))
      (Cat (Cat any_text (Cls word_byte)) (Cat (Lit_bytes [chr 197; chr 191]) rest)).
Definition dnsFailurePattern : re :=
  any_of [whole_words [spaced ["no"; "such"; "host"]]; server_misbehaving;
          anywhere (spaced ["did"; "not"; "resolve"; "to"; "any"; "address"]);
          whole_words [ci "enotfound"; ci "eai_again"]; anywhere (ci "getaddrinfo");
          anywhere (spaced ["name"; "resolution"])].
Definition connectionFailurePattern : re :=
  any_of [whole_words
            [ci "econnreset"; ci "econnrefused"; ci "econnaborted"; ci "enetunreach"; ci "ehostunreach"; ci "enetdown";
             ci "epipe"; ci "und_err_socket"; spaced ["dial"; "tcp"];
             Cat (ci "connection") (Cat (Plus ws) (any_of [ci "refused"; ci "reset"])); spaced ["broken"; "pipe"];
             spaced ["no"; "route"; "to"; "host"]; spaced ["network"; "is"; "unreachable"]];
          anywhere (spaced ["fetch"; "failed"]); Cat any_text (Cat (Lit ":") (Cat (Plus ws) (ci "eof")))].

Definition IsTimeoutFailure (text : string) : bool := MatchString timeoutFailurePattern text.
Definition IsNetworkFailure (text : string) : bool :=
  MatchString dnsFailurePattern text || MatchString connectionFailurePattern text.

(** ** The verdict (engine/retry.go) *)

Section verdict.
Context (lower : string → string).

(** [add]: a label that is empty or already there is dropped. *)
Definition add_label (label : string) (labels : list string) : list string :=
  if String.eqb label "" || in_list labels label then labels else labels ++ [label].

Definition status_code (serr : obj) : Z := match obj_at serr "statusCode" with AInt KInt status => status | _ => 0%Z end.

Definition timeout_label (serr : obj) : bool :=
  let message := string_or_zero (obj_at serr "message") in
  let code := string_or_zero (obj_at serr "code") in
  let lowered := ToLower lower message in
  Contains lowered "timeout" || Contains lowered "timed out" || IsTimeoutFailure message || IsTimeoutFailure code ||
  String.eqb code "NODE_TIMEOUT".
Definition network_label (serr : obj) : bool :=
  let message := string_or_zero (obj_at serr "message") in
  ((status_code serr =? 0)%Z && (Contains (ToLower lower message) "network" || IsNetworkFailure message)) ||
  IsNetworkFailure (string_or_zero (obj_at serr "code")).

Definition classifyError (serr : obj) : list string :=
  let status := status_code serr in
  let labels := add_label (string_or_zero (obj_at serr "name")) [] in
  let labels := add_label (string_or_zero (obj_at serr "code")) labels in
  let labels := if (status =? 0)%Z then labels
                else add_label (Itoa (Z.quot status 100) +:+ "xx") (add_label (Itoa status) labels) in
  let labels := if timeout_label serr then add_label "timeout" labels else labels in
  if network_label serr then add_label "network" labels else labels.

(** The digit of a pattern [dxx]. *)
Definition httpStatusPattern (pattern : string) : option ascii :=
  match bytes pattern with
  | [d; a; b] => if is_digit d && Ascii.eqb a "x" && Ascii.eqb b "x" then Some d else None
  | _ => None
  end.
Definition matchesPattern (label pattern : string) : bool :=
  String.eqb label pattern ||
  match httpStatusPattern pattern with
  | Some d => HasPrefix label (of_bytes [d]) && (len label =? 3)%nat
  | None => false
  end.
Definition matchesAny (labels patterns : list string) : bool :=
  existsb (λ pattern, existsb (λ label, matchesPattern label pattern) labels) patterns.

Definition shouldRetry (serr : obj) (policy : option RetryPolicy) : bool :=
  match policy with
  | None => false
  | Some policy =>
      if bool_or_zero (obj_at serr "writeSide") || String.eqb (string_or_zero (obj_at serr "name")) "ToolApprovalError"
      then false
      else
        let labels := classifyError serr in
        if matchesAny labels (IgnoreOn policy) then false
        else match RetryOn policy with [] => true | retryOn => matchesAny labels retryOn end
  end.
End verdict.

(** [math.Pow(2, n)] for an integer [n]. *)
Definition Pow2 (n : Z) : float64 := binary_normalize prec emax 1 n false.

(** [rand] is one sample of the jitter. *)
Definition computeRetryDelay (attempt : Z) (policy : option RetryPolicy) (rand : float64) : float64 :=
  match policy with
  | None => f_of_Z 0
  | Some policy =>
      let raw := if String.eqb (Backoff policy) "exponential" then f_mul (DelayMs policy) (Pow2 (attempt - 1))
                 else DelayMs policy in
      let capped := match MaxDelayMs policy with Some maximum => f_min raw maximum | None => raw end in
      let capped := f_min capped (f_of_Z RetryMaxDelayMS) in
      if Jitter policy then
        let min := Floor (f_mul capped (f_of_decimal false 5 (-1))) in
        Floor (f_add min (f_mul rand (f_sub capped min)))
      else capped
  end.
(** The ceiling and the verdict of [RetryOrFail] (engine/terminalfailure.go). *)
Definition max_attempts (policy : option RetryPolicy) : Z :=
  match policy with Some policy => if (0 <? MaxAttempts policy)%Z then MaxAttempts policy else 1 | None => 1 end%Z.
