(* ===== verification/RecoveryAutonomy.v ===== *)
(** The capability ladder (domain/recoveryautonomy.go): the profile a contract gives
    to one failure, and the strictest profile of a cohort. *)
From S2P Require Import Prelude GoStrings GoAny Inputs RecoveryContract.
Local Open Scope string_scope.
Local Open Scope list_scope.

Definition RecoveryAutonomyCapabilities : list string :=
  ["observe"; "recommend"; "validate"; "apply_with_approval"; "autonomous_apply"].
Definition RecoveryAutonomyCapabilityLevel (capability : string) : Z :=
  if eqs capability "recommend" then 1 else if eqs capability "validate" then 2
  else if eqs capability "apply_with_approval" then 3 else if eqs capability "autonomous_apply" then 4 else 0.

Record RecoveryAutonomyFactor := mkFactor
  { Capability : string; RequiredLevel : Z; Enabled : bool }.
Record RecoveryAutonomyCapabilitySet := mkCapabilities
  { Observe : bool; Recommend : bool; Validate : bool; ApplyWithApproval : bool; AutonomousApply : bool }.
Record RecoveryAutonomyProfile := mkProfile
  { Level : option Z; Source : string; DetectorIDs : list string; UnavailableReason : option string;
    Capabilities : RecoveryAutonomyCapabilitySet; Factors : list RecoveryAutonomyFactor }.
Record RecoveryFailureClass := mkFailureClass { Kind : string; Failure : string; DetectorID : string }.

Definition enabled (level : option Z) (floor : Z) : bool :=
  match level with Some l => (floor <=? l)%Z | None => false end.
Definition capability_set (level : option Z) : RecoveryAutonomyCapabilitySet :=
  mkCapabilities (enabled level 0) (enabled level 1) (enabled level 2) (enabled level 3) (enabled level 4).

Definition autonomyProfile (level : option Z) (source : string) (detectorIds : list string)
    (unavailableReason : string) : RecoveryAutonomyProfile :=
  mkProfile level source detectorIds
    (if eqs unavailableReason "" then None else Some unavailableReason)
    (capability_set level)
    (map (λ capability, let floor := RecoveryAutonomyCapabilityLevel capability in
                        mkFactor capability floor (enabled level floor)) RecoveryAutonomyCapabilities).

(** [contract.Failure.Technical.Autonomy[key]]. *)
Fixpoint level_of (m : list (string * Z)) (key : string) : option Z :=
  match m with
  | [] => None
  | (k, l) :: m' => if eqs k key then Some l else level_of m' key
  end.

(** The first detector with the id decides. *)
Fixpoint detector_profile (ceiling : Z) (ds : list RecoverySemanticDetector) (f : RecoveryFailureClass)
    (semanticIds : list string) : RecoveryAutonomyProfile :=
  match ds with
  | [] => autonomyProfile None "unavailable" semanticIds "failure_policy_missing"
  | d :: ds' =>
      if negb (eqs (det_ID d) (DetectorID f)) then detector_profile ceiling ds' f semanticIds
      else match det_AutonomyLevel d with
           | Some level => autonomyProfile (Some level) "failure_override" [det_ID d] ""
           | None => autonomyProfile (Some ceiling) "workflow_default" [det_ID d] ""
           end
  end.

Definition ResolveRecoveryAutonomyProfile (contract : option RecoveryContract)
    (failureClass : RecoveryFailureClass) : RecoveryAutonomyProfile :=
  let semanticIds := if eqs (Kind failureClass) "semantic" then [DetectorID failureClass] else [] in
  match contract with
  | None => autonomyProfile None "unavailable" semanticIds "contract_missing"
  | Some c =>
      if eqs (Kind failureClass) "technical" then
        let key := if eqs (Failure failureClass) "stalled_node" then "stalledNode" else "terminalNodeFailure" in
        match level_of (Autonomy (Technical c)) key with
        | Some override => autonomyProfile (Some override) "failure_override" [] ""
        | None => autonomyProfile (Some (AutonomyLevel c)) "workflow_default" [] ""
        end
      else if negb (eqs (Version c) "2") then
        autonomyProfile None "unavailable" semanticIds "failure_policy_missing"
      else detector_profile (AutonomyLevel c) (Detectors (Semantic c)) failureClass semanticIds
  end.

(** The ids of every profile, each at its first occurrence. *)
Definition cohort_ids (profiles : list RecoveryAutonomyProfile) : list string :=
  fold_left (λ ids id, if bool_decide (id ∈ ids) then ids else ids ++ [id])
    (flat_map DetectorIDs profiles) [].

(** The first profile without a level, with the reason it gives. *)
Fixpoint first_unavailable (profiles : list RecoveryAutonomyProfile) : option string :=
  match profiles with
  | [] => None
  | p :: ps =>
      match Level p with
      | Some _ => first_unavailable ps
      | None =>
          let reason := default "failure_policy_missing" (UnavailableReason p) in
          Some (if eqs reason "" then "failure_policy_missing" else reason)
      end
  end.

Definition level_or_0 (p : RecoveryAutonomyProfile) : Z := default 0%Z (Level p).

Definition CombineRecoveryAutonomyProfiles (profiles : list RecoveryAutonomyProfile)
  : RecoveryAutonomyProfile :=
  match profiles with
  | [] => autonomyProfile None "unavailable" [] "failure_policy_missing"
  | p :: ps =>
      let detectorIds := cohort_ids profiles in
      match first_unavailable profiles with
      | Some reason => autonomyProfile None "unavailable" detectorIds reason
      | None =>
          let minimum := fold_left (λ m q, if (level_or_0 q <? m)%Z then level_or_0 q else m) ps (level_or_0 p) in
          let source := match ps with [] => Source p | _ => "strictest_failure" end in
          autonomyProfile (Some minimum) source detectorIds ""
      end
  end.
