(* ===== verification/RecoveryPolicyFacts.v ===== *)
(** What an accepted recovery contract guarantees, and that no resolved or combined
    autonomy profile grants more than the contract does. *)
From S2P Require Import Prelude GoStrings GoAny Inputs RecoveryContract RecoveryAutonomy.
Local Open Scope string_scope.
Local Open Scope list_scope.

(** What autonomous production mutation requires. *)
Record Level4Ready (c : RecoveryContract) : Prop := {
  l4_mutation : ProductionMutation c = "autonomous_level_4";
  l4_evidence : SupportsAutonomousRecovery (MinimumEvidenceLevel c) = true;
  l4_receipt : "effect_receipt" ∈ EvidenceRequired c;
  l4_bounds : ∃ n, NarrowAutonomy c = Some n ∧ RollbackRequired n = true ∧
    (∀ r, r ∈ AllowedRepairClasses n → r ∈ RepairsAllowed c) ∧
    (1 <= MinimumPriorVerifiedRecoveries n <= 1000)%Z ∧ (1 <= MaxAffectedExecutions n <= 100)%Z;
  l4_effects : ∀ e, e ∈ Effects c → Idempotency e ≠ "unavailable" ∧ Receipt e ≠ "manual" }.

(** What every accepted contract satisfies. *)
Record ContractSafe (c : RecoveryContract) : Prop := {
  cs_level : (0 <= AutonomyLevel c <= 4)%Z;
  cs_technical : ∀ k l, (k, l) ∈ Autonomy (Technical c) → (0 <= l <= AutonomyLevel c)%Z;
  cs_semantic : Version c = "2" → ∀ d l, d ∈ Detectors (Semantic c) →
    det_AutonomyLevel d = Some l → (0 <= l <= AutonomyLevel c)%Z;
  cs_v1 : Version c = "1" → Mode (Semantic c) = "disabled" ∧ Detectors (Semantic c) = [];
  cs_unique : Version c = "2" → NoDup (map det_ID (Detectors (Semantic c)));
  cs_retained : ∀ k, k ∈ requiredBaseEvidence → k ∈ EvidenceRequired c;
  cs_approval : ProductionMutation c = "required" ∨ AutonomyLevel c = 4%Z;
  cs_level4 : AutonomyLevel c = 4%Z → Level4Ready c }.

Section facts.
Context `{UnicodeTables}.

Lemma eqs_true a b : eqs a b = true ↔ a = b.
Proof. apply String.eqb_eq. Qed.
Lemma eqs_refl a : eqs a a = true.
Proof. apply String.eqb_refl. Qed.
Lemma not_isAutonomyLevel l : negb (isAutonomyLevel l) = false → (0 <= l <= 4)%Z.
Proof. unfold isAutonomyLevel, RecoveryAutonomyMin, RecoveryAutonomyMax. intros. bool_split. lia. Qed.
Lemma not_outside lo hi n : outside lo hi n = false → (lo <= n <= hi)%Z.
Proof. unfold outside. intros. bool_split. lia. Qed.
Lemma negb_in_list l s : negb (in_list l s) = false → s ∈ l.
Proof. intros Hn%negb_false_iff. by apply in_list_spec. Qed.
Lemma negb_eqs a b : negb (eqs a b) = false → a = b.
Proof. intros Hn%negb_false_iff. by apply eqs_true. Qed.

Lemma level4_ready c :
  validateRecoveryAutonomy c = [] → validateRecoveryValidationLevel c = [] →
  AutonomyLevel c = 4%Z → Level4Ready c.
Proof.
  unfold validateRecoveryAutonomy, validateRecoveryValidationLevel. intros Ha Hv H4.
  rewrite H4, Z.eqb_refl in Ha. unfold narrow_problems, level4_effect_problems in Ha.
  destruct (NarrowAutonomy c) as [n|] eqn:Hn; autorewrite with report in Ha, Hv; [|naive_solver].
  destruct Ha as (_ & Hs & Hm & (_ & _ & Hr & Hp & Hx & Hb) & He). destruct Hv as (_ & _ & Hrec).
  apply negb_false_iff in Hs. rewrite Hs in Hrec. split.
  - by apply negb_eqs.
  - done.
  - by apply negb_in_list.
  - apply not_outside in Hp, Hx. exists n.
    split; [done|]. split; [by apply negb_false_iff|]. split; [|by split].
    intros r [i Hi]%list_elem_of_lookup. apply Hr in Hi. apply push_if_nil in Hi. by apply negb_in_list.
  - intros e [i Hi]%list_elem_of_lookup. apply He in Hi. autorewrite with report in Hi.
    destruct Hi as [H1 H2]. split; intros Heq; [rewrite Heq in H1|rewrite Heq in H2]; done.
Qed.

(** The autonomy of one detector within the ceiling. *)
Lemma detector_level ceiling i d l :
  detector_problems ceiling i d = [] → det_AutonomyLevel d = Some l → (0 <= l <= ceiling)%Z.
Proof.
  unfold detector_problems. intros Hd Hl. rewrite Hl in Hd. rewrite !app_nil in Hd.
  destruct Hd as (_ & _ & _ & _ & _ & Hd). destruct (negb (isAutonomyLevel l)) eqn:Hn; [done|].
  apply not_isAutonomyLevel in Hn. apply push_if_nil in Hd. lia.
Qed.

Lemma ValidateRecoveryContract_sound c : ValidateRecoveryContract (Some c) = [] → ContractSafe c.
Proof.
  unfold ValidateRecoveryContract. destruct (_ && _) eqn:Hv; [done|]. rewrite !app_nil.
  intros (Hf & He & _ & _ & Hvl & _ & Ha & _).
  unfold validateRecoveryFailure in Hf. rewrite !app_nil in Hf. destruct Hf as (_ & Hclass & Hmode).
  pose proof Ha as Ha'. unfold validateRecoveryAutonomy in Ha'. rewrite app_nil in Ha'.
  destruct Ha' as [Hlevel Happ]. apply push_if_nil, not_isAutonomyLevel in Hlevel.
  unfold validateRecoveryEvidence in He. rewrite !app_nil in He. destruct He as (_ & _ & _ & Hbase).
  split; [done|..].
  - intros k l Hkl. rewrite flat_map_nil in Hclass. specialize (Hclass (k, l)).
    unfold failure_class_problems, by_key in Hclass. rewrite elem_of_stable_sort in Hclass.
    specialize (Hclass Hkl). cbv beta iota zeta in Hclass.
    destruct (negb (eqs k "terminalNodeFailure") && negb (eqs k "stalledNode")); [done|].
    destruct (negb (isAutonomyLevel l)) eqn:Hl; [done|]. apply not_isAutonomyLevel in Hl.
    apply push_if_nil in Hclass. lia.
  - intros H2 d l [i Hi]%list_elem_of_lookup Hl. rewrite H2 in Hmode.
    change (eqs "2" "1") with false in Hmode. change (eqs "2" "2") with true in Hmode. cbn iota in Hmode.
    unfold validateSemanticV2 in Hmode. rewrite !app_nil, imap_concat_nil in Hmode.
    destruct Hmode as (_ & _ & Hd & _). eapply detector_level; [by apply (Hd i)|done].
  - intros H1. rewrite H1 in Hmode. change (eqs "1" "1") with true in Hmode. cbn iota in Hmode.
    rewrite app_nil, !push_if_nil in Hmode. destruct Hmode as [Hmode Hdet]. apply negb_eqs in Hmode.
    split; [done|]. apply orb_false_iff in Hdet as [Hdet _]. unfold zlen in Hdet.
    apply Z.ltb_ge in Hdet.
    destruct (Detectors (Semantic c)); [done|]. cbn [length] in Hdet. lia.
  - intros H2. rewrite H2 in Hmode.
    change (eqs "2" "1") with false in Hmode. change (eqs "2" "2") with true in Hmode. cbn iota in Hmode.
    unfold validateSemanticV2 in Hmode. rewrite !app_nil, !push_if_nil in Hmode.
    destruct Hmode as (_ & _ & _ & Hdup & _). unfold hasDuplicateStrings, dup_strings in Hdup.
    apply negb_false_iff in Hdup. by apply bool_decide_eq_true in Hdup.
  - intros k Hk. rewrite flat_map_nil in Hbase. specialize (Hbase k Hk). apply push_if_nil in Hbase.
    by apply negb_in_list.
  - destruct (Z.eqb_spec (AutonomyLevel c) 4); [by right|left].
    rewrite app_nil, !push_if_nil in Happ. destruct Happ as [Happ _]. by apply negb_eqs.
  - by apply level4_ready.
Qed.

(** ** Profiles *)

Lemma capability_set_enabled level floor :
  enabled level floor = true ↔ ∃ l, level = Some l ∧ (floor <= l)%Z.
Proof.
  destruct level as [l|]; cbn; [|naive_solver]. rewrite Z.leb_le. naive_solver.
Qed.

Lemma level_of_elem m k l : level_of m k = Some l → (k, l) ∈ m.
Proof.
  induction m as [|[k' l'] m IH]; cbn; [done|].
  destruct (eqs k' k) eqn:Hk; [apply eqs_true in Hk as ->; intros [= ->]; set_solver|]. set_solver.
Qed.

Lemma detector_profile_level ceiling ds f ids l :
  Level (detector_profile ceiling ds f ids) = Some l →
  l = ceiling ∨ ∃ d, d ∈ ds ∧ det_AutonomyLevel d = Some l.
Proof.
  induction ds as [|d ds IH]; cbn; [done|]. destruct (negb _); [naive_solver set_solver|].
  destruct (det_AutonomyLevel d) as [l'|] eqn:Hd; intros [= <-]; [right; exists d; set_solver|by left].
Qed.

Lemma resolve_level c f l :
  ContractSafe c → (Version c = "1" ∨ Version c = "2") →
  Level (ResolveRecoveryAutonomyProfile (Some c) f) = Some l → (l <= AutonomyLevel c)%Z.
Proof.
  intros Hc Hver. unfold ResolveRecoveryAutonomyProfile. destruct (eqs (Kind f) "technical").
  - destruct (level_of _ _) as [o|] eqn:Ho; intros [= <-]; [|done].
    apply level_of_elem in Ho. apply (cs_technical _ Hc) in Ho. lia.
  - destruct (negb (eqs (Version c) "2")) eqn:Hv; [done|]. apply negb_eqs in Hv.
    intros [->|(d & Hd & Hl)]%detector_profile_level; [done|].
    pose proof (cs_semantic _ Hc Hv _ _ Hd Hl). lia.
Qed.

Lemma first_unavailable_None ps :
  first_unavailable ps = None ↔ ∀ p, p ∈ ps → is_Some (Level p).
Proof.
  induction ps as [|p ps IH]; cbn; [set_solver|].
  destruct (Level p) as [l|] eqn:Hl.
  - rewrite IH. split; [intros Hall q [->|?]%elem_of_cons; eauto|set_solver].
  - split; [done|]. intros Hall. destruct (Hall p ltac:(set_solver)). congruence.
Qed.

Lemma minimum_spec ps m :
  let r := fold_left (λ m q, if (level_or_0 q <? m)%Z then level_or_0 q else m) ps m in
  (r <= m)%Z ∧ (∀ q, q ∈ ps → (r <= level_or_0 q)%Z) ∧ (r = m ∨ ∃ q, q ∈ ps ∧ r = level_or_0 q).
Proof.
  revert m. induction ps as [|p ps IH]; intros m; cbn; [split_and!; [lia|set_solver|by left]|].
  destruct (IH (if (level_or_0 p <? m)%Z then level_or_0 p else m)) as (Hle & Hall & Hin).
  destruct (Z.ltb_spec (level_or_0 p) m); split_and!; try lia.
  - intros q [->|?]%elem_of_cons; auto.
  - right. destruct Hin as [->|(q & ? & ->)]; [exists p|exists q]; set_solver.
  - intros q [->|?]%elem_of_cons; [lia|auto].
  - destruct Hin as [->|(q & ? & ->)]; [by left|right; exists q; set_solver].
Qed.

(** The combined level is absent as soon as one is, otherwise it is the least. *)
Lemma combine_level ps :
  (Level (CombineRecoveryAutonomyProfiles ps) = None ↔ ps = [] ∨ ∃ p, p ∈ ps ∧ Level p = None) ∧
  ∀ m, Level (CombineRecoveryAutonomyProfiles ps) = Some m →
    (∃ p, p ∈ ps ∧ Level p = Some m) ∧ ∀ p l, p ∈ ps → Level p = Some l → (m <= l)%Z.
Proof.
  destruct ps as [|p ps]; cbn [CombineRecoveryAutonomyProfiles].
  { split; [|done]. split; [by left|done]. }
  destruct (first_unavailable (p :: ps)) as [reason|] eqn:Hu; cbn [Level autonomyProfile].
  - split; [|done]. split; [|done]. intros _. right.
    destruct (decide (Exists (λ q, Level q = None) (p :: ps))) as [(q & ? & ?)%Exists_exists|Hno]; [by exists q|].
    exfalso. assert (first_unavailable (p :: ps) = None); [|congruence].
    apply first_unavailable_None. intros q Hq. destruct (Level q) eqn:Hl; [by eexists|].
    destruct Hno. apply Exists_exists. by exists q.
  - rewrite first_unavailable_None in Hu.
    assert (∀ q l, q ∈ p :: ps → Level q = Some l → level_or_0 q = l) as Hor.
    { intros q l _ Hl. unfold level_or_0. by rewrite Hl. }
    destruct (minimum_spec ps (level_or_0 p)) as (Hle & Hall & Hin).
    split; [split; [done|]|].
    + intros [|(q & Hq & Hl)]; [done|]. destruct (Hu q Hq). congruence.
    + intros m [= <-]. split.
      * destruct Hin as [->|(q & Hq & ->)]; [exists p|exists q]; (split; [set_solver|]).
        -- destruct (Hu p ltac:(set_solver)) as [l Hl]. unfold level_or_0. by rewrite Hl.
        -- destruct (Hu q ltac:(set_solver)) as [l Hl]. unfold level_or_0. by rewrite Hl.
      * intros q l Hq Hl. rewrite <-(Hor q l Hq Hl). apply elem_of_cons in Hq as [->|Hq]; auto.
Qed.

Lemma combine_capabilities ps :
  Capabilities (CombineRecoveryAutonomyProfiles ps) = capability_set (Level (CombineRecoveryAutonomyProfiles ps)).
Proof.
  destruct ps as [|p ps]; [done|]. unfold CombineRecoveryAutonomyProfiles.
  by destruct (first_unavailable (p :: ps)).
Qed.

(** An accepted contract bounds every decision: for any cohort of
    failures resolved through it and combined, an empty cohort or a failure without a policy
    leaves no capability enabled, no level exceeds the contract's, and autonomous application
    is enabled only under a level-4 contract with its evidence, rollback, blast-radius,
    idempotency and receipt requirements. *)
Theorem autonomy_within_contract (c : RecoveryContract) (failures : list RecoveryFailureClass) :
  ValidateRecoveryContract (Some c) = [] →
  let resolved := map (ResolveRecoveryAutonomyProfile (Some c)) failures in
  let profile := CombineRecoveryAutonomyProfiles resolved in
  ContractSafe c ∧
  (Level profile = None ↔ failures = [] ∨ ∃ f, f ∈ failures ∧ Level (ResolveRecoveryAutonomyProfile (Some c) f) = None) ∧
  (Level profile = None → Capabilities profile = mkCapabilities false false false false false) ∧
  (∀ l, Level profile = Some l → (l <= AutonomyLevel c)%Z) ∧
  (AutonomousApply (Capabilities profile) = true → Level4Ready c).
Proof.
  intros Hvalid resolved profile. pose proof (ValidateRecoveryContract_sound c Hvalid) as Hc.
  assert (Version c = "1" ∨ Version c = "2") as Hver.
  { unfold ValidateRecoveryContract in Hvalid. destruct (eqs (Version c) "1") eqn:H1; [left; by apply eqs_true|].
    destruct (eqs (Version c) "2") eqn:H2; [right; by apply eqs_true|done]. }
  destruct (combine_level resolved) as [Hnone Hsome]. pose proof (combine_capabilities resolved) as Hcap.
  assert (∀ l, Level profile = Some l → (l <= AutonomyLevel c)%Z) as Hle.
  { intros l Hl. destruct (Hsome l Hl) as [(p & (f & -> & _)%list_elem_of_fmap & Hp) _].
    by eapply resolve_level. }
  split_and!; [done| |intros Hl; unfold profile; rewrite Hcap; fold profile; by rewrite Hl|done|].
  - unfold profile. rewrite Hnone. unfold resolved. split.
    + intros [Hn|(p & (f & -> & Hf)%list_elem_of_fmap & Hp)]; [left; by destruct failures|right; by exists f].
    + intros [->|(f & Hf & Hl)]; [by left|]. right. eexists. split; [|exact Hl]. by apply list_elem_of_fmap_2.
  - unfold profile. rewrite Hcap. intros (l & Hl & H4)%capability_set_enabled.
    apply (cs_level4 _ Hc). specialize (Hle l Hl). pose proof (cs_level _ Hc). lia.
Qed.
End facts.

Definition all_printable : UnicodeTables := {| is_print := λ _, true |}.
Definition demo_contract : RecoveryContract :=
  mkContract "2" (mkTechnical true true [("stalledNode", 2%Z)])
    (mkSemantic "deterministic"
       [mkDetector "d" "n" "expression" "true" None "quarantine" "m" (Some 3%Z)]
       [mkFixture "f1" "n" ANil [] "pass"; mkFixture "f2" "n" ANil [] "violation"])
    ["failure_snapshot"; "audit_trail"; "terminal_outcome"; "validation_receipt"; "effect_receipt"]
    [mkEffect "n" "notification" "required" "runtime"] ["retry"] "live_canary" "autonomous_level_4"
    "recovery.write" 4 (Some (mkNarrow ["retry"] 3 5 true)) "generation_bound_terminal_success" 7.

Lemma autonomy_within_contract_witness :
  let profile := CombineRecoveryAutonomyProfiles
    (map (ResolveRecoveryAutonomyProfile (Some demo_contract))
       [mkFailureClass "technical" "stalled_node" ""; mkFailureClass "semantic" "" "d"]) in
  Level profile = Some 2%Z ∧ (2 <= AutonomyLevel demo_contract)%Z.
Proof.
  split; [vm_compute; reflexivity|].
  destruct (@autonomy_within_contract all_printable demo_contract
    [mkFailureClass "technical" "stalled_node" ""; mkFailureClass "semantic" "" "d"])
    as (_ & _ & _ & Hle & _); [vm_compute; reflexivity|]. apply Hle. vm_compute. reflexivity.
Defined.
