(* ===== verification/RecoveryCase.v ===== *)
(** The lifecycles of recovery: the semantic case ladder with its transition
    receipts (domain/recoverycase.go) and the ownership item with its
    compare-and-set table (domain/recoveryitem.go); and what the receipts of a reachable case
    prove. *)
From Stdlib Require Import Sorted.
From S2P Require Import Prelude GoStrings.
Local Open Scope string_scope.
Local Open Scope list_scope.

(** ** Cases *)

Definition RecoveryCaseStates : list string :=
  ["detected"; "contained"; "diagnosed"; "candidates_ready"; "validating"; "awaiting_approval";
   "publishing"; "monitoring"; "verified_recovered"; "recurred"; "accepted_loss"; "abandoned"].
Definition RecoveryCaseActorKinds : list string := ["system"; "user"; "agent"].
Definition RecoveryCaseTerminalStates : list string :=
  ["verified_recovered"; "recurred"; "accepted_loss"; "abandoned"].

Definition legalRecoveryCaseTransitions : list (string * list string) :=
  [("detected", ["contained"; "diagnosed"; "accepted_loss"; "abandoned"]);
   ("contained", ["diagnosed"; "accepted_loss"; "abandoned"]);
   ("diagnosed", ["candidates_ready"; "accepted_loss"; "abandoned"]);
   ("candidates_ready", ["validating"; "accepted_loss"; "abandoned"]);
   ("validating", ["candidates_ready"; "awaiting_approval"; "accepted_loss"; "abandoned"]);
   ("awaiting_approval", ["candidates_ready"; "publishing"; "accepted_loss"; "abandoned"]);
   ("publishing", ["monitoring"; "abandoned"]);
   ("monitoring", ["verified_recovered"; "recurred"; "accepted_loss"; "abandoned"]);
   ("verified_recovered", []); ("recurred", []); ("accepted_loss", []); ("abandoned", [])].

(** [m[key]] with its presence, on a map literal. *)
Fixpoint table_get {A} (m : list (string * A)) (key : string) : option A :=
  match m with
  | [] => None
  | (k, v) :: m' => if String.eqb k key then Some v else table_get m' key
  end.

Definition IsLegalRecoveryCaseTransition (from to : string) : bool :=
  in_list (default [] (table_get legalRecoveryCaseTransitions from)) to.
Definition IsRecoveryCaseState (state : string) : bool :=
  match table_get legalRecoveryCaseTransitions state with Some _ => true | None => false end.

Definition RecoveryCaseEvidenceKinds : list string :=
  ["run"; "run_node"; "run_event"; "semantic_detector"; "dead_letter"; "validation"; "publication";
   "effect"; "audit"; "operator_decision"; "case_artifact"].

Record RecoveryCaseEvidenceRef := mkEvidence { ev_Kind : string; ev_ID : string; Sha256 : string }.
Record RecoveryCaseTransitionReceipt := mkReceipt
  { CaseID : string; ReceiptFrom : string; ReceiptTo : string; ActorKind : string; ActorID : string;
    Evidence : list RecoveryCaseEvidenceRef; Reason : string }.

Definition isHex64 (value : string) : bool :=
  (len value =? 64)%nat &&
  forallb (λ r, ((48 <=? r)%N && (r <=? 57)%N) || ((97 <=? r)%N && (r <=? 102)%N)) (runes value).

Definition evidence_problems (entry : RecoveryCaseEvidenceRef) : list string :=
  push_if (negb (in_list RecoveryCaseEvidenceKinds (ev_Kind entry)))
    ("unknown evidence kind: " +:+ ev_Kind entry) ++
  push_if (String.eqb (ev_ID entry) "" || (500 <? len (ev_ID entry))%nat) "evidence id must be 1..500 chars" ++
  push_if (negb (String.eqb (Sha256 entry) "") && negb (isHex64 (Sha256 entry)))
    "evidence sha256 must be 64 lowercase hex chars".

Definition ValidateRecoveryCaseTransitionReceipt (receipt : RecoveryCaseTransitionReceipt) : list string :=
  (if negb (IsRecoveryCaseState (ReceiptFrom receipt)) || negb (IsRecoveryCaseState (ReceiptTo receipt))
   then ["unknown recovery case state"]
   else push_if (negb (IsLegalRecoveryCaseTransition (ReceiptFrom receipt) (ReceiptTo receipt)))
     ("Illegal recovery case transition: " +:+ ReceiptFrom receipt +:+ " -> " +:+ ReceiptTo receipt)) ++
  (if negb (in_list RecoveryCaseActorKinds (ActorKind receipt)) then ["unknown transition actor kind"]
   else push_if (negb (String.eqb (ActorKind receipt) "system") && String.eqb (ActorID receipt) "")
     "User and agent transition actors require an id") ++
  push_if ((length (Evidence receipt) <? 1)%nat || (100 <? length (Evidence receipt))%nat)
    "transition receipts require 1..100 evidence references" ++
  flat_map evidence_problems (Evidence receipt) ++
  push_if (1000 <? RuneCount (Reason receipt))%nat%nat "reason must be at most 1000 chars" ++
  push_if (String.eqb (CaseID receipt) "" || (200 <? len (CaseID receipt))%nat) "caseId must be 1..200 chars".

(** ** Items *)

Definition RecoveryItemStatuses : list string :=
  ["open"; "acknowledged"; "in_progress"; "waiting_external"; "resolved"; "reopened"].
Definition RecoveryItemAllowedPreStates : list (string * list string) :=
  [("acknowledge", ["open"; "reopened"]);
   ("in_progress", ["acknowledged"; "waiting_external"]);
   ("waiting_external", ["acknowledged"; "in_progress"]);
   ("resolve", ["open"; "acknowledged"; "in_progress"; "waiting_external"; "reopened"]);
   ("reopen", ["resolved"])].
Definition RecoveryItemActionTarget : list (string * string) :=
  [("acknowledge", "acknowledged"); ("in_progress", "in_progress");
   ("waiting_external", "waiting_external"); ("resolve", "resolved"); ("reopen", "reopened")].
Definition EscalateRecoveryItemSeverity (severity : string) : string :=
  if String.eqb severity "p4" then "p3" else if String.eqb severity "p3" then "p2" else "p1".

(** ** The transition of a stored case (engine/recoverycases.go) *)

(** The error of a transition. *)
Inductive case_error :=
| InvalidReceipt (problems : list string)
| ErrRecoveryCaseNotFound
| ErrRecoveryCaseConflict
| ErrRecoveryCaseReceiptGone.

(** A row of [recovery_case_transitions], and a row of [recovery_cases] with its
    receipts (newest first) and its live approval grants. Times in milliseconds. *)
Record CaseTransition := mkCaseTransition
  { tr_ID : string; tr_From : string; tr_To : string; tr_ActorKind : string; tr_ActorID : string;
    tr_Evidence : list RecoveryCaseEvidenceRef; OccurredAt : Z }.
Record RecoveryCase := mkCase
  { State : string; Revision : Z; ResolvedAt : option Z; Grants : nat; Receipts : list CaseTransition }.

Section transition.
(** The hexadecimal SHA-256 digest of a byte string. *)
Context (sha256_hex : string → string).

Definition StableSemanticID (prefix : string) (parts : list string) : string :=
  prefix +:+ "_" +:+ slice (sha256_hex (Join parts (of_bytes [chr 0]))) 0 32.

(** [InsertRecoveryCase]: a new case. *)
Definition CreateRecoveryCase : RecoveryCase := mkCase "detected" 0 None 0 [].

Definition TransitionRecoveryCase (now : Z) (receipt : RecoveryCaseTransitionReceipt)
    (stored : option RecoveryCase) : res case_error RecoveryCase :=
  match ValidateRecoveryCaseTransitionReceipt receipt with
  | _ :: _ as problems => Err (InvalidReceipt problems)
  | [] =>
      match stored with
      | None => Err ErrRecoveryCaseNotFound
      | Some current =>
          let last := fold_right (λ r m, Z.max (OccurredAt r) m) 0%Z (Receipts current) in
          let occurredAt := if (last <? now)%Z then now else (last + 1)%Z in
          guard String.eqb (State current) (ReceiptFrom receipt) else ErrRecoveryCaseConflict in
          let id := StableSemanticID "sct"
            [CaseID receipt; ReceiptFrom receipt; ReceiptTo receipt; Itoa (Revision current)] in
          guard negb (existsb (λ r, String.eqb (tr_ID r) id) (Receipts current)) else ErrRecoveryCaseReceiptGone in
          Ok (mkCase (ReceiptTo receipt) (Revision current + 1)
                (if in_list RecoveryCaseTerminalStates (ReceiptTo receipt) then Some now else ResolvedAt current)
                0
                (mkCaseTransition id (ReceiptFrom receipt) (ReceiptTo receipt) (ActorKind receipt)
                   (ActorID receipt) (Evidence receipt) occurredAt :: Receipts current))
      end
  end.

(** The cases that operations can produce. *)
Inductive case_reachable : RecoveryCase → Prop :=
| case_created : case_reachable CreateRecoveryCase
| case_moved now receipt c c' :
    case_reachable c → TransitionRecoveryCase now receipt (Some c) = Ok c' → case_reachable c'.
End transition.

(** * What the receipts of a case explain *)

Lemma table_get_elem {A} (m : list (string * A)) k v : table_get m k = Some v → (k, v) ∈ m.
Proof.
  induction m as [|[k' v'] m IH]; cbn; [done|].
  destruct (String.eqb_spec k' k) as [->|]; [intros [= ->]; set_solver|]. intros. right. auto.
Qed.

(** The legal transitions, one by one. *)
Lemma legal_transition from to : IsLegalRecoveryCaseTransition from to = true →
  ∃ tos, (from, tos) ∈ legalRecoveryCaseTransitions ∧ to ∈ tos.
Proof.
  unfold IsLegalRecoveryCaseTransition. rewrite in_list_spec. intros Hto.
  destruct (table_get _ from) as [tos|] eqn:Hg; [|by apply elem_of_nil in Hto].
  exists tos. split; [by apply table_get_elem|done].
Qed.

(** Turn the membership of a literal list into its cases. *)
Ltac literal_cases H :=
  repeat match type of H with
  | _ ∈ _ :: _ => apply elem_of_cons in H as [H|H]; [simplify_eq|]
  | _ ∈ [] => apply elem_of_nil in H; destruct H
  end.

(** The states behind the approval gate. *)
Definition after_approval : list string := ["publishing"; "monitoring"; "verified_recovered"; "recurred"].

(** A legal move into a state behind the gate starts at the gate or behind it. *)
Lemma gate from to :
  IsLegalRecoveryCaseTransition from to = true → to ∈ after_approval →
  from = "awaiting_approval" ∨ from ∈ after_approval.
Proof.
  intros (tos & Hf & Ht)%legal_transition Hto. unfold after_approval, legalRecoveryCaseTransitions in *.
  literal_cases Hf; literal_cases Ht; try (by left); try (right; set_solver);
    exfalso; literal_cases Hto.
Qed.

Lemma terminal_no_transition from to :
  from ∈ RecoveryCaseTerminalStates → IsLegalRecoveryCaseTransition from to = false.
Proof. unfold RecoveryCaseTerminalStates. intros H. literal_cases H; reflexivity. Qed.

Section facts.
Context (sha256_hex : string → string).

(** What an applied transition is made of. *)
Lemma transition_inv now receipt c c' :
  TransitionRecoveryCase sha256_hex now receipt (Some c) = Ok c' →
  ValidateRecoveryCaseTransitionReceipt receipt = [] ∧
  State c = ReceiptFrom receipt ∧ State c' = ReceiptTo receipt ∧ Revision c' = (Revision c + 1)%Z ∧
  Grants c' = 0 ∧
  ∃ t, Receipts c' = t :: Receipts c ∧ tr_From t = State c ∧ tr_To t = State c' ∧
    tr_ActorKind t = ActorKind receipt ∧ tr_ActorID t = ActorID receipt ∧ tr_Evidence t = Evidence receipt ∧
    tr_ID t ∉ map tr_ID (Receipts c) ∧ ∀ r, r ∈ Receipts c → (OccurredAt r < OccurredAt t)%Z.
Proof.
  unfold TransitionRecoveryCase.
  destruct (ValidateRecoveryCaseTransitionReceipt receipt) as [|p ps]; [|done].
  destruct (String.eqb_spec (State c) (ReceiptFrom receipt)) as [Hst|]; [|done].
  destruct (existsb _ _) eqn:Hex; [done|]. cbn [negb]. intros [= <-]. cbn.
  split_and!; try done. eexists. split_and!; try done; cbn.
  - intros (r & Heq & Hr)%list_elem_of_fmap. rewrite existsb_false_elem in Hex.
    specialize (Hex r Hr). by rewrite <-Heq, String.eqb_refl in Hex.
  - intros r Hr. set (last := fold_right _ _ _).
    assert (OccurredAt r <= last)%Z as Hle.
    { unfold last. clear -Hr. induction (Receipts c) as [|x l IH]; [by apply elem_of_nil in Hr|].
      cbn. apply elem_of_cons in Hr as [->|Hr]; [lia|]. specialize (IH Hr). lia. }
    destruct (Z.ltb_spec last now); lia.
Qed.

Lemma receipt_legal receipt :
  ValidateRecoveryCaseTransitionReceipt receipt = [] →
  IsLegalRecoveryCaseTransition (ReceiptFrom receipt) (ReceiptTo receipt) = true ∧
  ActorKind receipt ∈ RecoveryCaseActorKinds ∧
  (ActorKind receipt ≠ "system" → ActorID receipt ≠ "") ∧ Evidence receipt ≠ [].
Proof.
  unfold ValidateRecoveryCaseTransitionReceipt. rewrite !app_nil. intros (Hs & Ha & He & _).
  destruct (_ || _) in Hs; [done|]. apply push_if_nil, negb_false_iff in Hs.
  destruct (in_list RecoveryCaseActorKinds (ActorKind receipt)) eqn:Hk; [|done].
  cbn [negb] in Ha. apply push_if_nil in Ha. apply in_list_spec in Hk.
  split_and!; [done|done| |].
  - intros Hne Hid. rewrite Hid in Ha. destruct (String.eqb_spec (ActorKind receipt) "system"); done.
  - intros Hnil. rewrite Hnil in He. done.
Qed.

(** The receipts of a case, newest first, lead from [detected] to its state. *)
Inductive receipt_path : string → list CaseTransition → Prop :=
| path_start : receipt_path "detected" []
| path_step t l : receipt_path (tr_From t) l →
    IsLegalRecoveryCaseTransition (tr_From t) (tr_To t) = true → receipt_path (tr_To t) (t :: l).

End facts.

Definition demo_receipt : RecoveryCaseTransitionReceipt :=
  mkReceipt "case" "detected" "contained" "system" "" [mkEvidence "run" "r1" ""] "".
Definition demo_case : RecoveryCase :=
  match TransitionRecoveryCase id 5 demo_receipt (Some CreateRecoveryCase) with
  | Ok c => c | Err _ => CreateRecoveryCase
  end.

