(* ===== verification/Readiness.v ===== *)
(** The readiness rules (domain/readiness.go): deterministic authoring checks with
    severities, and the graph authority of human approvals. *)
From S2P Require Import Prelude GoStrings GoFloat GoAny Regex Redact Graph Closure RecoveryContract.
Local Open Scope string_scope.
Local Open Scope list_scope.

Record ReadinessIssue := mkReadinessIssue
  { ri_Code : string; Severity : string; ri_Message : string; ri_NodeID : string; ri_EdgeID : string;
    Suggestion : string }.
Record ReadinessResult := mkReadinessResult { rr_Status : string; rr_Issues : list ReadinessIssue }.

(** The seams are optional functions, as in Go. *)
Record ReadinessOptions := mkReadinessOptions
  { IsWriteSideTool : option (string → obj → bool); IsExternalTool : option (string → bool);
    RequireEvalCoverage : bool }.

Definition no_readiness_options : ReadinessOptions := mkReadinessOptions None None false.

Definition sensitiveToolNames : list string :=
  ["email.send"; "slack.post"; "github.create_issue"; "linear.create_issue"; "db.query.write";
   "db.query.transaction"; "pagerduty.incident.acknowledge"; "pagerduty.incident.snooze"].
Definition sensitiveToolSuffixes : list string := [".write"; ".create"; ".send"; ".delete"; ".update"].

(** [\s] of RE2. *)
Definition re_space : re := Cls (one_of (of_bytes [chr 9; chr 10; chr 12; chr 13; chr 32])).
Definition any_byte : re := Cls (λ _, true).
Definition secret_reference : re :=
  Cat (Lit "{{") (Cat (Star re_space) (Cat (Alt (Lit "secret") (Lit "env"))
    (Cat (Chr ".") (Cat (Plus (Cls (λ c, is_alnum c || one_of "_-" c)))
      (Cat (Star re_space) (Lit "}}")))))).
(** A match anywhere in the text. *)
Definition secretTemplatePattern (text : string) : bool :=
  MatchString (Cat (Star any_byte) (Cat secret_reference (Star any_byte))) text.

(** [value, _ := config[key].(string)]; reading a missing key gives nil. *)
Definition config_string (config : obj) (key : string) : string := string_or_zero (obj_at config key).
(** [value, _ := config[key].(map[string]any)]. *)
Definition config_object (config : obj) (key : string) : obj := default [] (as_obj (obj_at config key)).

Abbreviation approval_cache := (gmap string bool).

(** ** Write-side actions *)

Section readiness.
Context `{UnicodeTables} (upper : string → string).

Definition isWriteSideTool (opts : ReadinessOptions) (tool : string) (input : obj) : bool :=
  match IsWriteSideTool opts with
  | Some f => if String.eqb tool "" then false else f tool input
  | None => false
  end.

Definition isSensitiveAction (node : Node) (opts : ReadinessOptions) : bool :=
  let config := Config node in
  if String.eqb (Type_ node) "http" then
    let method := ToUpper upper (TrimSpace (config_string config "method")) in
    negb (in_list [""; "GET"; "HEAD"; "OPTIONS"] method)
  else if String.eqb (Type_ node) "tool" then
    match as_string (obj_at config "tool") with
    | None => false
    | Some tool =>
        match IsWriteSideTool opts with
        | Some f => f tool (config_object config "input")
        | None => in_list sensitiveToolNames tool || existsb (HasSuffix tool) sensitiveToolSuffixes
        end
    end
  else if String.eqb (Type_ node) "loop" then
    if String.eqb (config_string config "mode") "for_each"
    then isWriteSideTool opts (config_string config "tool") (config_object config "input")
    else false
  else if String.eqb (Type_ node) "mcp_tool" then true
  else if in_list ["agent"; "multi_agent"] (Type_ node) then bool_or_zero (obj_at config "allowWriteTools")
  else false.

(** ** Human approval as graph authority *)

Definition typesByID (wf : Workflow) : gmap string string :=
  fold_left (λ m node, <[ID node := Type_ node]> m) (Nodes wf) ∅.
(** [predecessors[id]]: the sources of its incoming edges, in edge order. *)
Definition predecessors (wf : Workflow) (id : string) : list string :=
  From <$> filter (λ edge, To edge = id) (Edges wf).

(** The loop over the incoming sources; [rec] is the closure [guarded]. *)
Fixpoint guarded_incoming (rec : approval_cache → string → option (bool * approval_cache))
    (types : gmap string string) (incoming : list string) (cache : approval_cache)
  : option (bool * approval_cache) :=
  match incoming with
  | [] => Some (true, cache)
  | predecessor :: rest =>
      if String.eqb (default "" (types !! predecessor)) "approval" then guarded_incoming rec types rest cache
      else match rec cache predecessor with
           | Some (true, cache) => guarded_incoming rec types rest cache
           | Some (false, cache) => Some (false, cache)
           | None => None
           end
  end.

(** [visiting] holds the ids whose calls are open. [None] is the exhaustion of the
    fuel. *)
Fixpoint guarded (fuel : nat) (wf : Workflow) (types : gmap string string) (visiting : list string)
    (cache : approval_cache) (current : string) : option (bool * approval_cache) :=
  match fuel with
  | 0 => None
  | S f =>
      match cache !! current with
      | Some cached => Some (cached, cache)
      | None =>
          if bool_decide (current ∈ visiting) then Some (false, <[current := false]> cache)
          else match predecessors wf current with
          | [] => Some (false, <[current := false]> cache)
          | incoming =>
              match guarded_incoming (guarded f wf types (current :: visiting)) types incoming cache with
              | Some (verdict, cache) => Some (verdict, <[current := verdict]> cache)
              | None => None
              end
          end
      end
  end.

(** The open calls are distinct sources of edges, the first one aside. *)
Definition guarded_fuel (wf : Workflow) : nat := length (Edges wf) + 3.
Definition hasApprovalAncestor (wf : Workflow) (nodeID : string) (cache : approval_cache)
  : option (bool * approval_cache) := guarded (guarded_fuel wf) wf (typesByID wf) [] cache nodeID.

Definition HasApprovalAncestorIn (wf : Workflow) (nodeID : string) : option bool :=
  fst <$> hasApprovalAncestor wf nodeID ∅.

Definition ConsumesHumanDecision (nodeType : string) : bool := in_list ["approval"; "human_form"] nodeType.

(** ** The checks of one node *)

Definition checkHTTPBounds (node : Node) : list ReadinessIssue :=
  if negb (String.eqb (Type_ node) "http") then []
  else if existsb (λ field, bool_decide (is_Some (as_f64 (obj_at (Config node) field))))
            ["timeoutMs"; "maxResponseBytes"; "maxRedirects"] then []
  else [mkReadinessIssue "http_missing_bounds" "warn"
          ("HTTP node " +:+ Quote (ID node) +:+
           " relies on the platform defaults (30s timeout / 1 MB body cap / 5 redirect hops).") (ID node) ""
          "Set at least one of `timeoutMs`, `maxResponseBytes`, or `maxRedirects` to record the operator's intent. Defaults still apply if unset."].

Definition checkExternalRetry (node : Node) (opts : ReadinessOptions) : list ReadinessIssue :=
  let config := Config node in
  let retrySafe :=
    if String.eqb (Type_ node) "http" then negb (isSensitiveAction node opts)
    else if String.eqb (Type_ node) "tool" then
      let toolName := config_string config "tool" in
      match IsExternalTool opts with
      | Some f => f toolName && negb (isWriteSideTool opts toolName (config_object config "input"))
      | None => negb (isWriteSideTool opts toolName (config_object config "input"))
      end
    else false in
  if negb retrySafe then []
  else
    let maxAttempts :=
      match as_obj (obj_at config "retry") with
      | Some retry => default (f_of_Z 1) (as_f64 (obj_at retry "maxAttempts"))
      | None => f_of_Z 1
      end in
    if f_leb (f_of_Z 2) maxAttempts then []
    else [mkReadinessIssue "external_node_missing_retry" "fail"
            ("Read-side node " +:+ Quote (ID node) +:+
             " makes an external call but has no retry policy. Transient failures will mark the run failed instead of being retried.")
            (ID node) ""
            "Set `config.retry.maxAttempts` to at least 2; production-grade is typically 3–5 with exponential backoff."].

Definition checkToolResultPolicy (node : Node) (opts : ReadinessOptions) : list ReadinessIssue :=
  let config := Config node in
  if negb (String.eqb (Type_ node) "tool") then []
  else if negb (isWriteSideTool opts (config_string config "tool") (config_object config "input")) then []
  else if negb (String.eqb (config_string config "resultPolicy") "envelope") then []
  else [mkReadinessIssue "tool_result_policy_missing" "fail"
          ("Write-side tool node " +:+ Quote (ID node) +:+
           " sets resultPolicy envelope, so a failed result envelope does not fail the run.") (ID node) ""
          "Remove `config.resultPolicy` or set it to `require_ok` so failed provider envelopes enter DLQ and recovery without unsafe blind retries."].

(** [walkConfig]: the bindings at every depth. *)
Fixpoint walkConfig (value : any) : list (string * any) :=
  match value with
  | AArr l => flat_map walkConfig l
  | AObj o => flat_map (λ kv, kv :: walkConfig kv.2) o
  | _ => []
  end.

Definition raw_secret (kv : string * any) : bool :=
  IsSensitiveKey kv.1 &&
  match kv.2 with
  | AStr text => negb (String.eqb (TrimSpace text) "") && negb (secretTemplatePattern text)
  | _ => false
  end.

Definition checkRawSecretsInConfig (node : Node) : list ReadinessIssue :=
  map (λ kv, mkReadinessIssue "raw_secret_in_config" "fail"
    ("Node " +:+ Quote (ID node) +:+ " hardcodes what looks like a secret in field `" +:+ kv.1 +:+
     "`. The persistence chokepoint will scrub it at write time, but the saved workflow JSON still carries the literal value.")
    (ID node) ""
    ("Replace the value with a supported template reference such as `{{secret." +:+ ToUpper upper kv.1 +:+
     "}}` / `{{env." +:+ ToUpper upper kv.1 +:+
     "}}`, or move the call to an integration tool that references an operator-managed credential by name."))
    (filter (λ kv, raw_secret kv = true) (walkConfig (AObj (Config node)))).

Definition missing_approval (node : Node) : ReadinessIssue :=
  mkReadinessIssue "sensitive_action_missing_approval" "warn"
    ("Node " +:+ Quote (ID node) +:+
     " performs a write-side action without a human-approval gate upstream. Verify this is intentional for production.")
    (ID node) ""
    "Add an `approval` node upstream so a human can review before the write fires. Or document why this workflow runs unattended.".

Definition checkSensitiveApproval (node : Node) (wf : Workflow) (opts : ReadinessOptions) (cache : approval_cache)
  : option (list ReadinessIssue * approval_cache) :=
  if negb (isSensitiveAction node opts) then Some ([], cache)
  else match hasApprovalAncestor wf (ID node) cache with
  | None => None
  | Some (true, cache) => Some ([], cache)
  | Some (false, cache) => Some ([missing_approval node], cache)
  end.

(** ** Forks and joins *)

Definition forkLabels (config : obj) : list string :=
  match as_arr (obj_at config "branches") with
  | None => []
  | Some entries =>
      filter (λ label, label ≠ "")
        (omap (λ entry, item ← as_obj entry; as_string (obj_at item "label")) entries)
  end.

Definition joinCoversLabels (config : obj) (labels : list string) : bool :=
  match as_obj (obj_at config "sources") with
  | None => false
  | Some sources => forallb (λ label, negb (String.eqb (config_string sources label) "")) labels
  end.

Definition edge_links (wf : Workflow) : links := (λ e, (From e, To e)) <$> Edges wf.
Definition back_links (wf : Workflow) : links := (λ e, (To e, From e)) <$> Edges wf.
(** The node of an id: the last one that declares it. *)
Definition node_by_id (wf : Workflow) : gmap string Node :=
  fold_left (λ m node, <[ID node := node]> m) (Nodes wf) ∅.

Definition downstreamJoins (wf : Workflow) (nodeID : string) : option (list Node) :=
  match closure (edge_links wf) push_stack (push_stack (next_ids (edge_links wf) nodeID) []) with
  | Some reached => Some (filter (λ node : Node, Type_ node = "join") (omap (λ id, node_by_id wf !! id) reached))
  | None => None
  end.

Definition collectAncestors (wf : Workflow) (nodeID : string) : option (list string) :=
  closure (back_links wf) push_stack (push_stack (next_ids (back_links wf) nodeID) []).

Definition check_fork (wf : Workflow) (node : Node) : option (list ReadinessIssue) :=
  joins ← downstreamJoins wf (ID node);
  match joins with
  | [] => Some [mkReadinessIssue "fork_without_join_pair" "warn"
      ("Parallel-fork node " +:+ dq +:+ ID node +:+ dq +:+
       " has no `join` node downstream. The workflow can run, but branch outputs won't be merged into a single labelled record.")
      (ID node) ""
      "Add a `join` node downstream of every branch so the merged outputs are addressable as `{{context.<join>.output.branches.<label>}}`."]
  | _ =>
      let labels := forkLabels (Config node) in
      if bool_decide (labels = []) || existsb (λ join, joinCoversLabels (Config join) labels) joins then Some []
      else Some [mkReadinessIssue "fork_join_missing_branch_sources" "fail"
        ("Parallel-fork node " +:+ dq +:+ ID node +:+ dq +:+
         " declares branch labels no downstream join maps completely in `config.sources`.")
        (ID node) ""
        "Update the paired `join.config.sources` so it includes every declared fork branch label, e.g. `{ a: '<a_terminal_node>', b: '<b_terminal_node>' }`."]
  end.

Definition check_join (wf : Workflow) (node : Node) : option (list ReadinessIssue) :=
  match as_obj (obj_at (Config node) "sources") with
  | None => Some []
  | Some sources =>
      ancestors ← collectAncestors wf (ID node);
      Some (flat_map (λ kv,
        match as_string kv.2 with
        | Some predecessorID =>
            if String.eqb predecessorID "" || in_list ancestors predecessorID then []
            else [mkReadinessIssue "join_sources_unreachable" "fail"
              ("Join node " +:+ dq +:+ ID node +:+ dq +:+ " references predecessor " +:+ dq +:+ predecessorID +:+
               dq +:+ " for branch " +:+ dq +:+ kv.1 +:+ dq +:+
               ", but that node is not reachable as an upstream of this join.")
              (ID node) ""
              ("Add an edge from " +:+ dq +:+ predecessorID +:+ dq +:+ " to " +:+ dq +:+ ID node +:+ dq +:+
               " (or update the source to a node that is actually a predecessor).")]
        | None => []
        end) sources)
  end.

Fixpoint option_flat_map {A B} (f : A → option (list B)) (l : list A) : option (list B) :=
  match l with
  | [] => Some []
  | x :: l' => h ← f x; t ← option_flat_map f l'; Some (h ++ t)
  end.

Definition CheckForkJoinReadiness (wf : Workflow) : option (list ReadinessIssue) :=
  option_flat_map (λ node,
    if String.eqb (Type_ node) "parallel_fork" then check_fork wf node
    else if String.eqb (Type_ node) "join" then check_join wf node
    else Some []) (Nodes wf).

(** ** The whole gate *)

Definition own_issues (node : Node) (opts : ReadinessOptions) : list ReadinessIssue :=
  checkHTTPBounds node ++ checkExternalRetry node opts ++ checkToolResultPolicy node opts ++
  checkRawSecretsInConfig node.

Fixpoint check_nodes (nodes : list Node) (wf : Workflow) (opts : ReadinessOptions) (cache : approval_cache)
  : option (list ReadinessIssue) :=
  match nodes with
  | [] => Some []
  | node :: rest =>
      match checkSensitiveApproval node wf opts cache with
      | None => None
      | Some (approval, cache) => t ← check_nodes rest wf opts cache; Some (own_issues node opts ++ approval ++ t)
      end
  end.

Definition rollupReadiness (issues : list ReadinessIssue) : string :=
  if existsb (λ issue, String.eqb (Severity issue) "fail") issues then "fail"
  else match issues with [] => "pass" | _ => "warn" end.

Definition missing_outputs : ReadinessIssue :=
  mkReadinessIssue "workflow_missing_outputs" "warn"
    "Workflow declares no `outputs` projection — terminal state will be opaque to downstream consumers." "" ""
    "Add an `outputs` map to the workflow root, e.g. { result: '{{context.<lastStep>.output.<field>}}' }.".
Definition missing_evals : ReadinessIssue :=
  mkReadinessIssue "workflow_missing_evals" "warn"
    "Eval coverage tracking is not yet enabled. Once eval cases exist, this warn flips off automatically." "" ""
    "Add eval cases via the evals harness when available; meanwhile, this warn is informational and not blocking.".

Definition CheckWorkflowReadiness (wf : Workflow) (opts : ReadinessOptions) : option ReadinessResult :=
  nodes ← check_nodes (Nodes wf) wf opts ∅;
  forks ← CheckForkJoinReadiness wf;
  let issues := nodes ++ forks ++ push_if (bool_decide (Outputs wf = [])) missing_outputs ++
                push_if (RequireEvalCoverage opts) missing_evals in
  Some (mkReadinessResult (rollupReadiness issues) issues).

(** ** The projection of recovery suggestions *)

Record SuggestionSafety := mkSuggestionSafety
  { ss_WriteSide : bool; ApprovalRequired : bool; ApprovalPresent : bool }.

Definition ComputeSuggestionSafetyWithOptions (wf : option Workflow) (nodeID : string) (opts : ReadinessOptions)
  : option SuggestionSafety :=
  match wf with
  | None => Some (mkSuggestionSafety true true false)
  | Some wf =>
      match list_find (λ node, ID node = nodeID) (Nodes wf) with
      | None => Some (mkSuggestionSafety true true false)
      | Some (_, target) =>
          let writeSide := isSensitiveAction target opts in
          if writeSide then
            present ← HasApprovalAncestorIn wf nodeID; Some (mkSuggestionSafety true true present)
          else Some (mkSuggestionSafety false false true)
      end
  end.
End readiness.
