(* ===== verification/ReadinessFacts.v ===== *)
(** The approval search computes dominance; the readiness gate reports exactly the
    unapproved writes, the raw secrets and the unreachable join sources. *)
From S2P Require Import Prelude GoStrings GoFloat GoAny Graph GraphFacts Closure Readiness RecoveryContract.
From stdpp Require Import relations.
Local Open Scope string_scope.
Local Open Scope list_scope.
Local Open Scope nat_scope.

(** ** Approval as dominance *)

Definition is_approval (wf : Workflow) (id : string) : Prop := default "" (typesByID wf !! id) = "approval".
#[export] Instance is_approval_dec wf id : Decision (is_approval wf id).
Proof. unfold is_approval. apply _. Defined.

(** Every path into the node passes an approval: it has a source, and each source is an
    approval or is itself guarded. *)
Inductive Guarded (wf : Workflow) (id : string) : Prop :=
| guarded_intro : predecessors wf id ≠ [] →
    (∀ p, p ∈ predecessors wf id → ¬ is_approval wf p → Guarded wf p) → Guarded wf id.

(** A path from a node without sources that meets no approval before its end. *)
Inductive bypass (wf : Workflow) : string → Prop :=
| bypass_root id : predecessors wf id = [] → bypass wf id
| bypass_edge e : e ∈ Edges wf → ¬ is_approval wf (From e) → bypass wf (From e) → bypass wf (To e).

Lemma elem_of_predecessors wf p id : p ∈ predecessors wf id ↔ ∃ e, e ∈ Edges wf ∧ From e = p ∧ To e = id.
Proof.
  unfold predecessors. rewrite list_elem_of_fmap. setoid_rewrite list_elem_of_filter. naive_solver.
Qed.

Lemma Guarded_no_bypass wf id : bypass wf id → ¬ Guarded wf id.
Proof.
  induction 1 as [id Hnone|e He Hna _ IH]; intros [Hsome Hall]; [done|].
  apply IH, Hall; [|done]. apply elem_of_predecessors. by exists e.
Qed.

(** The sources the search has to ask about. *)
Definition needs (wf : Workflow) : relation string := λ x p, p ∈ predecessors wf x ∧ ¬ is_approval wf p.

Lemma Guarded_Acc wf id : Guarded wf id → Acc (flip (needs wf)) id.
Proof. induction 1 as [id _ _ IH]. constructor. intros p [Hp Hna]. by apply IH. Qed.
Lemma Guarded_no_cycle wf id : Guarded wf id → ¬ tc (needs wf) id id.
Proof. intros Hg. by apply Acc_no_cycle, Guarded_Acc. Qed.

Lemma Guarded_unfold wf id :
  Guarded wf id ↔ predecessors wf id ≠ [] ∧ ∀ p, needs wf id p → Guarded wf p.
Proof.
  split.
  - intros [Hne Hall]. split; [done|]. intros p [Hp Hna]. by apply Hall.
  - intros [Hne Hall]. constructor; [done|]. intros p Hp Hna. by apply Hall.
Qed.

(** Without a cycle a node is guarded or bypassed. *)
Lemma Guarded_or_bypass wf id :
  Acc (λ p x, p ∈ predecessors wf x) id → Guarded wf id ∨ bypass wf id.
Proof.
  induction 1 as [id _ IH]. destruct (predecessors wf id) as [|p0 ps] eqn:Hpreds; [right; by constructor|].
  assert ((∀ p, p ∈ p0 :: ps → ¬ is_approval wf p → Guarded wf p) ∨
          ∃ p, p ∈ p0 :: ps ∧ ¬ is_approval wf p ∧ bypass wf p) as [Hall|(p & Hp & Hna & Hby)].
  { rewrite <-Hpreds in *. clear Hpreds. revert IH. generalize (predecessors wf id) as l. clear.
    induction l as [|p l IHl]; intros IH; [left; set_solver|].
    destruct IHl as [Hl|(q & Hq & ?)]; [set_solver| |right; exists q; set_solver].
    destruct (decide (is_approval wf p)) as [Ha|Hna]; [left; set_solver|].
    destruct (IH p ltac:(set_solver)) as [Hg|Hby]; [left; set_solver|right; exists p; set_solver]. }
  - left. constructor; rewrite Hpreds; done.
  - right. rewrite <-Hpreds in Hp. apply elem_of_predecessors in Hp as (e & He & <- & <-). by apply bypass_edge.
Qed.

Section search.
Context (wf : Workflow) (root : string).

Definition cache_ok (cache : approval_cache) : Prop :=
  ∀ x b, cache !! x = Some b → (b = true ↔ Guarded wf x).

Lemma cache_ok_insert cache x b : cache_ok cache → (b = true ↔ Guarded wf x) → cache_ok (<[x := b]> cache).
Proof.
  intros Hok Hb y c Hy. destruct (decide (x = y)) as [<-|Hne].
  - rewrite lookup_insert_eq in Hy. by injection Hy as <-.
  - rewrite lookup_insert_ne in Hy by done. by apply Hok.
Qed.

(** A verdict that is right, with a cache that stays right. *)
Definition answers (o : option (bool * approval_cache)) (P : Prop) : Prop :=
  ∃ b cache, o = Some (b, cache) ∧ (b = true ↔ P) ∧ cache_ok cache.

Lemma guarded_incoming_spec rec incoming cache :
  cache_ok cache →
  (∀ p cache, p ∈ incoming → ¬ is_approval wf p → cache_ok cache → answers (rec cache p) (Guarded wf p)) →
  answers (guarded_incoming rec (typesByID wf) incoming cache)
    (∀ p, p ∈ incoming → ¬ is_approval wf p → Guarded wf p).
Proof.
  revert cache. induction incoming as [|p ps IH]; intros cache Hok Hrec; cbn.
  { exists true, cache. split_and!; [done| |done]. split; [set_solver|done]. }
  destruct (String.eqb_spec (default "" (typesByID wf !! p)) "approval") as [Ha|Hna].
  - destruct (IH cache Hok ltac:(set_solver)) as (b & cache' & -> & Hb & Hok').
    exists b, cache'. split_and!; [done| |done]. rewrite Hb. split; [|set_solver].
    intros Hall q [->|Hq]%elem_of_cons Hnq; [by destruct Hnq|by apply Hall].
  - destruct (Hrec p cache ltac:(set_solver) Hna Hok) as (b & cache' & -> & Hb & Hok').
    destruct b.
    + destruct (IH cache' Hok' ltac:(set_solver)) as (b & cache'' & -> & Hb' & Hok'').
      exists b, cache''. split_and!; [done| |done]. rewrite Hb'. split; [|set_solver].
      intros Hall q [->|Hq]%elem_of_cons Hnq; [by apply Hb|by apply Hall].
    + exists false, cache'. split_and!; [done| |done]. split; [done|]. intros Hall.
      apply Hb, Hall; [set_solver|done].
Qed.

Lemma guarded_spec fuel visiting cache current :
  length (Edges wf) + 3 ≤ fuel + length visiting →
  NoDup visiting → visiting ⊆ root :: (From <$> Edges wf) → current ∈ root :: (From <$> Edges wf) →
  (∀ y, y ∈ visiting → tc (needs wf) y current) → cache_ok cache →
  answers (guarded fuel wf (typesByID wf) visiting cache current) (Guarded wf current).
Proof.
  revert visiting cache current.
  induction fuel as [|fuel IH]; intros visiting cache current Hfuel Hnd Hsub Hcur Hpath Hok.
  { pose proof (submseteq_length _ _ (NoDup_submseteq _ _ Hnd Hsub)) as Hlen.
    cbn in Hlen. rewrite length_fmap in Hlen. lia. }
  cbn [guarded]. destruct (cache !! current) as [cached|] eqn:Hcached.
  { exists cached, cache. split_and!; [done|by apply Hok|done]. }
  case_bool_decide as Hvis.
  { assert (¬ Guarded wf current) as Hng by (intros Hg; by apply (Guarded_no_cycle wf current Hg), Hpath).
    exists false, (<[current := false]> cache). split_and!; [done|done|]. by apply cache_ok_insert. }
  destruct (predecessors wf current) as [|p0 ps] eqn:Hpreds.
  { assert (¬ Guarded wf current) as Hng by (intros [Hne _]; done).
    exists false, (<[current := false]> cache). split_and!; [done|done|]. by apply cache_ok_insert. }
  rewrite <-Hpreds.
  destruct (guarded_incoming_spec (guarded fuel wf (typesByID wf) (current :: visiting))
    (predecessors wf current) cache Hok) as (b & cache' & -> & Hb & Hok').
  { intros p c Hp Hna Hc. apply IH; [cbn; lia|by constructor| | | |done].
    - intros x [->|Hx]%elem_of_cons; [done|by apply Hsub].
    - apply elem_of_predecessors in Hp as (e & He & <- & _). right. by apply list_elem_of_fmap_2.
    - intros y [->|Hy]%elem_of_cons; [by apply tc_once|]. eapply tc_r; [by apply Hpath|done]. }
  assert (b = true ↔ Guarded wf current) as Hb'.
  { rewrite Hb, Guarded_unfold, Hpreds. unfold needs. rewrite Hpreds. naive_solver. }
  exists b, (<[current := b]> cache'). split_and!; [done|done|]. by apply cache_ok_insert.
Qed.
End search.

Lemma hasApprovalAncestor_spec wf id cache :
  cache_ok wf cache → answers wf (hasApprovalAncestor wf id cache) (Guarded wf id).
Proof.
  intros Hok. unfold hasApprovalAncestor, guarded_fuel.
  apply (guarded_spec wf id); [cbn; lia|constructor|set_solver|set_solver|set_solver|done].
Qed.
Lemma cache_ok_empty wf : cache_ok wf ∅.
Proof. intros x b Hx. by rewrite lookup_empty in Hx. Qed.

Lemma HasApprovalAncestorIn_spec wf id : ∃ b, HasApprovalAncestorIn wf id = Some b ∧ (b = true ↔ Guarded wf id).
Proof.
  destruct (hasApprovalAncestor_spec wf id ∅ (cache_ok_empty wf)) as (b & cache & Heq & Hb & _).
  exists b. unfold HasApprovalAncestorIn. by rewrite Heq.
Qed.

(** ** The gate *)

Lemma option_flat_map_spec {A B} (f : A → option (list B)) l :
  (∀ x, x ∈ l → is_Some (f x)) →
  ∃ out, option_flat_map f l = Some out ∧ ∀ i, i ∈ out ↔ ∃ x h, x ∈ l ∧ f x = Some h ∧ i ∈ h.
Proof.
  induction l as [|x l IH]; intros Hall; cbn; [exists []; set_solver|].
  destruct (Hall x ltac:(set_solver)) as [h Hh]. destruct IH as (t & -> & Ht); [set_solver|].
  rewrite Hh. cbn. exists (h ++ t). split; [done|]. intros i. rewrite elem_of_app, Ht. split.
  - intros [Hi|(y & k & Hy & Hk & Hi)]; [exists x, h|exists y, k]; set_solver.
  - intros (y & k & [->|Hy]%elem_of_cons & Hk & Hi); [left; congruence|right; by exists y, k].
Qed.

(** Upstream along the edges. *)
Definition edge_path (wf : Workflow) : relation string := tc (link_rel (edge_links wf)).

Lemma edge_links_rel wf x y : link_rel (edge_links wf) x y ↔ ∃ e, e ∈ Edges wf ∧ From e = x ∧ To e = y.
Proof. unfold link_rel, edge_links. rewrite list_elem_of_fmap. naive_solver. Qed.
Lemma back_links_rel wf x y : link_rel (back_links wf) x y ↔ link_rel (edge_links wf) y x.
Proof. unfold link_rel, back_links, edge_links. rewrite !list_elem_of_fmap. naive_solver. Qed.

Lemma back_links_tc wf x y : tc (link_rel (back_links wf)) x y ↔ edge_path wf y x.
Proof.
  unfold edge_path. split; induction 1 as [a b Hab|a b c Hab _ IH].
  1,3: by apply tc_once, back_links_rel.
  all: eapply tc_r; [exact IH|by apply back_links_rel].
Qed.

Lemma tc_first_rtc {A} (R : relation A) x z : tc R x z ↔ ∃ y, R x y ∧ rtc R y z.
Proof.
  split.
  - intros H. inversion H as [? ? Hxz|? y ? Hxy Hyz]; subst; [by exists z|]. exists y. split; [done|].
    by apply tc_rtc.
  - intros (y & Hxy & Hyz). revert x Hxy. induction Hyz as [y|y z w Hyz _ IH]; intros x Hxy; [by apply tc_once|].
    eapply tc_l; [exact Hxy|by apply IH].
Qed.

Lemma collectAncestors_spec wf id : ∃ out, collectAncestors wf id = Some out ∧ ∀ x, x ∈ out ↔ edge_path wf x id.
Proof.
  unfold collectAncestors.
  destruct (closure_spec (back_links wf) push_stack push_stack_perm
    (push_stack (next_ids (back_links wf) id) [])) as (out & -> & _ & Hout).
  exists out. split; [done|]. intros x. rewrite Hout. setoid_rewrite push_stack_perm.
  setoid_rewrite app_nil_r. setoid_rewrite elem_of_next_ids.
  rewrite <-tc_first_rtc. apply back_links_tc.
Qed.

Lemma downstreamJoins_spec wf id : ∃ joins, downstreamJoins wf id = Some joins ∧
  ∀ n, n ∈ joins ↔ Type_ n = "join" ∧ ∃ x, edge_path wf id x ∧ node_by_id wf !! x = Some n.
Proof.
  unfold downstreamJoins.
  destruct (closure_spec (edge_links wf) push_stack push_stack_perm
    (push_stack (next_ids (edge_links wf) id) [])) as (out & -> & _ & Hout).
  eexists. split; [done|]. intros n. rewrite list_elem_of_filter, list_elem_of_omap.
  assert (∀ x, x ∈ out ↔ edge_path wf id x) as Hpath.
  { intros x. rewrite Hout. unfold edge_path. rewrite tc_first_rtc. setoid_rewrite push_stack_perm.
    setoid_rewrite app_nil_r. by setoid_rewrite elem_of_next_ids. }
  by setoid_rewrite Hpath.
Qed.

Section gate.
Context `{UnicodeTables} (upper : string → string) (wf : Workflow) (opts : ReadinessOptions).

Lemma check_nodes_spec nodes cache : cache_ok wf cache →
  ∃ issues, check_nodes upper nodes wf opts cache = Some issues ∧
    ∀ i, i ∈ issues ↔ ∃ n, n ∈ nodes ∧
      (i ∈ own_issues upper n opts ∨
       (isSensitiveAction upper n opts = true ∧ ¬ Guarded wf (ID n) ∧ i = missing_approval n)).
Proof.
  revert cache. induction nodes as [|n nodes IH]; intros cache Hok; cbn [check_nodes].
  { exists []. split; [done|]. intros i. split; [by intros ?%elem_of_nil|by intros (n & ?%elem_of_nil & _)]. }
  assert (∃ l cache', checkSensitiveApproval upper n wf opts cache = Some (l, cache') ∧ cache_ok wf cache' ∧
    ∀ i, i ∈ l ↔ isSensitiveAction upper n opts = true ∧ ¬ Guarded wf (ID n) ∧ i = missing_approval n)
    as (l & cache' & -> & Hok' & Hl).
  { unfold checkSensitiveApproval. destruct (isSensitiveAction upper n opts) eqn:Hs; cbn [negb].
    2: { exists [], cache. split_and!; [done|done|]. intros i. split; [by intros ?%elem_of_nil|by intros []]. }
    destruct (hasApprovalAncestor_spec wf (ID n) cache Hok) as ([|] & cache' & -> & Hb & Hok').
    - exists [], cache'. split_and!; [done|done|]. intros i. split; [by intros ?%elem_of_nil|]. intros (_ & Hng & _).
      exfalso. apply Hng, Hb. reflexivity.
    - exists [missing_approval n], cache'. split_and!; [done|done|]. intros i. rewrite list_elem_of_singleton.
      split; [intros ->|intros (_ & _ & Hi); exact Hi].
      split; [reflexivity|]. split; [|reflexivity]. intros Hg. apply Hb in Hg. discriminate Hg. }
  destruct (IH cache' Hok') as (t & -> & Ht). eexists. split; [done|]. intros i.
  rewrite !elem_of_app, Hl, Ht. setoid_rewrite elem_of_cons. naive_solver.
Qed.

Definition reported (issues : list ReadinessIssue) (code id : string) : Prop :=
  ∃ i, i ∈ issues ∧ ri_Code i = code ∧ ri_NodeID i = id.

Lemma own_issues_code n i : i ∈ own_issues upper n opts →
  ri_NodeID i = ID n ∧ ri_Code i ∈ ["http_missing_bounds"; "external_node_missing_retry";
                                     "tool_result_policy_missing"; "raw_secret_in_config"].
Proof.
  unfold own_issues, checkHTTPBounds, checkExternalRetry, checkToolResultPolicy, checkRawSecretsInConfig.
  rewrite !elem_of_app. intros [Hi|[Hi|[Hi|Hi]]].
  1-3: repeat (match type of Hi with context [if ?b then _ else _] => destruct b end);
    try (by apply elem_of_nil in Hi); apply list_elem_of_singleton in Hi as ->; split; [done|];
    cbn; rewrite !elem_of_cons; by auto.
  apply list_elem_of_fmap in Hi as (kv & -> & _). split; [done|]. cbn; rewrite !elem_of_cons; by auto 6.
Qed.

Lemma own_issues_raw n : (∃ i, i ∈ own_issues upper n opts ∧ ri_Code i = "raw_secret_in_config") ↔
  ∃ kv, kv ∈ walkConfig (AObj (Config n)) ∧ raw_secret kv = true.
Proof.
  unfold own_issues, checkHTTPBounds, checkExternalRetry, checkToolResultPolicy, checkRawSecretsInConfig.
  setoid_rewrite elem_of_app. setoid_rewrite elem_of_app. setoid_rewrite elem_of_app. split.
  - intros (i & [Hi|[Hi|[Hi|Hi]]] & Hcode).
    1-3: repeat (match type of Hi with context [if ?b then _ else _] => destruct b end);
      try (by apply elem_of_nil in Hi); apply list_elem_of_singleton in Hi as ->; done.
    apply list_elem_of_fmap in Hi as (kv & _ & [? ?]%list_elem_of_filter). by exists kv.
  - intros (kv & Hkv & Hraw). eexists. split; [right; right; right; apply list_elem_of_fmap; exists kv; split;
      [reflexivity|by apply list_elem_of_filter]|done].
Qed.
End gate.
