(* ===== verification/RecoveryDag.v ===== *)
(** The rules between a version-2 recovery contract and the graph (domain/recoverydag.go):
    a quarantine detector must come before every guarded effect on every path. *)
From S2P Require Import Prelude GoStrings GoFloat GoAny Inputs RecoveryContract Graph Closure Readiness.
Local Open Scope string_scope.
Local Open Scope list_scope.

(** The issue of the workflow gate (domain/validate.go). *)
Record Issue := mkIssue { Code : string; IssueMessage : string; IssueNodeID : string; IssueEdgeID : string }.

Definition deferredCompletionNodeTypes : list string :=
  ["approval"; "human_form"; "subworkflow"; "wait_until"; "webhook"].

Record SemanticFixtureOutcome := mkOutcome
  { out_ID : string; out_SourceNodeID : string; out_Expected : string; Actual : string; Passed : bool;
    ViolationDetectorIDs : list string }.

(** An expression validator answers with a message. *)
Abbreviation ExpressionValidator := (string → bool * string).
Abbreviation SemanticFixtureEvaluator := (RecoveryContract → list SemanticFixtureOutcome).

Definition quote_id (s : string) : string := dq +:+ s +:+ dq.

Section dag.
Context (upper : string → string).

Record semanticDagIndex := mkIndex
  { nodeByID : gmap string Node; detectorSources : list string; guardedEffectIDs : list string }.

Definition declared_effects (contract : RecoveryContract) : list string := eff_NodeID <$> Effects contract.
Definition actual_effects (wf : Workflow) : list string :=
  ID <$> filter (λ node, isSensitiveAction upper node no_readiness_options = true) (Nodes wf).

Definition indexSemanticDag (wf : Workflow) (contract : RecoveryContract) : semanticDagIndex * list Issue :=
  let declared := declared_effects contract in
  let actual := actual_effects wf in
  (mkIndex (node_by_id wf) (det_SourceNodeID <$> Detectors (Semantic contract))
     (sort_strings (remove_dups (declared ++ actual))),
   flat_map (λ id, push_if (negb (in_list declared id))
     (mkIssue "semantic_effect_not_declared"
        ("Write-side node " +:+ quote_id id +:+
         " must be declared in recovery.contract.effects before semantic quarantine can make a pre-effect guarantee")
        id "")) actual).

(** The ids reached from a root when [excludedNodeID] is removed; a root is a node
    without incoming edges of the whole workflow. *)
Definition links_without (wf : Workflow) (excludedNodeID : string) : links :=
  (λ e, (From e, To e)) <$> filter (λ e, From e ≠ excludedNodeID ∧ To e ≠ excludedNodeID) (Edges wf).
Definition roots_without (wf : Workflow) (excludedNodeID : string) : list string :=
  ID <$> filter (λ node, existsb (λ e, String.eqb (To e) (ID node)) (Edges wf) = false ∧ ID node ≠ excludedNodeID)
           (Nodes wf).
Definition reachableNodesWithout (wf : Workflow) (excludedNodeID : string) : option (list string) :=
  closure (links_without wf excludedNodeID) push_queue (roots_without wf excludedNodeID).

Definition detector_source_issues (index : semanticDagIndex) (detector : RecoverySemanticDetector) : list Issue :=
  let source := det_SourceNodeID detector in
  match nodeByID index !! source with
  | None => [mkIssue "semantic_detector_unknown_source"
      ("Semantic detector " +:+ quote_id (det_ID detector) +:+ " references an unknown source node: " +:+ source)
      source ""]
  | Some sourceNode =>
      if in_list deferredCompletionNodeTypes (Type_ sourceNode) then
        [mkIssue "semantic_detector_deferred_source"
          ("Semantic detector " +:+ quote_id (det_ID detector) +:+ " cannot target deferred-completion node " +:+
           quote_id source) source ""]
      else push_if (String.eqb (Action detector) "quarantine" && in_list ["router"; "router_llm"] (Type_ sourceNode))
        (mkIssue "semantic_quarantine_router_source"
          ("Quarantine detector " +:+ quote_id (det_ID detector) +:+
           " cannot target a router because routing choices are persisted before operator replacement") source "")
  end.

Definition detector_expression_issues (validExpression : option ExpressionValidator)
    (detector : RecoverySemanticDetector) : list Issue :=
  match validExpression with
  | Some validate =>
      if String.eqb (det_Kind detector) "expression" then
        let '(valid, message) := validate (PassWhen detector) in
        push_if (negb valid)
          (mkIssue "semantic_detector_invalid_expression"
            (if String.eqb message "" then
               "Semantic detector " +:+ quote_id (det_ID detector) +:+ " has an invalid expression"
             else message) (det_SourceNodeID detector) "")
      else []
  | None => []
  end.

Definition detector_guard_issues (wf : Workflow) (index : semanticDagIndex) (detector : RecoverySemanticDetector)
  : option (list Issue) :=
  if negb (String.eqb (Action detector) "quarantine") then Some []
  else
    match reachableNodesWithout wf (det_SourceNodeID detector) with
    | None => None
    | Some reachable =>
        Some (flat_map (λ effectNodeID,
          push_if (String.eqb (det_SourceNodeID detector) effectNodeID || in_list reachable effectNodeID)
            (mkIssue "semantic_detector_does_not_guard_effect"
              ("Quarantine detector " +:+ quote_id (det_ID detector) +:+
               " must run on every path before recovery effect node " +:+ quote_id effectNodeID) effectNodeID ""))
          (guardedEffectIDs index))
    end.

Definition validateSemanticDetectors (wf : Workflow) (contract : RecoveryContract) (index : semanticDagIndex)
    (validExpression : option ExpressionValidator) : option (list Issue) :=
  option_flat_map (λ detector,
    guards ← detector_guard_issues wf index detector;
    Some (detector_source_issues index detector ++ detector_expression_issues validExpression detector ++ guards))
    (Detectors (Semantic contract)).

Definition validateSemanticFixtures (contract : RecoveryContract) (index : semanticDagIndex) : list Issue :=
  flat_map (λ fixture,
    let source := fix_SourceNodeID fixture in
    if String.eqb (default "" (ID <$> nodeByID index !! source)) "" then
      [mkIssue "semantic_fixture_unknown_source"
        ("Semantic evaluation fixture " +:+ quote_id (fix_ID fixture) +:+ " references an unknown source node: " +:+
         source) source ""]
    else push_if (negb (in_list (detectorSources index) source))
      (mkIssue "semantic_fixture_without_detector"
        ("Semantic evaluation fixture " +:+ quote_id (fix_ID fixture) +:+ " has no detector on source node " +:+
         quote_id source) source "")) (EvaluationFixtures (Semantic contract)).

Definition replay_detector_issues (outcomes : list SemanticFixtureOutcome) (detector : RecoverySemanticDetector)
  : list Issue :=
  let own := filter (λ o, out_SourceNodeID o = det_SourceNodeID detector) outcomes in
  let hasPass := existsb (λ o, String.eqb (out_Expected o) "pass" && String.eqb (Actual o) "pass") own in
  let hasViolation := existsb (λ o, String.eqb (out_Expected o) "violation" &&
                                    in_list (ViolationDetectorIDs o) (det_ID detector)) own in
  push_if (negb hasPass)
    (mkIssue "semantic_detector_missing_pass_fixture"
      ("Semantic detector " +:+ quote_id (det_ID detector) +:+
       " requires a passing evaluation fixture for source node " +:+ quote_id (det_SourceNodeID detector))
      (det_SourceNodeID detector) "") ++
  push_if (negb hasViolation)
    (mkIssue "semantic_detector_missing_violation_fixture"
      ("Semantic detector " +:+ quote_id (det_ID detector) +:+
       " requires a violation fixture that exercises that detector") (det_SourceNodeID detector) "").

Definition validateSemanticReplay (contract : RecoveryContract) (replayFixtures : option SemanticFixtureEvaluator)
  : list Issue :=
  match replayFixtures with
  | None => []
  | Some replay =>
      let outcomes := replay contract in
      flat_map (λ o, push_if (negb (Passed o))
        (mkIssue "semantic_fixture_mismatch"
          ("Semantic evaluation fixture " +:+ quote_id (out_ID o) +:+ " expected " +:+ out_Expected o +:+
           " but evaluated as " +:+ Actual o) (out_SourceNodeID o) "")) outcomes ++
      flat_map (replay_detector_issues outcomes) (Detectors (Semantic contract))
  end.

(** The contract whose rules apply. *)
Definition semantic_contract (wf : Workflow) : option RecoveryContract :=
  match Recovery wf with
  | Some recovery =>
      match Contract recovery with
      | Some contract => if String.eqb (Version contract) "2" then Some contract else None
      | None => None
      end
  | None => None
  end.

(** [None] is the exhaustion of a search's fuel. *)
Definition validateSemanticContractDAG (wf : Workflow) (validExpression : option ExpressionValidator)
    (replayFixtures : option SemanticFixtureEvaluator) : option (list Issue) :=
  match semantic_contract wf with
  | None => Some []
  | Some contract =>
      let '(index, undeclared) := indexSemanticDag wf contract in
      detectors ← validateSemanticDetectors wf contract index validExpression;
      Some (undeclared ++ detectors ++ validateSemanticFixtures contract index ++
            validateSemanticReplay contract replayFixtures)
  end.
End dag.
