(* ===== verification/Runtime.v ===== *)
(** The run engine (engine/readiness.go, downstream.go, complete.go,
    terminalfailure.go, waiting.go, subworkflow.go, cancel.go, redrive.go, start.go and
    the compare-and-set statements of store/queries): one run, its node rows and its
    timeline. Every operation is one transaction under the run's completion lock. *)
From S2P Require Import Prelude GoStrings GoFloat GoAny Json JsValue Expression Redact.
From S2P Require Import SafePersist Template Graph RecoveryContract.
Local Open Scope string_scope.
Local Open Scope list_scope.

(** ** Rows *)

Inductive node_status :=
| Pending | Queued | Running | Waiting | Succeeded | Skipped | Failed | Cancelled.
Inductive run_status :=
| RunRunning | RunWaiting | RunSucceeded | RunFailed | RunCancelled | RunTimedOut.
#[export] Instance node_status_eq_dec : EqDecision node_status.
Proof. solve_decision. Defined.
#[export] Instance run_status_eq_dec : EqDecision run_status.
Proof. solve_decision. Defined.

(** The text of the [status] columns. *)
Definition node_status_text (s : node_status) : string :=
  match s with
  | Pending => "pending" | Queued => "queued" | Running => "running" | Waiting => "waiting"
  | Succeeded => "succeeded" | Skipped => "skipped" | Failed => "failed" | Cancelled => "cancelled"
  end.
Definition run_status_text (s : run_status) : string :=
  match s with
  | RunRunning => "running" | RunWaiting => "waiting" | RunSucceeded => "succeeded"
  | RunFailed => "failed" | RunCancelled => "cancelled" | RunTimedOut => "timed_out"
  end.

(** A row of [run_nodes]; the JSON columns hold their text. *)
Record RunNode := mkRunNode
  { Status : node_status; Attempts : Z; StateJson : string; ErrorJson : string }.
Record Event := mkEvent { ev_NodeID : string; ev_Type : string; ev_At : Z }.

(** The row of [runs] with the rows that belong to it: nodes, timeline (oldest
    first), the notifications sent to the workers and the dead letters. *)
Record Run := mkRun
  { RunStatus : run_status; RunNodes : gmap string RunNode; RunOutput : option string;
    RunEvents : list Event; Wakes : list nat; DeadLetters : list (string * Z) }.

Definition set_status (s : run_status) (r : Run) : Run :=
  mkRun s (RunNodes r) (RunOutput r) (RunEvents r) (Wakes r) (DeadLetters r).
Definition set_nodes (ns : gmap string RunNode) (r : Run) : Run :=
  mkRun (RunStatus r) ns (RunOutput r) (RunEvents r) (Wakes r) (DeadLetters r).
Definition add_event (nodeID type : string) (at_ : Z) (r : Run) : Run :=
  mkRun (RunStatus r) (RunNodes r) (RunOutput r) (RunEvents r ++ [mkEvent nodeID type at_]) (Wakes r)
    (DeadLetters r).
Definition add_wake (ready : nat) (r : Run) : Run :=
  mkRun (RunStatus r) (RunNodes r) (RunOutput r) (RunEvents r) (Wakes r ++ [ready]) (DeadLetters r).
Definition add_dead_letter (nodeID : string) (attempt : Z) (r : Run) : Run :=
  mkRun (RunStatus r) (RunNodes r) (RunOutput r) (RunEvents r) (Wakes r)
    (DeadLetters r ++ [(nodeID, attempt)]).

(** An UPDATE of one node guarded by its status: [None] when it matches no row. *)
Definition cas_node (guard_ : RunNode → bool) (f : RunNode → RunNode) (nodeID : string) (r : Run)
  : option Run :=
  match RunNodes r !! nodeID with
  | Some row => if guard_ row then Some (set_nodes (<[nodeID := f row]> (RunNodes r)) r) else None
  | None => None
  end.
Definition has_status (s : node_status) (row : RunNode) : bool := bool_decide (Status row = s).

(** ** Readiness (engine/readiness.go) *)

Abbreviation statuses_map := (gmap string node_status).

Definition openNodeStatuses (s : node_status) : bool :=
  match s with Pending | Queued | Running | Waiting => true | _ => false end.

Definition edge_satisfied (statuses : statuses_map) (edge : Edge) : bool :=
  let from := statuses !! From edge in
  if OnError edge then bool_decide (from = Some Failed)
  else bool_decide (from = Some Succeeded) || bool_decide (from = Some Skipped).
Definition depsSatisfied (wf : Workflow) (nodeID : string) (statuses : statuses_map) : bool :=
  forallb (λ edge, negb (String.eqb (To edge) nodeID) || edge_satisfied statuses edge) (Edges wf).

Definition edge_doomed (statuses : statuses_map) (edge : Edge) : bool :=
  let from := statuses !! From edge in
  if OnError edge then bool_decide (from = Some Succeeded) || bool_decide (from = Some Skipped)
  else bool_decide (from = Some Failed).
Definition depsDoomed (wf : Workflow) (nodeID : string) (statuses : statuses_map) : bool :=
  existsb (λ edge, String.eqb (To edge) nodeID && edge_doomed statuses edge) (Edges wf).

Definition nodeFailureHandled (wf : Workflow) (nodeID : string) : bool :=
  existsb (λ edge, OnError edge && String.eqb (From edge) nodeID) (Edges wf).

(** ** The context of expressions (engine/dispatch.go) *)

(** A column decoded into a map: empty when it is not an object. *)
Definition decode_map (raw : string) : obj :=
  match Unmarshal raw with Some (AObj o) => o | _ => [] end.
Definition row_context (row : RunNode) : any :=
  let state := decode_map (StateJson row) in
  let output := match obj_get state "output" with None | Some ANil => AObj [] | Some v => v end in
  AObj [("status", AStr (node_status_text (Status row))); ("attempts", AF64 (f_of_Z (Attempts row)));
        ("state", AObj state); ("output", output); ("error", default ANil (Unmarshal (ErrorJson row)))].
Definition runContextFromRows (rows : gmap string RunNode) : obj :=
  map (λ kv, (kv.1, row_context kv.2)) (map_to_list rows).

(** [safePersist] (engine/bound.go): a cap that is not positive never truncates. *)
Definition safePersist (value : any) (max : Z) : string :=
  default "{}" (SafePersistPayload value
    (mkPersistOptions [] (if (max <=? 0)%Z then PersistUnbounded else max))).
Definition stateJSONMaxBytes : Z := 1000000.
Definition deadLetterErrorMaxBytes : Z := 64000.

Definition skip_state (reason : string) : any :=
  AObj [("skipped", AObj [("reason", AStr reason)])].
Definition edge_reason : string := "Condition not met".
Definition branch_reason : string := "Branch not taken".

(** ** Outputs (engine/outputs.go) *)

(** One match of [persistenceOnlyRef] at the head: the bytes after it. *)
Fixpoint strip_fold (p l : list ascii) : option (list ascii) :=
  match p with
  | [] => Some l
  | c :: p' =>
      match l with
      | d :: l' =>
          if Ascii.eqb (lower_byte d) c then strip_fold p' l'
          else if Ascii.eqb c "s" then
            match strip_prefix [chr 197; chr 191] l with Some r => strip_fold p' r | None => None end
          else None
      | [] => None
      end
  end.
Definition masked_ref (l : list ascii) : option (list ascii) :=
  match strip_prefix (bytes "{{") l with
  | None => None
  | Some l1 =>
      let '(_, l2) := span is_re_space l1 in
      match (match strip_fold (bytes "secret") l2 with Some r => Some r | None => strip_fold (bytes "env") l2 end) with
      | Some (d :: l3) =>
          if Ascii.eqb d "." then
            let '(name, l4) := span not_close l3 in
            match name with [] => None | _ => strip_prefix (bytes "}}") l4 end
          else None
      | _ => None
      end
  end.
Fixpoint mask_refs (fuel : nat) (l : list ascii) : list ascii :=
  match fuel, l with
  | S f, c :: l' =>
      match masked_ref l with
      | Some rest => bytes "[redacted]" ++ mask_refs f rest
      | None => c :: mask_refs f l'
      end
  | _, _ => []
  end.

Definition projectOutputs (upper : string → string) (spec : list (string * string)) (runContext runInput : obj)
  : obj :=
  let scope := [("context", AObj runContext); ("inputs", AObj runInput)] in
  map (λ kv, let masked := of_bytes (mask_refs (len kv.2) (bytes kv.2)) in
             (kv.1, match RenderTemplate upper (AStr masked) scope with
                    | Ok rendered => rendered | Err _ => AStr "" end)) spec.

(** ** Terminal transitions *)

Definition DemoteQueuedRunNodes (r : Run) : Run :=
  set_nodes ((λ row, if has_status Queued row
                     then mkRunNode Pending 0 (StateJson row) (ErrorJson row) else row) <$> RunNodes r) r.

Definition flipRunTerminal (status : run_status) (causeAt : Z) (outputJSON : option string) (r : Run) : Run :=
  if bool_decide (RunStatus r = RunRunning) then
    let r := mkRun status (RunNodes r) outputJSON (RunEvents r) (Wakes r) (DeadLetters r) in
    let r := if bool_decide (status = RunFailed) then DemoteQueuedRunNodes r else r in
    add_event "" ("run." +:+ run_status_text status) (causeAt + 1) r
  else r.

(** ** Scheduling (engine/downstream.go) *)

Definition QueueRunNode (nodeID : string) (r : Run) : option Run :=
  cas_node (has_status Pending) (λ row, mkRunNode Queued 1 (StateJson row) (ErrorJson row)) nodeID r.
Definition SkipRunNode (state nodeID : string) (r : Run) : option Run :=
  cas_node (has_status Pending) (λ row, mkRunNode Skipped (Attempts row) state (ErrorJson row)) nodeID r.

(** Roots are unconditional; an evaluation error reads as false. *)
Definition condition_holds (runContext : obj) (edge : Edge) : bool :=
  if String.eqb (Condition edge) "" then true
  else match EvaluateExpression (Condition edge) (mkScope (AObj runContext) (AObj [])) with
       | Some (Ok result) => result
       | _ => false
       end.
Definition edgeAllowsRun (wf : Workflow) (nodeID : string) (runContext : option obj) : bool :=
  let incoming := filter (λ edge, To edge = nodeID) (Edges wf) in
  existsb (condition_holds (default [] runContext)) incoming || bool_decide (incoming = []).

Record scan := mkScan
  { sc_run : Run; sc_statuses : statuses_map; sc_context : option obj; sc_queued : nat; sc_changed : bool }.

Definition skipped_entry (reason : string) : any :=
  AObj [("status", AStr "skipped"); ("attempts", AF64 (f_of_Z 0)); ("state", skip_state reason);
        ("output", AObj []); ("error", ANil)].

(** The body of the loop over the nodes of the workflow. *)
Definition scan_node (wf : Workflow) (now : Z) (s : scan) (node : Node) : scan :=
  let id := ID node in
  if negb (bool_decide (sc_statuses s !! id = Some Pending)) then s
  else
    let doomed := depsDoomed wf id (sc_statuses s) in
    if negb doomed && negb (depsSatisfied wf id (sc_statuses s)) then s
    else if doomed || negb (edgeAllowsRun wf id (sc_context s)) then
      let reason := if doomed then branch_reason else edge_reason in
      let state := default "{}" (Marshal (skip_state reason)) in
      let run := match SkipRunNode state id (sc_run s) with
                 | Some r => add_event id "node.skipped" now r
                 | None => sc_run s
                 end in
      mkScan run (<[id := Skipped]> (sc_statuses s))
        ((λ c, obj_set c id (skipped_entry reason)) <$> sc_context s) (sc_queued s) true
    else match QueueRunNode id (sc_run s) with
    | None => s
    | Some r => mkScan (add_event id "node.queued" now r) (<[id := Queued]> (sc_statuses s))
                  (sc_context s) (S (sc_queued s)) true
    end.

(** [for changed := true; changed;]: [None] when the fuel runs out. *)
Definition clear_changed (s : scan) : scan :=
  mkScan (sc_run s) (sc_statuses s) (sc_context s) (sc_queued s) false.
Fixpoint scan_loop (fuel : nat) (wf : Workflow) (now : Z) (s : scan) : option scan :=
  match fuel with
  | 0 => None
  | S f =>
      let s' := fold_left (scan_node wf now) (Nodes wf) (clear_changed s) in
      if sc_changed s' then scan_loop f wf now s' else Some s'
  end.
(** Every pass but the last settles a node. *)
Definition scan_fuel (wf : Workflow) : nat := S (length (Nodes wf)).

Definition appendStatusChecked (causeAt : Z) (r : Run) : Run :=
  add_event "" "run.status_checked" (causeAt + 2) r.

(** What follows a scan that queued nothing: the roll-up of the run. *)
Definition settle (upper : string → string) (wf : Workflow) (runInput : obj) (completedAt : Z) (s : scan)
  : Run * bool :=
  let entries := map_to_list (sc_statuses s) in
  let failed kv := bool_decide (kv.2 = Failed) in
  let anyUnhandledFailed := existsb (λ kv, failed kv && negb (nodeFailureHandled wf kv.1)) entries in
  let anyOpen := existsb (λ kv, openNodeStatuses kv.2) entries in
  let run := sc_run s in
  if anyUnhandledFailed then
    (appendStatusChecked completedAt (flipRunTerminal RunFailed completedAt None run), true)
  else if (0 <? length entries)%nat && negb anyOpen then
    let outputJSON := match Outputs wf with
                      | [] => None
                      | spec => Marshal (AObj (projectOutputs upper spec (default [] (sc_context s)) runInput))
                      end in
    (appendStatusChecked completedAt (flipRunTerminal RunSucceeded completedAt outputJSON run), true)
  else (appendStatusChecked completedAt run, false).

Definition needFull (wf : Workflow) : bool :=
  (0 <? length (Outputs wf))%nat || existsb (λ e, negb (String.eqb (Condition e) "")) (Edges wf).

(** [None] is the exhaustion of the scan's fuel. *)
Definition scheduleDownstream (upper : string → string) (wf : Workflow) (runInput : obj) (now completedAt : Z)
    (r : Run) : option (Run * bool) :=
  if negb (bool_decide (RunStatus r = RunRunning)) then Some (r, false)
  else
    let context := if needFull wf then Some (runContextFromRows (RunNodes r)) else None in
    match scan_loop (scan_fuel wf) wf now (mkScan r (Status <$> RunNodes r) context 0 false) with
    | None => None
    | Some s =>
        if (0 <? sc_queued s)%nat then Some (add_wake (sc_queued s) (sc_run s), false)
        else Some (settle upper wf runInput completedAt s)
    end.

(** ** The operations *)

(** A transaction commits a new row, or skips the commit when its compare-and-set
    lost; the outer [None] is the exhaustion of a scan's fuel. *)
Inductive tx := Committed (r : Run) (terminal : bool) | SkipCommit.

Definition from_schedule (o : option (Run * bool)) : option tx :=
  match o with Some (r, terminal) => Some (Committed r terminal) | None => None end.

(** The claim of a worker. The run's status is read by the statement that locks the
    row, an earlier one than the update, so the update does not depend on it. *)
Definition MarkLockedNodesRunning (nodeID : string) (r : Run) : tx :=
  match cas_node (has_status Queued)
          (λ row, mkRunNode Running (Attempts row) (StateJson row) (ErrorJson row)) nodeID r with
  | Some r => Committed r false
  | None => SkipCommit
  end.

(** *** Completion (engine/complete.go) *)

(** The plan of a router: the chosen node, its candidates and its successors. *)
Record RouterExecution := mkRouter
  { ChosenNodeID : string; Candidates : list string; SuccessorIDs : list string }.
(** Its construction in engine/dispatch.go, from the decision and the candidates. *)
Definition router_plan (wf : Workflow) (nodeID chosen : string) (candidates : list string) : RouterExecution :=
  mkRouter chosen candidates (To <$> filter (λ edge, From edge = nodeID) (Edges wf)).

Definition CompleteRunNode (state nodeID : string) (r : Run) : option Run :=
  cas_node (has_status Running) (λ row, mkRunNode Succeeded (Attempts row) state (ErrorJson row)) nodeID r.

Definition router_reason (nodeID chosen : string) : string :=
  "Router " +:+ nodeID +:+ " chose " +:+ chosen.

(** [beforeDownstream]: the direct successors that lost are skipped. *)
Definition skip_losers (now : Z) (nodeID : string) (plan : RouterExecution) (r : Run) : Run :=
  let chosen := ChosenNodeID plan in
  if String.eqb chosen "" then r
  else
    let state := safePersist (skip_state (router_reason nodeID chosen)) stateJSONMaxBytes in
    fold_left (λ r candidate,
      if String.eqb candidate chosen || negb (in_list (SuccessorIDs plan) candidate) then r
      else match SkipRunNode state candidate r with
           | Some r => add_event candidate "node.skipped" now r
           | None => r
           end) (Candidates plan) r.

Section operations.
Context (upper : string → string) (wf : Workflow) (runInput : obj).

(** [persistSemanticViolations]: an event per violation; with an open quarantine the
    outcome is written over the run's status. *)
Definition persistSemanticViolations (now : Z) (nodeID : string) (violations : nat) (openQuarantines : bool)
    (r : Run) : Run * bool :=
  match violations with
  | 0 => (r, false)
  | _ =>
      let r := Nat.iter violations (add_event nodeID "recovery.semantic_violation" now) r in
      (if openQuarantines then set_status RunWaiting r else r, openQuarantines)
  end.

(** [violations] counts what the semantic detectors found in the output,
    [openQuarantines] tells whether quarantined cases of the run are open. *)
Definition completeNode (now : Z) (nodeID : string) (output : any) (plan : option RouterExecution)
    (violations : nat) (openQuarantines : bool) (r : Run) : option tx :=
  let output := match output with ANil => AObj [] | _ => output end in
  let state := safePersist (AObj [("output", output)]) stateJSONMaxBytes in
  match CompleteRunNode state nodeID r with
  | None => Some SkipCommit
  | Some r =>
      let r := match plan with
               | Some _ => add_event nodeID "decision.made" now r
               | None => add_event nodeID "node.succeeded" now r
               end in
      let '(r, quarantined) := persistSemanticViolations now nodeID violations openQuarantines r in
      let r := match plan with Some p => skip_losers now nodeID p r | None => r end in
      if quarantined then Some (Committed r false)
      else from_schedule (scheduleDownstream upper wf runInput now now r)
  end.

(** *** Failure (engine/terminalfailure.go) *)

Definition FailRunNode (error nodeID : string) (r : Run) : option Run :=
  cas_node (has_status Running) (λ row, mkRunNode Failed (Attempts row) (StateJson row) error) nodeID r.

Definition failNodeTx (now : Z) (nodeID : string) (attempt : Z) (serr : any) (r : Run) : option tx :=
  if negb (bool_decide (RunStatus r = RunRunning)) && negb (bool_decide (RunStatus r = RunFailed))
  then Some SkipCommit
  else match FailRunNode (safePersist serr deadLetterErrorMaxBytes) nodeID r with
  | None => Some SkipCommit
  | Some r =>
      if bool_decide (RunStatus r = RunRunning) && nodeFailureHandled wf nodeID then
        from_schedule (scheduleDownstream upper wf runInput now now (add_event nodeID "node.failed" now r))
      else
        let r := add_event nodeID "node.failed" now (add_dead_letter nodeID attempt r) in
        if bool_decide (RunStatus r = RunFailed) then Some (Committed r false)
        else Some (Committed (flipRunTerminal RunFailed now None r) true)
  end.

(** The retry branch of [RetryOrFail]: the row alone decides. *)
Definition RequeueRunNodeForRetry (now : Z) (nodeID : string) (nextAttempt : Z) (r : Run) : tx :=
  match cas_node (has_status Running)
          (λ row, mkRunNode Queued nextAttempt (StateJson row) (ErrorJson row)) nodeID r with
  | Some r => Committed (add_event nodeID "node.retry" now r) false
  | None => SkipCommit
  end.

(** [retryable] is the verdict of the retry policy on the error. *)
Definition RetryOrFail (now : Z) (nodeID : string) (attempt maxAttempts : Z) (retryable : bool) (serr : any)
    (r : Run) : option tx :=
  if (maxAttempts <=? attempt)%Z || negb retryable then failNodeTx now nodeID attempt serr r
  else Some (RequeueRunNodeForRetry now nodeID (attempt + 1) r).

(** *** Waiting (engine/waiting.go) *)

Definition MarkNodeWaiting (now : Z) (nodeID : string) (metadata : obj) (r : Run) : tx :=
  match cas_node (has_status Running)
          (λ row, mkRunNode Waiting (Attempts row)
             (safePersist (AObj [("waiting", AObj metadata)]) stateJSONMaxBytes) (ErrorJson row)) nodeID r with
  | Some r => Committed (add_event nodeID "node.waiting" now r) false
  | None => SkipCommit
  end.

(** [state_json #>> '{section,key}']: the text of a JSON value, no text for null. *)
Definition state_text (section key : string) (row : RunNode) : option string :=
  match obj_get (decode_map (StateJson row)) section with
  | Some (AObj w) =>
      match obj_get w key with
      | Some (AStr text) => Some text
      | None | Some ANil => None
      | Some v => Marshal v
      end
  | _ => None
  end.
Definition waiting_with (key text : string) (row : RunNode) : bool :=
  has_status Waiting row && bool_decide (state_text "waiting" key row = Some text).
(** The generation of an approval's deadline that no timeout has handled. *)
Definition approval_due (deadlineAt : string) (row : RunNode) : bool :=
  waiting_with "kind" "approval" row && bool_decide (state_text "waiting" "deadlineAt" row = Some deadlineAt) &&
  bool_decide (state_text "waiting" "timeoutState" row = None).

(** The end of [ResumeRunAs], after the token and the input were accepted; its
    error is [ErrResumeConflict]. *)
Definition ResumeNode (now : Z) (nodeID : string) (output : obj) (r : Run) : option tx :=
  match cas_node (λ row, has_status Waiting row && negb (bool_decide (state_text "waiting" "kind" row = Some "tool_approval")))
          (λ row, mkRunNode Succeeded (Attempts row)
             (safePersist (AObj [("output", AObj output)]) stateJSONMaxBytes) (ErrorJson row)) nodeID r with
  | Some r => from_schedule (scheduleDownstream upper wf runInput now now (add_event nodeID "node.resumed" now r))
  | None => Some SkipCommit
  end.

(** [processApprovalTimeout]: the policy [escalate] with an assignee rewrites the
    checkpoint, every other fails the node and the run. [current] tells that the
    deadline of the row is the instant the wake-up was armed for; a stale delivery only
    re-arms it. *)
Definition waiting_string (waiting : obj) (key : string) : string :=
  match obj_get waiting key with Some (AStr s) => s | _ => "" end.
Definition escalated_state (state waiting : obj) (escalateTo previous escalatedAt : string) : any :=
  let waiting := obj_set (obj_set (obj_set waiting "assignee" (AStr escalateTo))
                   "timeoutState" (AStr "escalated")) "escalatedAt" (AStr escalatedAt) in
  let waiting := if String.eqb previous "" then waiting else obj_set waiting "escalatedFrom" (AStr previous) in
  AObj (obj_set state "waiting" (AObj waiting)).
Definition approval_error (policy deadlineAt : string) : any :=
  let autoRejected := String.eqb policy "auto_reject" in
  AObj [("code", AStr (if autoRejected then "approval_auto_rejected" else "approval_timed_out"));
        ("reason", AStr (if autoRejected then "Approval automatically rejected at deadline"
                         else "Approval deadline expired"));
        ("deadlineAt", AStr deadlineAt); ("onTimeout", AStr policy)].
Definition processApprovalTimeout (now : Z) (nodeID escalatedAt : string) (current : bool) (r : Run) : tx :=
  match RunNodes r !! nodeID with
  | None => SkipCommit
  | Some row =>
      let state := decode_map (StateJson row) in
      let waiting := match obj_get state "waiting" with Some (AObj w) => w | _ => [] end in
      let deadlineAt := waiting_string waiting "deadlineAt" in
      let policy := waiting_string waiting "onTimeout" in
      let escalateTo := TrimSpace (waiting_string waiting "escalateTo") in
      if negb (bool_decide (RunStatus r = RunRunning)) || negb current then SkipCommit
      else if String.eqb policy "escalate" && negb (String.eqb escalateTo "") then
        let next := escalated_state state waiting escalateTo (TrimSpace (waiting_string waiting "assignee")) escalatedAt in
        match cas_node (approval_due deadlineAt)
                (λ row, mkRunNode Waiting (Attempts row) (safePersist next stateJSONMaxBytes) (ErrorJson row))
                nodeID r with
        | Some r => Committed (add_event nodeID "approval.escalated" now r) false
        | None => SkipCommit
        end
      else
        let policy := if String.eqb policy "auto_reject" then policy else "fail" in
        let eventType := if String.eqb policy "auto_reject" then "approval.auto_rejected" else "approval.timed_out" in
        match cas_node (approval_due deadlineAt)
                (λ row, mkRunNode Failed (Attempts row) (StateJson row)
                   (safePersist (approval_error policy deadlineAt) deadLetterErrorMaxBytes)) nodeID r with
        | Some r => Committed (flipRunTerminal RunFailed now None (add_event nodeID eventType now r)) true
        | None => SkipCommit
        end
  end.

(** [requeueToolApproval]: the decision of a tool approval puts its step back in the
    queue with the attempt it had. *)
Definition requeueToolApproval (now : Z) (nodeID approvalID eventType : string) (r : Run) : tx :=
  match cas_node (λ row, waiting_with "kind" "tool_approval" row &&
                         bool_decide (state_text "waiting" "approvalId" row = Some approvalID))
          (λ row, mkRunNode Queued (Attempts row) (StateJson row) (ErrorJson row)) nodeID r with
  | Some r => Committed (add_wake 1 (add_event nodeID eventType now r)) false
  | None => SkipCommit
  end.

Definition failInvalidSnapshotTimer (now : Z) (nodeID : string) (attempt : Z) (serr : any) (r : Run) : tx :=
  if negb (bool_decide (RunStatus r = RunRunning)) then SkipCommit
  else match cas_node (waiting_with "kind" "timer")
          (λ row, mkRunNode Failed (Attempts row) (StateJson row) (safePersist serr deadLetterErrorMaxBytes))
          nodeID r with
  | Some r =>
      Committed (flipRunTerminal RunFailed now None
        (add_event nodeID "node.failed" now (add_dead_letter nodeID attempt r))) true
  | None => SkipCommit
  end.

(** *** The parent of a subworkflow (engine/subworkflow.go) *)

(** [parentRunning] is the parent's status as read before the transaction. *)
Definition settleParentOnChildSuccess (now : Z) (nodeID : string) (childOutput : obj) (childRunID : string)
    (parentRunning : bool) (r : Run) : option tx :=
  let state := safePersist (AObj [("output", AObj childOutput);
                                  ("subworkflow", AObj [("childRunId", AStr childRunID)])]) stateJSONMaxBytes in
  match cas_node (waiting_with "childRunId" childRunID)
          (λ row, mkRunNode Succeeded (Attempts row) state (ErrorJson row)) nodeID r with
  | Some r =>
      let r := add_event nodeID "subworkflow.completed" now r in
      if parentRunning then from_schedule (scheduleDownstream upper wf runInput now now r)
      else Some (Committed r false)
  | None => Some SkipCommit
  end.

Definition settleParentOnChildFailure (now : Z) (nodeID childRunID : string) (serr : any) (parentRunning : bool)
    (r : Run) : tx :=
  match cas_node (waiting_with "childRunId" childRunID)
          (λ row, mkRunNode Failed (Attempts row) (StateJson row) (safePersist serr deadLetterErrorMaxBytes))
          nodeID r with
  | Some r =>
      let r := add_event nodeID "node.failed" now r in
      Committed (if parentRunning then flipRunTerminal RunFailed now None r else r) parentRunning
  | None => SkipCommit
  end.

(** The recheck after a lost compare-and-set: a checkpoint this child already settled
    is scheduled, or failed, again. *)
Definition error_text (key : string) (row : RunNode) : option string :=
  match obj_get (decode_map (ErrorJson row)) key with Some (AStr s) => Some s | _ => None end.
Definition repairParentOnChildSuccess (now : Z) (nodeID childRunID : string) (r : Run) : option tx :=
  match RunNodes r !! nodeID with
  | Some row =>
      if has_status Succeeded row && bool_decide (state_text "subworkflow" "childRunId" row = Some childRunID) &&
         bool_decide (RunStatus r = RunRunning)
      then from_schedule (scheduleDownstream upper wf runInput now now r)
      else Some SkipCommit
  | None => Some SkipCommit
  end.
Definition repairParentOnChildFailure (now : Z) (nodeID childRunID : string) (r : Run) : tx :=
  match RunNodes r !! nodeID with
  | Some row =>
      if has_status Failed row && bool_decide (error_text "childRunId" row = Some childRunID) &&
         bool_decide (RunStatus r = RunRunning)
      then Committed (flipRunTerminal RunFailed now None r) true
      else SkipCommit
  | None => SkipCommit
  end.

(** *** The release of a quarantine (engine/semanticresolution.go) *)

(** [applySemanticResolution] on the run, after its cases, artifacts and grant were
    checked: [replacement] is the new state of the source node, [quarantine] tells a
    quarantined case from an observed one, [blocked] that quarantined cases remain. *)
Definition applySemanticResolution (now : Z) (nodeID : string) (replacement : option string)
    (quarantine blocked : bool) (r : Run) : option tx :=
  let conflict := if quarantine then negb (bool_decide (RunStatus r = RunWaiting))
                  else negb (bool_decide (replacement = None)) in
  if conflict then Some SkipCommit
  else match (match replacement with
              | Some state => cas_node (has_status Succeeded)
                                (λ row, mkRunNode Succeeded (Attempts row) state (ErrorJson row)) nodeID r
              | None => Some r
              end) with
  | None => Some SkipCommit
  | Some r =>
      if bool_decide (RunStatus r = RunWaiting) && negb blocked then
        from_schedule (scheduleDownstream upper wf runInput now now
          (add_event nodeID "recovery.semantic_resolved" now (set_status RunRunning r)))
      else Some (Committed (add_event nodeID "recovery.semantic_resolved" now r) false)
  end.

(** *** Cancellation (engine/cancel.go) *)

Definition terminal_run (s : run_status) : bool :=
  match s with RunSucceeded | RunFailed | RunCancelled | RunTimedOut => true | _ => false end.

(** [SkipCommit] is [ErrRunAlreadyTerminal]. *)
Definition CancelRun (now : Z) (reason : any) (r : Run) : tx :=
  let state := safePersist (AObj [("cancelled", match reason with ANil => AObj [] | _ => reason end)]) stateJSONMaxBytes in
  if terminal_run (RunStatus r) then SkipCommit
  else
    let cancel row := match Status row with
                      | Pending | Queued | Waiting => mkRunNode Cancelled (Attempts row) state (ErrorJson row)
                      | _ => row
                      end in
    Committed (add_event "" "run.cancelled" now (set_nodes (cancel <$> RunNodes r) (set_status RunCancelled r))) true.

(** *** Redrive (engine/redrive.go) *)

(** [SkipCommit] is [ErrRedriveConflict]; [rerunExists] refuses the redrive of a node
    that was rerun. *)
Definition RedriveRunNode (now : Z) (nodeID : string) (rerunExists : bool) (r : Run) : tx :=
  if rerunExists then SkipCommit
  else match cas_node (has_status Failed)
          (λ row, mkRunNode Queued 1 (StateJson row) (ErrorJson row)) nodeID r with
  | Some r =>
      let r := if bool_decide (RunStatus r = RunFailed) then set_status RunRunning r else r in
      Committed (add_wake 1 (add_event nodeID "node.redriven" now r)) false
  | None => SkipCommit
  end.
End operations.

(** *** Start (engine/start.go) *)

(** The nodes without an incoming edge. *)
Definition is_root (wf : Workflow) (id : string) : bool :=
  negb (existsb (λ e, String.eqb (To e) id) (Edges wf)).

Definition start_row (wf : Workflow) (node : Node) : RunNode :=
  if is_root wf (ID node) then mkRunNode Queued 1 "{}" "" else mkRunNode Pending 0 "{}" "".

(** [StartRun] without a rerun seed or a draft scope: the skeleton of the run. *)
Definition StartRun (wf : Workflow) (now : Z) : Run :=
  let rows := fold_left (λ m node, <[ID node := start_row wf node]> m) (Nodes wf) ∅ in
  let roots := filter (λ node, is_root wf (ID node) = true) (Nodes wf) in
  mkRun RunRunning rows None
    (mkEvent "" "run.started" now ::
     imap (λ i node, mkEvent (ID node) "node.queued" (now + Z.of_nat (S i))) roots)
    [Nat.max (length roots) 1] [].

(** ** The transitions of a run *)

Section step.
Context (upper : string → string) (wf : Workflow) (runInput : obj).

(** What the workers, the sweepers, the subworkflow handoff and the operators do. The
    flag of a handoff is the parent's status at the time of the transaction. *)
Inductive step (r : Run) : Run → Prop :=
| step_claim nodeID r' t : MarkLockedNodesRunning nodeID r = Committed r' t → step r r'
| step_complete now nodeID output decision violations q r' t :
    completeNode upper wf runInput now nodeID output
      ((λ d, router_plan wf nodeID d.1 d.2) <$> decision) violations q r = Some (Committed r' t) → step r r'
| step_fail now nodeID attempt max retryable serr r' t :
    RetryOrFail upper wf runInput now nodeID attempt max retryable serr r = Some (Committed r' t) → step r r'
| step_wait now nodeID metadata r' t : MarkNodeWaiting now nodeID metadata r = Committed r' t → step r r'
| step_resume now nodeID output r' t :
    ResumeNode upper wf runInput now nodeID output r = Some (Committed r' t) → step r r'
| step_approval now nodeID at_ current r' t :
    processApprovalTimeout now nodeID at_ current r = Committed r' t → step r r'
| step_tool_approval now nodeID approvalID type r' t :
    requeueToolApproval now nodeID approvalID type r = Committed r' t → step r r'
| step_timer now nodeID attempt serr r' t :
    failInvalidSnapshotTimer now nodeID attempt serr r = Committed r' t → step r r'
| step_child_success now nodeID out child r' t :
    settleParentOnChildSuccess upper wf runInput now nodeID out child (bool_decide (RunStatus r = RunRunning)) r
      = Some (Committed r' t) → step r r'
| step_child_failure now nodeID child serr r' t :
    settleParentOnChildFailure now nodeID child serr (bool_decide (RunStatus r = RunRunning)) r = Committed r' t →
    step r r'
| step_repair_success now nodeID child r' t :
    repairParentOnChildSuccess upper wf runInput now nodeID child r = Some (Committed r' t) → step r r'
| step_repair_failure now nodeID child r' t :
    repairParentOnChildFailure now nodeID child r = Committed r' t → step r r'
| step_resolve now nodeID replacement quarantine blocked r' t :
    applySemanticResolution upper wf runInput now nodeID replacement quarantine blocked r
      = Some (Committed r' t) → step r r'
| step_cancel now reason r' t : CancelRun now reason r = Committed r' t → step r r'.

(** The operator's redrive besides. *)
Inductive step_or_redrive (r : Run) : Run → Prop :=
| sr_step r' : step r r' → step_or_redrive r r'
| sr_redrive now nodeID rerun r' t : RedriveRunNode now nodeID rerun r = Committed r' t → step_or_redrive r r'.

(** The one transition excluded from the histories below takes a cancelled run back
    to waiting: a node that finishes after the cancellation with a quarantined output. *)
Definition keeps_cancelled (r r' : Run) : Prop := RunStatus r = RunCancelled → RunStatus r' = RunCancelled.

Inductive reachable : Run → Prop :=
| reach_start now : reachable (StartRun wf now)
| reach_step r r' : reachable r → step r r' → keeps_cancelled r r' → reachable r'.
Inductive reachable_redriven : Run → Prop :=
| rr_start now : reachable_redriven (StartRun wf now)
| rr_step r r' : reachable_redriven r → step_or_redrive r r' → keeps_cancelled r r' → reachable_redriven r'.
End step.
