(* ===== verification/RuntimeFacts.v ===== *)
(** The run engine: the readiness scan terminates at a fixpoint; a running run of an
    acyclic workflow always has work in progress; a node starts only after its
    dependencies; a run succeeds only when nothing is left and every failure was
    handled. *)
From S2P Require Import Prelude GoStrings GoFloat GoAny Json SafePersist Template Graph GraphFacts Runtime RecoveryContract.
From stdpp Require Import relations.
Local Open Scope string_scope.
Local Open Scope list_scope.
Local Open Scope nat_scope.

(** ** The statuses of a run *)

Definition statuses_of (r : Run) : statuses_map := Status <$> RunNodes r.

Lemma cas_node_inv g f id r r' : cas_node g f id r = Some r' →
  ∃ row, RunNodes r !! id = Some row ∧ g row = true ∧ r' = set_nodes (<[id := f row]> (RunNodes r)) r.
Proof.
  unfold cas_node. destruct (RunNodes r !! id) as [row|]; [|done].
  destruct (g row) eqn:Hg; [|done]. intros [= <-]. by exists row.
Qed.

Lemma statuses_set id row r :
  statuses_of (set_nodes (<[id := row]> (RunNodes r)) r) = <[id := Status row]> (statuses_of r).
Proof. unfold statuses_of. cbn. by rewrite fmap_insert. Qed.

Lemma has_status_true s row : has_status s row = true ↔ Status row = s.
Proof. apply bool_decide_eq_true. Qed.

Lemma statuses_lookup r id s :
  statuses_of r !! id = Some s ↔ ∃ row, RunNodes r !! id = Some row ∧ Status row = s.
Proof. unfold statuses_of. rewrite lookup_fmap_Some. naive_solver. Qed.

(** ** The readiness scan on the statuses alone *)

Section scan.
Context (wf : Workflow) (now : Z).

Definition ready (st : statuses_map) (id : string) : Prop :=
  st !! id = Some Pending ∧ (depsDoomed wf id st = true ∨ depsSatisfied wf id st = true).

(** What the scan does to the statuses, with the number of nodes it queues. *)
Inductive evolve : statuses_map → nat → statuses_map → Prop :=
| ev_refl st : evolve st 0 st
| ev_skip st n id st' : ready st id → evolve (<[id := Skipped]> st) n st' → evolve st n st'
| ev_queue st n id st' :
    st !! id = Some Pending → depsDoomed wf id st = false → depsSatisfied wf id st = true →
    evolve (<[id := Queued]> st) n st' → evolve st (S n) st'.

Lemma evolve_trans st1 n st2 m st3 : evolve st1 n st2 → evolve st2 m st3 → evolve st1 (n + m) st3.
Proof. induction 1; intros; [done|eapply ev_skip|eapply ev_queue]; eauto. Qed.

(** The local statuses follow the rows. *)
Definition scan_ok (s : scan) : Prop := statuses_of (sc_run s) = sc_statuses s.

Lemma scan_node_spec s node : scan_ok s →
  let s' := scan_node wf now s node in
  scan_ok s' ∧ RunStatus (sc_run s') = RunStatus (sc_run s) ∧
  ((s' = s ∧ ¬ ready (sc_statuses s) (ID node)) ∨
   (sc_changed s' = true ∧ ready (sc_statuses s) (ID node) ∧
    sc_statuses s' !! ID node ≠ Some Pending ∧
    ∃ n, sc_queued s' = n + sc_queued s ∧ evolve (sc_statuses s) n (sc_statuses s'))).
Proof.
  intros Hok. unfold scan_node, ready. cbv zeta.
  case_bool_decide as Hp; cbn [negb]; [|split_and!; [done..|left; naive_solver]].
  assert (∃ row, RunNodes (sc_run s) !! ID node = Some row ∧ has_status Pending row = true) as (row & Hrow & Hpend).
  { rewrite <-Hok in Hp. apply statuses_lookup in Hp as (row & ? & ?). exists row.
    split; [done|]. by apply has_status_true. }
  destruct (depsDoomed wf (ID node) (sc_statuses s)) eqn:Hd;
    [|destruct (depsSatisfied wf (ID node) (sc_statuses s)) eqn:Hs]; cbn [negb andb orb].
  3: { split_and!; [done..|left; split; [done|naive_solver]]. }
  - unfold SkipRunNode, cas_node. rewrite Hrow, Hpend. cbn. split; [|split; [done|right]].
    + unfold scan_ok. cbn. rewrite <-Hok. apply statuses_set.
    + split_and!; [done|done|by auto|by rewrite lookup_insert_eq|]. exists 0. split; [done|].
      eapply ev_skip; [split; [done|by left]|constructor].
  - destruct (negb (edgeAllowsRun wf (ID node) (sc_context s))).
    + unfold SkipRunNode, cas_node. rewrite Hrow, Hpend. cbn. split; [|split; [done|right]].
      * unfold scan_ok. cbn. rewrite <-Hok. apply statuses_set.
      * split_and!; [done|done|by auto|by rewrite lookup_insert_eq|]. exists 0. split; [done|].
        eapply ev_skip; [split; [done|by right]|constructor].
    + unfold QueueRunNode, cas_node. rewrite Hrow, Hpend. cbn. split; [|split; [done|right]].
      * unfold scan_ok. cbn. rewrite <-Hok. apply statuses_set.
      * split_and!; [done|done|by auto|by rewrite lookup_insert_eq|]. exists 1. split; [done|].
        eapply ev_queue; [done..|constructor].
Qed.

(** ** What an evolution keeps *)

Definition settled (s : node_status) : bool :=
  match s with Succeeded | Skipped | Failed => true | _ => false end.

Lemma evolve_lookup st n st' : evolve st n st' → ∀ id,
  (∀ s, st !! id = Some s → s ≠ Pending → st' !! id = Some s) ∧
  (st !! id = Some Pending → st' !! id ∈ [Some Pending; Some Skipped; Some Queued]) ∧
  (st !! id = None → st' !! id = None).
Proof.
  induction 1 as [st|st n id st' [Hp _] _ IH|st n id st' Hp _ _ _ IH]; intros id'.
  - split_and!; [done|intros ->; set_solver|done].
  - destruct (IH id') as (H1 & H2 & H3). destruct (decide (id = id')) as [->|Hne].
    + rewrite lookup_insert_eq in *. split_and!; [naive_solver|intros _; rewrite (H1 Skipped) by done; set_solver|naive_solver].
    + by rewrite lookup_insert_ne in * by done.
  - destruct (IH id') as (H1 & H2 & H3). destruct (decide (id = id')) as [->|Hne].
    + rewrite lookup_insert_eq in *. split_and!; [naive_solver|intros _; rewrite (H1 Queued) by done; set_solver|naive_solver].
    + by rewrite lookup_insert_ne in * by done.
Qed.

(** Satisfied dependencies stay satisfied as long as settled nodes stay settled. *)
Lemma satisfied_mono st st' id :
  (∀ i s, st !! i = Some s → settled s = true → st' !! i = Some s) →
  depsSatisfied wf id st = true → depsSatisfied wf id st' = true.
Proof.
  intros Hstable. unfold depsSatisfied. rewrite !forallb_elem. intros Hall e He.
  specialize (Hall e He). apply orb_true_iff in Hall as [Hall|Hall]; apply orb_true_iff; [by left|right].
  revert Hall. unfold edge_satisfied. destruct (OnError e).
  - rewrite !bool_decide_eq_true. intros. by apply Hstable.
  - rewrite !orb_true_iff, !bool_decide_eq_true. intros [?|?]; [left|right]; by apply Hstable.
Qed.

Lemma evolve_queued st n st' : evolve st n st' →
  (n ≠ 0 → ∃ id, st' !! id = Some Queued) ∧
  ∀ id, st' !! id = Some Queued → st !! id = Some Queued ∨ depsSatisfied wf id st' = true.
Proof.
  induction 1 as [st|st n id st' [Hp _] Hev [IH1 IH2]|st n id st' Hp Hd Hs Hev [IH1 IH2]].
  - split; [done|by left].
  - split; [done|]. intros id' Hq. destruct (IH2 id' Hq) as [Hi|?]; [|by right].
    destruct (decide (id = id')) as [->|]; [by rewrite lookup_insert_eq in Hi|].
    rewrite lookup_insert_ne in Hi by done. by left.
  - split.
    + intros _. exists id. destruct (evolve_lookup _ _ _ Hev id) as (H1 & _).
      apply H1; [by rewrite lookup_insert_eq|done].
    + intros id' Hq. destruct (IH2 id' Hq) as [Hi|?]; [|by right].
      destruct (decide (id = id')) as [->|Hne].
      * right. eapply satisfied_mono; [|exact Hs]. intros i s Hi' Hset.
        destruct (evolve_lookup _ _ _ Hev i) as (H1 & _). destruct (decide (id' = i)) as [->|].
        -- rewrite Hp in Hi'. injection Hi' as <-. done.
        -- apply H1; [by rewrite lookup_insert_ne|]. by destruct s.
      * rewrite lookup_insert_ne in Hi by done. by left.
Qed.

(** ** One pass, and the loop *)

(** The pending nodes of the workflow. *)
Definition pending_nodes (st : statuses_map) (nodes : list Node) : nat :=
  length (filter (λ n, st !! ID n = Some Pending) nodes).

Lemma pending_mono st k st' nodes : evolve st k st' → pending_nodes st' nodes ≤ pending_nodes st nodes.
Proof.
  intros Hev. unfold pending_nodes. induction nodes as [|n nodes IH]; [done|].
  rewrite !filter_cons. case_decide as H1; case_decide as H2; cbn; try lia.
  destruct (evolve_lookup _ _ _ Hev (ID n)) as (Ha & _ & Hc). exfalso.
  destruct (st !! ID n) as [x|] eqn:Hx; [|naive_solver].
  destruct (decide (x = Pending)) as [->|Hne]; [done|]. rewrite (Ha x) in H1 by done. congruence.
Qed.

Lemma pending_strict st k st' nodes n :
  evolve st k st' → n ∈ nodes → st !! ID n = Some Pending → st' !! ID n ≠ Some Pending →
  pending_nodes st' nodes < pending_nodes st nodes.
Proof.
  intros Hev Hn Hp Hp'. induction nodes as [|m nodes IH]; [by apply elem_of_nil in Hn|].
  pose proof (pending_mono _ _ _ nodes Hev) as Hle. unfold pending_nodes in *.
  rewrite !filter_cons. apply elem_of_cons in Hn as [->|Hn].
  - case_decide; [done|]. case_decide; [cbn; lia|done].
  - specialize (IH Hn). case_decide as H1; case_decide as H2; cbn; try lia. exfalso.
    destruct (evolve_lookup _ _ _ Hev (ID m)) as (Ha & _ & Hc).
    destruct (st !! ID m) as [x|] eqn:Hx; [|naive_solver].
    destruct (decide (x = Pending)) as [->|Hne]; [done|]. rewrite (Ha x) in H1 by done. congruence.
Qed.

(** A pass over [nodes]: an evolution that, when it changed nothing, found no node
    ready, and otherwise settled or queued a pending one. *)
Lemma pass_spec nodes s : scan_ok s →
  let s' := fold_left (scan_node wf now) nodes s in
  scan_ok s' ∧ RunStatus (sc_run s') = RunStatus (sc_run s) ∧
  ∃ n, sc_queued s' = n + sc_queued s ∧ evolve (sc_statuses s) n (sc_statuses s') ∧
    ((s' = s ∧ ∀ m, m ∈ nodes → ¬ ready (sc_statuses s) (ID m)) ∨
     (sc_changed s' = true ∧ ∃ m, m ∈ nodes ∧ sc_statuses s !! ID m = Some Pending ∧
        sc_statuses s' !! ID m ≠ Some Pending)).
Proof.
  revert s. induction nodes as [|m nodes IH]; intros s Hok; cbn.
  { split_and!; [done..|]. exists 0. split_and!; [done|constructor|]. left. split; [done|]. set_solver. }
  destruct (scan_node_spec s m Hok) as (Hok1 & Hst1 & Hcase). cbv zeta in Hok1, Hst1, Hcase.
  destruct (IH _ Hok1) as (Hok2 & Hst2 & n2 & Hq2 & Hev2 & Hend). cbv zeta in Hok2, Hst2, Hq2, Hev2, Hend.
  split; [done|]. split; [congruence|].
  destruct Hcase as [[Heq Hnr]|(Hch & [Hp _] & Hnp & n1 & Hq1 & Hev1)].
  - rewrite Heq in *. exists n2. split_and!; [done..|].
    destruct Hend as [[-> Hall]|(Hch & m' & Hm' & ?)]; [left|right].
    + split; [done|]. intros m' [->|?]%elem_of_cons; auto.
    + split; [done|]. exists m'. split; [set_solver|done].
  - exists (n1 + n2). split; [lia|]. split; [by eapply evolve_trans|]. right.
    assert (sc_statuses (fold_left (scan_node wf now) nodes (scan_node wf now s m)) !! ID m ≠ Some Pending) as Hfin.
    { destruct (evolve_lookup _ _ _ Hev2 (ID m)) as (Ha & _ & Hc).
      destruct (sc_statuses (scan_node wf now s m) !! ID m) as [x|] eqn:Hx; [|rewrite Hc by done; done].
      rewrite (Ha x) by congruence. congruence. }
    split; [|exists m; split; [set_solver|done]].
    destruct Hend as [[-> _]|[? _]]; done.
Qed.

Lemma scan_loop_spec fuel s : scan_ok s → pending_nodes (sc_statuses s) (Nodes wf) < fuel →
  ∃ s', scan_loop fuel wf now s = Some s' ∧ scan_ok s' ∧ RunStatus (sc_run s') = RunStatus (sc_run s) ∧
    ∃ n, sc_queued s' = n + sc_queued s ∧ evolve (sc_statuses s) n (sc_statuses s') ∧
      ∀ m, m ∈ Nodes wf → ¬ ready (sc_statuses s') (ID m).
Proof.
  revert s. induction fuel as [|fuel IH]; intros s Hok Hfuel; [lia|]. cbn [scan_loop].
  destruct (pass_spec (Nodes wf) (clear_changed s) Hok) as (Hok1 & Hst1 & n1 & Hq1 & Hev1 & Hend).
  cbv zeta in Hok1, Hst1, Hq1, Hev1, Hend.
  destruct Hend as [[Heq Hall]|(Hch & m & Hm & Hp & Hp')].
  - rewrite Heq in *. cbn [sc_changed clear_changed]. eexists. split; [done|]. split; [done|].
    split; [done|]. exists n1. split_and!; done.
  - rewrite Hch. pose proof (pending_strict _ _ _ _ m Hev1 Hm Hp Hp') as Hlt. cbn in Hlt.
    destruct (IH _ Hok1 ltac:(cbn in *; lia)) as (s' & -> & Hok2 & Hst2 & n2 & Hq2 & Hev2 & Hall).
    exists s'. split; [done|]. split; [done|]. split; [by rewrite Hst2|]. exists (n1 + n2).
    cbn in *. split; [lia|]. split; [by eapply evolve_trans|done].
Qed.
End scan.

(** ** Scheduling *)

Lemma flip_status status at_ out r :
  RunStatus r = RunRunning → RunStatus (flipRunTerminal status at_ out r) = status.
Proof. intros Hr. unfold flipRunTerminal. rewrite Hr. cbn. by destruct (bool_decide (status = RunFailed)). Qed.
Lemma flip_other status at_ out r :
  RunStatus r ≠ RunRunning → flipRunTerminal status at_ out r = r.
Proof. intros Hr. unfold flipRunTerminal. by rewrite bool_decide_eq_false_2. Qed.

Definition demoted (st : statuses_map) : statuses_map :=
  (λ s, if bool_decide (s = Queued) then Pending else s) <$> st.
Lemma demote_statuses r : statuses_of (DemoteQueuedRunNodes r) = demoted (statuses_of r).
Proof.
  unfold statuses_of, demoted, DemoteQueuedRunNodes. cbn. rewrite <-!map_fmap_compose.
  apply map_fmap_ext. intros id row _. unfold compose, has_status. by case_bool_decide.
Qed.
Lemma flip_statuses status at_ out r :
  statuses_of (flipRunTerminal status at_ out r) =
  if bool_decide (RunStatus r = RunRunning) && bool_decide (status = RunFailed)
  then demoted (statuses_of r) else statuses_of r.
Proof.
  unfold flipRunTerminal. case_bool_decide; [|done]. cbn [andb].
  case_bool_decide; [|done].
  exact (demote_statuses (mkRun status (RunNodes r) out (RunEvents r) (Wakes r) (DeadLetters r))).
Qed.

Definition active (s : node_status) : bool :=
  match s with Queued | Running | Waiting => true | _ => false end.
Definition all_handled (wf : Workflow) (st : statuses_map) : Prop :=
  ∀ id, st !! id = Some Failed → nodeFailureHandled wf id = true.
Definition none_open (st : statuses_map) : Prop :=
  ∀ id s, st !! id = Some s → openNodeStatuses s = false.

(** What scheduling does to a running run: an evolution to a fixpoint; then the run
    goes on, fails with a failure nobody handles, or succeeds with nothing open. *)
Lemma schedule_spec upper wf input now at_ r : RunStatus r = RunRunning →
  ∃ r' t st n, scheduleDownstream upper wf input now at_ r = Some (r', t) ∧
    evolve wf (statuses_of r) n st ∧ (∀ m, m ∈ Nodes wf → ¬ ready wf st (ID m)) ∧
    ((RunStatus r' = RunRunning ∧ t = false ∧ statuses_of r' = st ∧
        (n ≠ 0 ∨ (all_handled wf st ∧ (st = ∅ ∨ ∃ id x, st !! id = Some x ∧ openNodeStatuses x = true)))) ∨
     (RunStatus r' = RunFailed ∧ t = true ∧ n = 0 ∧ statuses_of r' = demoted st ∧ ¬ all_handled wf st) ∨
     (RunStatus r' = RunSucceeded ∧ t = true ∧ n = 0 ∧ statuses_of r' = st ∧ all_handled wf st ∧
        none_open st ∧ st ≠ ∅)).
Proof.
  intros Hrun. unfold scheduleDownstream. rewrite bool_decide_eq_true_2 by done. cbn [negb].
  set (s0 := mkScan r _ _ 0 false).
  destruct (scan_loop_spec wf now (scan_fuel wf) s0) as (s & -> & Hok & Hst & n & Hq & Hev & Hfix).
  { done. }
  { unfold scan_fuel, pending_nodes. apply Nat.lt_succ_r, length_filter_le. }
  cbn in Hst, Hq, Hev. rewrite Nat.add_0_r in Hq. rewrite Hrun in Hst.
  assert (statuses_of (sc_run s) = sc_statuses s) as Hsync by done.
  destruct (0 <? sc_queued s)%nat eqn:Hpos.
  { apply Nat.ltb_lt in Hpos. do 2 eexists. exists (sc_statuses s), n. split_and!; [done..|left].
    split_and!; [done..|left; lia]. }
  apply Nat.ltb_ge in Hpos. assert (n = 0) as -> by lia. unfold settle.
  destruct (existsb _ (map_to_list (sc_statuses s))) eqn:Hunh.
  { do 2 eexists. exists (sc_statuses s), 0. split_and!; [done..|right; left].
    split_and!; [by apply flip_status|done|done| |].
    - change (statuses_of (appendStatusChecked at_ ?x)) with (statuses_of x).
      rewrite flip_statuses, Hst, Hsync. done.
    - apply existsb_elem in Hunh as ([id x] & Hin & Hb). apply elem_of_map_to_list in Hin.
      cbn in Hb. intros Hall. apply andb_true_iff in Hb as [->%bool_decide_eq_true Hb].
      by rewrite (Hall id Hin) in Hb. }
  rewrite existsb_false_elem in Hunh.
  assert (all_handled wf (sc_statuses s)) as Hhandled.
  { intros id Hf. specialize (Hunh (id, Failed)). rewrite elem_of_map_to_list in Hunh.
    specialize (Hunh Hf). cbn in Hunh. by apply negb_false_iff in Hunh. }
  destruct ((0 <? length (map_to_list (sc_statuses s)))%nat && _) eqn:Hdone.
  - apply andb_true_iff in Hdone as [Hne Hopen]. apply negb_true_iff in Hopen.
    rewrite existsb_false_elem in Hopen. do 2 eexists. exists (sc_statuses s), 0.
    split_and!; [done..|right; right]. split_and!; [by apply flip_status|done|done| |done| |].
    + change (statuses_of (appendStatusChecked at_ ?x)) with (statuses_of x).
      rewrite flip_statuses, Hst, Hsync. done.
    + intros id x Hx. apply (Hopen (id, x)). by apply elem_of_map_to_list.
    + intros Hemp. by rewrite Hemp, map_to_list_empty in Hne.
  - do 2 eexists. exists (sc_statuses s), 0. split_and!; [done..|left]. split_and!; [done..|right].
    split; [done|]. apply andb_false_iff in Hdone as [Hemp|Hopen].
    + left. apply map_to_list_empty_iff. destruct (map_to_list (sc_statuses s)); done.
    + right. apply negb_false_iff, existsb_elem in Hopen as ([id x] & Hin & Hx).
      apply elem_of_map_to_list in Hin. by exists id, x.
Qed.

(** ** A running run always has work in progress *)

(** What the workflow gate checks about the graph. *)
Record valid_graph (wf : Workflow) : Prop := {
  vg_nonempty : Nodes wf ≠ [];
  vg_edges : ∀ e, e ∈ Edges wf → From e ∈ ID <$> Nodes wf ∧ To e ∈ ID <$> Nodes wf;
  vg_acyclic : hasCycle (Nodes wf) (Edges wf) = Some false }.

Definition incoming_rel (wf : Workflow) : relation string :=
  λ y x, ∃ e, e ∈ Edges wf ∧ From e = y ∧ To e = x.

(** Without a cycle the predecessors of a node are well-founded. *)
Lemma predecessors_wf wf : valid_graph wf → ∀ x, Acc (incoming_rel wf) x.
Proof.
  intros [_ Hedges Hcycle] x. pose proof (hasCycle_spec (Nodes wf) (Edges wf)) as Hspec.
  rewrite Hcycle in Hspec. set (R := flip (incoming_rel wf)).
  assert (∀ y z, tc R y z → tc (edge_rel (Nodes wf) (Edges wf)) z y) as Htc.
  { assert (∀ y z, R y z → edge_rel (Nodes wf) (Edges wf) z y) as Hone.
    { intros y z (e & He & <- & <-). split; [by apply Hedges|]. by exists e. }
    intros y z H. induction H as [y z H|y z w H _ IH]; [by apply tc_once, Hone|].
    eapply tc_r; [exact IH|by apply Hone]. }
  cut (sn R x). { clear. induction 1 as [x _ IH]. constructor. exact IH. }
  apply tc_finite_sn.
  - intros y Hy. apply Htc in Hy. by destruct (Acc_no_cycle _ y (Hspec y)).
  - exists (ID <$> Nodes wf). intros y Hy. apply Htc in Hy.
    inversion Hy as [? ? [? _]|? ? ? [? _] _]; done.
Qed.

(** Every node of the workflow has a row, no other has; a cancelled node belongs to
    a cancelled run. *)
Record base_ok (wf : Workflow) (r : Run) : Prop := {
  bo_dom : ∀ id, is_Some (statuses_of r !! id) ↔ id ∈ ID <$> Nodes wf;
  bo_cancel : ∀ id, statuses_of r !! id = Some Cancelled → RunStatus r = RunCancelled }.
Definition live (r : Run) : Prop :=
  RunStatus r = RunRunning → ∃ id s, statuses_of r !! id = Some s ∧ active s = true.

(** At a fixpoint without active or cancelled nodes nothing is pending. *)
Lemma fixpoint_no_pending wf st :
  valid_graph wf → (∀ id, is_Some (st !! id) ↔ id ∈ ID <$> Nodes wf) →
  (∀ m, m ∈ Nodes wf → ¬ ready wf st (ID m)) →
  (∀ id s, st !! id = Some s → active s = false ∧ s ≠ Cancelled) →
  ∀ id, st !! id ≠ Some Pending.
Proof.
  intros Hwf Hdom Hfix Hidle id. pose proof (predecessors_wf wf Hwf id) as Hacc.
  induction Hacc as [id _ IH]. intros Hp.
  assert (id ∈ ID <$> Nodes wf) as (m & -> & Hm)%list_elem_of_fmap by (apply Hdom; by eexists).
  specialize (Hfix m Hm). unfold ready in Hfix.
  destruct (depsDoomed wf (ID m) st) eqn:Hd; [naive_solver|].
  destruct (depsSatisfied wf (ID m) st) eqn:Hs; [naive_solver|]. clear Hfix.
  unfold depsSatisfied in Hs. apply not_true_iff_false in Hs. apply Hs.
  apply forallb_elem. intros e He. apply orb_true_iff.
  destruct (String.eqb_spec (To e) (ID m)) as [Hto|]; [right|by left].
  unfold depsDoomed in Hd. rewrite existsb_false_elem in Hd. specialize (Hd e He).
  rewrite Hto, String.eqb_refl in Hd. cbn [andb] in Hd.
  destruct (vg_edges _ Hwf e He) as [Hfrom _]. apply Hdom in Hfrom as [s Hs'].
  destruct (Hidle _ _ Hs') as [Hact Hcan].
  assert (st !! From e ≠ Some Pending) as Hnp by (apply IH; by exists e).
  revert Hd. unfold edge_doomed, edge_satisfied. rewrite Hs' in *.
  destruct (OnError e), s; done.
Qed.

Lemma evolve_dom wf st n st' id : evolve wf st n st' → is_Some (st' !! id) ↔ is_Some (st !! id).
Proof.
  intros Hev. destruct (evolve_lookup _ _ _ _ Hev id) as (H1 & H2 & H3).
  destruct (st !! id) as [s|] eqn:Hs.
  - split; [by eexists|]. intros _. destruct (decide (s = Pending)) as [->|Hne].
    + specialize (H2 eq_refl). destruct (st' !! id); [by eexists|]. set_solver.
    + rewrite (H1 s) by done. by eexists.
  - rewrite H3 by done. done.
Qed.

Lemma evolve_cancelled wf st n st' id : evolve wf st n st' → st' !! id = Some Cancelled → st !! id = Some Cancelled.
Proof.
  intros Hev Hc. destruct (evolve_lookup _ _ _ _ Hev id) as (H1 & H2 & H3).
  destruct (st !! id) as [s|] eqn:Hs; [|by rewrite H3 in Hc].
  destruct (decide (s = Pending)) as [->|Hne].
  - specialize (H2 eq_refl). rewrite Hc in H2. set_solver.
  - rewrite (H1 s) in Hc by done. done.
Qed.

Lemma demoted_lookup st id : demoted st !! id = (λ s, if bool_decide (s = Queued) then Pending else s) <$> st !! id.
Proof. apply lookup_fmap. Qed.

Lemma active_decide (st : statuses_map) :
  (∃ id s, st !! id = Some s ∧ active s = true) ∨ (∀ id s, st !! id = Some s → active s = false).
Proof.
  destruct (existsb (λ kv, active kv.2) (map_to_list st)) eqn:Hex.
  - left. apply existsb_elem in Hex as ([id s] & Hin & Hs). apply elem_of_map_to_list in Hin. by exists id, s.
  - right. rewrite existsb_false_elem in Hex. intros id s Hs. apply (Hex (id, s)). by apply elem_of_map_to_list.
Qed.

Lemma schedule_ok upper wf input now at_ r r' t :
  valid_graph wf → base_ok wf r → scheduleDownstream upper wf input now at_ r = Some (r', t) →
  base_ok wf r' ∧ live r'.
Proof.
  intros Hwf [Hdom Hcan] Hsched. destruct (decide (RunStatus r = RunRunning)) as [Hrun|Hrun].
  2: { unfold scheduleDownstream in Hsched. rewrite bool_decide_eq_false_2 in Hsched by done.
       injection Hsched as <- <-. split; [by split|]. by intros ?. }
  destruct (schedule_spec upper wf input now at_ r Hrun) as (r2 & t2 & st & n & Hs & Hev & Hfix & Hcases).
  rewrite Hsched in Hs. injection Hs as <- <-.
  assert (∀ id, is_Some (st !! id) ↔ id ∈ ID <$> Nodes wf) as Hdom'
    by (intros id; rewrite (evolve_dom _ _ _ _ id Hev); apply Hdom).
  assert (∀ id, st !! id ≠ Some Cancelled) as Hnc.
  { intros id Hc. apply (evolve_cancelled _ _ _ _ _ Hev), Hcan in Hc. congruence. }
  destruct Hcases as [(Hr' & _ & Hst & Hwork)|[(Hr' & _ & _ & Hst & _)|(Hr' & _ & _ & Hst & _)]].
  - split; [split; rewrite Hst; [done|intros id Hc; by destruct (Hnc id)]|]. intros _. rewrite Hst.
    destruct (active_decide st) as [?|Hidle]; [done|]. exfalso.
    destruct Hwork as [Hn|(_ & [->|(id & s & Hs & Hopen)])].
    + destruct (evolve_queued _ _ _ _ Hev) as [Hq _]. destruct (Hq Hn) as [id Hid].
      by apply Hidle in Hid.
    + destruct (Nodes wf) as [|m ms] eqn:Hnodes; [by destruct (vg_nonempty _ Hwf)|].
      destruct (proj2 (Hdom' (ID m))) as [? Hl]; [set_solver|]. by rewrite lookup_empty in Hl.
    + assert (s = Pending) as ->.
      { specialize (Hidle _ _ Hs). by destruct s. }
      refine (fixpoint_no_pending wf st Hwf Hdom' Hfix _ id Hs).
      intros id' s' Hs'. split; [by eapply Hidle|]. intros ->. by destruct (Hnc id').
  - split; [|by intros ?; congruence]. split; rewrite Hst; intros id; rewrite demoted_lookup.
    + rewrite fmap_is_Some. apply Hdom'.
    + destruct (st !! id) as [s|] eqn:Hs; [|done]. cbn. case_bool_decide; [done|]. intros [= ->].
      by destruct (Hnc id).
  - split; [|by intros ?; congruence]. split; rewrite Hst; [done|]. intros id Hc. by destruct (Hnc id).
Qed.

(** A guarded update that does not cancel keeps the invariant. *)
Lemma cas_statuses g f id r r' : cas_node g f id r = Some r' →
  RunStatus r' = RunStatus r ∧
  ∃ row, RunNodes r !! id = Some row ∧ g row = true ∧
    statuses_of r' = <[id := Status (f row)]> (statuses_of r).
Proof.
  intros (row & Hrow & Hg & ->)%cas_node_inv. split; [done|]. exists row.
  split_and!; [done..|apply statuses_set].
Qed.

Lemma base_ok_ext wf r r' :
  statuses_of r' = statuses_of r → RunStatus r' = RunStatus r → base_ok wf r → base_ok wf r'.
Proof. intros Hst Hs [H1 H2]. split; rewrite Hst, ?Hs; done. Qed.

Lemma base_ok_event wf id type at_ r : base_ok wf r → base_ok wf (add_event id type at_ r).
Proof. by apply base_ok_ext. Qed.
Lemma base_ok_dead_letter wf id n r : base_ok wf r → base_ok wf (add_dead_letter id n r).
Proof. by apply base_ok_ext. Qed.
Lemma base_ok_wake wf n r : base_ok wf r → base_ok wf (add_wake n r).
Proof. by apply base_ok_ext. Qed.
#[export] Hint Resolve base_ok_event base_ok_dead_letter base_ok_wake : run_invariant.

Lemma base_ok_insert wf r id s x :
  base_ok wf r → statuses_of r !! id = Some x → s ≠ Cancelled →
  ∀ r', statuses_of r' = <[id := s]> (statuses_of r) → RunStatus r' = RunStatus r → base_ok wf r'.
Proof.
  intros [Hdom Hcan] Hid Hs r' Hst Hrs. split; rewrite Hst, ?Hrs; intros id'.
  - rewrite <-Hdom. destruct (decide (id = id')) as [->|]; [|by rewrite lookup_insert_ne by done].
    rewrite lookup_insert_eq, Hid. split; intros; eauto.
  - destruct (decide (id = id')) as [->|]; [|rewrite lookup_insert_ne by done; apply Hcan].
    rewrite lookup_insert_eq. congruence.
Qed.

Lemma cas_base_ok wf g f id r r' : base_ok wf r → cas_node g f id r = Some r' →
  (∀ row, g row = true → Status (f row) ≠ Cancelled) → base_ok wf r'.
Proof.
  intros Hok Hcas Hf. apply cas_statuses in Hcas as (Hrs & row & Hrow & Hg & Hst).
  eapply base_ok_insert; [done| |by apply Hf|done..].
  apply statuses_lookup. by exists row.
Qed.

Lemma base_ok_set_status wf s r : RunStatus r ≠ RunCancelled → base_ok wf r → base_ok wf (set_status s r).
Proof. intros Hr [H1 H2]. split; [exact H1|]. intros id Hc. by destruct Hr, (H2 id Hc). Qed.

Lemma base_ok_flip wf at_ out r : base_ok wf r → base_ok wf (flipRunTerminal RunFailed at_ out r).
Proof.
  intros [Hdom Hcan]. destruct (decide (RunStatus r = RunRunning)) as [Hr|Hr]; [|by rewrite flip_other].
  pose proof (flip_statuses RunFailed at_ out r) as Hst. rewrite !bool_decide_eq_true_2 in Hst by done. cbn [andb] in Hst.
  split; rewrite Hst; intros id; rewrite demoted_lookup.
  - rewrite fmap_is_Some. apply Hdom.
  - destruct (statuses_of r !! id) as [s|] eqn:Hs; [|done]. cbn. case_bool_decide; [done|].
    intros [= ->]. specialize (Hcan _ Hs). congruence.
Qed.

(** The losers of a router are pending successors that become skipped. *)
Lemma skip_losers_ind (P : Run → Prop) now id plan r :
  (∀ r nodeID type, P r → P (add_event nodeID type now r)) →
  (∀ r r' state c, P r → c ∈ SuccessorIDs plan → SkipRunNode state c r = Some r' → P r') →
  P r → P (skip_losers now id plan r).
Proof.
  intros Hev Hskip. unfold skip_losers. destruct (String.eqb _ ""); [done|].
  generalize (safePersist (skip_state (router_reason id (ChosenNodeID plan))) stateJSONMaxBytes). intros state.
  revert r. induction (Candidates plan) as [|c cs IH]; intros r Hr; [done|]. cbn [fold_left]. apply IH.
  destruct (String.eqb c _ || negb (in_list _ c)) eqn:Hc; [done|].
  apply orb_false_iff in Hc as [_ Hin%negb_false_iff%in_list_spec].
  destruct (SkipRunNode _ _ _) eqn:Hs; [|done]. apply Hev. by eapply Hskip.
Qed.

Lemma skip_losers_ok wf now id plan r : base_ok wf r → base_ok wf (skip_losers now id plan r).
Proof.
  apply skip_losers_ind.
  - intros r' ? ?. by apply base_ok_ext.
  - intros r1 r2 state c Hok _ Hcas. by eapply cas_base_ok.
Qed.
Lemma skip_losers_status now id plan r : RunStatus (skip_losers now id plan r) = RunStatus r.
Proof.
  apply (skip_losers_ind (λ r', RunStatus r' = RunStatus r)); [done| |done].
  intros r1 r2 state c Hr _ Hcas. apply cas_statuses in Hcas as [? _]. congruence.
Qed.

(** ** The life cycle of a node *)

(** The abstract specification of the engine: one node moves at a time; it is queued
    only when its dependencies are satisfied, and skipped when they settled or a router
    before it chose another successor. *)
Inductive node_move (wf : Workflow) (st : statuses_map) (id : string) : node_status → node_status → Prop :=
| nm_queue : depsDoomed wf id st = false → depsSatisfied wf id st = true → node_move wf st id Pending Queued
| nm_skip : depsDoomed wf id st = true ∨ depsSatisfied wf id st = true → node_move wf st id Pending Skipped
| nm_lose e : e ∈ Edges wf → To e = id → st !! From e = Some Succeeded → node_move wf st id Pending Skipped
| nm_claim : node_move wf st id Queued Running
| nm_succeed : node_move wf st id Running Succeeded
| nm_fail : node_move wf st id Running Failed
| nm_retry : node_move wf st id Running Queued
| nm_wait : node_move wf st id Running Waiting
| nm_resume : node_move wf st id Waiting Succeeded
| nm_reject : node_move wf st id Waiting Failed
| nm_decide : node_move wf st id Waiting Queued
| nm_demote : node_move wf st id Queued Pending
| nm_cancel s : s = Pending ∨ s = Queued ∨ s = Waiting → node_move wf st id s Cancelled.

Inductive lifecycle (wf : Workflow) (st : statuses_map) : statuses_map → Prop :=
| lifecycle_move id s s' : st !! id = Some s → node_move wf st id s s' → lifecycle wf st (<[id := s']> st).

Abbreviation lifecycles wf := (rtc (lifecycle wf)).

Lemma evolve_lifecycle wf st n st' : evolve wf st n st' → lifecycles wf st st'.
Proof.
  induction 1 as [st|st n id st' [Hp Hr] _ IH|st n id st' Hp Hd Hs _ IH]; [done|..].
  - eapply rtc_l; [|exact IH]. eapply lifecycle_move; [done|by apply nm_skip].
  - eapply rtc_l; [|exact IH]. eapply lifecycle_move; [done|by constructor].
Qed.

(** A change of every node at once is a sequence of moves. *)
Lemma fmap_lifecycle wf (f : node_status → node_status) st :
  (∀ st id s, f s = s ∨ node_move wf st id s (f s)) → lifecycles wf st (f <$> st).
Proof.
  intros Hf. set (part (X : gset string) := map_imap (λ k s, Some (if decide (k ∈ X) then f s else s)) st).
  assert (∀ X, lifecycles wf st (part X)) as Hpart.
  { induction X as [|x X Hx IH] using set_ind_L.
    - replace (part ∅) with st; [done|]. apply map_eq. intros i. unfold part. rewrite map_lookup_imap.
      destruct (st !! i); done.
    - destruct (st !! x) as [s|] eqn:Hs.
      + assert (part X !! x = Some s) as HXx.
        { unfold part. rewrite map_lookup_imap, Hs. cbn. by rewrite decide_False. }
        assert (part ({[x]} ∪ X) = <[x := f s]> (part X)) as Heq.
        { apply map_eq. intros i. unfold part. rewrite map_lookup_imap. destruct (decide (x = i)) as [<-|Hne].
          - rewrite lookup_insert_eq, Hs. cbn. rewrite decide_True by set_solver. done.
          - rewrite lookup_insert_ne, map_lookup_imap by done. destruct (st !! i); [|done]. cbn. f_equal.
            destruct (decide (i ∈ X)); [rewrite decide_True by set_solver|rewrite decide_False by set_solver]; done. }
        rewrite Heq. destruct (Hf (part X) x s) as [Hsame|Hmv].
        * rewrite Hsame, insert_id by done. exact IH.
        * eapply rtc_r; [exact IH|]. by eapply lifecycle_move.
      + replace (part ({[x]} ∪ X)) with (part X); [exact IH|]. apply map_eq. intros i. unfold part.
        rewrite !map_lookup_imap. destruct (decide (x = i)) as [<-|Hne]; [by rewrite Hs|].
        destruct (st !! i); [|done]. cbn. f_equal.
        destruct (decide (i ∈ X)); [rewrite decide_True by set_solver|rewrite decide_False by set_solver]; done. }
  replace (f <$> st) with (part (dom st)); [apply Hpart|]. apply map_eq. intros i. unfold part.
  rewrite map_lookup_imap, lookup_fmap. destruct (st !! i) eqn:Hi; [|done]. cbn.
  rewrite decide_True; [done|]. apply elem_of_dom. by eexists.
Qed.

Lemma demoted_lifecycle wf st : lifecycles wf st (demoted st).
Proof.
  apply fmap_lifecycle. intros st' id s. case_bool_decide as Hs; [|by left]. subst. right. constructor.
Qed.

Lemma schedule_lifecycle upper wf input now at_ r r' t :
  scheduleDownstream upper wf input now at_ r = Some (r', t) → lifecycles wf (statuses_of r) (statuses_of r').
Proof.
  intros Hsched. destruct (decide (RunStatus r = RunRunning)) as [Hrun|Hrun].
  2: { unfold scheduleDownstream in Hsched. rewrite bool_decide_eq_false_2 in Hsched by done.
       by injection Hsched as <- <-. }
  destruct (schedule_spec upper wf input now at_ r Hrun) as (r2 & t2 & st & n & Hs & Hev & _ & Hcases).
  rewrite Hsched in Hs. injection Hs as <- <-. apply evolve_lifecycle in Hev.
  destruct Hcases as [(_ & _ & -> & _)|[(_ & _ & _ & -> & _)|(_ & _ & _ & -> & _)]]; [done| |done].
  etrans; [exact Hev|apply demoted_lifecycle].
Qed.

Lemma flip_lifecycle wf status at_ out r :
  lifecycles wf (statuses_of r) (statuses_of (flipRunTerminal status at_ out r)).
Proof. rewrite flip_statuses. destruct (_ && _); [apply demoted_lifecycle|done]. Qed.

Lemma cas_lifecycle wf g f id r r' : cas_node g f id r = Some r' →
  (∀ row, g row = true → Status (f row) = Status row ∨
     node_move wf (statuses_of r) id (Status row) (Status (f row))) →
  lifecycles wf (statuses_of r) (statuses_of r').
Proof.
  intros Hcas Hmv. apply cas_statuses in Hcas as (_ & row & Hrow & Hg & ->).
  assert (statuses_of r !! id = Some (Status row)) as Hst by (apply statuses_lookup; by exists row).
  destruct (Hmv row Hg) as [Hsame|Hmove]; [by rewrite Hsame, insert_id|].
  apply rtc_once. by eapply lifecycle_move.
Qed.

(** The router has succeeded when its losers are skipped. *)
Lemma skip_losers_lifecycle wf now id chosen candidates r :
  statuses_of r !! id = Some Succeeded →
  lifecycles wf (statuses_of r) (statuses_of (skip_losers now id (router_plan wf id chosen candidates) r)).
Proof.
  intros Hid.
  cut (∀ r', r' = skip_losers now id (router_plan wf id chosen candidates) r →
    statuses_of r' !! id = Some Succeeded ∧ lifecycles wf (statuses_of r) (statuses_of r')).
  { intros Hall. by apply Hall. }
  intros r' ->. apply (skip_losers_ind (λ r', statuses_of r' !! id = Some Succeeded ∧
    lifecycles wf (statuses_of r) (statuses_of r'))); [done| |done].
  intros r1 r2 state c [Hid1 Hr] Hin Hcas. cbn in Hin.
  apply list_elem_of_fmap in Hin as (e & -> & [Hfrom He]%list_elem_of_filter).
  apply cas_statuses in Hcas as (_ & row & Hrow & Hp%has_status_true & Hst).
  assert (statuses_of r1 !! To e = Some Pending) as Hpend by (apply statuses_lookup; by exists row).
  split.
  - rewrite Hst, lookup_insert_ne; [done|congruence].
  - etrans; [exact Hr|]. rewrite Hst. apply rtc_once. eapply lifecycle_move; [exact Hpend|].
    eapply nm_lose; [exact He|done|by rewrite Hfrom].
Qed.

(** ** Every transition keeps the invariant and follows the life cycle *)

(** The common part of the operations: a guarded update that settles one node. *)
Lemma cas_step wf g f id r r' : cas_node g f id r = Some r' →
  (∀ row, g row = true →
     (Status (f row) = Status row ∨ node_move wf (statuses_of r) id (Status row) (Status (f row))) ∧
     Status (f row) ≠ Cancelled) →
  RunStatus r' = RunStatus r ∧ lifecycles wf (statuses_of r) (statuses_of r') ∧
  (base_ok wf r → base_ok wf r').
Proof.
  intros Hcas Hmv. split; [by eapply cas_statuses|]. split.
  - eapply cas_lifecycle; [exact Hcas|]. intros row Hg. by apply Hmv.
  - intros Hok. eapply cas_base_ok; [exact Hok|exact Hcas|]. intros row Hg. by apply Hmv.
Qed.
Lemma cas_live g f id r r' : cas_node g f id r = Some r' →
  (∀ row, g row = true → active (Status (f row)) = true) → live r'.
Proof.
  intros Hcas Hact _. apply cas_statuses in Hcas as (_ & row & _ & Hg & Hst). exists id. eexists.
  rewrite Hst, lookup_insert_eq. split; [done|by apply Hact].
Qed.
Lemma stopped_live r : RunStatus r ≠ RunRunning → live r.
Proof. by intros ? ?. Qed.

(** Decomposes the compare-and-set at the head of [H]. *)
Ltac cas_cases H :=
  lazymatch type of H with
  | context [match ?c with Some _ => _ | None => _ end] =>
      let r1 := fresh "r1" in let Hcas := fresh "Hcas" in
      destruct c as [r1|] eqn:Hcas; [|discriminate H]
  end.
(** The moves of a guarded update, with the guard as a status. *)
Ltac solve_move :=
  let row := fresh in let Hg := fresh in
  intros row Hg; unfold approval_due, waiting_with in Hg;
  repeat (let H' := fresh in apply andb_true_iff in Hg as [Hg H']);
  apply has_status_true in Hg; cbn; rewrite Hg; (split; [first [by left|right; constructor]|done]).

Section steps.
Context (upper : string → string) (wf : Workflow) (runInput : obj).

(** What a transition owes: the life cycle, the invariant, and work in progress. *)
Definition step_good (r r' : Run) : Prop :=
  lifecycles wf (statuses_of r) (statuses_of r') ∧
  (valid_graph wf → keeps_cancelled r r' → base_ok wf r → live r → base_ok wf r' ∧ live r').

Lemma schedule_good r r1 r' t now at_ :
  lifecycles wf (statuses_of r) (statuses_of r1) → (base_ok wf r → base_ok wf r1) →
  scheduleDownstream upper wf runInput now at_ r1 = Some (r', t) → step_good r r'.
Proof.
  intros Hlc Hok Hs. split; [|intros Hwf _ Hr _; eapply schedule_ok; [done| |done]; by apply Hok].
  etrans; [exact Hlc|]. by eapply schedule_lifecycle.
Qed.

Lemma from_schedule_good r r1 r' t now at_ :
  lifecycles wf (statuses_of r) (statuses_of r1) → (base_ok wf r → base_ok wf r1) →
  from_schedule (scheduleDownstream upper wf runInput now at_ r1) = Some (Committed r' t) → step_good r r'.
Proof.
  intros Hlc Hok Hs. unfold from_schedule in Hs.
  destruct (scheduleDownstream _ _ _ _ _ _) as [[r2 t2]|] eqn:Hsched; [|done].
  injection Hs as <- <-. by eapply schedule_good.
Qed.

(** A failure that ends the run, or finds it ended. *)
Lemma flip_good r r1 now :
  lifecycles wf (statuses_of r) (statuses_of r1) → (base_ok wf r → base_ok wf r1) →
  step_good r (flipRunTerminal RunFailed now None r1).
Proof.
  intros Hlc Hok. split; [etrans; [exact Hlc|apply flip_lifecycle]|]. intros _ _ Hr _.
  split; [by apply base_ok_flip, Hok|]. apply stopped_live.
  destruct (decide (RunStatus r1 = RunRunning)) as [?|?]; [by rewrite flip_status|by rewrite flip_other].
Qed.

Lemma claim_good nodeID r r' t : MarkLockedNodesRunning nodeID r = Committed r' t → step_good r r'.
Proof.
  unfold MarkLockedNodesRunning. intros H. cas_cases H. injection H as <- <-.
  edestruct (cas_step wf) as (_ & Hlc & Hok); [exact Hcas|solve_move|].
  split; [exact Hlc|]. intros _ _ Hr _. split; [auto with run_invariant|]. eapply cas_live; [exact Hcas|done].
Qed.

(** The receipts of the violations move no node; a quarantine stops the run. *)
Lemma violations_spec now nodeID n open r r' q :
  persistSemanticViolations now nodeID n open r = (r', q) →
  statuses_of r' = statuses_of r ∧ RunStatus r' = (if q then RunWaiting else RunStatus r) ∧
  (base_ok wf r → RunStatus r ≠ RunCancelled ∨ q = false → base_ok wf r').
Proof.
  unfold persistSemanticViolations. destruct n as [|n]; [intros [= <- <-]; by auto|].
  set (r1 := Nat.iter (S n) _ r).
  assert (statuses_of r1 = statuses_of r ∧ RunStatus r1 = RunStatus r) as [Hst Hrs].
  { unfold r1. generalize (S n). intros m. by induction m as [|m IH]. }
  assert (base_ok wf r → base_ok wf r1) as Hok by (by apply base_ok_ext).
  destruct open; intros [= <- <-]; (split; [done|split; [done|intros Hr Hc]]); [|by apply Hok].
  apply base_ok_set_status; [|by apply Hok]. rewrite Hrs. by destruct Hc.
Qed.

Lemma complete_good now nodeID output decision n q r r' t :
  completeNode upper wf runInput now nodeID output ((λ d, router_plan wf nodeID d.1 d.2) <$> decision) n q r
    = Some (Committed r' t) → step_good r r'.
Proof.
  set (plan := _ <$> decision). unfold completeNode. intros H. cas_cases H.
  edestruct (cas_step wf) as (Hrs & Hlc & Hok); [exact Hcas|solve_move|].
  assert (statuses_of r1 !! nodeID = Some Succeeded) as Hdone.
  { apply cas_statuses in Hcas as (_ & row & _ & _ & ->). by rewrite lookup_insert_eq. }
  set (r2 := match plan with
             | Some _ => add_event nodeID "decision.made" now r1
             | None => add_event nodeID "node.succeeded" now r1
             end) in H.
  assert (statuses_of r2 = statuses_of r1 ∧ RunStatus r2 = RunStatus r1) as [Hst2 Hrs2]
    by (unfold r2; by destruct plan).
  assert (base_ok wf r → base_ok wf r2) as Hok2 by (intros Hr; eapply base_ok_ext; [done|done|by apply Hok]).
  destruct (persistSemanticViolations now nodeID n q r2) as [r3 q3] eqn:Hviol.
  apply violations_spec in Hviol as (Hst3 & Hrs3 & Hok3).
  set (r4 := match plan with Some p => skip_losers now nodeID p r3 | None => r3 end) in H.
  assert (lifecycles wf (statuses_of r) (statuses_of r4)) as Hlc4.
  { rewrite <-Hst2, <-Hst3 in Hlc. etrans; [exact Hlc|]. unfold r4, plan.
    destruct decision as [[chosen cands]|]; [|done]. apply skip_losers_lifecycle. by rewrite Hst3, Hst2. }
  assert (RunStatus r4 = RunStatus r3) as Hrs4 by (unfold r4; destruct plan; [apply skip_losers_status|done]).
  assert (base_ok wf r3 → base_ok wf r4) as Hok4 by (unfold r4; destruct plan; [apply skip_losers_ok|done]).
  destruct q3.
  - injection H as <- <-. split; [done|]. intros _ Hkeep Hr _. split.
    + apply Hok4, Hok3; [by apply Hok2|]. left. rewrite Hrs2, Hrs. intros Hc. specialize (Hkeep Hc). congruence.
    + apply stopped_live. congruence.
  - eapply from_schedule_good; [exact Hlc4| |exact H]. intros Hr. apply Hok4, Hok3; [by apply Hok2|by right].
Qed.

Lemma fail_good now nodeID attempt serr r r' t :
  failNodeTx upper wf runInput now nodeID attempt serr r = Some (Committed r' t) → step_good r r'.
Proof.
  unfold failNodeTx. intros H. destruct (_ && _); [done|]. cas_cases H.
  edestruct (cas_step wf) as (_ & Hlc & Hok); [exact Hcas|solve_move|].
  destruct (_ && nodeFailureHandled wf nodeID) in H.
  { eapply from_schedule_good; [| |exact H]; [exact Hlc|auto with run_invariant]. }
  case_bool_decide as Hf; injection H as <- <-.
  - split; [exact Hlc|]. intros _ _ Hr _. split; [auto with run_invariant|]. apply stopped_live. cbn in *. congruence.
  - apply flip_good; [exact Hlc|auto with run_invariant].
Qed.

Lemma retry_good now nodeID attempt max retryable serr r r' t :
  RetryOrFail upper wf runInput now nodeID attempt max retryable serr r = Some (Committed r' t) → step_good r r'.
Proof.
  unfold RetryOrFail. destruct (_ || _); [apply fail_good|]. unfold RequeueRunNodeForRetry. intros [= H].
  cas_cases H. injection H as <- <-.
  edestruct (cas_step wf) as (_ & Hlc & Hok); [exact Hcas|solve_move|].
  split; [exact Hlc|]. intros _ _ Hr _. split; [auto with run_invariant|]. refine (cas_live _ _ _ _ _ Hcas _); done.
Qed.

Lemma waiting_good now nodeID metadata r r' t :
  MarkNodeWaiting now nodeID metadata r = Committed r' t → step_good r r'.
Proof.
  unfold MarkNodeWaiting. intros H. cas_cases H. injection H as <- <-.
  edestruct (cas_step wf) as (_ & Hlc & Hok); [exact Hcas|solve_move|].
  split; [exact Hlc|]. intros _ _ Hr _. split; [auto with run_invariant|]. refine (cas_live _ _ _ _ _ Hcas _); done.
Qed.

Lemma resume_good now nodeID output r r' t :
  ResumeNode upper wf runInput now nodeID output r = Some (Committed r' t) → step_good r r'.
Proof.
  unfold ResumeNode. intros H. cas_cases H.
  edestruct (cas_step wf) as (_ & Hlc & Hok); [exact Hcas|solve_move|].
  eapply from_schedule_good; [| |exact H]; [exact Hlc|auto with run_invariant].
Qed.

Lemma approval_good now nodeID at_ current r r' t :
  processApprovalTimeout now nodeID at_ current r = Committed r' t → step_good r r'.
Proof.
  unfold processApprovalTimeout. destruct (RunNodes r !! nodeID) as [row|]; [|done]. cbv zeta. intros H.
  destruct (_ || _) in H; [done|]. destruct (_ && _) in H; cas_cases H.
  - edestruct (cas_step wf) as (_ & Hlc & Hok); [exact Hcas|solve_move|]. injection H as <- <-.
    split; [exact Hlc|]. intros _ _ Hr _. split; [auto with run_invariant|].
    refine (cas_live _ _ _ _ _ Hcas _); done.
  - edestruct (cas_step wf) as (_ & Hlc & Hok); [exact Hcas|solve_move|].
    injection H as <- <-. apply flip_good; [exact Hlc|auto with run_invariant].
Qed.

Lemma tool_approval_good now nodeID approvalID type r r' t :
  requeueToolApproval now nodeID approvalID type r = Committed r' t → step_good r r'.
Proof.
  unfold requeueToolApproval. intros H. cas_cases H. injection H as <- <-.
  edestruct (cas_step wf) as (_ & Hlc & Hok); [exact Hcas|solve_move|].
  split; [exact Hlc|]. intros _ _ Hr _. split; [auto with run_invariant|].
  refine (cas_live _ _ _ _ _ Hcas _); done.
Qed.

Lemma timer_good now nodeID attempt serr r r' t :
  failInvalidSnapshotTimer now nodeID attempt serr r = Committed r' t → step_good r r'.
Proof.
  unfold failInvalidSnapshotTimer. intros H. case_bool_decide; [|done]. cbn [negb] in H. cas_cases H.
  edestruct (cas_step wf) as (_ & Hlc & Hok); [exact Hcas|solve_move|].
  injection H as <- <-. apply flip_good; [exact Hlc|auto with run_invariant].
Qed.

Lemma child_success_good now nodeID out child r r' t :
  settleParentOnChildSuccess upper wf runInput now nodeID out child (bool_decide (RunStatus r = RunRunning)) r
    = Some (Committed r' t) → step_good r r'.
Proof.
  unfold settleParentOnChildSuccess. intros H. cas_cases H.
  edestruct (cas_step wf) as (Hrs & Hlc & Hok); [exact Hcas|solve_move|].
  case_bool_decide; [eapply from_schedule_good; [| |exact H]; [exact Hlc|auto with run_invariant]|]. injection H as <- <-.
  split; [exact Hlc|]. intros _ _ Hr _. split; [auto with run_invariant|]. apply stopped_live. cbn. congruence.
Qed.

Lemma child_failure_good now nodeID child serr r r' t :
  settleParentOnChildFailure now nodeID child serr (bool_decide (RunStatus r = RunRunning)) r = Committed r' t →
  step_good r r'.
Proof.
  unfold settleParentOnChildFailure. intros H. cas_cases H.
  edestruct (cas_step wf) as (Hrs & Hlc & Hok); [exact Hcas|solve_move|].
  injection H as <- <-. case_bool_decide; [apply flip_good; [exact Hlc|auto with run_invariant]|].
  split; [exact Hlc|]. intros _ _ Hr _. split; [auto with run_invariant|]. apply stopped_live. cbn. congruence.
Qed.

Lemma repair_success_good now nodeID child r r' t :
  repairParentOnChildSuccess upper wf runInput now nodeID child r = Some (Committed r' t) → step_good r r'.
Proof.
  unfold repairParentOnChildSuccess. destruct (RunNodes r !! nodeID) as [row|]; [|done].
  destruct (_ && _); [|done]. by apply from_schedule_good.
Qed.
Lemma repair_failure_good now nodeID child r r' t :
  repairParentOnChildFailure now nodeID child r = Committed r' t → step_good r r'.
Proof.
  unfold repairParentOnChildFailure. destruct (RunNodes r !! nodeID) as [row|]; [|done].
  destruct (_ && _); [|done]. intros [= <- <-]. by apply flip_good.
Qed.

Lemma resolve_good now nodeID replacement quarantine blocked r r' t :
  applySemanticResolution upper wf runInput now nodeID replacement quarantine blocked r = Some (Committed r' t) →
  step_good r r'.
Proof.
  unfold applySemanticResolution. cbv zeta. destruct (if quarantine then _ else _) eqn:Hconf; [done|]. intros H. cas_cases H.
  assert (RunStatus r1 = RunStatus r ∧ lifecycles wf (statuses_of r) (statuses_of r1) ∧
    (base_ok wf r → base_ok wf r1)) as (Hrs & Hlc & Hok).
  { destruct replacement as [state|]; [|by injection Hcas as <-].
    eapply (cas_step wf); [exact Hcas|solve_move]. }
  destruct (bool_decide (RunStatus r1 = RunWaiting) && negb blocked) eqn:Hres.
  - apply andb_true_iff in Hres as [Hw%bool_decide_eq_true _].
    eapply from_schedule_good; [| |exact H]; [exact Hlc|]. intros Hr.
    apply base_ok_event, base_ok_set_status; [congruence|auto].
  - injection H as <- <-. split; [exact Hlc|]. intros _ _ Hr Hlive. split; [auto with run_invariant|].
    destruct quarantine.
    + apply stopped_live. apply negb_false_iff, bool_decide_eq_true in Hconf. cbn. congruence.
    + apply negb_false_iff, bool_decide_eq_true in Hconf as ->. by injection Hcas as <-.
Qed.

Definition cancelled_status (s : node_status) : node_status :=
  match s with Pending | Queued | Waiting => Cancelled | _ => s end.
Lemma cancel_statuses now reason r r' t : CancelRun now reason r = Committed r' t →
  RunStatus r' = RunCancelled ∧ terminal_run (RunStatus r) = false ∧
  statuses_of r' = cancelled_status <$> statuses_of r.
Proof.
  unfold CancelRun. cbv zeta. destruct (terminal_run _); [done|]. intros [= <- _]. split_and!; [done..|].
  unfold statuses_of. cbn. rewrite <-!map_fmap_compose. apply map_fmap_ext. intros id row _.
  unfold compose. by destruct (Status row) eqn:Hs; cbn; rewrite ?Hs.
Qed.

Lemma cancel_good now reason r r' t : CancelRun now reason r = Committed r' t → step_good r r'.
Proof.
  intros (Hrs & _ & Hst)%cancel_statuses. split.
  - rewrite Hst. apply fmap_lifecycle. intros st id s.
    destruct s; cbn; auto; right; constructor; auto.
  - intros _ _ [Hdom _] _. split; [|apply stopped_live; congruence]. split; rewrite Hst; intros id.
    + rewrite lookup_fmap, fmap_is_Some. apply Hdom.
    + by intros _.
Qed.

Lemma step_good_of r r' : step upper wf runInput r r' → step_good r r'.
Proof.
  destruct 1; eauto using claim_good, complete_good, retry_good, waiting_good, resume_good, approval_good.
  all: eauto using tool_approval_good, timer_good, child_success_good, child_failure_good.
  all: eauto using repair_success_good, repair_failure_good, resolve_good, cancel_good.
Qed.

Lemma redrive_live now nodeID rerun r r' t : RedriveRunNode now nodeID rerun r = Committed r' t →
  (base_ok wf r → base_ok wf r') ∧ live r'.
Proof.
  unfold RedriveRunNode. destruct rerun; [done|]. intros H. cas_cases H. injection H as <- <-.
  assert (base_ok wf r → base_ok wf r1) as Hok by (intros Hr; by eapply cas_base_ok).
  assert (∃ id s, statuses_of r1 !! id = Some s ∧ active s = true) as Hact.
  { apply cas_statuses in Hcas as (_ & row & _ & _ & Hst). exists nodeID. eexists.
    by rewrite Hst, lookup_insert_eq. }
  split; [|by case_bool_decide; intros _].
  intros Hr. specialize (Hok Hr). case_bool_decide as Hf; [|auto with run_invariant].
  destruct Hok as [Hdom Hcan]. split; [exact Hdom|]. intros id Hc. specialize (Hcan _ Hc). congruence.
Qed.
End steps.

(** ** The start of a run *)

Lemma start_lookup wf now id :
  statuses_of (StartRun wf now) !! id =
  if bool_decide (id ∈ ID <$> Nodes wf) then Some (if is_root wf id then Queued else Pending) else None.
Proof.
  unfold statuses_of, StartRun. cbn [RunNodes]. rewrite lookup_fmap.
  assert (∀ m : gmap string RunNode,
    Status <$> (fold_left (λ m node, <[ID node := start_row wf node]> m) (Nodes wf) m) !! id =
    if bool_decide (id ∈ ID <$> Nodes wf) then Some (if is_root wf id then Queued else Pending)
    else Status <$> m !! id) as Hfold; [|by rewrite Hfold, lookup_empty].
  induction (Nodes wf) as [|n ns IH]; intros m; [done|]. cbn [fold_left]. rewrite IH, fmap_cons.
  destruct (decide (id ∈ ID <$> ns)) as [Hin|Hin].
  { rewrite !bool_decide_eq_true_2 by set_solver. done. }
  rewrite (bool_decide_eq_false_2 (id ∈ ID <$> ns)) by done. destruct (decide (id = ID n)) as [->|Hne].
  - rewrite bool_decide_eq_true_2 by set_solver. rewrite lookup_insert_eq. cbn. unfold start_row.
    by destruct (is_root wf (ID n)).
  - rewrite bool_decide_eq_false_2 by set_solver. by rewrite lookup_insert_ne.
Qed.

Lemma start_base_ok wf now : base_ok wf (StartRun wf now).
Proof.
  split; intros id; rewrite start_lookup; case_bool_decide as Hin.
  - split; [done|by eexists].
  - split; [by intros [? ?]|done].
  - by destruct (is_root wf id).
  - done.
Qed.

(** An acyclic graph has a root. *)
Lemma exists_root wf : valid_graph wf → ∃ n, n ∈ Nodes wf ∧ is_root wf (ID n) = true.
Proof.
  intros Hwf. destruct (Nodes wf) as [|n0 ns] eqn:Hnodes; [by destruct (vg_nonempty _ Hwf)|].
  rewrite <-Hnodes. assert (n0 ∈ Nodes wf) as Hin by (rewrite Hnodes; set_solver). clear Hnodes ns.
  pose proof (predecessors_wf wf Hwf (ID n0)) as Hacc. remember (ID n0) as x eqn:Hx.
  revert n0 Hx Hin. induction Hacc as [x _ IH]. intros n0 -> Hin.
  destruct (is_root wf (ID n0)) eqn:Hroot; [by eexists|]. unfold is_root in Hroot.
  apply negb_false_iff, existsb_elem in Hroot as (e & He & Hto%String.eqb_eq).
  destruct (vg_edges _ Hwf e He) as [(m & Hm & Hmin)%list_elem_of_fmap _].
  apply (IH (From e)) with (n0 := m); [by exists e|done..].
Qed.

Lemma start_live wf now : valid_graph wf → live (StartRun wf now).
Proof.
  intros Hwf _. destruct (exists_root wf Hwf) as (n & Hn & Hroot). exists (ID n), Queued.
  rewrite start_lookup, bool_decide_eq_true_2, Hroot; [done|]. apply list_elem_of_fmap. by exists n.
Qed.

Lemma reachable_redriven_ok upper wf input r :
  valid_graph wf → reachable_redriven upper wf input r → base_ok wf r ∧ live r.
Proof.
  intros Hwf. induction 1 as [now|r r' _ [Hok Hlive] Hstep Hkeep].
  - split; [apply start_base_ok|by apply start_live].
  - destruct Hstep as [r' Hstep|now nodeID rerun r' t Hred].
    + by apply (step_good_of _ _ _ _ _ Hstep).
    + destruct (redrive_live wf _ _ _ _ _ _ Hred); auto.
Qed.

Lemma reachable_is_redriven upper wf input r : reachable upper wf input r → reachable_redriven upper wf input r.
Proof. induction 1; [constructor|]. eapply rr_step; [done|by constructor|done]. Qed.

(** ** What the life cycle keeps *)

Definition started (s : node_status) : bool :=
  match s with Queued | Running | Waiting | Succeeded | Failed => true | _ => false end.
Definition deps_started (wf : Workflow) (st : statuses_map) : Prop :=
  ∀ id s, st !! id = Some s → started s = true → depsSatisfied wf id st = true.

Lemma lifecycle_settled wf st st' id s :
  lifecycle wf st st' → st !! id = Some s → settled s = true → st' !! id = Some s.
Proof.
  destruct 1 as [id' s1 s2 Hid' Hmv]. intros Hid Hs.
  destruct (decide (id' = id)) as [->|]; [|by rewrite lookup_insert_ne].
  simplify_eq. destruct Hmv as [| | | | | | | | | | | |? [->|[->| ->]]]; done.
Qed.

Lemma lifecycle_deps_started wf st st' : lifecycle wf st st' → deps_started wf st → deps_started wf st'.
Proof.
  intros Hlc Hdeps. assert (∀ i s, st !! i = Some s → settled s = true → st' !! i = Some s) as Hsettled
    by (intros; by eapply lifecycle_settled).
  destruct Hlc as [id s s' Hid Hmv]. intros id' x Hx Hstart. eapply satisfied_mono; [exact Hsettled|].
  destruct (decide (id = id')) as [->|]; [|rewrite lookup_insert_ne in Hx by done; by eapply Hdeps].
  rewrite lookup_insert_eq in Hx. injection Hx as ->.
  destruct Hmv as [| | | | | | | | | | | |? [->|[->| ->]]]; try done; by eapply Hdeps.
Qed.

Lemma lifecycles_deps_started wf st st' : lifecycles wf st st' → deps_started wf st → deps_started wf st'.
Proof. induction 1; eauto using lifecycle_deps_started. Qed.

Lemma is_root_satisfied wf id st : is_root wf id = true → depsSatisfied wf id st = true.
Proof.
  unfold is_root, depsSatisfied. rewrite negb_true_iff, existsb_false_elem, forallb_elem.
  intros H e He. by rewrite (H e He).
Qed.

(** ** Success *)

Definition complete_statuses (wf : Workflow) (st : statuses_map) : Prop := all_handled wf st ∧ none_open st.

(** A run that has succeeded was completed by its last transition, or already had
    succeeded and the transition moved no node or found one in progress. *)
Definition success_from (wf : Workflow) (r r' : Run) : Prop :=
  RunStatus r' = RunSucceeded →
  (RunStatus r = RunSucceeded ∧
     ((∃ id s, statuses_of r !! id = Some s ∧ active s = true) ∨ statuses_of r' = statuses_of r)) ∨
  complete_statuses wf (statuses_of r').

Lemma schedule_success upper wf input now at_ r r' t :
  scheduleDownstream upper wf input now at_ r = Some (r', t) → RunStatus r' = RunSucceeded →
  RunStatus r = RunSucceeded ∨ complete_statuses wf (statuses_of r').
Proof.
  intros Hsched Hsucc. destruct (decide (RunStatus r = RunRunning)) as [Hrun|Hrun].
  2: { unfold scheduleDownstream in Hsched. rewrite bool_decide_eq_false_2 in Hsched by done.
       injection Hsched as <- <-. by left. }
  destruct (schedule_spec upper wf input now at_ r Hrun) as (r2 & t2 & st & n & Hs & _ & _ & Hcases).
  rewrite Hsched in Hs. injection Hs as <- <-.
  destruct Hcases as [(?&_)|[(?&_)|(_&_&_&->&?&?&_)]]; [congruence..|]. by right.
Qed.

Lemma from_schedule_success upper wf input now at_ r r' t :
  from_schedule (scheduleDownstream upper wf input now at_ r) = Some (Committed r' t) →
  RunStatus r' = RunSucceeded → RunStatus r = RunSucceeded ∨ complete_statuses wf (statuses_of r').
Proof.
  unfold from_schedule. destruct (scheduleDownstream _ _ _ _ _ _) as [[r2 t2]|] eqn:Hs; [|done].
  intros [= <- <-]. by eapply schedule_success.
Qed.

(** The status of the row a guarded update finds. *)
Lemma cas_active g f id r r' : cas_node g f id r = Some r' →
  (∀ row, g row = true → active (Status row) = true) →
  RunStatus r' = RunStatus r ∧ ∃ id s, statuses_of r !! id = Some s ∧ active s = true.
Proof.
  intros (Hrs & row & Hrow & Hg & _)%cas_statuses Hact. split; [done|]. exists id. eexists.
  split; [apply statuses_lookup; by exists row|by apply Hact].
Qed.

Lemma flip_success at_ out r : RunStatus (flipRunTerminal RunFailed at_ out r) = RunSucceeded → RunStatus r = RunSucceeded.
Proof.
  destruct (decide (RunStatus r = RunRunning)) as [?|?]; [by rewrite flip_status|by rewrite flip_other].
Qed.
