(* ===== verification/RunSafety.v ===== *)
(** What the engine promises of a run: the readiness scan terminates, every
    transaction follows the life cycle of the nodes, a running run has work in
    progress, a node starts after its dependencies, and success means completion.
    Also the transitions that leave these promises. *)
From S2P Require Import Prelude GoStrings GoFloat GoAny Json SafePersist Template Graph.
From S2P Require Import GraphFacts Runtime RuntimeFacts RecoveryContract.
From stdpp Require Import relations.
Local Open Scope string_scope.
Local Open Scope list_scope.
Local Open Scope nat_scope.

(** ** Success *)

(** The guards of the operations accept active nodes only. *)
Ltac solve_active :=
  let row := fresh in let Hg := fresh in
  intros row Hg; unfold approval_due, waiting_with in Hg;
  repeat (let H' := fresh in apply andb_true_iff in Hg as [Hg H']);
  apply has_status_true in Hg; by rewrite Hg.

Section success.
Context (upper : string → string) (wf : Workflow) (runInput : obj).

(** The end of a transaction that committed [r'] after its guarded update gave [r1]. *)
Lemma success_stuck r r1 r' :
  (RunStatus r1 = RunStatus r ∧ ∃ id s, statuses_of r !! id = Some s ∧ active s = true) →
  (RunStatus r' = RunSucceeded → RunStatus r1 = RunSucceeded ∨ complete_statuses wf (statuses_of r')) →
  success_from wf r r'.
Proof. intros [Hrs Hact] Himp Hsucc. destruct (Himp Hsucc); [left|by right]. split; [congruence|by left]. Qed.

Lemma fail_success now nodeID attempt serr r r' t :
  failNodeTx upper wf runInput now nodeID attempt serr r = Some (Committed r' t) → success_from wf r r'.
Proof.
  unfold failNodeTx. intros H. destruct (_ && _); [done|]. cas_cases H.
  eapply success_stuck; [eapply cas_active; [exact Hcas|solve_active]|]. intros Hsucc.
  destruct (_ && nodeFailureHandled wf nodeID) in H.
  - by eapply (from_schedule_success upper wf runInput now now (add_event nodeID "node.failed" now r1)).
  - left. revert H Hsucc. case_bool_decide; intros [= <- <-] Hsucc; [done|]. by apply flip_success in Hsucc.
Qed.

Lemma approval_success now nodeID at_ current r r' t :
  processApprovalTimeout now nodeID at_ current r = Committed r' t → success_from wf r r'.
Proof.
  unfold processApprovalTimeout. destruct (RunNodes r !! nodeID) as [row|]; [|done]. cbv zeta. intros H.
  destruct (_ || _) in H; [done|]. destruct (_ && _) in H; cas_cases H; injection H as <- <-;
    (eapply success_stuck; [eapply cas_active; [exact Hcas|solve_active]|]); [by left|].
  intros Hsucc%flip_success. by left.
Qed.

Lemma resolve_success now nodeID replacement quarantine blocked r r' t :
  applySemanticResolution upper wf runInput now nodeID replacement quarantine blocked r = Some (Committed r' t) →
  success_from wf r r'.
Proof.
  unfold applySemanticResolution. cbv zeta. destruct (if quarantine then _ else _) eqn:Hconf; [done|].
  intros H Hsucc. cas_cases H. destruct (bool_decide (RunStatus r1 = RunWaiting) && negb blocked).
  - destruct (from_schedule_success _ _ _ _ _ _ _ _ H Hsucc) as [?|?]; [done|by right].
  - injection H as <- <-. cbn in Hsucc. left. destruct quarantine; apply negb_false_iff, bool_decide_eq_true in Hconf.
    + exfalso. destruct replacement; [|by injection Hcas as <-; congruence].
      apply cas_statuses in Hcas as [? _]. congruence.
    + subst. injection Hcas as <-. split; [done|by right].
Qed.

Lemma step_success r r' : step upper wf runInput r r' → success_from wf r r'.
Proof.
  destruct 1 as [id r' t H|now id output decision n q r' t H|now id n max retryable serr r' t H|now id meta r' t H
    |now id output r' t H| |now id aid type r' t H|now id n serr r' t H|now id out child r' t H
    |now id child serr r' t H|now id child r' t H|now id child r' t H| |now reason r' t H];
    [| | | | |eapply approval_success; eassumption| | | | | | |eapply resolve_success; eassumption|].
  - unfold MarkLockedNodesRunning in H. cas_cases H. injection H as <- <-.
    eapply success_stuck; [eapply cas_active; [exact Hcas|solve_active]|]. by left.
  - revert H. set (plan := _ <$> decision). intros H. unfold completeNode in H. cas_cases H.
    eapply success_stuck; [eapply cas_active; [exact Hcas|solve_active]|]. intros Hsucc.
    destruct (persistSemanticViolations _ _ _ _ _) as [r3 q3] eqn:Hviol.
    apply (violations_spec wf) in Hviol as (_ & Hrs3 & _).
    assert (∀ r4, r4 = (match plan with Some p => skip_losers now id p r3 | None => r3 end) →
      RunStatus r4 = if q3 then RunWaiting else RunStatus r1) as Hrs4.
    { intros r4 ->. destruct plan; [rewrite skip_losers_status|]; by rewrite Hrs3. }
    destruct q3.
    + injection H as <- <-. by rewrite (Hrs4 _ eq_refl) in Hsucc.
    + destruct (from_schedule_success _ _ _ _ _ _ _ _ H Hsucc) as [Hc|?]; [left|by right].
      by rewrite (Hrs4 _ eq_refl) in Hc.
  - unfold RetryOrFail in H. destruct (_ || _) in H; [by eapply fail_success|].
    unfold RequeueRunNodeForRetry in H. injection H as H. cas_cases H. injection H as <- <-.
    eapply success_stuck; [eapply cas_active; [exact Hcas|solve_active]|]. by left.
  - unfold MarkNodeWaiting in H. cas_cases H. injection H as <- <-.
    eapply success_stuck; [eapply cas_active; [exact Hcas|solve_active]|]. by left.
  - unfold ResumeNode in H. cas_cases H.
    eapply success_stuck; [eapply cas_active; [exact Hcas|solve_active]|].
    exact (from_schedule_success _ _ _ _ _ _ _ _ H).
  - unfold requeueToolApproval in H. cas_cases H. injection H as <- <-.
    eapply success_stuck; [eapply cas_active; [exact Hcas|solve_active]|]. by left.
  - unfold failInvalidSnapshotTimer in H. destruct (negb _) in H; [done|]. cas_cases H. injection H as <- <-.
    eapply success_stuck; [eapply cas_active; [exact Hcas|solve_active]|].
    intros Hsucc%flip_success. by left.
  - unfold settleParentOnChildSuccess in H. cas_cases H.
    eapply success_stuck; [eapply cas_active; [exact Hcas|solve_active]|].
    case_bool_decide; [exact (from_schedule_success _ _ _ _ _ _ _ _ H)|]. injection H as <- <-. by left.
  - unfold settleParentOnChildFailure in H. cas_cases H. injection H as <- <-.
    eapply success_stuck; [eapply cas_active; [exact Hcas|solve_active]|].
    case_bool_decide; [intros Hsucc%flip_success|]; by left.
  - unfold repairParentOnChildSuccess in H. destruct (RunNodes r !! id) as [row|]; [|done].
    destruct (_ && bool_decide (RunStatus r = RunRunning)) eqn:Hb in H; [|done].
    apply andb_true_iff in Hb as [_ Hrun%bool_decide_eq_true]. intros Hsucc.
    destruct (from_schedule_success _ _ _ _ _ _ _ _ H Hsucc) as [?|?]; [congruence|by right].
  - unfold repairParentOnChildFailure in H. destruct (RunNodes r !! id) as [row|]; [|done].
    destruct (_ && bool_decide (RunStatus r = RunRunning)) eqn:Hb in H; [|done].
    apply andb_true_iff in Hb as [_ Hrun%bool_decide_eq_true]. injection H as <- <-.
    intros Hsucc%flip_success. congruence.
  - apply cancel_statuses in H as (Hrs & _ & _). intros ?. congruence.
Qed.

Lemma reachable_complete r :
  reachable upper wf runInput r → RunStatus r = RunSucceeded → complete_statuses wf (statuses_of r).
Proof.
  induction 1 as [|r r' _ IH Hstep _]; [done|]. intros Hsucc.
  destruct (step_success r r' Hstep Hsucc) as [[Hr [(id & s & Hid & Hact)| ->]]|?]; [|by apply IH|done].
  destruct (IH Hr) as [_ Hopen]. specialize (Hopen _ _ Hid). by destruct s.
Qed.

Lemma reachable_deps_started r : reachable upper wf runInput r → deps_started wf (statuses_of r).
Proof.
  induction 1 as [now|r r' _ IH Hstep _].
  - intros id s. rewrite start_lookup. case_bool_decide; [|done].
    destruct (is_root wf id) eqn:Hroot; intros [= <-] Hs; [by apply is_root_satisfied|done].
  - eapply lifecycles_deps_started; [|exact IH]. by apply (step_good_of _ _ _ _ _ Hstep).
Qed.
End success.

(** ** The properties *)

(** A workflow with a success branch and a failure branch. *)
Definition demo_node (id : string) : Node := mkNode id "" "" [].
Definition demo_workflow : Workflow :=
  graph_workflow (map demo_node ["fetch"; "ship"; "alert"])
    [mkEdge "" "fetch" "ship" "" false; mkEdge "" "fetch" "alert" "" true] [].
Definition committed (o : option tx) (r : Run) : Run := match o with Some (Committed r' _) => r' | _ => r end.
Definition same_case (s : string) : string := s.

Definition demo_started : Run := StartRun demo_workflow 0.
Definition demo_claimed : Run := committed (Some (MarkLockedNodesRunning "fetch" demo_started)) demo_started.
(** The fetch failed: the failure branch runs. *)
Definition demo_alerted : Run :=
  committed (RetryOrFail same_case demo_workflow [] 10 "fetch" 1 1 true (AStr "timeout") demo_claimed) demo_claimed.
Definition demo_alerting : Run := committed (Some (MarkLockedNodesRunning "alert" demo_alerted)) demo_alerted.
(** The alert was sent: the run succeeds. *)
Definition demo_done : Run :=
  committed (completeNode same_case demo_workflow [] 20 "alert" (AStr "sent") None 0 false demo_alerting) demo_alerting.

Lemma demo_valid : valid_graph demo_workflow.
Proof.
  split; [done| |by vm_compute].
  intros e He. split; apply (bool_decide_unpack _); revert e He; apply Forall_forall; by repeat constructor.
Qed.

Lemma demo_alerted_reachable : reachable same_case demo_workflow [] demo_alerted.
Proof.
  apply reach_step with (r := demo_claimed); [| |done].
  - apply reach_step with (r := demo_started); [constructor| |done].
    apply step_claim with (nodeID := "fetch") (t := false). by vm_compute.
  - eapply step_fail with (now := 10%Z) (nodeID := "fetch") (attempt := 1%Z) (max := 1%Z) (retryable := true)
      (serr := AStr "timeout") (t := false). by vm_compute.
Qed.

Lemma demo_done_reachable : reachable same_case demo_workflow [] demo_done.
Proof.
  apply reach_step with (r := demo_alerting); [| |by vm_compute].
  - apply reach_step with (r := demo_alerted); [apply demo_alerted_reachable| |by vm_compute].
    apply step_claim with (nodeID := "alert") (t := false). by vm_compute.
  - eapply step_complete with (now := 20%Z) (nodeID := "alert") (output := AStr "sent") (decision := None)
      (violations := 0) (q := false) (t := true). by vm_compute.
Qed.

(** The two facts about the end of a run, for its own properties and for those of the gate. *)
Lemma running_has_work (upper : string → string) (wf : Workflow) (runInput : obj) (r : Run) :
  valid_graph wf → reachable_redriven upper wf runInput r → RunStatus r = RunRunning →
  ∃ id row, RunNodes r !! id = Some row ∧
    (Status row = Queued ∨ Status row = Running ∨ Status row = Waiting).
Proof.
  intros Hwf Hreach Hrun. destruct (reachable_redriven_ok _ _ _ _ Hwf Hreach) as [_ Hlive].
  destruct (Hlive Hrun) as (id & s & (row & Hrow & Hs)%statuses_lookup & Hact).
  exists id, row. split; [done|]. rewrite Hs. destruct s; naive_solver.
Qed.

Lemma succeeded_row (upper : string → string) (wf : Workflow) (runInput : obj) (r : Run) (n : Node) :
  valid_graph wf → reachable upper wf runInput r → RunStatus r = RunSucceeded → n ∈ Nodes wf →
  ∃ row, RunNodes r !! ID n = Some row ∧
    (Status row = Succeeded ∨ Status row = Skipped ∨
     (Status row = Failed ∧ ∃ e, e ∈ Edges wf ∧ OnError e = true ∧ From e = ID n)).
Proof.
  intros Hwf Hreach Hsucc Hn. destruct (reachable_complete _ _ _ _ Hreach Hsucc) as [Hhandled Hopen].
  apply reachable_is_redriven in Hreach as [[Hdom Hcan] _]%reachable_redriven_ok; [|done].
  destruct (proj2 (Hdom (ID n))) as [s Hs]; [apply list_elem_of_fmap; by exists n|].
  specialize (Hopen _ _ Hs). specialize (Hhandled (ID n)). specialize (Hcan (ID n)).
  apply statuses_lookup in Hs as Hrow. destruct Hrow as (row & Hrow & <-). exists row. split; [done|].
  destruct (Status row) eqn:Hst; try done; auto.
  - right; right. split; [done|]. specialize (Hhandled Hs). unfold nodeFailureHandled in Hhandled.
    apply existsb_elem in Hhandled as (e & He & [Hon Hfrom%String.eqb_eq]%andb_true_iff). by exists e.
  - specialize (Hcan Hs). congruence.
Qed.









(** C5: Scheduling after a transaction always terminates within its fuel. It
    leaves a run that is not running untouched; otherwise it ends at a fixpoint, where
    every node still pending lacks a settled dependency (unless the run failed, which
    returns the queue to pending), reports the end of the run exactly when it ended it,
    and ends it as failed only for a failure that no failure branch handles. *)
Theorem scheduling_settles (upper : string → string) (wf : Workflow) (runInput : obj) (now at_ : Z) (r : Run) :
  ∃ r' t, scheduleDownstream upper wf runInput now at_ r = Some (r', t) ∧
    (RunStatus r ≠ RunRunning → r' = r ∧ t = false) ∧
    (RunStatus r = RunRunning →
       (t = true ↔ RunStatus r' = RunFailed ∨ RunStatus r' = RunSucceeded) ∧
       (t = false ↔ RunStatus r' = RunRunning) ∧
       (RunStatus r' ≠ RunFailed → ∀ n row, n ∈ Nodes wf → RunNodes r' !! ID n = Some row → Status row = Pending →
          depsDoomed wf (ID n) (statuses_of r') = false ∧ depsSatisfied wf (ID n) (statuses_of r') = false) ∧
       (RunStatus r' = RunFailed → (∃ id row, RunNodes r' !! id = Some row ∧ Status row = Failed ∧
          nodeFailureHandled wf id = false) ∧ ∀ id row, RunNodes r' !! id = Some row → Status row ≠ Queued)).
Proof.
  destruct (decide (RunStatus r = RunRunning)) as [Hrun|Hrun].
  2: { exists r, false. split; [|by split]. unfold scheduleDownstream. by rewrite bool_decide_eq_false_2. }
  destruct (schedule_spec upper wf runInput now at_ r Hrun) as (r' & t & st & n & -> & _ & Hfix & Hcases).
  exists r', t. split; [done|]. split; [done|]. intros _.
  assert (RunStatus r' ≠ RunFailed → statuses_of r' = st) as Hst.
  { destruct Hcases as [(?&?&?&_)|[(?&?&?&?&_)|(?&?&?&?&_)]]; congruence. }
  split; [|split; [|split]].
  - destruct Hcases as [(->&->&_)|[(->&->&_)|(->&->&_)]]; naive_solver.
  - destruct Hcases as [(->&->&_)|[(->&->&_)|(->&->&_)]]; naive_solver.
  - intros Hnf m row Hm Hrow Hp. rewrite (Hst Hnf). specialize (Hfix m Hm). unfold ready in Hfix.
    rewrite <-(Hst Hnf) in Hfix at 1. assert (statuses_of r' !! ID m = Some Pending) as Hpend
      by (apply statuses_lookup; by exists row).
    destruct (depsDoomed wf (ID m) st), (depsSatisfied wf (ID m) st); naive_solver.
  - intros Hf. destruct Hcases as [(?&_)|[(_&_&_&Hd&Hun)|(?&_)]]; [congruence| |congruence]. split.
    + destruct (existsb (λ kv, bool_decide (kv.2 = Failed) && negb (nodeFailureHandled wf kv.1)) (map_to_list st)) eqn:Hex.
      * apply existsb_elem in Hex as ([id x] & Hin & Hb). cbn in Hb.
        apply andb_true_iff in Hb as [->%bool_decide_eq_true Hh%negb_true_iff].
        apply elem_of_map_to_list in Hin.
        assert (statuses_of r' !! id = Some Failed) as (row & Hrow & Hs)%statuses_lookup
          by (rewrite Hd, demoted_lookup, Hin; done).
        by exists id, row.
      * rewrite existsb_false_elem in Hex. destruct Hun. intros id Hid. specialize (Hex (id, Failed)).
        rewrite elem_of_map_to_list in Hex. specialize (Hex Hid). cbn in Hex. by apply negb_false_iff in Hex.
    + intros id row Hrow Hq. assert (statuses_of r' !! id = Some Queued) as Hl
        by (apply statuses_lookup; by exists row).
      rewrite Hd, demoted_lookup in Hl. destruct (st !! id); [|done]. cbn in Hl.
      case_bool_decide; congruence.
Qed.

(** ** Transitions that leave these promises *)

Lemma cas_hit g f id r row : RunNodes r !! id = Some row → g row = true →
  cas_node g f id r = Some (set_nodes (<[id := f row]> (RunNodes r)) r).
Proof. intros Hrow Hg. unfold cas_node. by rewrite Hrow, Hg. Qed.

(** Two independent nodes, both running. *)
Definition twins : Workflow := graph_workflow (map demo_node ["left"; "right"]) [] [].
Definition twins_running : Run :=
  let r := StartRun twins 0 in
  let r := committed (Some (MarkLockedNodesRunning "left" r)) r in
  committed (Some (MarkLockedNodesRunning "right" r)) r.
(** The failure of one ended the run. *)
Definition twins_failed : Run :=
  committed (RetryOrFail same_case twins [] 10 "left" 1 1 true ANil twins_running) twins_running.

(** A retry and a redrive put their node in the queue whatever the
    status of its run, and leave that status alone unless a redrive finds it failed: a
    retryable failure in a failed or cancelled run, and the redrive of a handled failure
    in a succeeded run, leave a queued node that no worker claims. *)
Theorem requeue_ignores_run_status (upper : string → string) (wf : Workflow) (runInput : obj) (now attempt max : Z)
    (id : string) (serr : any) (r : Run) (row : RunNode) :
  RunNodes r !! id = Some row → (attempt < max)%Z →
  (Status row = Running → ∃ r',
     RetryOrFail upper wf runInput now id attempt max true serr r = Some (Committed r' false) ∧
     RunStatus r' = RunStatus r ∧ Status <$> RunNodes r' !! id = Some Queued) ∧
  (Status row = Failed → ∃ r', RedriveRunNode now id false r = Committed r' false ∧
     RunStatus r' = (if bool_decide (RunStatus r = RunFailed) then RunRunning else RunStatus r) ∧
     Status <$> RunNodes r' !! id = Some Queued).
Proof.
  intros Hrow Hmax. split; intros Hst.
  - unfold RetryOrFail. rewrite (proj2 (Z.leb_gt _ _)) by done. cbn [negb orb]. unfold RequeueRunNodeForRetry.
    erewrite cas_hit; [|exact Hrow|by apply has_status_true].
    eexists. split; [done|]. split; [done|]. cbn. by rewrite lookup_insert_eq.
  - unfold RedriveRunNode. erewrite cas_hit; [|exact Hrow|by apply has_status_true].
    eexists. split; [done|]. cbn. case_bool_decide; cbn; by rewrite lookup_insert_eq.
Qed.

Lemma requeue_ignores_run_status_witness :
  RunStatus twins_failed = RunFailed ∧
  ∃ r', RetryOrFail same_case twins [] 20 "right" 1 3 true ANil twins_failed = Some (Committed r' false) ∧
    RunStatus r' = RunFailed ∧ Status <$> RunNodes r' !! "right" = Some Queued.
Proof.
  split; [by vm_compute|].
  apply (requeue_ignores_run_status same_case twins [] 20 1 3 "right" ANil twins_failed
    (default (mkRunNode Pending 0 "" "") (RunNodes twins_failed !! "right"))); by vm_compute.
Defined.

(** A node that finishes with a quarantined output makes its run
    wait whatever the run's status, cancelled included, and the release of the quarantine
    then runs the readiness scan as if the run had never stopped. *)
Theorem quarantine_overwrites_run_status (upper : string → string) (wf : Workflow) (runInput : obj) (now now' : Z)
    (id : string) (output : any) (plan : option RouterExecution) (n : nat) (r : Run) (row : RunNode) :
  RunNodes r !! id = Some row → Status row = Running → (0 < n)%nat →
  ∃ r', completeNode upper wf runInput now id output plan n true r = Some (Committed r' false) ∧
    RunStatus r' = RunWaiting ∧
    ∃ r'' t, applySemanticResolution upper wf runInput now' id None true false r' = Some (Committed r'' t) ∧
      (RunStatus r'' = RunRunning ∨ RunStatus r'' = RunFailed ∨ RunStatus r'' = RunSucceeded).
Proof.
  intros Hrow Hst Hn. unfold completeNode, CompleteRunNode.
  erewrite cas_hit; [|exact Hrow|by apply has_status_true].
  destruct (persistSemanticViolations _ _ _ _ _) as [r3 q] eqn:Hviol.
  assert (q = true) as -> by (unfold persistSemanticViolations in Hviol; destruct n; [lia|congruence]).
  apply (violations_spec wf) in Hviol as (_ & Hrs & _).
  eexists. split; [done|].
  assert (RunStatus (match plan with Some p => skip_losers now id p r3 | None => r3 end) = RunWaiting) as Hw
    by (destruct plan; [rewrite skip_losers_status|]; done).
  split; [exact Hw|]. unfold applySemanticResolution.
  set (r' := match plan with Some p => skip_losers now id p r3 | None => r3 end) in *.
  rewrite !bool_decide_eq_true_2 by done. cbn [negb andb].
  set (r1 := add_event id _ now' (set_status RunRunning r')).
  destruct (schedule_spec upper wf runInput now' now' r1 eq_refl) as (r'' & t & st & k & -> & _ & _ & Hcases).
  exists r'', t. split; [done|]. naive_solver.
Qed.

(** A run cancelled while its first node runs is reported as a success, with the second
    node cancelled. *)
Definition chain : Workflow :=
  graph_workflow (map demo_node ["left"; "right"]) [mkEdge "" "left" "right" "" false] [].
Definition chain_cancelled : Run :=
  let r := committed (Some (MarkLockedNodesRunning "left" (StartRun chain 0))) (StartRun chain 0) in
  committed (Some (CancelRun 10 ANil r)) r.

Lemma quarantine_overwrites_run_status_witness :
  RunStatus chain_cancelled = RunCancelled ∧
  ∃ r', completeNode same_case chain [] 20 "left" (AStr "x") None 1 true chain_cancelled = Some (Committed r' false) ∧
    RunStatus r' = RunWaiting ∧
    ∃ r'' t, applySemanticResolution same_case chain [] 30 "left" None true false r' = Some (Committed r'' t) ∧
      (RunStatus r'' = RunRunning ∨ RunStatus r'' = RunFailed ∨ RunStatus r'' = RunSucceeded).
Proof.
  split; [by vm_compute|].
  apply (quarantine_overwrites_run_status same_case chain [] 20 30 "left" (AStr "x") None 1 chain_cancelled
    (default (mkRunNode Pending 0 "" "") (RunNodes chain_cancelled !! "left"))); by vm_compute.
Defined.

Example cancelled_run_ends_succeeded :
  let r1 := committed (completeNode same_case chain [] 20 "left" (AStr "x") None 1 true chain_cancelled) chain_cancelled in
  let r2 := committed (applySemanticResolution same_case chain [] 30 "left" None true false r1) r1 in
  RunStatus r2 = RunSucceeded ∧ Status <$> RunNodes r2 !! "right" = Some Cancelled.
Proof. by vm_compute. Qed.

(** The approval of a node with a failure branch times out: the run fails and the
    branch never runs. *)
Example approval_timeout_ignores_failure_branch :
  let metadata := [("kind", AStr "approval"); ("deadlineAt", AStr "2030-01-01T00:00:00.000Z")] in
  let r1 := committed (Some (MarkNodeWaiting 5 "fetch" metadata demo_claimed)) demo_claimed in
  let r2 := committed (Some (processApprovalTimeout 10 "fetch" "" true r1)) r1 in
  RunStatus r2 = RunFailed ∧ Status <$> RunNodes r2 !! "fetch" = Some Failed ∧
  nodeFailureHandled demo_workflow "fetch" = true ∧ Status <$> RunNodes r2 !! "alert" = Some Pending.
Proof. by vm_compute. Qed.
