(* ===== verification/AuthorityFacts.v ===== *)
(** Approvals on the graph and in the run: what the readiness gate reports, when an
    approval dominates a node, and what that authority means for a node that runs. *)
From S2P Require Import Prelude GoStrings GoFloat GoAny Graph GraphFacts Closure Runtime RuntimeFacts RecoveryContract.
From S2P Require Import RunSafety Readiness ReadinessFacts.
From stdpp Require Import relations.
Local Open Scope string_scope.
Local Open Scope list_scope.
Local Open Scope nat_scope.

(** ** The gate *)

Section gate.
Context `{UnicodeTables} (upper : string → string).

Lemma check_fork_codes wf n : ∃ l, check_fork wf n = Some l ∧ ∀ i, i ∈ l →
  ri_Code i = "fork_without_join_pair" ∨ ri_Code i = "fork_join_missing_branch_sources".
Proof.
  unfold check_fork. destruct (downstreamJoins_spec wf (ID n)) as (joins & -> & _). cbn [mbind option_bind].
  destruct joins as [|j js].
  - eexists. split; [reflexivity|]. intros i ->%list_elem_of_singleton. by left.
  - destruct (_ || _); eexists; (split; [reflexivity|]); intros i Hi; [by apply elem_of_nil in Hi|].
    apply list_elem_of_singleton in Hi as ->. by right.
Qed.

(** A source of the join that no path of edges leads from. *)
Definition unreachable_source (wf : Workflow) (n : Node) : Prop :=
  ∃ sources label p, obj_at (Config n) "sources" = AObj sources ∧ (label, AStr p) ∈ sources ∧ p ≠ "" ∧
    ¬ edge_path wf p (ID n).

Lemma check_join_spec wf n : ∃ l, check_join wf n = Some l ∧
  (∀ i, i ∈ l → ri_Code i = "join_sources_unreachable" ∧ ri_NodeID i = ID n) ∧
  ((∃ i, i ∈ l) ↔ unreachable_source wf n).
Proof.
  unfold check_join, unreachable_source. destruct (obj_at (Config n) "sources") as [| | | | | | | | |o] eqn:Hobj; cbn [as_obj].
  1-9: exists []; (split; [reflexivity|]); split; [by intros i ?%elem_of_nil|]; split;
    [by intros [i ?%elem_of_nil]|]; intros (sources & _ & _ & Hs & _); discriminate Hs.
  destruct (collectAncestors_spec wf (ID n)) as (anc & -> & Hanc). cbn [mbind option_bind].
  eexists. split; [reflexivity|]. split.
  - intros i Hi. apply list_elem_of_In, in_flat_map in Hi as (kv & _ & Hi%list_elem_of_In).
    destruct (as_string kv.2) as [p|]; [|by apply elem_of_nil in Hi].
    destruct (_ || _); [by apply elem_of_nil in Hi|]. by apply list_elem_of_singleton in Hi as ->.
  - split.
    + intros (i & Hi). apply list_elem_of_In, in_flat_map in Hi as ([label v] & Hin%list_elem_of_In & Hi%list_elem_of_In).
      destruct v; cbn [as_string snd] in Hi; try (by apply elem_of_nil in Hi).
      destruct (String.eqb _ "" || in_list anc _) eqn:Hb in Hi; [by apply elem_of_nil in Hi|].
      apply orb_false_iff in Hb as [Hne%String.eqb_neq Hanc'].
      eexists _, _, _. split; [reflexivity|]. split; [exact Hin|]. split; [exact Hne|].
      intros Hp. apply Hanc, in_list_spec in Hp. congruence.
    + intros (sources & label & p & [= <-] & Hin & Hne & Hnp).
      assert (String.eqb p "" || in_list anc p = false) as Hb.
      { apply orb_false_iff. split; [by apply String.eqb_neq|]. apply not_true_iff_false.
        intros Hp. by apply Hnp, Hanc, in_list_spec. }
      eexists. apply list_elem_of_In, in_flat_map. exists (label, AStr p). split; [by apply list_elem_of_In|].
      apply list_elem_of_In. cbn [as_string snd]. rewrite Hb. apply list_elem_of_singleton. reflexivity.
Qed.

Lemma fork_join_spec wf : ∃ l, CheckForkJoinReadiness wf = Some l ∧
  (∀ i, i ∈ l → ri_Code i ∈ ["fork_without_join_pair"; "fork_join_missing_branch_sources";
                             "join_sources_unreachable"]) ∧
  ∀ id, (∃ i, i ∈ l ∧ ri_Code i = "join_sources_unreachable" ∧ ri_NodeID i = id) ↔
    ∃ n, n ∈ Nodes wf ∧ ID n = id ∧ Type_ n = "join" ∧ unreachable_source wf n.
Proof.
  unfold CheckForkJoinReadiness. set (f := λ node : Node, if String.eqb (Type_ node) "parallel_fork" then _ else _).
  assert (∀ n, ∃ l, f n = Some l ∧
    (∀ i, i ∈ l → ri_Code i ∈ ["fork_without_join_pair"; "fork_join_missing_branch_sources"; "join_sources_unreachable"]) ∧
    (∀ id, (∃ i, i ∈ l ∧ ri_Code i = "join_sources_unreachable" ∧ ri_NodeID i = id) ↔
       ID n = id ∧ Type_ n = "join" ∧ unreachable_source wf n)) as Hf.
  { intros n. unfold f. destruct (String.eqb_spec (Type_ n) "parallel_fork") as [Ht|_].
    - destruct (check_fork_codes wf n) as (l & -> & Hl). exists l. split; [reflexivity|]. split.
      + intros i Hi. rewrite !elem_of_cons. destruct (Hl i Hi); auto.
      + intros id. split; [|intros (_ & Hj & _); congruence]. intros (i & Hi & Hc & _).
        destruct (Hl i Hi); congruence.
    - destruct (String.eqb_spec (Type_ n) "join") as [Ht|Ht].
      + destruct (check_join_spec wf n) as (l & -> & Hl & Hiff). exists l. split; [reflexivity|]. split.
        * intros i Hi. rewrite !elem_of_cons. destruct (Hl i Hi); auto.
        * intros id. split.
          -- intros (i & Hi & _ & <-). destruct (Hl i Hi) as [_ ->]. split; [done|]. split; [done|]. apply Hiff. by exists i.
          -- intros (<- & _ & Hu). apply Hiff in Hu as [i Hi]. exists i. split; [done|]. by apply Hl.
      + exists []. split; [reflexivity|]. split; [by intros i ?%elem_of_nil|]. intros id.
        split; [by intros (i & ?%elem_of_nil & _)|]. by intros (_ & ? & _). }
  destruct (option_flat_map_spec f (Nodes wf)) as (out & -> & Hout).
  { intros n _. destruct (Hf n) as (l & -> & _). by eexists. }
  exists out. split; [reflexivity|]. split.
  - intros i (n & l & _ & Hl & Hi)%Hout. destruct (Hf n) as (l' & Hl' & Hc & _). rewrite Hl in Hl'.
    injection Hl' as <-. by apply Hc.
  - intros id. split.
    + intros (i & (n & l & Hn & Hl & Hi)%Hout & Hc & Hid). destruct (Hf n) as (l' & Hl' & _ & Hiff).
      rewrite Hl in Hl'. injection Hl' as <-. exists n. split; [done|]. apply Hiff. by exists i.
    + intros (n & Hn & Hrest). destruct (Hf n) as (l & Hl & _ & Hiff). destruct (proj2 (Hiff id) Hrest) as (i & Hi & Hc & Hid).
      exists i. split; [|done]. apply Hout. by exists n, l.
Qed.

(** The readiness gate always answers. Its status is fail exactly when an
    issue is, and pass exactly when there is none. It reports a missing approval exactly
    for the write-side nodes that some approval does not dominate, whatever the sharing
    of the memo table between nodes; a raw secret exactly for the nodes whose configuration
    holds a literal under a credential-shaped key at any depth; and an unreachable source
    exactly for the joins one of whose sources has no path to them. *)
Theorem readiness_gate_correct (wf : Workflow) (opts : ReadinessOptions) :
  ∃ res, CheckWorkflowReadiness upper wf opts = Some res ∧
    (rr_Status res = "fail" ↔ ∃ i, i ∈ rr_Issues res ∧ Severity i = "fail") ∧
    (rr_Status res = "pass" ↔ rr_Issues res = []) ∧
    (∀ id, reported (rr_Issues res) "sensitive_action_missing_approval" id ↔
       ∃ n, n ∈ Nodes wf ∧ ID n = id ∧ isSensitiveAction upper n opts = true ∧ ¬ Guarded wf id) ∧
    (∀ id, reported (rr_Issues res) "raw_secret_in_config" id ↔
       ∃ n kv, n ∈ Nodes wf ∧ ID n = id ∧ kv ∈ walkConfig (AObj (Config n)) ∧ raw_secret kv = true) ∧
    (∀ id, reported (rr_Issues res) "join_sources_unreachable" id ↔
       ∃ n, n ∈ Nodes wf ∧ ID n = id ∧ Type_ n = "join" ∧ unreachable_source wf n).
Proof.
  unfold CheckWorkflowReadiness.
  destruct (check_nodes_spec upper wf opts (Nodes wf) ∅ (cache_ok_empty wf)) as (l & -> & Hl).
  destruct (fork_join_spec wf) as (f & -> & Hfc & Hf). cbn [mbind option_bind].
  set (rest := push_if _ missing_outputs ++ push_if _ missing_evals).
  assert (∀ i, i ∈ rest → ri_Code i ∈ ["workflow_missing_outputs"; "workflow_missing_evals"]) as Hrest.
  { unfold rest, push_if. intros i [Hi|Hi]%elem_of_app;
      [destruct (bool_decide _)|destruct (RequireEvalCoverage _)];
      try (by apply elem_of_nil in Hi); apply list_elem_of_singleton in Hi as ->; cbn; rewrite !elem_of_cons; auto. }
  assert (∀ i, i ∈ l ++ f ++ rest ↔ i ∈ l ∨ i ∈ f ∨ i ∈ rest) as Happ by (intros; by rewrite !elem_of_app).
  eexists. split; [reflexivity|]. cbn [rr_Status rr_Issues]. generalize (l ++ f ++ rest), Happ. clear Happ.
  intros issues Happ. split; [|split; [|split; [|split]]].
  - unfold rollupReadiness. destruct (existsb _ issues) eqn:Hex.
    + split; [|done]. intros _. apply existsb_elem in Hex as (i & Hi & Hs%String.eqb_eq). by exists i.
    + rewrite existsb_false_elem in Hex. split; [by destruct issues|]. intros (i & Hi & Hs).
      specialize (Hex i Hi). by rewrite Hs in Hex.
  - unfold rollupReadiness. split; [|by intros ->]. destruct (existsb _ issues); [done|]. by destruct issues.
  - intros id. unfold reported. split.
    + intros (i & [(n & Hn & [Hown|(Hs & Hg & ->)])%Hl|[Hi|Hi]]%Happ & Hc & Hid).
      * apply own_issues_code in Hown as [_ Hc']. rewrite Hc, !elem_of_cons, elem_of_nil in Hc'. naive_solver.
      * cbn in Hid. exists n. by subst.
      * apply Hfc in Hi. rewrite Hc, !elem_of_cons, elem_of_nil in Hi. naive_solver.
      * apply Hrest in Hi. rewrite Hc, !elem_of_cons, elem_of_nil in Hi. naive_solver.
    + intros (n & Hn & <- & Hs & Hg). exists (missing_approval n). split; [|done]. apply Happ. left. apply Hl.
      exists n. split; [done|]. by right.
  - intros id. unfold reported. split.
    + intros (i & [(n & Hn & [Hown|(Hs & Hg & ->)])%Hl|[Hi|Hi]]%Happ & Hc & Hid).
      * destruct (proj1 (own_issues_raw upper opts n)) as (kv & Hkv & Hraw); [by exists i|].
        apply own_issues_code in Hown as [Hn' _]. exists n, kv. split_and!; congruence.
      * done.
      * apply Hfc in Hi. rewrite Hc, !elem_of_cons, elem_of_nil in Hi. naive_solver.
      * apply Hrest in Hi. rewrite Hc, !elem_of_cons, elem_of_nil in Hi. naive_solver.
    + intros (n & kv & Hn & <- & Hkv & Hraw). destruct (proj2 (own_issues_raw upper opts n)) as (i & Hi & Hc); [by exists kv|].
      exists i. split; [|split; [done|]].
      * apply Happ. left. apply Hl. exists n. split; [done|]. by left.
      * by apply own_issues_code in Hi as [? _].
  - intros id. rewrite <-Hf. unfold reported. split.
    + intros (i & [(n & Hn & [Hown|(Hs & Hg & ->)])%Hl|[Hi|Hi]]%Happ & Hc & Hid).
      * apply own_issues_code in Hown as [_ Hc']. rewrite Hc, !elem_of_cons, elem_of_nil in Hc'. naive_solver.
      * done.
      * by exists i.
      * apply Hrest in Hi. rewrite Hc, !elem_of_cons, elem_of_nil in Hi. naive_solver.
    + intros (i & Hi & Hc & Hid). exists i. split; [|done]. apply Happ. right. by left.
Qed.
End gate.

(** ** Authority on the graph *)

(** The sources of edges are well-founded in a valid graph. *)
Lemma predecessors_Acc wf id : valid_graph wf → Acc (λ p x, p ∈ predecessors wf x) id.
Proof.
  intros Hwf. induction (predecessors_wf wf Hwf id) as [x _ IH]. constructor. intros p Hp.
  apply IH. apply elem_of_predecessors in Hp as (e & He & <- & <-). by exists e.
Qed.

(** C24: The memoised approval search always answers, on any graph. It grants
    authority only when every path that leads from a node without sources to the node
    meets an approval before it, and on the graphs the workflow gate accepts it grants it
    exactly then. *)
Theorem approval_authority_correct (wf : Workflow) (id : string) :
  ∃ b, HasApprovalAncestorIn wf id = Some b ∧ (b = true → ¬ bypass wf id) ∧
    (valid_graph wf → ¬ bypass wf id → b = true).
Proof.
  destruct (HasApprovalAncestorIn_spec wf id) as (b & Heq & Hb). exists b. split; [exact Heq|]. split.
  - intros Hg%Hb Hby. by eapply Guarded_no_bypass.
  - intros Hwf Hnby. apply Hb. destruct (Guarded_or_bypass wf id (predecessors_Acc wf id Hwf)); done.
Qed.

(** ** Authority in the run *)

(** A node that was ever queued has a settled row at the source of each of its edges. *)
Lemma started_source upper wf input r id e :
  reachable upper wf input r → (∃ s, statuses_of r !! id = Some s ∧ started s = true) →
  e ∈ Edges wf → To e = id →
  statuses_of r !! From e = Some Succeeded ∨ statuses_of r !! From e = Some Skipped ∨
  statuses_of r !! From e = Some Failed.
Proof.
  intros Hreach (s & Hs & Hstart) He Hto.
  pose proof (reachable_deps_started _ _ _ _ Hreach id s Hs Hstart) as Hdeps. unfold depsSatisfied in Hdeps.
  rewrite forallb_elem in Hdeps. specialize (Hdeps e He). rewrite Hto, String.eqb_refl in Hdeps. cbn in Hdeps.
  unfold edge_satisfied in Hdeps. destruct (OnError e).
  - apply bool_decide_eq_true in Hdeps. auto.
  - apply orb_true_iff in Hdeps as [Hd|Hd]; apply bool_decide_eq_true in Hd; auto.
Qed.

Lemma edge_path_edge wf e : e ∈ Edges wf → edge_path wf (From e) (To e).
Proof. intros He. apply tc_once, edge_links_rel. by exists e. Qed.

(** When the graph grants approval authority to a node that runs (or ran) in
    a history without redrives, some approval upstream of it succeeded, or some node
    upstream was skipped or failed: without skips and failures upstream, authority means
    that a person approved. *)
Theorem authority_in_the_run (upper : string → string) (wf : Workflow) (runInput : obj) (r : Run) (id : string)
    (row : RunNode) :
  reachable upper wf runInput r → HasApprovalAncestorIn wf id = Some true →
  RunNodes r !! id = Some row → started (Status row) = true →
  (∃ a arow, is_approval wf a ∧ edge_path wf a id ∧ RunNodes r !! a = Some arow ∧ Status arow = Succeeded) ∨
  (∃ x xrow, edge_path wf x id ∧ RunNodes r !! x = Some xrow ∧ (Status xrow = Skipped ∨ Status xrow = Failed)).
Proof.
  intros Hreach Hauth Hrow Hstart. destruct (HasApprovalAncestorIn_spec wf id) as (b & Heq & Hb).
  rewrite Hauth in Heq. injection Heq as <-. assert (Guarded wf id) as Hg by (by apply Hb).
  assert (∃ s, statuses_of r !! id = Some s ∧ started s = true) as Hs
    by (exists (Status row); split; [apply statuses_lookup; by exists row|done]).
  clear Hauth Hb row Hrow Hstart. induction Hg as [id Hne _ IH].
  destruct (predecessors wf id) as [|p ps] eqn:Hpreds; [done|].
  assert (p ∈ predecessors wf id) as Hp by (rewrite Hpreds; by left).
  pose proof Hp as (e & He & <- & Hto)%elem_of_predecessors. rewrite <-Hpreds in *.
  pose proof (edge_path_edge wf e He) as Hpath. rewrite Hto in Hpath.
  destruct (started_source _ _ _ _ _ _ Hreach Hs He Hto) as [Hsucc|Hbad].
  - apply statuses_lookup in Hsucc as Hrow. destruct Hrow as (prow & Hprow & Hpst).
    destruct (decide (is_approval wf (From e))) as [Ha|Hna]; [left; by exists (From e), prow|].
    assert (∃ s, statuses_of r !! From e = Some s ∧ started s = true) as Hs' by (by exists Succeeded).
    destruct (IH (From e) Hp Hna Hs') as [(a & arow & Ha & Hpa & Hrest)|(x & xrow & Hpx & Hrest)].
    + left. exists a, arow. split_and!; [done|by etrans|by destruct Hrest..].
    + right. exists x, xrow. split; [by etrans|done].
  - right. exists (From e).
    destruct Hbad as [(prow & Hprow & Hpst)%statuses_lookup|(prow & Hprow & Hpst)%statuses_lookup];
      exists prow; auto.
Qed.

(** An agent that may write, behind an approval that large amounts need. *)
Definition agent_workflow : Workflow :=
  graph_workflow
    [mkNode "start" "noop" "" []; mkNode "gate" "approval" "" [];
     mkNode "act" "agent" "" [("allowWriteTools", ABool true)]]
    [mkEdge "" "start" "gate" "context.start.output.amount > 100" false; mkEdge "" "gate" "act" "" false] [].

Definition agent_started : Run :=
  committed (Some (MarkLockedNodesRunning "start" (StartRun agent_workflow 0))) (StartRun agent_workflow 0).
Definition agent_after (amount : Z) : Run :=
  committed (completeNode same_case agent_workflow [] 10 "start" (AObj [("amount", AF64 (f_of_Z amount))]) None 0 false
               agent_started) agent_started.
Definition agent_acting : Run := committed (Some (MarkLockedNodesRunning "act" (agent_after 5))) (agent_after 5).
(** The large amount waits for its approval, which is granted. *)
Definition agent_approved : Run :=
  let r := agent_after 500 in
  let r := committed (Some (MarkLockedNodesRunning "gate" r)) r in
  let r := committed (Some (MarkNodeWaiting 15 "gate" [("kind", AStr "approval")] r)) r in
  committed (ResumeNode same_case agent_workflow [] 20 "gate" [] r) r.

Lemma agent_valid : valid_graph agent_workflow.
Proof.
  split; [done| |by vm_compute].
  intros e He. split; apply (bool_decide_unpack _); revert e He; apply Forall_forall; by repeat constructor.
Qed.

Lemma agent_after_reachable amount r' t :
  completeNode same_case agent_workflow [] 10 "start" (AObj [("amount", AF64 (f_of_Z amount))]) None 0 false
    agent_started = Some (Committed r' t) → reachable same_case agent_workflow [] r'.
Proof.
  intros H. apply reach_step with (r := agent_started); [| |done].
  - apply reach_step with (r := StartRun agent_workflow 0); [constructor| |done].
    apply step_claim with (nodeID := "start") (t := false). by vm_compute.
  - by apply step_complete with (now := 10%Z) (nodeID := "start") (output := AObj [("amount", AF64 (f_of_Z amount))])
      (decision := None) (violations := 0) (q := false) (t := t).
Qed.

Lemma agent_acting_reachable : reachable same_case agent_workflow [] agent_acting.
Proof.
  apply reach_step with (r := agent_after 5); [| |by vm_compute].
  - apply (agent_after_reachable 5 _ false). by vm_compute.
  - apply step_claim with (nodeID := "act") (t := false). by vm_compute.
Qed.

Lemma agent_approved_reachable : reachable same_case agent_workflow [] agent_approved.
Proof.
  set (r1 := agent_after 500). set (r2 := committed (Some (MarkLockedNodesRunning "gate" r1)) r1).
  set (r3 := committed (Some (MarkNodeWaiting 15 "gate" [("kind", AStr "approval")] r2)) r2).
  apply reach_step with (r := r3); [| |by vm_compute].
  - apply reach_step with (r := r2); [| |by vm_compute].
    + apply reach_step with (r := r1); [| |by vm_compute].
      * apply (agent_after_reachable 500 _ false). by vm_compute.
      * apply step_claim with (nodeID := "gate") (t := false). by vm_compute.
    + apply step_wait with (now := 15%Z) (nodeID := "gate") (metadata := [("kind", AStr "approval")]) (t := false).
      by vm_compute.
  - apply step_resume with (now := 20%Z) (nodeID := "gate") (output := []) (t := false). by vm_compute.
Qed.

Lemma authority_in_the_run_witness :
  (∃ a arow, is_approval agent_workflow a ∧ edge_path agent_workflow a "act" ∧
     RunNodes agent_approved !! a = Some arow ∧ Status arow = Succeeded) ∨
  (∃ x xrow, edge_path agent_workflow x "act" ∧ RunNodes agent_approved !! x = Some xrow ∧
     (Status xrow = Skipped ∨ Status xrow = Failed)).
Proof.
  apply (authority_in_the_run same_case agent_workflow [] agent_approved "act"
    (default (mkRunNode Pending 0 "" "") (RunNodes agent_approved !! "act"))).
  - apply agent_approved_reachable.
  - by vm_compute.
  - by vm_compute.
  - by vm_compute.
Defined.

(** Dominance on the graph is not approval in the run: there is a valid
    workflow and a history in which a writing agent runs with approval authority while
    its only approval was skipped, because the condition on the approval's edge was false
    and a skipped source satisfies a dependency. *)
Theorem authority_without_approval :
  ∃ (wf : Workflow) (r : Run), valid_graph wf ∧ reachable same_case wf [] r ∧
    HasApprovalAncestorIn wf "act" = Some true ∧
    (∀ n, n ∈ Nodes wf → Type_ n = "approval" → ID n = "gate") ∧
    Status <$> RunNodes r !! "gate" = Some Skipped ∧ Status <$> RunNodes r !! "act" = Some Running.
Proof.
  exists agent_workflow, agent_acting.
  split; [apply agent_valid|]. split; [apply agent_acting_reachable|]. split; [by vm_compute|].
  split; [|split; by vm_compute].
  intros n Hn Ht. cbn in Hn. rewrite !elem_of_cons, elem_of_nil in Hn.
  destruct Hn as [->|[->|[->|[]]]]; done.
Qed.
