(* ===== verification/DagFacts.v ===== *)
(** Quarantine detectors dominate the guarded effects of an accepted contract, on the
    graph and in the run. *)
From S2P Require Import Prelude GoStrings GoFloat GoAny RecoveryContract Graph GraphFacts Closure.
From S2P Require Import Readiness ReadinessFacts RecoveryDag Runtime RuntimeFacts RunSafety.
From stdpp Require Import relations.
Local Open Scope string_scope.
Local Open Scope list_scope.
Local Open Scope nat_scope.

(** ** On the graph *)

(** A path of edges from a root of the workflow that never meets [excluded]. *)
Inductive avoids (wf : Workflow) (excluded : string) : string → Prop :=
| avoids_root n : n ∈ Nodes wf → is_root wf (ID n) = true → ID n ≠ excluded → avoids wf excluded (ID n)
| avoids_edge e : e ∈ Edges wf → To e ≠ excluded → avoids wf excluded (From e) → avoids wf excluded (To e).

Lemma avoids_not wf excluded x : avoids wf excluded x → x ≠ excluded.
Proof. by destruct 1. Qed.

Lemma links_without_rel wf excluded x y :
  link_rel (links_without wf excluded) x y ↔
  ∃ e, e ∈ Edges wf ∧ From e = x ∧ To e = y ∧ x ≠ excluded ∧ y ≠ excluded.
Proof.
  unfold link_rel, links_without. rewrite list_elem_of_fmap. setoid_rewrite list_elem_of_filter. split.
  - intros (e & [= -> ->] & [? ?] & ?). by exists e.
  - intros (e & ? & <- & <- & ? & ?). by exists e.
Qed.

Lemma elem_of_roots_without wf excluded x :
  x ∈ roots_without wf excluded ↔ ∃ n, n ∈ Nodes wf ∧ ID n = x ∧ is_root wf x = true ∧ x ≠ excluded.
Proof.
  unfold roots_without. rewrite list_elem_of_fmap. setoid_rewrite list_elem_of_filter. unfold is_root.
  setoid_rewrite negb_true_iff. naive_solver.
Qed.

Lemma reachableNodesWithout_spec wf excluded :
  ∃ out, reachableNodesWithout wf excluded = Some out ∧ ∀ x, x ∈ out ↔ avoids wf excluded x.
Proof.
  unfold reachableNodesWithout.
  destruct (closure_spec (links_without wf excluded) push_queue push_queue_perm (roots_without wf excluded))
    as (out & -> & _ & Hout).
  exists out. split; [done|]. intros x. rewrite Hout. split.
  - intros (y & (n & Hn & <- & Hroot & Hne)%elem_of_roots_without & Hrtc).
    assert (avoids wf excluded (ID n)) as Hstart by (by constructor). clear Hn Hroot Hne.
    revert Hstart Hrtc. generalize (ID n). intros y Hstart Hrtc. revert Hstart.
    induction Hrtc as [x|x y z (e & He & <- & <- & _ & Hy)%links_without_rel _ IH]; [done|].
    intros Hx. by apply IH, avoids_edge.
  - induction 1 as [n Hn Hroot Hne|e He Hto Hfrom (y & Hy & Hrtc)].
    + exists (ID n). split; [|done]. apply elem_of_roots_without. by exists n.
    + exists y. split; [done|]. eapply rtc_r; [exact Hrtc|]. apply links_without_rel.
      exists e. split_and!; [done..| |done]. by eapply avoids_not.
Qed.

(** What the contract guards: declared effects and write-side nodes. *)
Definition guarded_effect (upper : string → string) (wf : Workflow) (c : RecoveryContract) (x : string) : Prop :=
  x ∈ eff_NodeID <$> Effects c ∨
  ∃ n, n ∈ Nodes wf ∧ ID n = x ∧ isSensitiveAction upper n no_readiness_options = true.

Lemma elem_of_guardedEffectIDs upper wf c x :
  x ∈ guardedEffectIDs (indexSemanticDag upper wf c).1 ↔ guarded_effect upper wf c x.
Proof.
  unfold indexSemanticDag, guarded_effect. cbn [guardedEffectIDs fst]. rewrite elem_of_sort_strings, elem_of_remove_dups, elem_of_app.
  unfold declared_effects, actual_effects. rewrite (list_elem_of_fmap ID). setoid_rewrite list_elem_of_filter.
  naive_solver.
Qed.

Lemma node_by_id_Some wf id n : node_by_id wf !! id = Some n → n ∈ Nodes wf ∧ ID n = id.
Proof.
  unfold node_by_id.
  assert (∀ m, (fold_left (λ m node, <[ID node := node]> m) (Nodes wf) m : gmap string Node) !! id = Some n →
    (n ∈ Nodes wf ∧ ID n = id) ∨ m !! id = Some n) as Hfold.
  { induction (Nodes wf) as [|k ks IH]; intros m; cbn; [by right|]. intros [?|Hm]%IH; [set_solver|].
    destruct (decide (ID k = id)) as [<-|Hne]; [rewrite lookup_insert_eq in Hm; set_solver|].
    rewrite lookup_insert_ne in Hm by done. by right. }
  intros [?|Hm]%Hfold; [done|]. by rewrite lookup_empty in Hm.
Qed.

(** What an accepted contract promises of one quarantine detector. *)
Record dominating (upper : string → string) (wf : Workflow) (c : RecoveryContract) (d : RecoverySemanticDetector)
  : Prop :=
  { dom_source : ∃ n, n ∈ Nodes wf ∧ ID n = det_SourceNodeID d ∧
      Type_ n ∉ deferredCompletionNodeTypes ∧ Type_ n ∉ ["router"; "router_llm"];
    dom_effects : ∀ x, guarded_effect upper wf c x →
      x ≠ det_SourceNodeID d ∧ ¬ avoids wf (det_SourceNodeID d) x }.

Lemma accepted_dag upper wf ve rf c :
  semantic_contract wf = Some c → validateSemanticContractDAG upper wf ve rf = Some [] →
  (∀ n, n ∈ Nodes wf → isSensitiveAction upper n no_readiness_options = true → ID n ∈ eff_NodeID <$> Effects c) ∧
  ∀ d, d ∈ Detectors (Semantic c) → Action d = "quarantine" → dominating upper wf c d.
Proof.
  intros Hc Hval. unfold validateSemanticContractDAG in Hval. rewrite Hc in Hval.
  destruct (indexSemanticDag upper wf c) as [index und] eqn:Hindex.
  assert (index = (indexSemanticDag upper wf c).1) as Hidx by (by rewrite Hindex).
  assert (und = (indexSemanticDag upper wf c).2) as Hund by (by rewrite Hindex). clear Hindex.
  unfold validateSemanticDetectors in Hval.
  set (f := λ detector, guards ← detector_guard_issues wf index detector;
    Some (detector_source_issues index detector ++ detector_expression_issues ve detector ++ guards)) in Hval.
  destruct (option_flat_map f (Detectors (Semantic c))) as [out|] eqn:Hout; [|done]. cbn in Hval.
  injection Hval as Hval. apply app_nil in Hval as [Hund0 [Hout0 _]%app_nil].
  assert (∀ d, d ∈ Detectors (Semantic c) → f d = Some []) as Hf.
  { intros d Hd. unfold f. unfold detector_guard_issues.
    destruct (option_flat_map_spec f (Detectors (Semantic c))) as (out' & Hout' & Hin).
    { intros d' _. unfold f, detector_guard_issues. destruct (negb _); [by eexists|].
      destruct (reachableNodesWithout_spec wf (det_SourceNodeID d')) as (r & -> & _). by eexists. }
    rewrite Hout in Hout'. injection Hout' as <-. subst out.
    destruct (f d) as [l|] eqn:Hfd.
    - unfold f, detector_guard_issues in Hfd. rewrite Hfd. destruct l as [|i l]; [done|]. exfalso.
      specialize (Hin i). rewrite elem_of_nil in Hin. apply Hin. exists d, (i :: l). split_and!; [done|done|by left].
    - exfalso. unfold f, detector_guard_issues in Hfd. destruct (negb _); [done|].
      destruct (reachableNodesWithout_spec wf (det_SourceNodeID d)) as (r & Hr & _). by rewrite Hr in Hfd. }
  split.
  - intros n Hn Hs. rewrite Hund in Hund0. unfold indexSemanticDag in Hund0. cbn [snd] in Hund0.
    rewrite flat_map_nil in Hund0. assert (ID n ∈ actual_effects upper wf) as Hmem.
    { unfold actual_effects. apply list_elem_of_fmap. exists n. split; [done|]. by apply list_elem_of_filter. }
    specialize (Hund0 _ Hmem). apply push_if_nil, negb_false_iff, in_list_spec in Hund0. exact Hund0.
  - intros d Hd Hq. specialize (Hf d Hd). unfold f, detector_guard_issues in Hf.
    rewrite Hq in Hf. cbn [String.eqb negb] in Hf.
    destruct (reachableNodesWithout_spec wf (det_SourceNodeID d)) as (r & Hr & Hreach).
    rewrite Hr in Hf. change (String.eqb "quarantine" "quarantine") with true in Hf. cbn [negb mbind option_bind] in Hf.
    injection Hf as Hf. apply app_nil in Hf as [Hsrc [_ Hg]%app_nil]. rewrite flat_map_nil in Hg. split.
    + unfold detector_source_issues in Hsrc. rewrite Hidx in Hsrc. unfold indexSemanticDag in Hsrc. cbn [fst nodeByID] in Hsrc.
      destruct (node_by_id wf !! det_SourceNodeID d) as [n|] eqn:Hn; [|done]. apply node_by_id_Some in Hn as [Hn Hid].
      exists n. split; [done|]. split; [done|].
      destruct (in_list deferredCompletionNodeTypes (Type_ n)) eqn:Hdef; [done|].
      apply push_if_nil in Hsrc. rewrite Hq in Hsrc. cbn [andb] in Hsrc.
      split; rewrite <-in_list_spec; [by rewrite Hdef|]. intros Hr'. by rewrite Hr' in Hsrc.
    + intros x Hx. apply elem_of_guardedEffectIDs in Hx. rewrite <-Hidx in Hx. specialize (Hg x Hx).
      apply push_if_nil, orb_false_iff in Hg as [Hne%String.eqb_neq Hnr]. split; [congruence|].
      intros Hav%Hreach%in_list_spec. congruence.
Qed.

(** ** In the run *)

Definition decided (s : node_status) : bool := started s || bool_decide (s = Skipped).

(** A decided node is a root, or an edge that leads to it has a settled source. *)
Definition grounded (wf : Workflow) (st : statuses_map) : Prop :=
  ∀ id s, st !! id = Some s → decided s = true → is_root wf id = true ∨
    ∃ e t, e ∈ Edges wf ∧ To e = id ∧ st !! From e = Some t ∧ settled t = true.

Lemma settled_decided s : settled s = true → decided s = true.
Proof. by destruct s. Qed.

Lemma satisfied_source wf st id : depsSatisfied wf id st = true → is_root wf id = true ∨
  ∃ e t, e ∈ Edges wf ∧ To e = id ∧ st !! From e = Some t ∧ settled t = true.
Proof.
  unfold depsSatisfied. rewrite forallb_elem. intros Hall. destruct (is_root wf id) eqn:Hroot; [by left|right].
  unfold is_root in Hroot. apply negb_false_iff, existsb_elem in Hroot as (e & He & Hto).
  specialize (Hall e He). rewrite Hto in Hall. cbn in Hall. apply String.eqb_eq in Hto.
  unfold edge_satisfied in Hall. destruct (OnError e).
  - apply bool_decide_eq_true in Hall. by exists e, Failed.
  - apply orb_true_iff in Hall as [Hs|Hs]; apply bool_decide_eq_true in Hs; eexists e, _; by split_and!.
Qed.

Lemma doomed_source wf st id : depsDoomed wf id st = true →
  ∃ e t, e ∈ Edges wf ∧ To e = id ∧ st !! From e = Some t ∧ settled t = true.
Proof.
  unfold depsDoomed. intros (e & He & [Hto%String.eqb_eq Hd]%andb_true_iff)%existsb_elem.
  unfold edge_doomed in Hd. destruct (st !! From e) as [t|] eqn:Ht; [|by destruct (OnError e)].
  exists e, t. split_and!; [done..|]. by destruct (OnError e), t.
Qed.

Lemma lifecycle_grounded wf st st' : lifecycle wf st st' → grounded wf st → grounded wf st'.
Proof.
  intros Hlc Hg. assert (∀ id, (is_root wf id = true ∨ ∃ e t, e ∈ Edges wf ∧ To e = id ∧ st !! From e = Some t ∧
      settled t = true) → is_root wf id = true ∨ ∃ e t, e ∈ Edges wf ∧ To e = id ∧ st' !! From e = Some t ∧
      settled t = true) as Hkeep.
  { intros id [?|(e & t & He & Hto & Ht & Hs)]; [by left|right]. exists e, t. split_and!; [done..| |done].
    by eapply lifecycle_settled. }
  intros id x Hx Hdec. apply Hkeep. destruct Hlc as [id' s s' Hid Hmv].
  destruct (decide (id' = id)) as [->|]; [|rewrite lookup_insert_ne in Hx by done; by eapply Hg].
  rewrite lookup_insert_eq in Hx. injection Hx as ->.
  destruct Hmv as [_ Hs|[Hd|Hs]|e He Hto He'| | | | | | | | | |? [->|[->| ->]]]; try done; try (by eapply Hg).
  - by apply satisfied_source.
  - right. by apply doomed_source.
  - by apply satisfied_source.
  - right. by exists e, Succeeded.
Qed.

Lemma reachable_grounded upper wf input r : reachable upper wf input r → grounded wf (statuses_of r).
Proof.
  induction 1 as [now|r r' _ IH Hstep _].
  - intros id s. rewrite start_lookup. case_bool_decide; [|done].
    destruct (is_root wf id) eqn:Hroot; intros [= <-] Hs; [by left|done].
  - pose proof (proj1 (step_good_of _ _ _ _ _ Hstep)) as Hlc. revert IH.
    induction Hlc as [|? ? ? Hone _ IHlc]; [done|]. intros IH. by eapply IHlc, lifecycle_grounded.
Qed.

(** A decided node other than [d] is reached without [d], or [d] has settled. *)
Lemma decided_avoids upper wf input r d x s : valid_graph wf → reachable upper wf input r →
  statuses_of r !! x = Some s → decided s = true → x ≠ d →
  avoids wf d x ∨ ∃ t, statuses_of r !! d = Some t ∧ settled t = true.
Proof.
  intros Hwf Hreach. pose proof (reachable_grounded _ _ _ _ Hreach) as Hg.
  destruct (reachable_redriven_ok _ _ _ _ Hwf (reachable_is_redriven _ _ _ _ Hreach)) as [[Hdom _] _].
  revert s. induction (predecessors_wf wf Hwf x) as [x _ IH]. intros s Hx Hs Hne.
  destruct (Hg x s Hx Hs) as [Hroot|(e & t & He & <- & Ht & Hset)].
  - left. assert (x ∈ ID <$> Nodes wf) as (n & -> & Hn)%list_elem_of_fmap by (apply Hdom; by eexists).
    by constructor.
  - destruct (decide (From e = d)) as [<-|Hfrom]; [right; by exists t|].
    destruct (IH (From e) ltac:(by exists e) t Ht (settled_decided t Hset) Hfrom) as [Hav|?]; [|by right].
    left. by apply avoids_edge.
Qed.

(** ** The properties *)

Definition reported_issue (issues : list Issue) (code id : string) : Prop :=
  ∃ i, i ∈ issues ∧ Code i = code ∧ IssueNodeID i = id.

Lemma reported_app l k code id :
  reported_issue (l ++ k) code id ↔ reported_issue l code id ∨ reported_issue k code id.
Proof. unfold reported_issue. setoid_rewrite elem_of_app. naive_solver. Qed.

Lemma reported_other l code id (codes : list string) :
  (∀ i, i ∈ l → Code i ∈ codes) → code ∉ codes → ¬ reported_issue l code id.
Proof. intros Hl Hc (i & Hi & <- & _). by apply Hc, Hl. Qed.

Lemma elem_of_push_if {A} (b : bool) (m i : A) : i ∈ push_if b m ↔ b = true ∧ i = m.
Proof. unfold push_if. destruct b; [rewrite list_elem_of_singleton|rewrite elem_of_nil]; naive_solver. Qed.

Lemma elem_of_flat_map {A B} (f : A → list B) l i : i ∈ flat_map f l ↔ ∃ x, x ∈ l ∧ i ∈ f x.
Proof. setoid_rewrite list_elem_of_In. apply in_flat_map. Qed.

Lemma reported_push_if b m code id :
  reported_issue (push_if b m) code id ↔ b = true ∧ Code m = code ∧ IssueNodeID m = id.
Proof. unfold reported_issue. setoid_rewrite elem_of_push_if. naive_solver. Qed.

Definition fixture_codes : list string :=
  ["semantic_fixture_unknown_source"; "semantic_fixture_without_detector"; "semantic_fixture_mismatch";
   "semantic_detector_missing_pass_fixture"; "semantic_detector_missing_violation_fixture"].
Definition source_codes : list string :=
  ["semantic_detector_unknown_source"; "semantic_detector_deferred_source"; "semantic_quarantine_router_source";
   "semantic_detector_invalid_expression"].

Lemma fixture_issues_codes c index rf i :
  i ∈ validateSemanticFixtures c index ++ validateSemanticReplay c rf → Code i ∈ fixture_codes.
Proof.
  unfold fixture_codes. rewrite elem_of_app. intros [Hi|Hi].
  - unfold validateSemanticFixtures in Hi. apply elem_of_flat_map in Hi as (f & _ & Hi).
    destruct (String.eqb _ "") in Hi; [apply list_elem_of_singleton in Hi as ->|apply elem_of_push_if in Hi as [_ ->]];
      cbn [Code]; rewrite !elem_of_cons; auto.
  - unfold validateSemanticReplay in Hi. destruct rf as [replay|]; [|by apply elem_of_nil in Hi].
    apply elem_of_app in Hi as [(o & _ & [_ ->]%elem_of_push_if)%elem_of_flat_map|(d & _ & Hi)%elem_of_flat_map];
      [cbn [Code]; rewrite !elem_of_cons; auto|].
    unfold replay_detector_issues in Hi.
    apply elem_of_app in Hi as [[_ ->]%elem_of_push_if|[_ ->]%elem_of_push_if]; cbn [Code]; rewrite !elem_of_cons; auto 10.
Qed.

Lemma detector_own_codes index ve d i :
  i ∈ detector_source_issues index d ++ detector_expression_issues ve d → Code i ∈ source_codes.
Proof.
  unfold source_codes. rewrite elem_of_app. intros [Hi|Hi].
  - unfold detector_source_issues in Hi. destruct (nodeByID index !! _) as [n|].
    + destruct (in_list deferredCompletionNodeTypes _) in Hi;
        [apply list_elem_of_singleton in Hi as ->|apply elem_of_push_if in Hi as [_ ->]];
        cbn [Code]; rewrite !elem_of_cons; auto.
    + apply list_elem_of_singleton in Hi as ->. cbn [Code]. rewrite !elem_of_cons. auto.
  - unfold detector_expression_issues in Hi. destruct ve as [validate|]; [|by apply elem_of_nil in Hi].
    destruct (String.eqb _ _) in Hi; [|by apply elem_of_nil in Hi].
    destruct (validate (PassWhen d)) as [valid message]. apply elem_of_push_if in Hi as [_ ->].
    cbn [Code]; rewrite !elem_of_cons; auto.
Qed.

Lemma guard_issues_spec upper wf c d : ∃ l,
  detector_guard_issues wf (indexSemanticDag upper wf c).1 d = Some l ∧
  (∀ i, i ∈ l → Code i = "semantic_detector_does_not_guard_effect") ∧
  ∀ id, reported_issue l "semantic_detector_does_not_guard_effect" id ↔
    Action d = "quarantine" ∧ guarded_effect upper wf c id ∧ (id = det_SourceNodeID d ∨ avoids wf (det_SourceNodeID d) id).
Proof.
  unfold detector_guard_issues. destruct (String.eqb (Action d) "quarantine") eqn:Hq; cbn [negb].
  - destruct (reachableNodesWithout_spec wf (det_SourceNodeID d)) as (out & -> & Hout). eexists.
    split; [reflexivity|]. split; [by intros i (x & _ & [_ ->]%elem_of_push_if)%elem_of_flat_map|].
    intros id. apply String.eqb_eq in Hq. setoid_rewrite <-elem_of_guardedEffectIDs. setoid_rewrite <-Hout.
    unfold reported_issue. setoid_rewrite elem_of_flat_map. split.
    + intros (i & (x & Hx & [Hb ->]%elem_of_push_if) & _ & Hid). cbn [IssueNodeID] in Hid. subst x.
      split; [done|]. split; [done|]. apply orb_true_iff in Hb as [Hb%String.eqb_eq|Hb%in_list_spec]; auto.
    + intros (_ & Hg & Hor). eexists. split; [exists id; split; [exact Hg|apply elem_of_push_if; split; [|reflexivity]]|done].
      apply orb_true_iff. rewrite String.eqb_eq, in_list_spec. naive_solver.
  - exists []. split; [done|]. split; [by intros i Hi%elem_of_nil|]. intros id. split.
    + by intros (i & Hi%elem_of_nil & _).
    + apply String.eqb_neq in Hq. naive_solver.
Qed.

Lemma undeclared_spec upper wf c :
  (∀ i, i ∈ (indexSemanticDag upper wf c).2 → Code i ∈ ["semantic_effect_not_declared"]) ∧
  ∀ id, reported_issue (indexSemanticDag upper wf c).2 "semantic_effect_not_declared" id ↔
    ∃ n, n ∈ Nodes wf ∧ ID n = id ∧ isSensitiveAction upper n no_readiness_options = true ∧
      id ∉ eff_NodeID <$> Effects c.
Proof.
  unfold indexSemanticDag. cbn [snd]. split.
  - intros i (x & _ & [_ ->]%elem_of_push_if)%elem_of_flat_map. by left.
  - intros id. unfold reported_issue. setoid_rewrite elem_of_flat_map. split.
    + intros (i & (x & Hx & [Hb ->]%elem_of_push_if) & _ & Hid). cbn [IssueNodeID] in Hid. subst x.
      apply list_elem_of_fmap in Hx as (n & -> & [Hs Hn]%list_elem_of_filter). exists n. split_and!; [done..|].
      rewrite <-in_list_spec. apply negb_true_iff in Hb. unfold declared_effects in Hb. by rewrite Hb.
    + intros (n & Hn & <- & Hs & Hd). eexists.
      split; [exists (ID n); split; [|apply elem_of_push_if; split; [|reflexivity]]|done].
      * apply list_elem_of_fmap. exists n. split; [done|]. by apply list_elem_of_filter.
      * apply negb_true_iff, not_true_iff_false. by rewrite in_list_spec.
Qed.

Lemma detectors_spec upper wf c ve : ∃ l,
  validateSemanticDetectors wf c (indexSemanticDag upper wf c).1 ve = Some l ∧
  (∀ i, i ∈ l → Code i ∈ "semantic_detector_does_not_guard_effect" :: source_codes) ∧
  ∀ id, reported_issue l "semantic_detector_does_not_guard_effect" id ↔
    ∃ d, d ∈ Detectors (Semantic c) ∧ Action d = "quarantine" ∧ guarded_effect upper wf c id ∧
      (id = det_SourceNodeID d ∨ avoids wf (det_SourceNodeID d) id).
Proof.
  unfold validateSemanticDetectors. set (index := (indexSemanticDag upper wf c).1).
  set (own := λ d, detector_source_issues index d ++ detector_expression_issues ve d).
  assert (∀ d id, ¬ reported_issue (own d) "semantic_detector_does_not_guard_effect" id) as Hown.
  { intros d id. apply reported_other with (codes := source_codes); [apply detector_own_codes|].
    apply (bool_decide_unpack _). by vm_compute. }
  edestruct (option_flat_map_spec (λ detector, guards ← detector_guard_issues wf index detector;
    Some (detector_source_issues index detector ++ detector_expression_issues ve detector ++ guards))
    (Detectors (Semantic c))) as (out & -> & Hout).
  { intros d _. destruct (guard_issues_spec upper wf c d) as (g & Hg & _). fold index in Hg.
    cbn beta. rewrite Hg. by eexists. }
  exists out. split; [done|]. split.
  - intros i (d & l & Hd & Hl & Hi)%Hout. destruct (guard_issues_spec upper wf c d) as (g & Hg & Hcodes & _).
    fold index in Hg. rewrite Hg in Hl. injection Hl as <-. rewrite app_assoc in Hi.
    apply elem_of_app in Hi as [Hi%detector_own_codes|Hi%Hcodes]; [by right|rewrite Hi; by left].
  - intros id. split.
    + intros (i & (d & l & Hd & Hl & Hi)%Hout & Hrep). destruct (guard_issues_spec upper wf c d) as (g & Hg & _ & Hspec).
      fold index in Hg. rewrite Hg in Hl. injection Hl as <-. exists d. split; [done|]. apply Hspec. exists i.
      split; [|done]. rewrite app_assoc in Hi. apply elem_of_app in Hi as [Hi|?]; [|done].
      destruct (Hown d id). by exists i.
    + intros (d & Hd & Hrest). destruct (guard_issues_spec upper wf c d) as (g & Hg & _ & Hspec).
      destruct (proj2 (Hspec id) Hrest) as (i & Hi & Hrep). exists i. split; [|done]. apply Hout. eexists d, _. split; [done|].
      fold index in Hg. rewrite Hg. split; [reflexivity|]. rewrite app_assoc. apply elem_of_app. by right.
Qed.

(** C25: The contract gate always answers. It reports an undeclared effect exactly for
    the write-side nodes missing from the contract's effects, and a detector that does
    not guard an effect exactly for the declared or write-side nodes that are the source of
    a quarantine detector or that some path from a root reaches without meeting that
    source. Without a contract of version 2 it reports nothing. *)
Theorem semantic_dag_correct (upper : string → string) (wf : Workflow) (ve : option ExpressionValidator)
    (rf : option SemanticFixtureEvaluator) :
  ∃ issues, validateSemanticContractDAG upper wf ve rf = Some issues ∧
    (∀ id, reported_issue issues "semantic_effect_not_declared" id ↔
      ∃ c n, semantic_contract wf = Some c ∧ n ∈ Nodes wf ∧ ID n = id ∧
        isSensitiveAction upper n no_readiness_options = true ∧ id ∉ eff_NodeID <$> Effects c) ∧
    (∀ id, reported_issue issues "semantic_detector_does_not_guard_effect" id ↔
      ∃ c d, semantic_contract wf = Some c ∧ d ∈ Detectors (Semantic c) ∧ Action d = "quarantine" ∧
        guarded_effect upper wf c id ∧ (id = det_SourceNodeID d ∨ avoids wf (det_SourceNodeID d) id)) ∧
    (semantic_contract wf = None → issues = []).
Proof.
  unfold validateSemanticContractDAG. destruct (semantic_contract wf) as [c|].
  2:{ exists []. split; [done|]. unfold reported_issue. setoid_rewrite elem_of_nil. naive_solver. }
  destruct (undeclared_spec upper wf c) as [Hucodes Hund].
  destruct (detectors_spec upper wf c ve) as (l & Hl & Hlcodes & Hguard).
  destruct (indexSemanticDag upper wf c) as [index und] eqn:Hindex. cbn [fst snd] in *. rewrite Hl. cbn [mbind option_bind].
  eexists. split; [reflexivity|]. pose proof (fixture_issues_codes c index rf) as Hfcodes.
  split; [|split]; [| |done]; intros id; rewrite !reported_app.
  - rewrite Hund. split; [intros [(n & ?)|[Hr|Hr]]; [naive_solver| |]|naive_solver].
    + apply (reported_other _ _ _ _ Hlcodes) in Hr; [done|]. apply (bool_decide_unpack _). by vm_compute.
    + rewrite <-reported_app in Hr. apply (reported_other _ _ _ _ Hfcodes) in Hr; [done|].
      apply (bool_decide_unpack _). by vm_compute.
  - rewrite Hguard. split; [intros [Hr|[(d & ?)|Hr]]; [|naive_solver|]|naive_solver].
    + apply (reported_other _ _ _ _ Hucodes) in Hr; [done|]. apply (bool_decide_unpack _). by vm_compute.
    + rewrite <-reported_app in Hr. apply (reported_other _ _ _ _ Hfcodes) in Hr; [done|].
      apply (bool_decide_unpack _). by vm_compute.
Qed.


(** A payment behind a check that only large amounts need. *)
Definition payment_contract : RecoveryContract :=
  mkContract "2" (mkTechnical true false [])
    (mkSemantic "detectors" [mkDetector "amount" "check" "expression" "context.check.output.ok == true" None "quarantine" "" None] [])
    [] [mkEffect "charge" "http" "idempotency_key" "response"] ["retry"] "observed" "approval" "none" 1 None
    "observation" 7.
Definition payment_workflow : Workflow :=
  mkWorkflow dslVersion "" "" None None [] "" (Some (mkRecovery None (Some payment_contract))) None
    [mkNode "start" "noop" "" []; mkNode "check" "transform" "" [];
     mkNode "charge" "http" "" [("method", AStr "POST")]]
    [mkEdge "" "start" "check" "context.start.output.amount > 100" false; mkEdge "" "check" "charge" "" false].

Definition payment_started : Run :=
  committed (Some (MarkLockedNodesRunning "start" (StartRun payment_workflow 0))) (StartRun payment_workflow 0).
Definition payment_after (amount : Z) : Run :=
  committed (completeNode same_case payment_workflow [] 10 "start" (AObj [("amount", AF64 (f_of_Z amount))]) None 0 false
               payment_started) payment_started.
Definition payment_charging : Run :=
  committed (Some (MarkLockedNodesRunning "charge" (payment_after 5))) (payment_after 5).

Lemma payment_valid : valid_graph payment_workflow.
Proof.
  split; [done| |by vm_compute].
  intros e He. split; apply (bool_decide_unpack _); revert e He; apply Forall_forall; by repeat constructor.
Qed.

Lemma payment_charging_reachable : reachable same_case payment_workflow [] payment_charging.
Proof.
  apply reach_step with (r := payment_after 5); [| |by vm_compute].
  - apply reach_step with (r := payment_started); [| |by vm_compute].
    + apply reach_step with (r := StartRun payment_workflow 0); [constructor| |done].
      apply step_claim with (nodeID := "start") (t := false). by vm_compute.
    + apply step_complete with (now := 10%Z) (nodeID := "start") (output := AObj [("amount", AF64 (f_of_Z 5))])
        (decision := None) (violations := 0) (q := false) (t := false). by vm_compute.
  - apply step_claim with (nodeID := "charge") (t := false). by vm_compute.
Qed.


(** Dominance on the graph does not make the detector run: there is an
    accepted contract and a history in which a guarded effect runs while the source of
    its only quarantine detector was skipped, so that the detector never evaluated. *)
Theorem effect_without_detector :
  ∃ (wf : Workflow) (c : RecoveryContract) (r : Run),
    validateSemanticContractDAG same_case wf None None = Some [] ∧ semantic_contract wf = Some c ∧
    valid_graph wf ∧ reachable same_case wf [] r ∧ guarded_effect same_case wf c "charge" ∧
    (∀ d, d ∈ Detectors (Semantic c) → Action d = "quarantine" ∧ det_SourceNodeID d = "check") ∧
    Detectors (Semantic c) ≠ [] ∧
    Status <$> RunNodes r !! "check" = Some Skipped ∧ Status <$> RunNodes r !! "charge" = Some Running.
Proof.
  exists payment_workflow, payment_contract, payment_charging.
  split; [by vm_compute|]. split; [reflexivity|]. split; [apply payment_valid|].
  split; [apply payment_charging_reachable|]. split; [left; by left|].
  split; [intros d ->%list_elem_of_singleton; by split|]. split; [done|]. split; by vm_compute.
Qed.
