(* ===== verification/Validate.v ===== *)
(** The workflow gate (domain/validate.go [ValidateWithOptions]): the graph, the
    expressions of its edges, and the configuration of every node type. *)
From S2P Require Import Prelude GoStrings GoFloat GoAny GoInt Regex Calendar Cron Graph Inputs JsonTree SchemaWire RecoveryContract NodeConfig Template HttpConfig RetryPolicy Waiting Closure Readiness RecoveryDag.
Local Open Scope string_scope.
Local Open Scope list_scope.

(** ** The closed set of codes *)

Definition CodeInvalidContract : string := "invalid_contract".
Definition CodeEmptyWorkflow : string := "empty_workflow".
Definition CodeDuplicateNodeID : string := "duplicate_node_id".
Definition CodeNodeIDReserved : string := "node_id_reserved".
Definition CodeUnsupportedNodeType : string := "unsupported_node_type".
Definition CodeHTTPMissingURL : string := "http_missing_url".
Definition CodeHTTPInvalidConfig : string := "http_invalid_config".
Definition CodeToolMissingName : string := "tool_missing_name".
Definition CodeToolInvalidInput : string := "tool_invalid_input".
Definition CodeConditionMissingExpr : string := "condition_missing_expression".
Definition CodeConditionInvalidExpr : string := "condition_invalid_expression".
Definition CodeTransformMissingMapping : string := "transform_missing_mapping".
Definition CodeEdgeInvalidFrom : string := "edge_invalid_from".
Definition CodeEdgeInvalidTo : string := "edge_invalid_to".
Definition CodeEdgeInvalidCondition : string := "edge_invalid_condition".
Definition CodeEdgeConditionInputsScope : string := "edge_condition_inputs_scope".
Definition CodeEdgeOnErrorCondition : string := "edge_on_error_condition".
Definition CodeInputDefaultTypeMismatch : string := "input_default_type_mismatch".
Definition CodeScheduleInvalidCron : string := "schedule_invalid_cron".
Definition CodeHumanFormInvalidSchema : string := "human_form_invalid_schema".
Definition CodeHumanFormEmptySchema : string := "human_form_empty_schema".
Definition CodeHumanFormInvalidInitial : string := "human_form_invalid_initial_values".
Definition CodeAIMissingPrompt : string := "ai_missing_prompt".
Definition CodeAIInvalidPromptRef : string := "ai_invalid_prompt_ref".
Definition CodeAIInvalidPromptVariables : string := "ai_invalid_prompt_variables".
Definition CodeAIInvalidOutputSchema : string := "ai_invalid_output_schema".
Definition CodeAgentMissingGoal : string := "agent_missing_goal".
Definition CodeAgentInvalidPlanner : string := "agent_invalid_planner".
Definition CodeAgentInvalidMaxSteps : string := "agent_invalid_max_steps".
Definition CodeAgentInvalidTimeout : string := "agent_invalid_timeout".
Definition CodeAgentInvalidBoolean : string := "agent_invalid_boolean".
Definition CodeAgentInvalidConfig : string := "agent_invalid_config".
Definition CodeAgentInvalidTool : string := "agent_invalid_tool".
Definition CodeMultiAgentMissingAgents : string := "multi_agent_missing_agents".
Definition CodeMultiAgentInvalidAgents : string := "multi_agent_invalid_agents".
Definition CodeMultiAgentInvalidMode : string := "multi_agent_invalid_mode".
Definition CodeMultiAgentInvalidAgg : string := "multi_agent_invalid_aggregation".
Definition CodeMultiAgentInvalidBoolean : string := "multi_agent_invalid_boolean".
Definition CodeMultiAgentInvalidConfig : string := "multi_agent_invalid_config".
Definition CodeLoopMissingItems : string := "loop_missing_items".
Definition CodeLoopInvalidMode : string := "loop_invalid_mode".
Definition CodeLoopForEachMissingTool : string := "loop_for_each_missing_tool".
Definition CodeLoopForEachUnknownTool : string := "loop_for_each_unknown_tool".
Definition CodeLoopInvalidConcurrency : string := "loop_invalid_concurrency".
Definition CodeLoopInvalidFailureCount : string := "loop_invalid_failure_count".
Definition CodeLoopInvalidFailurePercent : string := "loop_invalid_failure_percentage".
Definition CodeLoopConflictingFailureLimit : string := "loop_conflicting_failure_budgets".
Definition CodeParallelForkInvalidBranches : string := "parallel_fork_invalid_branches".
Definition CodeJoinInvalidSources : string := "join_invalid_sources".
Definition CodeTriggerInvalidConfig : string := "trigger_invalid_config".
Definition CodeRetryInvalidConfig : string := "retry_invalid_config".
Definition CodeSubworkflowMissingWorkflow : string := "subworkflow_missing_workflow".
Definition CodeSubworkflowSelfReference : string := "subworkflow_self_reference".
Definition CodeSubworkflowInvalidVersion : string := "subworkflow_invalid_version".
Definition CodeRouterCandidateUnknown : string := "router_candidate_unknown".
Definition CodeRouterCandidateNotSuccessor : string := "router_candidate_not_successor".
Definition CodeRouterMissingCandidates : string := "router_missing_candidates".
Definition CodeRouterInvalidCandidate : string := "router_invalid_candidate".
Definition CodeRouterCandidateMissingID : string := "router_candidate_missing_node_id".
Definition CodeRouterCandidateUnknownID : string := "router_candidate_unknown_node_id".
Definition CodeCycleDetected : string := "cycle_detected".
Definition CodeMissingStartNode : string := "missing_start_node".
Definition CodeNodeTypeNotExecutable : string := "node_type_not_executable".

(** The types of the platform, and those this backend runs. *)
Definition platformNodeTypes : list string :=
  ["http"; "condition"; "tool"; "agent"; "multi_agent"; "agent_reflection"; "loop"; "router"; "router_llm";
   "transform"; "ai"; "webhook"; "approval"; "human_form"; "noop"; "subworkflow"; "wait_until"; "parallel_fork";
   "join"; "schedule"; "mcp_tool"; "webhook_received"; "email_received"; "file_dropped"; "mcp_server_event";
   "pagerduty_incident"].
Definition ExecutableNodeTypes : list string :=
  ["noop"; "transform"; "condition"; "http"; "wait_until"; "webhook"; "approval"; "human_form"; "tool";
   "parallel_fork"; "join"; "loop"; "webhook_received"; "router"; "router_llm"; "ai"; "agent"; "multi_agent";
   "mcp_tool"; "pagerduty_incident"; "email_received"; "file_dropped"; "mcp_server_event"; "subworkflow"; "schedule"].

Record ValidationResult := mkValidation { Valid : bool; Issues : list Issue }.

(** A tool validator answers with the text of its error. *)
Abbreviation ToolConfigValidator := (string → obj → bool → option string).
Record ValidationOptions := mkValidationOptions
  { ToolValidator : option ToolConfigValidator; AllowIncompleteToolInputs : bool }.

Definition PermissiveExpressions : ExpressionValidator := λ _, (true, "").

Definition ResultPolicyRequireOK : string := "require_ok".
Definition ResultPolicyEnvelope : string := "envelope".

(** ** References to the inputs on an edge *)

(** The text after the first occurrence of [quote]. *)
Fixpoint after_byte (quote : ascii) (l : list ascii) : option (list ascii) :=
  match l with
  | [] => None
  | c :: l' => if Ascii.eqb c quote then Some l' else after_byte quote l'
  end.
(** [quotedLiteralPattern.ReplaceAllString(text, "")]; every byte is visited once. *)
Fixpoint strip_quoted (fuel : nat) (l : list ascii) : list ascii :=
  match fuel, l with
  | S f, c :: l' =>
      match (if Ascii.eqb c "'" || Ascii.eqb c (chr 34) then after_byte c l' else None) with
      | Some rest => strip_quoted f rest
      | None => c :: strip_quoted f l'
      end
  | _, _ => []
  end.
Definition quotedLiteralPattern (text : string) : string := of_bytes (strip_quoted (len text) (bytes text)).
Definition inputsScopePattern : re :=
  Cat word_start (Cat (Lit "inputs") (Cat (Cls (one_of ".[")) any_text)).

(** ** Values of a configuration *)

Definition isJSFalsy (value : any) : bool :=
  match value with
  | ANil => true | AStr v => String.eqb v "" | ABool v => negb v | AF64 v => f_zero v
  | _ => false
  end.

(** [%v] of a float32. *)
Definition FormatFloat32 (f : float64) : string :=
  match f with
  | S754_finite s m e =>
      let '(ds, dp) := shortest (f32_of_decimal false) m e in
      let body := if ((dp - 1 <? -4) || (6 <=? dp - 1))%Z then format_e ds dp else format_f ds dp in
      of_bytes (if (s : bool) then chr 45 :: body else body)
  | _ => FormatFloat f FmtG
  end.
(** The verb [%v]; maps are printed in the order of their keys. *)
Fixpoint show_value (value : any) : string :=
  match value with
  | ANil => "<nil>"
  | AUndef => "{}"
  | ABool b => if b then "true" else "false"
  | AF64 f => FormatFloat f FmtG
  | AF32 f => FormatFloat32 f
  | AInt _ z => Itoa z
  | AStr s => s
  | AArr l => "[" +:+ Join (map show_value l) " " +:+ "]"
  | AStrs l => "[" +:+ Join l " " +:+ "]"
  | AObj o => "map[" +:+ Join (map (λ kv, kv.1 +:+ ":" +:+ kv.2) (by_key (map (λ kv, (kv.1, show_value kv.2)) o))) " " +:+ "]"
  end.
Definition jsString (value : any) : string :=
  match value with AStr s => s | _ => TrimSpace (show_value value) end.

Definition isNonEmptyObject (value : any) : bool :=
  match value with AObj (_ :: _) => true | _ => false end.

Definition workflowVersionMax : Z := 2147483647.
Definition validWorkflowVersion (value : any) : bool :=
  match value with
  | AF64 v | AF32 v => f_leb (f_of_Z 1) v && f_leb v (f_of_Z workflowVersionMax) && f_eqb (Trunc v) v
  | AInt (KInt | KInt32 | KInt64 | KUint | KUint32 | KUint64) v => ((1 <=? v) && (v <=? workflowVersionMax))%Z
  | _ => false
  end.

(** domain/causal.go [arrayValues], [trimmedString]. *)
Definition arrayValues (value : any) : option (list any) :=
  match value with AArr l => Some l | AStrs l => Some (map AStr l) | _ => None end.
Definition trimmedString (value : any) : string := TrimSpace (string_or_zero value).

(** ** The schedule node (domain/schedule.go) *)

Record ScheduleConfig := mkScheduleConfig { CronExpression : string; Enabled : bool }.

Definition javascriptTypeofJSONValue (value : any) : string :=
  match value with
  | ABool _ => "boolean" | AStr _ => "string"
  | AF64 _ | AF32 _ => "number"
  | AInt KUintptr _ => "object" | AInt _ _ => "number"
  | _ => "object"
  end.

Section schedule.
Context `{UnicodeTables}.

(** [None] is the exhaustion of the fuel of the search for a firing. *)
Definition ResolveScheduleConfig (now : instant) (config : obj) : option (res string ScheduleConfig) :=
  match obj_at config "cronExpression" with
  | AStr raw =>
      let expression := TrimSpace raw in
      if String.eqb expression "" then
        Some (Err ("schedule.cronExpression is required (e.g. " +:+ dq +:+ "0 9 * * *" +:+ dq +:+ ")"))
      else if negb (length (Fields expression) =? 5)%nat then
        Some (Err ("schedule.cronExpression must be a 5-field cron expression, got: " +:+ raw))
      else
        match Cron.Validate now expression with
        | None => None
        | Some (Some err) =>
            Some (Err ("schedule.cronExpression must be a valid cron expression, got: " +:+ raw +:+ " (" +:+ err +:+ ")"))
        | Some None =>
            Some match obj_get config "enabled" with
                 | None => Ok (mkScheduleConfig expression true)
                 | Some (ABool value) => Ok (mkScheduleConfig expression value)
                 | Some raw => Err ("schedule.enabled must be a boolean when set, got: " +:+ javascriptTypeofJSONValue raw)
                 end
        end
  | _ => Some (Err ("schedule.cronExpression is required (e.g. " +:+ dq +:+ "0 9 * * *" +:+ dq +:+ ")"))
  end.
End schedule.

(** ** The validators of the node types *)

(** What a validator needs beyond its node. *)
Record nodeContext := mkContext
  { nc_wf : Workflow; nc_options : ValidationOptions; nc_validExpression : ExpressionValidator;
    nc_allNodeIDs : list string; nc_outgoing : gmap string (list string) }.

Definition node_issue (code message : string) (node : Node) : Issue := mkIssue code message (ID node) "".

Section validators.
Context `{UnicodeTables, HttpLibrary} (lower upper : string → string) (now : instant).

Definition validateHttpNode (node : Node) : list Issue :=
  match ResolveNodeConfig lower upper (Config node) true with
  | Ok _ => []
  | Err e => [node_issue (match nce_Kind e with NodeConfigMissingURL => CodeHTTPMissingURL
                                              | NodeConfigInvalid => CodeHTTPInvalidConfig end) (nce_Message e) node]
  end.

(** The input of a tool node: [None] when it is not an object. *)
Definition tool_input (config : obj) : option obj :=
  match obj_get config "input" with None => Some [] | Some raw => as_obj raw end.
Definition validateToolNode (node : Node) (ctx : nodeContext) : list Issue :=
  let toolName := trimmedString (obj_at (Config node) "tool") in
  push_if (match obj_get (Config node) "resultPolicy" with
           | None => false
           | Some policy => negb (in_list [ResultPolicyRequireOK; ResultPolicyEnvelope] (string_or_zero policy))
           end)
    (node_issue CodeToolInvalidInput "Tool node config.resultPolicy must be require_ok or envelope" node) ++
  if String.eqb toolName "" then [node_issue CodeToolMissingName "Tool node requires config.tool" node]
  else
    match ToolValidator (nc_options ctx) with
    | None => []
    | Some validate =>
        match tool_input (Config node) with
        | None => [node_issue CodeToolInvalidInput "Tool node config.input must be an object" node]
        | Some input =>
            match validate toolName input (negb (AllowIncompleteToolInputs (nc_options ctx))) with
            | Some err => [node_issue CodeToolInvalidInput err node]
            | None => []
            end
        end
    end.

Definition validateSubworkflowNode (node : Node) (ctx : nodeContext) : list Issue :=
  let workflowID := trimmedString (obj_at (Config node) "workflowId") in
  (if String.eqb workflowID "" then
     [node_issue CodeSubworkflowMissingWorkflow "Subworkflow node requires config.workflowId" node]
   else push_if (negb (String.eqb (WorkflowID (nc_wf ctx)) "") && String.eqb workflowID (WorkflowID (nc_wf ctx)))
     (node_issue CodeSubworkflowSelfReference "A workflow cannot call itself directly" node)) ++
  push_if (match obj_get (Config node) "version" with None => false | Some v => negb (validWorkflowVersion v) end)
    (node_issue CodeSubworkflowInvalidVersion "Subworkflow config.version must be an integer between 1 and 2147483647" node).

(** The id of a candidate: [None] when it is not an object, empty when it has none. *)
Definition candidate_id (candidate : any) : option string :=
  match candidate with
  | AObj entry =>
      let id := trimmedString (obj_at entry "nodeId") in
      Some (if String.eqb id "" then trimmedString (obj_at entry "id") else id)
  | _ => None
  end.
Definition candidate_route_issue (node : Node) (ctx : nodeContext) (candidate : any) : list Issue :=
  match candidate_id candidate with
  | None => []
  | Some id =>
      if String.eqb id "" then []
      else if negb (in_list (nc_allNodeIDs ctx) id) then
        [node_issue CodeRouterCandidateUnknown ("Router candidate does not exist: " +:+ id) node]
      else push_if (negb (in_list (default [] (nc_outgoing ctx !! ID node)) id))
        (node_issue CodeRouterCandidateNotSuccessor
          ("Router candidate " +:+ Quote id +:+ " must be a direct successor (add an edge " +:+ ID node +:+ " → " +:+
           id +:+ ") or the decision cannot route") node)
  end.
Definition candidate_shape_issue (node : Node) (ctx : nodeContext) (index : nat) (candidate : any) : list Issue :=
  let at_index := Graph.Type_ node +:+ " candidate at index " +:+ nat_text index in
  match candidate_id candidate with
  | None => [node_issue CodeRouterInvalidCandidate (at_index +:+ " must be an object") node]
  | Some id =>
      if String.eqb id "" then
        [node_issue CodeRouterCandidateMissingID
          (at_index +:+ " must have a non-empty nodeId (legacy " +:+ dq +:+ "id" +:+ dq +:+ " also accepted)") node]
      else push_if (negb (in_list (nc_allNodeIDs ctx) id))
        (node_issue CodeRouterCandidateUnknownID (at_index +:+ " references an unknown node: " +:+ id) node)
  end.
Definition validateRouterNode (node : Node) (ctx : nodeContext) : list Issue :=
  match arrayValues (obj_at (Config node) "candidates") with
  | None | Some [] =>
      [node_issue CodeRouterMissingCandidates
        (Graph.Type_ node +:+ " node requires a non-empty config.candidates array") node]
  | Some entries => flat_map (candidate_route_issue node ctx) entries ++
                    concat (imap (candidate_shape_issue node ctx) entries)
  end.

Definition validateConditionNode (node : Node) (ctx : nodeContext) : list Issue :=
  let expression := obj_at (Config node) "expression" in
  if isJSFalsy expression then [node_issue CodeConditionMissingExpr "Condition node requires config.expression" node]
  else
    let '(ok, msg) := nc_validExpression ctx (jsString expression) in
    push_if (negb ok)
      (node_issue CodeConditionInvalidExpr (if String.eqb msg "" then "Invalid condition expression" else msg) node).

Definition validateTransformNode (node : Node) : list Issue :=
  push_if (negb (isNonEmptyObject (obj_at (Config node) "mapping")))
    (node_issue CodeTransformMissingMapping "Transform node requires a non-empty config.mapping object" node).

Definition validateScheduleNode (node : Node) : option (list Issue) :=
  resolved ← ResolveScheduleConfig now (Config node);
  Some match resolved with Ok _ => [] | Err e => [node_issue CodeScheduleInvalidCron e node] end.

Definition validateHumanFormNode (node : Node) : option (list Issue) :=
  parsed ← ParseInputSchemaValue (obj_at (Config node) "schema");
  match parsed with
  | None => Some [node_issue CodeHumanFormInvalidSchema "Human form node requires a valid config.schema" node]
  | Some schema =>
      if String.eqb (Inputs.Type_ schema) "object" && bool_decide (Properties schema = []) then
        Some [node_issue CodeHumanFormEmptySchema
                "Human form node requires at least one field in config.schema.properties" node]
      else
        match obj_get (Config node) "initialValues" with
        | None => Some []
        | Some initialValues =>
            errs ← ValidateInputValue schema initialValues "$";
            Some match errs with
                 | [] => []
                 | _ => [node_issue CodeHumanFormInvalidInitial
                     ("Human form config.initialValues does not satisfy config.schema: " +:+ Join errs "; ") node]
                 end
        end
  end.

Definition validateAiNode (node : Node) : option (list Issue) :=
  let prompt := string_or_zero (obj_at (Config node) "prompt") in
  let promptRef := ResolvePromptReference (Config node) "promptRef" in
  schema ← match obj_get (Config node) "outputSchema" with
           | None => Some []
           | Some schema =>
               parsed ← ParseInputSchemaValue schema;
               Some (push_if (negb (bool_decide (is_Some parsed)))
                 (node_issue CodeAIInvalidOutputSchema
                   "AI node config.outputSchema must use the supported JSON Schema subset" node))
           end;
  Some (match promptRef with Ok _ => [] | Err e => [node_issue CodeAIInvalidPromptRef e node] end ++
        match ResolvePromptVariables (Config node) with
        | Ok _ => [] | Err e => [node_issue CodeAIInvalidPromptVariables e node] end ++
        push_if (String.eqb (TrimSpace prompt) "" && negb (has_key (Config node) "promptRef"))
          (node_issue CodeAIMissingPrompt "AI node requires config.prompt or config.promptRef" node) ++ schema).

Definition agentConfigIssueCode (err : AgentConfigError) (multi : bool) : string :=
  if multi then
    match ErrorKind err with
    | MultiAgentConfigMissingAgents => CodeMultiAgentMissingAgents
    | MultiAgentConfigInvalidAgents => CodeMultiAgentInvalidAgents
    | MultiAgentConfigInvalidMode => CodeMultiAgentInvalidMode
    | MultiAgentConfigInvalidAgg => CodeMultiAgentInvalidAgg
    | MultiAgentConfigInvalidBool => CodeMultiAgentInvalidBoolean
    | _ => CodeMultiAgentInvalidConfig
    end
  else
    match ErrorKind err with
    | AgentConfigInvalidPlanner => CodeAgentInvalidPlanner
    | AgentConfigInvalidMaxSteps => CodeAgentInvalidMaxSteps
    | AgentConfigInvalidTimeout => CodeAgentInvalidTimeout
    | AgentConfigInvalidBoolean => CodeAgentInvalidBoolean
    | _ => CodeAgentInvalidConfig
    end.

Definition validateAgentTool (config : obj) (node : Node) (issueCode : string) (options : ValidationOptions)
  : list Issue :=
  match AgentConfiguredTool config with
  | Err e => [node_issue issueCode (ErrorMessage e) node]
  | Ok (tool, input) =>
      if String.eqb tool "" then []
      else
        match ToolValidator options with
        | None => []
        | Some validate =>
            match validate tool input (negb (AllowIncompleteToolInputs options)) with
            | Some err => [node_issue issueCode err node]
            | None => []
            end
        end
  end.

Definition validateAgentNode (node : Node) (ctx : nodeContext) : list Issue :=
  push_if (String.eqb (trimmedString (obj_at (Config node) "goal")) "")
    (node_issue CodeAgentMissingGoal "Agent node requires config.goal" node) ++
  match ResolveAgentRuntimeConfig (Config node) AgentDefaultMaxSteps false with
  | Err e => [node_issue (agentConfigIssueCode e false) (ErrorMessage e) node]
  | Ok _ => validateAgentTool (Config node) node CodeAgentInvalidTool (nc_options ctx)
  end.

Definition validateMultiAgentNode (node : Node) (ctx : nodeContext) : list Issue :=
  match ResolveMultiAgentRuntimeConfig (Config node) with
  | Err e => [node_issue (agentConfigIssueCode e true) (ErrorMessage e) node]
  | Ok resolved =>
      flat_map (λ raw, validateAgentTool (default [] (as_obj raw)) node CodeMultiAgentInvalidConfig (nc_options ctx))
        (Agents resolved)
  end.

(** The mode of a loop; the empty mode is an invalid one. *)
Definition loop_mode (config : obj) : string :=
  match obj_get config "mode" with
  | None => "map"
  | Some raw => let value := string_or_zero raw in if in_list ["map"; "for_each"] value then value else ""
  end.
Definition validateLoopConfig (node : Node) (options : ValidationOptions) : list Issue :=
  let config := Config node in
  let mode := loop_mode config in
  let toolName := trimmedString (obj_at config "tool") in
  push_if (isJSFalsy (obj_at config "items")) (node_issue CodeLoopMissingItems "Loop node requires config.items" node) ++
  push_if (String.eqb mode "") (node_issue CodeLoopInvalidMode "Loop mode must be map or for_each" node) ++
  (if String.eqb mode "for_each" then
     if String.eqb toolName "" then
       [node_issue CodeLoopForEachMissingTool "For-each loop requires config.tool" node]
     else
       match ToolValidator options with
       | None => []
       | Some validate =>
           match validate toolName [] false with
           | Some _ => [node_issue CodeLoopForEachUnknownTool ("Unknown tool: " +:+ toolName) node]
           | None => []
           end
       end
   else []) ++
  push_if (match obj_get config "concurrency" with None => false | Some raw => negb (boundedWholeNumber raw 1 20) end)
    (node_issue CodeLoopInvalidConcurrency "Loop concurrency must be an integer from 1 to 20" node) ++
  push_if (match obj_get config "toleratedFailureCount" with
           | None => false | Some raw => negb (boundedWholeNumber raw 0 1000) end)
    (node_issue CodeLoopInvalidFailureCount "Loop tolerated failure count must be an integer from 0 to 1000" node) ++
  push_if (match obj_get config "toleratedFailurePercentage" with
           | None => false
           | Some raw =>
               match validationFiniteNumber raw with
               | None => true
               | Some value => f_ltb value (f_of_Z 0) || f_ltb (f_of_Z 100) value
               end
           end)
    (node_issue CodeLoopInvalidFailurePercent "Loop tolerated failure percentage must be from 0 to 100" node) ++
  push_if (has_key config "toleratedFailureCount" && has_key config "toleratedFailurePercentage")
    (node_issue CodeLoopConflictingFailureLimit "Loop failure budget must use either count or percentage, not both" node).
Definition validateLoopNode (node : Node) (ctx : nodeContext) : list Issue := validateLoopConfig node (nc_options ctx).

Definition validateParallelForkNode (node : Node) : list Issue :=
  match ResolveParallelForkBranches (Config node) with
  | Ok _ => [] | Err e => [node_issue CodeParallelForkInvalidBranches e node]
  end.
Definition validateJoinNode (node : Node) : list Issue :=
  match ResolveJoinSources (Config node) with
  | Ok _ => [] | Err e => [node_issue CodeJoinInvalidSources e node]
  end.
Definition validateTriggerNode (node : Node) : list Issue :=
  match ValidateTriggerConfig lower (Graph.Type_ node) (Config node) with
  | None => [] | Some e => [node_issue CodeTriggerInvalidConfig e node]
  end.
Definition validateApprovalNode (node : Node) : list Issue :=
  match ResolveApprovalWaitingConfig (Config node) now with
  | Ok _ => [] | Err e => [node_issue (we_Code e) (we_Message e) node]
  end.
Definition validateWaitUntilNode (node : Node) : list Issue :=
  match ValidateWaitUntilConfig (Config node) with
  | None => [] | Some e => [node_issue (we_Code e) (we_Message e) node]
  end.

(** The checks of a node's own type. *)
Definition nodeValidators (node : Node) (ctx : nodeContext) : option (list Issue) :=
  let of_type := String.eqb (Graph.Type_ node) in
  if of_type "http" then Some (validateHttpNode node)
  else if of_type "tool" then Some (validateToolNode node ctx)
  else if of_type "subworkflow" then Some (validateSubworkflowNode node ctx)
  else if of_type "router" || of_type "router_llm" then Some (validateRouterNode node ctx)
  else if of_type "condition" then Some (validateConditionNode node ctx)
  else if of_type "transform" then Some (validateTransformNode node)
  else if of_type "schedule" then validateScheduleNode node
  else if of_type "human_form" then validateHumanFormNode node
  else if of_type "ai" then validateAiNode node
  else if of_type "agent" then Some (validateAgentNode node ctx)
  else if of_type "multi_agent" then Some (validateMultiAgentNode node ctx)
  else if of_type "loop" then Some (validateLoopNode node ctx)
  else if of_type "parallel_fork" then Some (validateParallelForkNode node)
  else if of_type "join" then Some (validateJoinNode node)
  else if in_list ["webhook_received"; "email_received"; "file_dropped"; "mcp_server_event"; "pagerduty_incident"]
            (Graph.Type_ node) then Some (validateTriggerNode node)
  else if of_type "approval" then Some (validateApprovalNode node)
  else if of_type "wait_until" then Some (validateWaitUntilNode node)
  else Some [].

(** ** The whole gate *)

(** [seen] holds the ids of the nodes before this one. *)
Definition validate_node (ctx : nodeContext) (seen : list string) (node : Node) : option (list Issue) :=
  own ← nodeValidators node ctx;
  Some (push_if (in_list seen (ID node)) (node_issue CodeDuplicateNodeID ("Duplicate node id: " +:+ ID node) node) ++
        push_if (String.eqb (ID node) "input")
          (node_issue CodeNodeIDReserved
            ("Node id " +:+ dq +:+ "input" +:+ dq +:+ " is reserved for the run input (context.input)") node) ++
        (if negb (in_list platformNodeTypes (Graph.Type_ node)) then
           [node_issue CodeUnsupportedNodeType ("Unsupported node type: " +:+ Graph.Type_ node) node]
         else push_if (negb (in_list ExecutableNodeTypes (Graph.Type_ node)))
           (node_issue CodeNodeTypeNotExecutable
             ("Node type " +:+ Quote (Graph.Type_ node) +:+ " is not executable by this backend yet") node)) ++
        match obj_get (Config node) "retry" with
        | None => []
        | Some retry =>
            match ResolveRetryPolicy retry with Ok _ => [] | Err e => [node_issue CodeRetryInvalidConfig e node] end
        end ++ own).
Fixpoint validate_nodes (ctx : nodeContext) (seen : list string) (nodes : list Node) : option (list Issue) :=
  match nodes with
  | [] => Some []
  | node :: nodes =>
      own ← validate_node ctx seen node; rest ← validate_nodes ctx (ID node :: seen) nodes; Some (own ++ rest)
  end.

Definition validate_edge (nodeIDs : list string) (validExpression : ExpressionValidator) (index : nat) (edge : Edge)
  : list Issue :=
  let edgeID := if String.eqb (EdgeID edge) "" then "edge_" +:+ nat_text index else EdgeID edge in
  let edge_issue code message := mkIssue code message "" edgeID in
  push_if (negb (in_list nodeIDs (From edge)))
    (edge_issue CodeEdgeInvalidFrom ("Edge source does not exist: " +:+ From edge)) ++
  push_if (negb (in_list nodeIDs (To edge)))
    (edge_issue CodeEdgeInvalidTo ("Edge target does not exist: " +:+ To edge)) ++
  push_if (OnError edge && negb (String.eqb (Condition edge) ""))
    (edge_issue CodeEdgeOnErrorCondition
      "An on-error edge cannot also carry a condition — it already fires only when the source node fails") ++
  if String.eqb (Condition edge) "" then []
  else
    (let '(ok, msg) := validExpression (Condition edge) in
     push_if (negb ok)
       (edge_issue CodeEdgeInvalidCondition (if String.eqb msg "" then "Invalid edge condition" else msg))) ++
    push_if (MatchString inputsScopePattern (quotedLiteralPattern (Condition edge)))
      (edge_issue CodeEdgeConditionInputsScope
        "Edge conditions cannot reference inputs.* (node config does not exist on an edge) — use context.input.* for the run input or context.<nodeId>.output.* for a step's output").

Definition outgoing_ids (edges : list Edge) : gmap string (list string) :=
  fold_left (λ g e, <[From e := To e :: default [] (g !! From e)]> g) edges ∅.

Definition default_issue (bad : invalidDefault) : Issue :=
  mkIssue CodeInputDefaultTypeMismatch ("Declared default for " +:+ Path bad +:+ " " +:+ Problem bad) "" "".

(** [None] is a panic on an input schema that [Parse] refuses, or a search without fuel. *)
Definition ValidateWithOptions (wf : Workflow) (validExpression : option ExpressionValidator)
    (replayFixtures : option SemanticFixtureEvaluator) (options : ValidationOptions) : option ValidationResult :=
  let validExpression := default PermissiveExpressions validExpression in
  let ids := ID <$> Nodes wf in
  let ctx := mkContext wf options validExpression ids (outgoing_ids (Edges wf)) in
  contract ← validateSemanticContractDAG upper wf (Some validExpression) replayFixtures;
  nodes ← validate_nodes ctx [] (Nodes wf);
  defaults ← match WorkflowInputs wf with None => Some [] | Some inputs => invalidInputDefaults inputs "$" end;
  cycle ← hasCycle (Nodes wf) (Edges wf);
  let hasStart := existsb (λ node, negb (existsb (λ e, String.eqb (To e) (ID node)) (Edges wf))) (Nodes wf) in
  let issues :=
    contract ++
    push_if (bool_decide (Nodes wf = [])) (mkIssue CodeEmptyWorkflow "Workflow must include at least one node" "" "") ++
    nodes ++
    concat (imap (validate_edge ids validExpression) (Edges wf)) ++
    map default_issue defaults ++
    push_if cycle (mkIssue CodeCycleDetected "Workflow graph contains a cycle" "" "") ++
    push_if (negb (bool_decide (Nodes wf = [])) && negb hasStart)
      (mkIssue CodeMissingStartNode "Workflow must have at least one start node" "" "") in
  Some (mkValidation (bool_decide (issues = [])) issues).
End validators.
