(* ===== verification/ValidateFacts.v ===== *)
(** The workflow gate always answers, and what an accepted workflow guarantees: to the
    engine, that its graph can be scheduled to the end; to the executors, that the
    configuration of every node resolves. *)
From S2P Require Import Prelude GoStrings GoFloat GoAny GoInt Regex Calendar Cron CronFacts Graph GraphFacts Json JsonTree Inputs InputsFacts SchemaWire RecoveryContract NodeConfig Template HttpConfig RetryPolicy Waiting Closure Readiness ReadinessFacts RecoveryDag DagFacts Expression Runtime RuntimeFacts RunSafety Validate.
Local Open Scope string_scope.
Local Open Scope list_scope.

(** ** The gate always answers *)

(** No child of the schema is a nil pointer, whatever its type. *)
Inductive whole (s : InputSchema) : Prop :=
| whole_intro :
    (∀ k oc, (k, oc) ∈ Properties s → ∃ c, oc = Some c ∧ whole c) → (∀ c, Items s = Some c → whole c) → whole s.

Lemma concat_some_total {A} (l : list (option (list A))) : (∀ x, x ∈ l → is_Some x) → is_Some (concat_some l).
Proof.
  induction l as [|x l IH]; intros Hall; [by eexists|]. destruct (Hall x ltac:(by left)) as [a ->]. cbn.
  destruct IH as [b ->]; [intros y Hy; apply Hall; by right|]. by eexists.
Qed.

Lemma walkInput_total s : whole s → ∀ v path, is_Some (walkInput s v path).
Proof.
  induction s as [s IHp IHi] using schema_ind'. intros [Hp Hi] v path.
  destruct s as [type d props req items enum df]. cbn [Properties Items] in *. cbn [walkInput].
  destruct (negb _); [by eexists|]. apply concat_some_total. intros x [->|Hx]%elem_of_cons; [by eexists|].
  apply elem_of_app in Hx as [Hx|Hx].
  - destruct (String.eqb type "object"); [|by apply elem_of_nil in Hx].
    destruct v as [| | | | | | | | |o]; try by apply elem_of_nil in Hx.
    apply elem_of_cons in Hx as [->|Hx]; [by eexists|].
    apply list_elem_of_fmap in Hx as (kv & -> & Hkv). apply elem_of_by_key, list_elem_of_fmap in Hkv as ([k oc] & -> & Hin).
    cbn [fst snd]. destruct (obj_get o k); [|by eexists]. destruct (Hp _ _ Hin) as (c & -> & Hc). by apply (IHp k).
  - destruct (String.eqb type "array"); [|by apply elem_of_nil in Hx].
    destruct v as [| | | | | | |l| |]; try by apply elem_of_nil in Hx. destruct items as [c|]; [|by apply elem_of_nil in Hx].
    apply elem_of_lookup_imap in Hx as (i & w & -> & _). apply IHi; [done|]. by apply Hi.
Qed.

Lemma invalidInputDefaults_total s : whole s → ∀ path, is_Some (invalidInputDefaults s path).
Proof.
  induction s as [s IHp _] using schema_ind'. intros Hw path. pose proof (walkInput_total s Hw) as Hwalk. destruct Hw as [Hp _].
  destruct s as [type d props req items enum df]. cbn [Properties] in *. cbn [invalidInputDefaults].
  apply concat_some_total. intros x [->|Hx]%elem_of_cons.
  - destruct (HasDefault _); [|by eexists]. unfold ValidateInputValue.
    destruct (Hwalk (DefaultValue (mkSchema type d props req items enum df)) path) as [[|e errs] ->]; by eexists.
  - apply list_elem_of_fmap in Hx as (kv & -> & Hkv). apply elem_of_by_key, list_elem_of_fmap in Hkv as ([k oc] & -> & Hin).
    cbn [snd]. destruct (Hp _ _ Hin) as (c & -> & Hc). by apply (IHp k).
Qed.

Lemma ParseInputSchemaValue_total value :
  ∃ r, ParseInputSchemaValue value = Some r ∧ ∀ s, r = Some s → sound s.
Proof.
  unfold ParseInputSchemaValue. destruct (_ ≫= _) as [schema|]; [|by exists None].
  unfold validInputSchemaShape.
  destruct (shape_loop_total (S InputSchemaNodeMax) [Some schema] 0) as [b Hb]; [done|done|].
  rewrite Hb. cbn [mbind option_bind]. eexists. split; [reflexivity|]. intros s. destruct b; [|done]. intros [= <-].
  by apply shape_sound.
Qed.

Lemma cron_Validate_total `{UnicodeTables} now expression : is_Some (Cron.Validate now expression).
Proof.
  unfold Cron.Validate. destruct (Parse_total expression) as (r & ->). destruct r as [s|e]; [|by eexists].
  destruct (Next_spec s now) as (r & _ & ->). destruct r; by eexists.
Qed.

Lemma ResolveScheduleConfig_total `{UnicodeTables} now config : is_Some (ResolveScheduleConfig now config).
Proof.
  unfold ResolveScheduleConfig. destruct (obj_at config "cronExpression") as [| | | | | |raw| | |]; try by eexists.
  destruct (String.eqb _ _); [by eexists|]. destruct (negb _); [by eexists|].
  destruct (cron_Validate_total now (TrimSpace raw)) as [[e|] ->]; by eexists.
Qed.

Section gate.
Context `{UnicodeTables, HttpLibrary} (lower upper : string → string) (now : instant).

Lemma nodeValidators_total node ctx : is_Some (nodeValidators lower upper now node ctx).
Proof.
  unfold nodeValidators. repeat (case_match; [try by eexists|]); try by eexists.
  - unfold validateScheduleNode. destruct (ResolveScheduleConfig_total now (Config node)) as [r ->]. by eexists.
  - unfold validateHumanFormNode. destruct (ParseInputSchemaValue_total (obj_at (Config node) "schema")) as (r & -> & Hs).
    cbn [mbind option_bind]. destruct r as [s|]; [|by eexists]. destruct (_ && _); [by eexists|].
    destruct (obj_get _ _) as [v|]; [|by eexists].
    destruct (walkInput_ok s (Hs s eq_refl) v "$") as (errs & Hrun & _). unfold ValidateInputValue. rewrite Hrun. by eexists.
  - unfold validateAiNode. destruct (obj_get _ "outputSchema") as [v|]; [|by eexists].
    destruct (ParseInputSchemaValue_total v) as (r & -> & _). by eexists.
Qed.

(** ** The nodes *)

(** What the gate asks of a single node, its own type's checks included. *)
Record node_accepted (ctx : nodeContext) (node : Node) : Prop :=
  { na_id : ID node ≠ "input";
    na_type : Graph.Type_ node ∈ ExecutableNodeTypes;
    na_retry : ∀ retry, obj_get (Config node) "retry" = Some retry → ∃ p, ResolveRetryPolicy retry = Ok p;
    na_own : nodeValidators lower upper now node ctx = Some [] }.

Lemma executable_platform t : t ∈ ExecutableNodeTypes → t ∈ platformNodeTypes.
Proof.
  intros Ht. assert (forallb (λ t, bool_decide (t ∈ platformNodeTypes)) ExecutableNodeTypes = true) as Hall by by vm_compute.
  rewrite forallb_elem in Hall. by apply (bool_decide_unpack _), Is_true_true, Hall.
Qed.

Lemma type_checks node :
  (if negb (in_list platformNodeTypes (Graph.Type_ node)) then
     [node_issue CodeUnsupportedNodeType ("Unsupported node type: " +:+ Graph.Type_ node) node]
   else push_if (negb (in_list ExecutableNodeTypes (Graph.Type_ node)))
     (node_issue CodeNodeTypeNotExecutable
       ("Node type " +:+ Quote (Graph.Type_ node) +:+ " is not executable by this backend yet") node)) = [] ↔
  Graph.Type_ node ∈ ExecutableNodeTypes.
Proof.
  pose proof (executable_platform (Graph.Type_ node)) as Hsub. rewrite <-in_list_spec in Hsub |- *.
  rewrite <-in_list_spec in Hsub. destruct (in_list platformNodeTypes _); cbn [negb].
  - rewrite push_if_nil, negb_false_iff. done.
  - split; [done|]. intros Hx. by specialize (Hsub Hx).
Qed.

Lemma validate_node_spec ctx seen node : ∃ l, validate_node lower upper now ctx seen node = Some l ∧
  (l = [] ↔ ID node ∉ seen ∧ node_accepted ctx node).
Proof.
  unfold validate_node. destruct (nodeValidators_total node ctx) as [own Hown]. rewrite Hown. cbn [mbind option_bind].
  eexists. split; [reflexivity|]. rewrite !app_nil, type_checks, !push_if_nil.
  rewrite <-not_true_iff_false, in_list_spec, String.eqb_neq.
  assert (match obj_get (Config node) "retry" with
          | None => []
          | Some retry => match ResolveRetryPolicy retry with Ok _ => [] | Err e => [node_issue CodeRetryInvalidConfig e node] end
          end = [] ↔ ∀ retry, obj_get (Config node) "retry" = Some retry → ∃ p, ResolveRetryPolicy retry = Ok p) as ->.
  { destruct (obj_get _ "retry") as [retry|]; [|done]. split.
    - intros Hr ? [= <-]. destruct (ResolveRetryPolicy retry); [by eexists|done].
    - intros Hr. destruct (Hr retry eq_refl) as [p ->]. done. }
  split.
  - intros (? & ? & ? & ? & ->). done.
  - intros (? & [? ? ? Hn]). rewrite Hn in Hown. injection Hown as <-. done.
Qed.

Lemma validate_nodes_spec ctx seen nodes : ∃ l, validate_nodes lower upper now ctx seen nodes = Some l ∧
  (l = [] ↔ NoDup (ID <$> nodes) ∧ (∀ n, n ∈ nodes → ID n ∉ seen ∧ node_accepted ctx n)).
Proof.
  revert seen. induction nodes as [|n nodes IH]; intros seen; cbn [validate_nodes].
  { exists []. split; [done|]. split; [|done]. split; [constructor|]. intros n Hn. by apply elem_of_nil in Hn. }
  destruct (validate_node_spec ctx seen n) as (own & -> & Hown). destruct (IH (ID n :: seen)) as (rest & -> & Hrest).
  cbn [mbind option_bind]. eexists. split; [reflexivity|]. rewrite app_nil, Hown, Hrest. cbn [fmap list_fmap].
  rewrite NoDup_cons. split.
  - intros [[Hs Hn] [Hnd Hall]]. split_and!; [|done|].
    + intros Hin. apply list_elem_of_fmap in Hin as (m & Heq & Hm). apply (proj1 (Hall m Hm)). rewrite <-Heq. by left.
    + intros m [->|Hm]%elem_of_cons; [done|]. destruct (Hall m Hm) as [Hns ?]. split; [|done]. set_solver.
  - intros [[Hni Hnd] Hall]. split; [apply Hall; by left|]. split; [done|].
    intros m Hm. destruct (Hall m ltac:(by right)) as [Hns ?]. split; [|done].
    intros [Heq|?]%elem_of_cons; [|done]. apply Hni. rewrite <-Heq. apply list_elem_of_fmap. by exists m.
Qed.

(** ** The edges *)

(** What the gate asks of an edge. *)
Record edge_accepted (validExpression : ExpressionValidator) (nodes : list Node) (e : Edge) : Prop :=
  { ea_from : From e ∈ ID <$> nodes; ea_to : To e ∈ ID <$> nodes;
    ea_error : OnError e = true → Condition e = "";
    ea_condition : Condition e ≠ "" → (validExpression (Condition e)).1 = true ∧
      MatchString inputsScopePattern (quotedLiteralPattern (Condition e)) = false }.

Lemma validate_edge_spec validExpression nodes index e :
  validate_edge (ID <$> nodes) validExpression index e = [] ↔ edge_accepted validExpression nodes e.
Proof.
  unfold validate_edge. rewrite !app_nil, !push_if_nil, !negb_false_iff, !in_list_spec, andb_false_iff, negb_false_iff, String.eqb_eq.
  destruct (String.eqb_spec (Condition e) "") as [Hc|Hc].
  - split.
    + intros (? & ? & ? & _). constructor; [done..|]. by rewrite Hc.
    + intros [? ? ? _]. by split_and!; [..|right|].
  - destruct (validExpression (Condition e)) as [ok msg] eqn:Hv. rewrite app_nil, !push_if_nil, negb_false_iff. split.
    + intros (? & ? & [Ho|Ho] & ? & ?); [|done]. constructor; [done|done| |].
      * by rewrite Ho.
      * intros _. by rewrite Hv.
    + intros [? ? Ho Hcond]. specialize (Hcond Hc). rewrite Hv in Hcond. destruct Hcond as [? ?]. split_and!; [done|done| |done|done].
      destruct (OnError e); [|by left]. right. by apply Ho.
Qed.

(** ** The whole gate *)

(** A workflow the gate lets through. *)
Record accepted (wf : Workflow) (validExpression : ExpressionValidator) (replayFixtures : option SemanticFixtureEvaluator)
    (options : ValidationOptions) : Prop :=
  { ac_contract : validateSemanticContractDAG upper wf (Some validExpression) replayFixtures = Some [];
    ac_nonempty : Nodes wf ≠ [];
    ac_unique : NoDup (ID <$> Nodes wf);
    ac_nodes : ∀ n, n ∈ Nodes wf →
      node_accepted (mkContext wf options validExpression (ID <$> Nodes wf) (outgoing_ids (Edges wf))) n;
    ac_edges : ∀ e, e ∈ Edges wf → edge_accepted validExpression (Nodes wf) e;
    ac_defaults : ∀ s, WorkflowInputs wf = Some s → invalidInputDefaults s "$" = Some [];
    ac_acyclic : ∀ x, ¬ tc (edge_rel (Nodes wf) (Edges wf)) x x }.

Lemma semantic_total wf ve rf : is_Some (validateSemanticContractDAG upper wf ve rf).
Proof.
  unfold validateSemanticContractDAG. destruct (semantic_contract wf) as [c|]; [|by eexists].
  destruct (detectors_spec upper wf c ve) as (l & Hl & _). destruct (indexSemanticDag upper wf c) as [index und].
  cbn [fst] in Hl. rewrite Hl. by eexists.
Qed.

Lemma accepted_valid_graph wf ve rf options : accepted wf ve rf options → valid_graph wf.
Proof.
  intros [_ Hne _ _ Hedges _ Hac]. split; [done|intros e He; by destruct (Hedges e He)|].
  pose proof (hasCycle_spec (Nodes wf) (Edges wf)) as Hspec. destruct (hasCycle _ _) as [[]|]; [|done|done].
  destruct Hspec as [x Hx]. by destruct (Hac x).
Qed.

(** An acyclic graph with a node has one without incoming edges. *)
Lemma start_exists wf : valid_graph wf →
  existsb (λ node, negb (existsb (λ e, String.eqb (To e) (ID node)) (Edges wf))) (Nodes wf) = true.
Proof.
  intros Hwf. destruct (Nodes wf) as [|n0 ns] eqn:Hnodes; [by destruct (vg_nonempty _ Hwf)|]. rewrite <-Hnodes.
  assert (∀ id, Acc (incoming_rel wf) id → id ∈ ID <$> Nodes wf →
    existsb (λ node, negb (existsb (λ e, String.eqb (To e) (ID node)) (Edges wf))) (Nodes wf) = true) as Hind.
  { intros id Hacc. induction Hacc as [id _ IH]. intros (n & -> & Hn)%list_elem_of_fmap.
    destruct (existsb (λ e, String.eqb (To e) (ID n)) (Edges wf)) eqn:Hin.
    - apply existsb_elem in Hin as (e & He & Hto%String.eqb_eq). apply (IH (From e)); [by exists e|].
      by apply (vg_edges _ Hwf).
    - apply existsb_elem. exists n. by rewrite Hin. }
  apply (Hind (ID n0)); [by apply predecessors_wf|]. rewrite Hnodes. by left.
Qed.

Lemma fmap_nil_inv_iff {A B} (f : A → B) (l : list A) : map f l = [] ↔ l = [].
Proof. by destruct l. Qed.

Definition default_problems (wf : Workflow) : option (list invalidDefault) :=
  match WorkflowInputs wf with None => Some [] | Some inputs => invalidInputDefaults inputs "$" end.

Lemma ValidateWithOptions_spec wf ve rf options : is_Some (default_problems wf) →
  ∃ r, ValidateWithOptions lower upper now wf ve rf options = Some r ∧
    (Valid r = true ↔ accepted wf (default PermissiveExpressions ve) rf options).
Proof.
  intros [ds Hds]. unfold ValidateWithOptions. fold (default_problems wf). set (validExpression := default PermissiveExpressions ve).
  set (ctx := mkContext _ _ _ _ _).
  destruct (semantic_total wf (Some validExpression) rf) as [contract Hcontract].
  destruct (validate_nodes_spec ctx [] (Nodes wf)) as (nodes & Hnodes & Hns).
  assert (ds = [] ↔ ∀ s, WorkflowInputs wf = Some s → invalidInputDefaults s "$" = Some []) as Hdefaults.
  { unfold default_problems in Hds. destruct (WorkflowInputs wf) as [s|]; [|by injection Hds as <-].
    split; [by intros -> ? [= <-]|]. intros Hall. specialize (Hall s eq_refl). congruence. }
  pose proof (hasCycle_spec (Nodes wf) (Edges wf)) as Hcycle.
  assert (hasCycle (Nodes wf) (Edges wf) = Some false ↔ ∀ x, ¬ tc (edge_rel (Nodes wf) (Edges wf)) x x) as Hacyclic.
  { destruct (hasCycle _ _) as [[]|]; [|split; [|done]|done].
    - split; [done|]. destruct Hcycle as [x Hx]. intros Hall. by destruct (Hall x).
    - intros _ x. by apply Acc_no_cycle. }
  assert (∃ cycle, hasCycle (Nodes wf) (Edges wf) = Some cycle) as [cycle Hc] by (destruct (hasCycle _ _); [by eexists|done]).
  rewrite Hcontract, Hnodes, Hds, Hc. cbn [mbind option_bind]. eexists. split; [reflexivity|]. cbn [Valid].
  rewrite bool_decide_eq_true, !app_nil, !push_if_nil, imap_concat_nil, Hns, bool_decide_eq_false.
  rewrite (fmap_nil_inv_iff default_issue ds), Hdefaults. split.
  - intros (-> & Hne & [Hnd Hall] & Hedges & Hd & -> & _). constructor; [done|done|done| |  |done|by apply Hacyclic].
    + intros n Hn. by apply Hall.
    + intros e (i & Hi)%list_elem_of_lookup. by apply (validate_edge_spec _ _ i), Hedges.
  - intros Hac. pose proof (accepted_valid_graph _ _ _ _ Hac) as Hvg. pose proof (start_exists wf Hvg) as Hstart.
    destruct Hac as [Hcon Hne Hnd Hall Hedges Hd Hacy]. apply Hacyclic in Hacy.
    split_and!; [congruence|done|done| | |done|congruence|].
    + intros n Hn. split; [by apply not_elem_of_nil|by apply Hall].
    + intros i e He. apply validate_edge_spec, Hedges. by eapply list_elem_of_lookup_2.
    + by rewrite Hstart, andb_false_r.
Qed.
(** An answer of the gate comes from a schema whose walk did not panic. *)
Lemma Valid_accepted wf ve rf options r : ValidateWithOptions lower upper now wf ve rf options = Some r → Valid r = true →
  accepted wf (default PermissiveExpressions ve) rf options.
Proof.
  intros Hr Hv. destruct (ValidateWithOptions_spec wf ve rf options) as (r' & Hr' & Hiff).
  - unfold ValidateWithOptions in Hr. fold (default_problems wf) in Hr. destruct (default_problems wf); [by eexists|].
    destruct (validateSemanticContractDAG _ _ _ _); [|done]. cbn [mbind option_bind] in Hr. by destruct (validate_nodes _ _ _ _ _ _).
  - apply Hiff. congruence.
Qed.

(** ** What the executors find in an accepted workflow *)

Definition trigger_types : list string :=
  ["webhook_received"; "email_received"; "file_dropped"; "mcp_server_event"; "pagerduty_incident"].

Record node_resolves (wf : Workflow) (validExpression : ExpressionValidator) (n : Node) : Prop :=
  { nr_http : Graph.Type_ n = "http" → ∃ c, ResolveNodeConfig lower upper (Config n) true = Ok c;
    nr_fork : Graph.Type_ n = "parallel_fork" → ∃ branches, ResolveParallelForkBranches (Config n) = Ok branches;
    nr_join : Graph.Type_ n = "join" → ∃ sources, ResolveJoinSources (Config n) = Ok sources;
    nr_trigger : Graph.Type_ n ∈ trigger_types → ValidateTriggerConfig lower (Graph.Type_ n) (Config n) = None;
    nr_approval : Graph.Type_ n = "approval" → ∃ c, ResolveApprovalWaitingConfig (Config n) now = Ok c;
    nr_wait : Graph.Type_ n = "wait_until" → ValidateWaitUntilConfig (Config n) = None;
    nr_schedule : Graph.Type_ n = "schedule" → ∃ c, ResolveScheduleConfig now (Config n) = Some (Ok c);
    nr_agent : Graph.Type_ n = "agent" → ∃ c, ResolveAgentRuntimeConfig (Config n) AgentDefaultMaxSteps false = Ok c;
    nr_crew : Graph.Type_ n = "multi_agent" → ∃ c, ResolveMultiAgentRuntimeConfig (Config n) = Ok c;
    nr_condition : Graph.Type_ n = "condition" → (validExpression (jsString (obj_at (Config n) "expression"))).1 = true;
    nr_router : Graph.Type_ n ∈ ["router"; "router_llm"] → ∃ candidates,
      arrayValues (obj_at (Config n) "candidates") = Some candidates ∧ candidates ≠ [] ∧
      ∀ c, c ∈ candidates → ∃ e, e ∈ Edges wf ∧ From e = ID n ∧ candidate_id c = Some (To e);
    nr_form : Graph.Type_ n = "human_form" → ∃ s, ParseInputSchemaValue (obj_at (Config n) "schema") = Some (Some s) ∧
      ∀ v, obj_get (Config n) "initialValues" = Some v → conforms s v;
    nr_retry : ∀ retry, obj_get (Config n) "retry" = Some retry → ∃ p, ResolveRetryPolicy retry = Ok p }.

Lemma elem_of_outgoing edges (g : gmap string (list string)) x y :
  y ∈ default [] (fold_left (λ g e, <[From e := To e :: default [] (g !! From e)]> g) edges g !! x) ↔
  y ∈ default [] (g !! x) ∨ ∃ e, e ∈ edges ∧ From e = x ∧ To e = y.
Proof.
  revert g. induction edges as [|e edges IH]; intros g; cbn [fold_left]; [set_solver|]. rewrite IH.
  destruct (decide (From e = x)) as [<-|Hne].
  - rewrite lookup_insert_eq. cbn [default]. set_solver.
  - rewrite lookup_insert_ne by done. set_solver.
Qed.
Lemma router_resolves wf ve options n :
  validateRouterNode n (mkContext wf options ve (ID <$> Nodes wf) (outgoing_ids (Edges wf))) = [] →
  ∃ candidates, arrayValues (obj_at (Config n) "candidates") = Some candidates ∧ candidates ≠ [] ∧
    ∀ c, c ∈ candidates → ∃ e, e ∈ Edges wf ∧ From e = ID n ∧ candidate_id c = Some (To e).
Proof.
  unfold validateRouterNode. destruct (arrayValues _) as [[|c0 cs]|]; [done| |done]. intros [Hroute Hshape]%app_nil.
  exists (c0 :: cs). split; [done|]. split; [done|]. intros c Hc.
  rewrite flat_map_nil in Hroute. specialize (Hroute c Hc). unfold candidate_route_issue in Hroute.
  apply list_elem_of_lookup in Hc as [i Hi]. rewrite imap_concat_nil in Hshape. specialize (Hshape i c Hi).
  unfold candidate_shape_issue in Hshape. destruct (candidate_id c) as [id|]; [|done].
  destruct (String.eqb id ""); [done|]. destruct (negb (in_list (nc_allNodeIDs _) id)); [done|].
  rewrite push_if_nil, negb_false_iff, in_list_spec in Hroute. cbn [nc_outgoing] in Hroute. unfold outgoing_ids in Hroute.
  apply elem_of_outgoing in Hroute as [Hr|(e & He & Hfrom & <-)]; [|by exists e].
  rewrite lookup_empty in Hr. by apply elem_of_nil in Hr.
Qed.

Lemma form_resolves n : validateHumanFormNode n = Some [] →
  ∃ s, ParseInputSchemaValue (obj_at (Config n) "schema") = Some (Some s) ∧
    ∀ v, obj_get (Config n) "initialValues" = Some v → conforms s v.
Proof.
  unfold validateHumanFormNode. destruct (ParseInputSchemaValue_total (obj_at (Config n) "schema")) as (r & -> & Hs).
  cbn [mbind option_bind]. destruct r as [s|]; [|done]. destruct (_ && _); [done|]. intros Hv. exists s. split; [done|].
  intros v Hget. rewrite Hget in Hv. destruct (walkInput_ok s (Hs s eq_refl) v "$") as (errs & Hrun & Hiff).
  unfold ValidateInputValue in Hv. rewrite Hrun in Hv. cbn [mbind option_bind] in Hv. apply Hiff. by destruct errs.
Qed.

Lemma accepted_resolves wf ve rf options n : accepted wf ve rf options → n ∈ Nodes wf → node_resolves wf ve n.
Proof.
  intros Hac Hn. destruct (ac_nodes _ _ _ _ Hac n Hn) as [_ _ Hretry Hown]. unfold nodeValidators in Hown.
  constructor; [intros Ht; rewrite ?Ht in Hown; cbn in Hown..|exact Hretry].
  - injection Hown as Hown. unfold validateHttpNode in Hown. destruct (ResolveNodeConfig _ _ _ _); [by eexists|done].
  - injection Hown as Hown. unfold validateParallelForkNode in Hown. destruct (ResolveParallelForkBranches _); [by eexists|done].
  - injection Hown as Hown. unfold validateJoinNode in Hown. destruct (ResolveJoinSources _); [by eexists|done].
  - unfold trigger_types in Ht. rewrite !elem_of_cons, elem_of_nil in Ht. destruct (ValidateTriggerConfig _ _ _) eqn:Hv; [|done]. exfalso.
    repeat destruct Ht as [Ht|Ht]; try done; rewrite Ht in Hown; cbn in Hown; unfold validateTriggerNode in Hown;
      rewrite Ht in Hv; rewrite Ht, Hv in Hown; done.
  - injection Hown as Hown. unfold validateApprovalNode in Hown. destruct (ResolveApprovalWaitingConfig _ _); [by eexists|done].
  - injection Hown as Hown. unfold validateWaitUntilNode in Hown. by destruct (ValidateWaitUntilConfig _).
  - unfold validateScheduleNode in Hown. destruct (ResolveScheduleConfig now (Config n)) as [[c|e]|]; [by eexists|done|done].
  - injection Hown as Hown. unfold validateAgentNode in Hown. apply app_nil in Hown as [_ Hown].
    destruct (ResolveAgentRuntimeConfig _ _ _); [by eexists|done].
  - injection Hown as Hown. unfold validateMultiAgentNode in Hown. destruct (ResolveMultiAgentRuntimeConfig _); [by eexists|done].
  - injection Hown as Hown. unfold validateConditionNode in Hown. destruct (isJSFalsy _); [done|]. cbn [nc_validExpression] in Hown.
    destruct (ve _) as [[] msg]; [done|by apply push_if_nil in Hown].
  - apply (router_resolves wf ve options). rewrite !elem_of_cons, elem_of_nil in Ht.
    destruct Ht as [Ht|[Ht|[]]]; rewrite Ht in Hown; cbn in Hown; by injection Hown.
  - by apply form_resolves.
Qed.
End gate.

(** ** The properties *)

(** C20: On every workflow whose input schema has no null child, the gate
    answers, and it accepts exactly the workflows that satisfy each of its rules. The rule
    about a start node is not among them: it follows from the others. *)
Theorem gate_decides `{UnicodeTables, HttpLibrary} (lower upper : string → string) (now : instant) (wf : Workflow)
    (ve : option ExpressionValidator) (rf : option SemanticFixtureEvaluator) (options : ValidationOptions) :
  (∀ s, WorkflowInputs wf = Some s → whole s) →
  ∃ r, ValidateWithOptions lower upper now wf ve rf options = Some r ∧
    (Valid r = true ↔ accepted lower upper now wf (default PermissiveExpressions ve) rf options).
Proof.
  intros Hwhole. apply ValidateWithOptions_spec. unfold default_problems.
  destruct (WorkflowInputs wf) as [s|]; [|by eexists]. by apply invalidInputDefaults_total, Hwhole.
Qed.



(** *** A workflow that passes *)

#[local] Instance tables : UnicodeTables := {| is_print := λ _, true |}.
#[local] Instance library : HttpLibrary :=
  {| ParseRequestURI := λ s, if HasPrefix s "https://" then Some (mkURI "https" "example.test" false "") else None;
     ValidHeaderFieldName := λ _, true; ValidHeaderFieldValue := λ _, true |}.
Definition fan_workflow : Workflow :=
  graph_workflow
    [mkNode "fork" "parallel_fork" "" [("branches", AArr [AObj [("label", AStr "left")]; AObj [("label", AStr "right")]])];
     mkNode "call" "http" "" [("url", AStr "https://example.test/items"); ("timeoutMs", AF64 (f_of_Z 500))];
     mkNode "wait" "wait_until" "" [("duration", AStr "PT1H")];
     mkNode "meet" "join" "" [("sources", AObj [("left", AStr "call"); ("right", AStr "wait")])];
     mkNode "daily" "schedule" "" [("cronExpression", AStr "0 9 * * 1-5")]]
    [mkEdge "" "fork" "call" "" false; mkEdge "" "fork" "wait" "" false; mkEdge "" "call" "meet" "" false;
     mkEdge "" "wait" "meet" "" false; mkEdge "" "daily" "fork" "" false] [].
Definition fan_result : ValidationResult := mkValidation true [].
Definition fan_options : ValidationOptions := mkValidationOptions None false.
Definition may_2025 : instant := 1746090000000000000.

Lemma fan_accepted : ValidateWithOptions id id may_2025 fan_workflow None None fan_options = Some fan_result.
Proof. vm_compute. reflexivity. Qed.

Lemma gate_decides_witness :
  ∃ r, ValidateWithOptions id id may_2025 fan_workflow None None fan_options = Some r ∧
    (Valid r = true ↔ accepted id id may_2025 fan_workflow PermissiveExpressions None fan_options).
Proof. apply (gate_decides id id may_2025 fan_workflow None None fan_options). intros s Hs. done. Defined.



(** *** The guard on references to the inputs *)

Definition grammar_validator : ExpressionValidator := λ expression, default (false, "") (DomainValidator expression).
Definition escaped_quote : string := of_bytes [chr 92; "'"%char].
Definition hidden_reference : string :=
  "context.fetch.output != 'it" +:+ escaped_quote +:+ "s' && inputs.x == 'it" +:+ escaped_quote +:+ "s'".
Definition plain_reference : string := "context.inputs.output == 'ok'".
Definition node_context (id : string) : any := AObj [(id, AObj [("output", AStr "ok")])].

(** The guard that keeps inputs.* out of edge conditions strips
    quoted text without the escapes of the grammar, and looks for the word anywhere in a
    path. So it lets through a condition whose value depends on the inputs, which edges do
    not have, and refuses one that reads the output of a node with the id "inputs". *)
Theorem inputs_guard_imprecise :
  (let edge := mkEdge "" "fetch" "ship" hidden_reference false in
   validate_edge ["fetch"; "ship"] grammar_validator 0 edge = [] ∧
   EvaluateExpression hidden_reference (mkScope (node_context "fetch") (AObj [])) = Some (Ok false) ∧
   EvaluateExpression hidden_reference
     (mkScope (node_context "fetch") (AObj [("x", AStr ("it" +:+ escaped_quote +:+ "s"))])) = Some (Ok true)) ∧
  (let edge := mkEdge "" "inputs" "ship" plain_reference false in
   map RecoveryDag.Code (validate_edge ["inputs"; "ship"] grammar_validator 0 edge) = [CodeEdgeConditionInputsScope] ∧
   ∀ inputs, EvaluateExpression plain_reference (mkScope (node_context "inputs") inputs) = Some (Ok true)).
Proof. split; [by vm_compute|]. split; [by vm_compute|]. intros inputs. by vm_compute. Qed.
