(* ===== verification/RetryFacts.v ===== *)
(** When the engine retries a node and when it gives up, and how long it waits. *)
From S2P Require Import Prelude GoStrings GoFloat FloatFacts GoAny Regex Redact RecoveryContract NodeConfig RetryPolicy.
From S2P Require Import Graph Runtime RecoveryContract.
Local Open Scope string_scope.
Local Open Scope list_scope.

(** ** The labels of an error and the patterns that cover them *)

Inductive error_label (lower : string → string) (serr : obj) : string → Prop :=
| label_name name : obj_at serr "name" = AStr name → name ≠ "" → error_label lower serr name
| label_code code : obj_at serr "code" = AStr code → code ≠ "" → error_label lower serr code
| label_status status : obj_at serr "statusCode" = AInt KInt status → status ≠ 0%Z → error_label lower serr (Itoa status)
| label_family status : obj_at serr "statusCode" = AInt KInt status → status ≠ 0%Z →
    error_label lower serr (Itoa (Z.quot status 100) +:+ "xx")
| label_timeout : timeout_label lower serr = true → error_label lower serr "timeout"
| label_network : network_label lower serr = true → error_label lower serr "network".

(** A pattern covers its own text, and [dxx] every label of three bytes that begins
    with the digit. *)
Definition pattern_covers (pattern label : string) : Prop :=
  label = pattern ∨
  ∃ d a b, is_digit d = true ∧ pattern = of_bytes [d; "x"%char; "x"%char] ∧ label = of_bytes [d; a; b].

Definition error_matches (lower : string → string) (serr : obj) (patterns : list string) : Prop :=
  ∃ pattern label, pattern ∈ patterns ∧ error_label lower serr label ∧ pattern_covers pattern label.

Lemma elem_of_add_label label labels l : l ∈ add_label label labels ↔ l ∈ labels ∨ l = label ∧ label ≠ "".
Proof.
  unfold add_label. destruct (String.eqb_spec label "") as [->|Hne]; cbn [orb]; [naive_solver|].
  destruct (in_list labels label) eqn:Hin.
  - apply in_list_spec in Hin. naive_solver.
  - rewrite elem_of_app, list_elem_of_singleton. naive_solver.
Qed.

Lemma Itoa_nonempty z : Itoa z ≠ "".
Proof.
  unfold Itoa. intros H. apply (f_equal bytes) in H. revert H.
  destruct (z <? 0)%Z; rewrite ?bytes_app; [done|]. rewrite bytes_of_bytes. unfold digits. intros H.
  apply (f_equal (@rev ascii)) in H. rewrite rev_involutive in H. cbn in H. destruct (z <? 10)%Z; [done|].
  by destruct (digits_rev _ _).
Qed.

Lemma string_or_zero_label v l : l = string_or_zero v ∧ string_or_zero v ≠ "" ↔ v = AStr l ∧ l ≠ "".
Proof. unfold string_or_zero. destruct v; cbn; naive_solver. Qed.

Lemma classifyError_spec lower serr l : l ∈ classifyError lower serr ↔ error_label lower serr l.
Proof.
  unfold classifyError. set (name := string_or_zero (obj_at serr "name")). set (code := string_or_zero (obj_at serr "code")).
  set (base := add_label code (add_label name [])).
  assert (∀ l, l ∈ base ↔ obj_at serr "name" = AStr l ∧ l ≠ "" ∨ obj_at serr "code" = AStr l ∧ l ≠ "") as Hbase.
  { intros l'. unfold base. rewrite !elem_of_add_label, elem_of_nil.
    pose proof (string_or_zero_label (obj_at serr "name") l'). pose proof (string_or_zero_label (obj_at serr "code") l').
    unfold name, code. tauto. }
  assert (status_code serr ≠ 0%Z → obj_at serr "statusCode" = AInt KInt (status_code serr)) as Hstatus.
  { unfold status_code. by destruct (obj_at serr "statusCode") as [| | | | |[]| | | |]. }
  set (labels := if (status_code serr =? 0)%Z then base else _).
  assert (∀ l, l ∈ labels ↔ l ∈ base ∨ status_code serr ≠ 0%Z ∧
    (l = Itoa (status_code serr) ∨ l = Itoa (Z.quot (status_code serr) 100) +:+ "xx")) as Hlabels.
  { intros l'. unfold labels. destruct (Z.eqb_spec (status_code serr) 0) as [->|Hne]; [naive_solver|].
    rewrite !elem_of_add_label. pose proof (Itoa_nonempty (status_code serr)).
    assert (Itoa (Z.quot (status_code serr) 100) +:+ "xx" ≠ "")
      by (intros Heq%(f_equal bytes); rewrite bytes_app in Heq; by destruct (bytes (Itoa _))).
    naive_solver. }
  clearbody labels. set (timed := if timeout_label lower serr then _ else _).
  assert (∀ l, l ∈ timed ↔ l ∈ labels ∨ timeout_label lower serr = true ∧ l = "timeout") as Htimed.
  { intros l'. unfold timed. destruct (timeout_label lower serr); [rewrite elem_of_add_label|]; naive_solver. }
  clearbody timed. assert (l ∈ (if network_label lower serr then add_label "network" timed else timed) ↔
    l ∈ timed ∨ network_label lower serr = true ∧ l = "network") as ->.
  { destruct (network_label lower serr); [rewrite elem_of_add_label|]; naive_solver. }
  rewrite Htimed, Hlabels, Hbase. split.
  - intros [[[[[? ?]|[? ?]]|[Hne [->| ->]]]|[? ->]]|[? ->]]; [by apply label_name|by apply label_code| | | |].
    + by apply label_status; [apply Hstatus|].
    + by apply label_family; [apply Hstatus|].
    + by apply label_timeout.
    + by apply label_network.
  - assert (∀ st, obj_at serr "statusCode" = AInt KInt st → status_code serr = st) as Hst
      by (intros st Hs; unfold status_code; by rewrite Hs).
    destruct 1 as [? ? ?|? ? ?|st Hs Hne|st Hs Hne|?|?]; [| |apply Hst in Hs as <-|apply Hst in Hs as <-| |]; tauto.
Qed.

Lemma matchesPattern_spec label pattern : matchesPattern label pattern = true ↔ pattern_covers pattern label.
Proof.
  unfold matchesPattern, pattern_covers. rewrite orb_true_iff, String.eqb_eq. unfold httpStatusPattern. split.
  - intros [?|Hm]; [by left|right]. destruct (bytes pattern) as [|d [|x [|y [|]]]] eqn:Hb; try done.
    destruct (is_digit d && Ascii.eqb x "x" && Ascii.eqb y "x") eqn:Hd; [|done].
    bool_split. repeat match goal with H : Ascii.eqb _ _ = true |- _ => apply Ascii.eqb_eq in H end. subst x y.
    rename select (HasPrefix _ _ = true) into Hp. rename select ((_ =? 3)%nat = true) into Hlen. apply Nat.eqb_eq in Hlen.
    apply HasPrefix_spec in Hp as [r ->]. rewrite len_app, len_of_bytes in Hlen. cbn in Hlen.
    unfold len in Hlen. destruct (bytes r) as [|a [|b [|]]] eqn:Hr; try done. exists d, a, b. split; [done|].
    split; [by rewrite <-Hb, of_bytes_bytes|]. apply bytes_inj. by rewrite bytes_app, Hr, !bytes_of_bytes.
  - intros [?|(d & a & b & Hd & -> & ->)]; [by left|right]. rewrite bytes_of_bytes, Hd. cbn [Ascii.eqb andb].
    apply andb_true_iff. split; [|by rewrite len_of_bytes].
    apply HasPrefix_spec. exists (of_bytes [a; b]). apply bytes_inj. by rewrite bytes_app, !bytes_of_bytes.
Qed.

Lemma matchesAny_spec lower serr patterns :
  matchesAny (classifyError lower serr) patterns = true ↔ error_matches lower serr patterns.
Proof.
  unfold matchesAny, error_matches. rewrite existsb_elem. setoid_rewrite existsb_elem.
  setoid_rewrite matchesPattern_spec. setoid_rewrite classifyError_spec. naive_solver.
Qed.

(** ** The verdict *)

(** A policy retries an error: no external effect may have happened, no person
    answered, no ignored pattern covers it, and a listed one does if any is listed. *)
Definition policy_retries (lower : string → string) (serr : obj) (p : RetryPolicy) : Prop :=
  obj_at serr "writeSide" ≠ ABool true ∧ obj_at serr "name" ≠ AStr "ToolApprovalError" ∧
  ¬ error_matches lower serr (IgnoreOn p) ∧ (RetryOn p = [] ∨ error_matches lower serr (RetryOn p)).

Lemma bool_or_zero_true v : bool_or_zero v = true ↔ v = ABool true.
Proof. unfold bool_or_zero. destruct v as [| |[]| | | | | | |]; cbn; split; congruence. Qed.
Lemma string_or_zero_eq v s : s ≠ "" → string_or_zero v = s ↔ v = AStr s.
Proof. intros Hs. unfold string_or_zero. destruct v; cbn; split; congruence. Qed.

Lemma shouldRetry_spec lower serr policy :
  shouldRetry lower serr policy = true ↔ ∃ p, policy = Some p ∧ policy_retries lower serr p.
Proof.
  unfold shouldRetry, policy_retries. destruct policy as [p|]; [|naive_solver].
  assert (bool_or_zero (obj_at serr "writeSide") || String.eqb (string_or_zero (obj_at serr "name")) "ToolApprovalError" = true ↔
    obj_at serr "writeSide" = ABool true ∨ obj_at serr "name" = AStr "ToolApprovalError") as Hrefuse.
  { rewrite orb_true_iff, String.eqb_eq, bool_or_zero_true, string_or_zero_eq by done. done. }
  destruct (_ || _) eqn:Hr.
  - split; [done|]. intros (p' & _ & Hw & Hn & _). by destruct (proj1 Hrefuse eq_refl).
  - assert (obj_at serr "writeSide" ≠ ABool true ∧ obj_at serr "name" ≠ AStr "ToolApprovalError") as [Hw Hn]
      by (split; intros Heq; assert (false = true) by (apply Hrefuse; auto); done).
    pose proof (matchesAny_spec lower serr (IgnoreOn p)) as Hig. pose proof (matchesAny_spec lower serr (RetryOn p)) as Hon.
    destruct (matchesAny (classifyError lower serr) (IgnoreOn p)).
    + split; [done|]. intros (p' & [= <-] & _ & _ & Hni & _). by destruct Hni; apply Hig.
    + assert (¬ error_matches lower serr (IgnoreOn p)) as Hni by (by intros ?%Hig).
      destruct (RetryOn p) as [|x l] eqn:Hl.
      { split; [|done]. intros _. exists p. split_and!; [done..|by left]. }
      rewrite Hon. split.
      * intros Hm. exists p. split_and!; [done..|right; by rewrite Hl].
      * intros (p' & [= <-] & _ & _ & _ & [Hnil|Hm]); [congruence|by rewrite Hl in Hm].
Qed.

(** ** The bounds of a policy *)

(** Decoded numbers are valid binary64 numbers. *)
Definition valid_number (v : any) : Prop := ∀ f, validationFiniteNumber v = Some f → f_valid f = true.

Lemma bounded_int v lo hi : valid_number v → exact_int lo = true → exact_int hi = true →
  (- 2 ^ 63 ≤ lo)%Z → (hi < 2 ^ 63)%Z → boundedWholeNumber v lo hi = true →
  (lo ≤ int_of_float (mustFiniteNumber v) ≤ hi)%Z.
Proof.
  intros Hv Hlo Hhi Hl Hh. unfold boundedWholeNumber, mustFiniteNumber.
  destruct (validationFiniteNumber v) as [f|] eqn:Hf; [|done]. cbn [default from_option id]. unfold within. intros Hw.
  bool_split. assert (is_finite f = true) as Hfin.
  { unfold validationFiniteNumber in Hf. destruct v as [| | |f0|f0|[] z| | | |]; try done;
      match type of Hf with (if ?b then _ else _) = _ => destruct b eqn:? end; naive_solver. }
  pose proof (trunc_bounds f lo hi (Hv f Hf) Hfin Hlo Hhi ltac:(done) ltac:(done)) as Hb.
  unfold int_of_float. rewrite Hfin. rewrite (proj2 (Z.leb_le (- 2 ^ 63) (trunc_Z f))) by lia.
  by rewrite (proj2 (Z.ltb_lt (trunc_Z f) (2 ^ 63))) by lia.
Qed.

Lemma ResolveRetryPolicy_attempts `{UnicodeTables} value p : ResolveRetryPolicy value = Ok p →
  (∀ raw, value = AObj raw → valid_number (obj_at raw "maxAttempts")) → (1 ≤ MaxAttempts p ≤ RetryMaxAttempts)%Z.
Proof.
  unfold ResolveRetryPolicy. destruct value as [| | | | | | | | |raw]; try done. cbn [as_obj].
  destruct raw as [|kv raw']; [done|]. set (raw := kv :: raw'). intros Hres Hv.
  destruct (List.find _ _); [done|]. destruct (_ && _) eqn:Hatt in Hres; [|done]. apply andb_true_iff in Hatt as [_ Hatt].
  destruct (retry_delay raw "delayMs" _); [|done]. cbn [res_bind] in Hres.
  destruct (retry_delay raw "maxDelayMs" _); [|done]. cbn [res_bind] in Hres.
  match type of Hres with res_bind ?x _ = _ => destruct x end; [|done]. cbn [res_bind] in Hres.
  match type of Hres with res_bind ?x _ = _ => destruct x end; [|done]. cbn [res_bind] in Hres.
  match type of Hres with res_bind ?x _ = _ => destruct x end; [|done]. cbn [res_bind] in Hres.
  match type of Hres with res_bind ?x _ = _ => destruct x end; [|done]. cbn [res_bind] in Hres.
  injection Hres as <-. cbn [MaxAttempts].
  apply (bounded_int (obj_at raw "maxAttempts") 1 RetryMaxAttempts); [by apply Hv|by vm_compute|by vm_compute|lia| |done].
  unfold RetryMaxAttempts. lia.
Qed.

(** ** The delay *)

Lemma retry_delay_spec raw field maximum f : retry_delay raw field maximum = Ok (Some f) →
  is_finite f = true ∧ f_zero f = false.
Proof.
  unfold retry_delay. destruct (obj_get raw field) as [v|]; [|done]. destruct (boundedWholeNumber v 1 maximum) eqn:Hb; [|done].
  intros [= <-]. unfold boundedWholeNumber, mustFiniteNumber in *. destruct (validationFiniteNumber v) as [f|] eqn:Hf; [|done].
  cbn [default from_option id]. unfold within in Hb. bool_split. split; [|by destruct f as [[]| | |]].
  unfold validationFiniteNumber in Hf. destruct v as [| | |f0|f0|[] z| | | |]; try done;
    match type of Hf with (if ?b then _ else _) = _ => destruct b eqn:? end; naive_solver.
Qed.

Lemma ResolveRetryPolicy_delays `{UnicodeTables} value p : ResolveRetryPolicy value = Ok p →
  (is_finite (DelayMs p) = true ∧ f_zero (DelayMs p) = false) ∧
  ∀ m, MaxDelayMs p = Some m → is_finite m = true ∧ f_zero m = false.
Proof.
  unfold ResolveRetryPolicy. destruct value as [| | | | | | | | |raw]; try done. cbn [as_obj].
  destruct raw as [|kv raw']; [done|]. set (raw := kv :: raw'). intros Hres.
  destruct (List.find _ _); [done|]. destruct (_ && _) in Hres; [|done].
  destruct (retry_delay raw "delayMs" RetryMaxInitialDelayMS) as [d|] eqn:Hd; [|done]. cbn [res_bind] in Hres.
  destruct (retry_delay raw "maxDelayMs" RetryMaxDelayMS) as [m|] eqn:Hm; [|done]. cbn [res_bind] in Hres.
  do 4 (match type of Hres with res_bind ?x _ = _ => destruct x end; [|done]; cbn [res_bind] in Hres).
  injection Hres as <-. cbn [DelayMs MaxDelayMs]. split.
  - destruct d as [d|]; [by apply retry_delay_spec in Hd|by vm_compute].
  - intros m' ->. by apply retry_delay_spec in Hm.
Qed.

(** ** The properties *)

(** What [RetryOrFail] does with the error of a node, its policy read from the node's
    configuration (engine/terminalfailure.go). *)
Definition retry_or_fail `{UnicodeTables} (lower upper : string → string) (wf : Workflow) (runInput : obj)
    (config serr : obj) (now : Z) (nodeID : string) (attempt : Z) (r : Run) : option tx :=
  let policy := parseRetryPolicy config in
  RetryOrFail upper wf runInput now nodeID attempt (max_attempts policy) (shouldRetry lower serr policy) (AObj serr) r.

(** A failed attempt is queued again exactly when its node declares a valid
    policy whose ceiling, at most ten, the attempt has not reached, the error is neither a
    write-side one nor a tool-approval one, no ignored pattern covers a label of the
    error, and a listed pattern does when any is listed. Otherwise the node fails. *)
Theorem retry_decision_correct `{UnicodeTables} (lower upper : string → string) (wf : Workflow) (runInput : obj)
    (config serr : obj) (now : Z) (nodeID : string) (attempt : Z) (r : Run) :
  (∀ raw, obj_get config "retry" = Some (AObj raw) → valid_number (obj_at raw "maxAttempts")) →
  (∃ p, parseRetryPolicy config = Some p ∧ (attempt < MaxAttempts p ≤ 10)%Z ∧ policy_retries lower serr p ∧
     retry_or_fail lower upper wf runInput config serr now nodeID attempt r =
     Some (RequeueRunNodeForRetry now nodeID (attempt + 1) r)) ∨
  (¬ (∃ p, parseRetryPolicy config = Some p ∧ (attempt < MaxAttempts p)%Z ∧ policy_retries lower serr p) ∧
     retry_or_fail lower upper wf runInput config serr now nodeID attempt r =
     failNodeTx upper wf runInput now nodeID attempt (AObj serr) r).
Proof.
  intros Hv. assert (∀ p, parseRetryPolicy config = Some p → (1 ≤ MaxAttempts p ≤ 10)%Z) as Hb.
  { intros p Hp. unfold parseRetryPolicy in Hp. destruct (obj_get config "retry") as [value|] eqn:Hget; [|done].
    destruct (ResolveRetryPolicy value) as [p'|] eqn:Hres; [|done]. injection Hp as ->.
    apply (ResolveRetryPolicy_attempts _ _ Hres). intros raw ->. by apply Hv. }
  unfold retry_or_fail, RetryOrFail. pose proof (shouldRetry_spec lower serr (parseRetryPolicy config)) as Hs.
  destruct (parseRetryPolicy config) as [p|] eqn:Hp.
  2:{ right. split; [by intros (p & ? & _)|]. by rewrite orb_true_r. }
  specialize (Hb p eq_refl). unfold max_attempts. rewrite (proj2 (Z.ltb_lt 0 (MaxAttempts p))) by lia.
  destruct (Z.leb_spec (MaxAttempts p) attempt) as [Hle|Hlt]; cbn [orb].
  { right. split; [|done]. intros (p' & [= <-] & ? & _). lia. }
  destruct (shouldRetry lower serr (Some p)); cbn [negb].
  - left. destruct (proj1 Hs eq_refl) as (p' & [= <-] & Hr). exists p. split_and!; [done|lia|lia|done..].
  - right. split; [|done]. intros (p' & Hp' & _ & Hr). assert (false = true) by (apply Hs; by exists p'). done.
Qed.

#[local] Instance printable : UnicodeTables := {| is_print := λ _, true |}.
Definition retry_config : obj :=
  [("retry", AObj [("maxAttempts", AF64 (f_of_Z 3)); ("retryOn", AArr [AStr "5xx"]);
                   ("backoff", AStr "exponential"); ("maxDelayMs", AF64 (f_of_Z 60000))])].
Definition unavailable : obj := [("message", AStr "Service Unavailable"); ("statusCode", AInt KInt 503)].
Definition retry_workflow : Workflow := graph_workflow [mkNode "fetch" "http" "" retry_config] [] [].
Definition retry_start : Run := StartRun retry_workflow 0.

Lemma retry_decision_correct_witness :
  (∃ p, parseRetryPolicy retry_config = Some p ∧ (1 < MaxAttempts p ≤ 10)%Z ∧ policy_retries id unavailable p ∧
     retry_or_fail id id retry_workflow [] retry_config unavailable 5 "fetch" 1 retry_start =
     Some (RequeueRunNodeForRetry 5 "fetch" (1 + 1) retry_start)) ∨
  (¬ (∃ p, parseRetryPolicy retry_config = Some p ∧ (1 < MaxAttempts p)%Z ∧ policy_retries id unavailable p) ∧
     retry_or_fail id id retry_workflow [] retry_config unavailable 5 "fetch" 1 retry_start =
     failNodeTx id retry_workflow [] 5 "fetch" 1 (AObj unavailable) retry_start).
Proof.
  apply (retry_decision_correct id id retry_workflow [] retry_config unavailable 5 "fetch" 1 retry_start).
  intros raw [= <-] f [= <-]. by vm_compute.
Defined.

(** The delay of a valid policy without jitter never exceeds one hour nor the
    policy's own maximum, whatever the attempt, also when the exponential overflows. *)
Theorem retry_delay_bounded `{UnicodeTables} (value : any) (p : RetryPolicy) (attempt : Z) (rand : float64) :
  ResolveRetryPolicy value = Ok p → Jitter p = false →
  f_leb (computeRetryDelay attempt (Some p) rand) (f_of_Z RetryMaxDelayMS) = true ∧
  ∀ maximum, MaxDelayMs p = Some maximum → f_leb (computeRetryDelay attempt (Some p) rand) maximum = true.
Proof.
  intros Hres Hj. destruct (ResolveRetryPolicy_delays value p Hres) as [[Hdf Hdz] Hmax].
  unfold computeRetryDelay. rewrite Hj. set (raw := if String.eqb _ _ then _ else _).
  assert (is_nan raw = false) as Hraw.
  { unfold raw. destruct (String.eqb _ _); [|by destruct (DelayMs p)].
    apply f_mul_not_nan; [done|done|]. apply binary_normalize_not_nan. }
  assert (∀ m, MaxDelayMs p = Some m → is_nan (f_min raw m) = false ∧ f_leb (f_min raw m) m = true) as Hmin.
  { intros m Hm. destruct (Hmax m Hm) as [Hmf Hmz]. pose proof (f_min_r raw m Hraw Hmf Hmz) as Hle. split; [|done].
    by destruct (f_min raw m). }
  set (capped := match MaxDelayMs p with Some _ => _ | None => _ end).
  assert (is_nan capped = false) as Hc.
  { unfold capped. destruct (MaxDelayMs p) as [m|]; [by apply Hmin|done]. }
  split; [by apply f_min_r|]. intros m Hm. apply (f_leb_trans _ capped).
  - by apply f_min_l.
  - unfold capped. rewrite Hm. by apply Hmin.
Qed.

Definition retry_policy : RetryPolicy :=
  mkRetryPolicy 3 (f_of_Z 1000) (Some (f_of_Z 60000)) "exponential" false ["5xx"] [].

Lemma retry_delay_bounded_witness :
  f_leb (computeRetryDelay 9 (Some retry_policy) (f_of_Z 0)) (f_of_Z RetryMaxDelayMS) = true ∧
  ∀ maximum, MaxDelayMs retry_policy = Some maximum →
    f_leb (computeRetryDelay 9 (Some retry_policy) (f_of_Z 0)) maximum = true.
Proof. apply (retry_delay_bounded (obj_at retry_config "retry") retry_policy 9 (f_of_Z 0)); by vm_compute. Defined.
