(* ===== verification/TechnicalAutonomy.v ===== *)
(** Level 4 recovery of technical failures (domain/technicalautonomy.go): the class of a
    repair, derived from the workflow before and after it, and the seven gates of its
    autonomous application. *)
From S2P Require Import Prelude GoStrings GoFloat GoAny Graph Inputs RecoveryContract RecoveryAutonomy.
Local Open Scope string_scope.
Local Open Scope list_scope.

Definition TechnicalFailureTerminal : string := "terminal_node_failure".
Definition TechnicalFailureStalled : string := "stalled_node".
Definition TechnicalAutonomyFactorIDs : list string :=
  ["policy"; "repair_scope"; "validation_evidence"; "prior_recoveries"; "blast_radius"; "rollback"; "effect_receipts"].

(** A workflow with its normalised fields outside the graph. *)
Record TechnicalRecoveryWorkflow := mkTechnicalWorkflow { tw_Workflow : Workflow; workflowScope : obj }.

(** ** The class of a repair *)

#[export] Instance edge_eq_dec : EqDecision Edge.
Proof. solve_decision. Defined.

Definition node_deep_equal (a b : Node) : bool :=
  String.eqb (ID a) (ID b) && String.eqb (Graph.Type_ a) (Graph.Type_ b) && String.eqb (Label a) (Label b) &&
  deep_equal (AObj (Config a)) (AObj (Config b)).

(** The last node with an id wins. *)
Definition technicalNodeMap (nodes : list Node) : gmap string Node :=
  fold_left (λ m n, <[ID n := n]> m) nodes ∅.

Definition technicalNodeChanges (before after : gmap string Node) : list string * list string * list string :=
  let ids (keep : string → bool) (m : gmap string Node) := sort_strings (filter (λ id, keep id = true) (elements (dom m))) in
  (ids (λ id, bool_decide (before !! id = None)) after,
   ids (λ id, bool_decide (after !! id = None)) before,
   ids (λ id, match before !! id, after !! id with
              | Some previous, Some node => negb (node_deep_equal previous node)
              | _, _ => false
              end) after).

Definition equalConfigWithoutRetry (before after : obj) : bool :=
  let size (o : obj) := if has_key o "retry" then (length o - 1)%nat else length o in
  (size before =? size after)%nat &&
  forallb (λ kv, String.eqb kv.1 "retry" ||
                 match obj_get after kv.1 with Some other => deep_equal kv.2 other | None => false end) before.

(** The counts of the edges are the edges not matched yet. *)
Fixpoint take_edge (key : Edge) (counts : list Edge) : option (list Edge) :=
  match counts with
  | [] => None
  | e :: counts => if bool_decide (e = key) then Some counts else cons e <$> take_edge key counts
  end.
Fixpoint match_edges (counts edges : list Edge) : bool :=
  match edges with
  | [] => true
  | e :: edges => match take_edge e counts with Some counts => match_edges counts edges | None => false end
  end.
Definition equalTechnicalEdgeSets (left_edges right_edges : list Edge) : bool :=
  (length left_edges =? length right_edges)%nat && match_edges left_edges right_edges.

Definition redirect (failingNodeID approvalID : string) (e : Edge) : Edge :=
  if String.eqb (To e) failingNodeID then mkEdge (EdgeID e) (From e) approvalID (Condition e) (OnError e) else e.

Definition approval_shape (approval : Node) : bool :=
  String.eqb (Graph.Type_ approval) "approval" && (length (Config approval) =? 1)%nat &&
  match obj_get (Config approval) "message" with
  | Some (AStr message) => negb (String.eqb (TrimSpace message) "")
  | _ => false
  end.

Definition exactTechnicalApprovalInsertion (original candidate : TechnicalRecoveryWorkflow) (failingNodeID : string)
    (added removed changed : list string) : bool :=
  match added, removed, changed with
  | [id], [], [] =>
      bool_decide (is_Some (technicalNodeMap (Nodes (tw_Workflow original)) !! failingNodeID)) &&
      match technicalNodeMap (Nodes (tw_Workflow candidate)) !! id with
      | None => false
      | Some approval =>
          approval_shape approval &&
          equalTechnicalEdgeSets
            (map (redirect failingNodeID (ID approval)) (Edges (tw_Workflow original)) ++
             [mkEdge "" (ID approval) failingNodeID "" false])
            (Edges (tw_Workflow candidate))
      end
  | _, _, _ => false
  end.

Definition ClassifyTechnicalRecoveryRepair (original candidate : option TechnicalRecoveryWorkflow)
    (failingNodeID : string) : string :=
  match original, candidate with
  | Some original, Some candidate =>
      if negb (deep_equal (AObj (workflowScope original)) (AObj (workflowScope candidate))) then ""
      else
        let originalNodes := technicalNodeMap (Nodes (tw_Workflow original)) in
        let candidateNodes := technicalNodeMap (Nodes (tw_Workflow candidate)) in
        let '(added, removed, changed) := technicalNodeChanges originalNodes candidateNodes in
        let edgesEqual := equalTechnicalEdgeSets (Edges (tw_Workflow original)) (Edges (tw_Workflow candidate)) in
        if negb (bool_decide (added = [])) || negb (bool_decide (removed = [])) || negb edgesEqual then
          if exactTechnicalApprovalInsertion original candidate failingNodeID added removed changed
          then "structural_patch" else ""
        else if negb (bool_decide (changed = [failingNodeID])) then ""
        else
          match originalNodes !! failingNodeID, candidateNodes !! failingNodeID with
          | Some before, Some after =>
              if negb (String.eqb (Graph.Type_ before) (Graph.Type_ after)) || negb (String.eqb (Label before) (Label after)) ||
                 deep_equal (AObj (Config before)) (AObj (Config after))
              then ""
              else if equalConfigWithoutRetry (Config before) (Config after) then "retry" else "config_patch"
          | _, _ => ""
          end
  | _, _ => ""
  end.

(** ** The seven gates *)

Record TechnicalAutonomyFactor := mkTechnicalFactor
  { tf_ID : string; Passed : bool; Reason : string; tf_Actual : any; tf_Required : any }.
Record TechnicalRecoveryAutonomyAssessment := mkAssessment
  { Eligible : bool; as_Failure : string; RepairClass : option string; as_Policy : RecoveryAutonomyProfile;
    as_ValidationEvidenceLevel : string; as_MinimumEvidenceLevel : option string; as_PriorVerifiedRecoveries : Z;
    as_AffectedExecutions : Z; as_Factors : list TechnicalAutonomyFactor }.
Record TechnicalRecoveryAutonomyInput := mkInput
  { in_Contract : option RecoveryContract; in_Failure : string; in_RepairClass : string;
    in_ValidationEvidenceLevel : string; in_PriorVerifiedRecoveries : Z; in_AffectedExecutions : Z;
    in_RollbackReady : bool }.

Definition technicalFactor (id : string) (passed : bool) (blockedReason : string) (actual required : any)
  : TechnicalAutonomyFactor :=
  mkTechnicalFactor id passed (if passed then "ready" else blockedReason) actual required.

Definition technicalEvidenceRank (level : string) : Z :=
  if String.eqb level "static" then 0 else if String.eqb level "writes_skipped" then 1
  else if String.eqb level "provider_simulated" then 2 else if String.eqb level "live_canary" then 3 else -1.

Section gates.
Variable input : TechnicalRecoveryAutonomyInput.
Let contract := in_Contract input.
Definition evidence_level : string := ParseValidationEvidenceLevel (in_ValidationEvidenceLevel input).
Definition input_policy : RecoveryAutonomyProfile :=
  ResolveRecoveryAutonomyProfile (in_Contract input) (mkFailureClass "technical" (in_Failure input) "").
Definition narrow : option RecoveryNarrowAutonomy := c ← in_Contract input; NarrowAutonomy c.

Definition policy_ready : bool :=
  bool_decide (Level input_policy = Some 4%Z) &&
  match in_Contract input with Some c => String.eqb (ProductionMutation c) "autonomous_level_4" | None => false end.
Definition repair_ready : bool :=
  negb (String.eqb (in_RepairClass input) "") &&
  match in_Contract input, narrow with
  | Some c, Some n => in_list (RepairsAllowed c) (in_RepairClass input) &&
                      in_list (AllowedRepairClasses n) (in_RepairClass input)
  | _, _ => false
  end.
Definition evidence_ready : bool :=
  match in_Contract input with
  | Some c => (technicalEvidenceRank (MinimumEvidenceLevel c) <=? technicalEvidenceRank evidence_level)%Z &&
              SupportsAutonomousRecovery evidence_level
  | None => false
  end.
Definition prior_ready : bool :=
  match narrow with
  | Some n => (MinimumPriorVerifiedRecoveries n <=? in_PriorVerifiedRecoveries input)%Z | None => false
  end.
Definition blast_radius_ready : bool :=
  match narrow with
  | Some n => (1 <=? in_AffectedExecutions input)%Z && (in_AffectedExecutions input <=? MaxAffectedExecutions n)%Z
  | None => false
  end.
Definition rollback_ready : bool :=
  match narrow with Some n => RollbackRequired n && in_RollbackReady input | None => false end.
Definition effect_receipts_ready : bool :=
  match in_Contract input with
  | Some c => in_list (EvidenceRequired c) "effect_receipt" &&
              forallb (λ e, negb (String.eqb (Idempotency e) "unavailable" || String.eqb (Receipt e) "manual")) (Effects c)
  | None => false
  end.

Definition policy_reason : string :=
  match Level input_policy with
  | None => "policy_unavailable"
  | Some l => if (l <? 4)%Z then "autonomy_level_below_4" else "mutation_policy_requires_approval"
  end.

Definition technical_factors : list TechnicalAutonomyFactor :=
  let int_or_nil o := match o with Some z => AInt KInt z | None => ANil end in
  [technicalFactor "policy" policy_ready policy_reason (int_or_nil (Level input_policy)) (AInt KInt 4);
   technicalFactor "repair_scope" repair_ready
     (if String.eqb (in_RepairClass input) "" then "repair_unclassified" else "repair_not_allowlisted")
     (if String.eqb (in_RepairClass input) "" then ANil else AStr (in_RepairClass input))
     (match narrow with Some n => AStr (Join (AllowedRepairClasses n) ", ") | None => ANil end);
   technicalFactor "validation_evidence" evidence_ready "validation_evidence_insufficient" (AStr evidence_level)
     (match in_Contract input with Some c => AStr (MinimumEvidenceLevel c) | None => ANil end);
   technicalFactor "prior_recoveries" prior_ready "prior_recoveries_insufficient"
     (AInt KInt (in_PriorVerifiedRecoveries input)) (int_or_nil (MinimumPriorVerifiedRecoveries <$> narrow));
   technicalFactor "blast_radius" blast_radius_ready "blast_radius_exceeded"
     (AInt KInt (in_AffectedExecutions input)) (int_or_nil (MaxAffectedExecutions <$> narrow));
   technicalFactor "rollback" rollback_ready "rollback_unavailable" (ABool (in_RollbackReady input))
     (match narrow with Some n => ABool (RollbackRequired n) | None => ANil end);
   technicalFactor "effect_receipts" effect_receipts_ready "effect_receipts_unsafe" (ABool effect_receipts_ready)
     (ABool true)].

Definition EvaluateTechnicalRecoveryAutonomy : TechnicalRecoveryAutonomyAssessment :=
  let factors := technical_factors in
  mkAssessment (fold_left (λ eligible item, eligible && Passed item) factors true) (in_Failure input)
    (if String.eqb (in_RepairClass input) "" then None else Some (in_RepairClass input)) input_policy evidence_level
    (MinimumEvidenceLevel <$> in_Contract input) (in_PriorVerifiedRecoveries input) (in_AffectedExecutions input) factors.
End gates.
