(* ===== verification/TechnicalFacts.v ===== *)
(** The class of a technical repair describes exactly what the repair changes, an inserted
    approval guards the failing node, and autonomous application takes all seven gates. *)
From S2P Require Import Prelude GoStrings GoFloat GoAny Graph Inputs RecoveryContract RecoveryAutonomy Closure Readiness ReadinessFacts TechnicalAutonomy.
Local Open Scope string_scope.
Local Open Scope list_scope.

(** ** Edges as multisets *)

Lemma take_edge_Some key counts rest : take_edge key counts = Some rest → counts ≡ₚ key :: rest.
Proof.
  revert rest. induction counts as [|e counts IH]; intros rest; cbn; [done|]. case_bool_decide as Heq.
  - intros [= <-]. by rewrite Heq.
  - destruct (take_edge key counts) as [r|]; [|done]. intros [= <-]. rewrite (IH r eq_refl). apply perm_swap.
Qed.
Lemma take_edge_None key counts : take_edge key counts = None → key ∉ counts.
Proof.
  induction counts as [|e counts IH]; cbn; [set_solver|]. case_bool_decide as Heq; [done|].
  destruct (take_edge key counts); [done|]. intros _ [->|Hin]%elem_of_cons; [done|]. by apply IH.
Qed.
Lemma match_edges_spec counts edges : length counts = length edges → match_edges counts edges = true ↔ counts ≡ₚ edges.
Proof.
  revert counts. induction edges as [|e edges IH]; intros counts Hlen; cbn.
  { destruct counts; [|done]. split; [by intros _|done]. }
  destruct (take_edge e counts) as [rest|] eqn:Ht.
  - apply take_edge_Some in Ht as Hp. rewrite Hp. rewrite IH; [|rewrite Hp in Hlen; by injection Hlen]. split; [by intros ->|].
    intros Heq. by apply Permutation_cons_inv in Heq.
  - split; [done|]. intros Hp. apply take_edge_None in Ht. destruct Ht. rewrite Hp. by left.
Qed.
Lemma equalTechnicalEdgeSets_spec l r : equalTechnicalEdgeSets l r = true ↔ l ≡ₚ r.
Proof.
  unfold equalTechnicalEdgeSets. rewrite andb_true_iff, Nat.eqb_eq. split.
  - intros [Hlen Hm]. by apply match_edges_spec.
  - intros Hp. assert (length l = length r) as Hlen by by rewrite Hp. split; [done|]. by apply match_edges_spec.
Qed.

(** ** The changes between two node maps *)

Definition ids_where (keep : string → bool) (m : gmap string Node) : list string :=
  sort_strings (filter (λ id, keep id = true) (elements (dom m))).
Lemma elem_of_ids_where keep (m : gmap string Node) id : id ∈ ids_where keep m ↔ is_Some (m !! id) ∧ keep id = true.
Proof. unfold ids_where. rewrite elem_of_sort_strings, list_elem_of_filter, elem_of_elements, elem_of_dom. naive_solver. Qed.
Lemma ids_where_nil keep m : ids_where keep m = [] ↔ ∀ id, is_Some (m !! id) → keep id = false.
Proof.
  split.
  - intros Hnil id Hid. apply not_true_iff_false. intros Hk. apply (not_elem_of_nil id). rewrite <-Hnil. by apply elem_of_ids_where.
  - intros Hall. destruct (ids_where keep m) as [|id ids] eqn:Heq; [done|].
    assert (id ∈ ids_where keep m) as [Hs Hk]%elem_of_ids_where by (rewrite Heq; by left). by rewrite Hall in Hk.
Qed.
Lemma ids_where_one keep m x : ids_where keep m = [x] ↔ ∀ id, is_Some (m !! id) ∧ keep id = true ↔ id = x.
Proof.
  assert (NoDup (ids_where keep m)) as Hnd.
  { unfold ids_where, sort_strings. rewrite stable_sort_perm. apply NoDup_filter, NoDup_elements. }
  split.
  - intros Heq id. rewrite <-elem_of_ids_where, Heq. apply list_elem_of_singleton.
  - intros Hall. apply Permutation_singleton_r. apply NoDup_Permutation; [done|apply NoDup_singleton|].
    intros id. by rewrite elem_of_ids_where, Hall, list_elem_of_singleton.
Qed.

(** ** Configurations without their retry policy *)

Definition same_value (x y : option any) : Prop :=
  match x, y with Some v, Some w => deep_equal v w = true | None, None => True | _, _ => False end.

Definition other_keys (o : obj) : list string := filter (λ k, k ≠ "retry") (keys o).
Lemma length_other_keys o : NoDup (keys o) →
  length (other_keys o) = if has_key o "retry" then (length o - 1)%nat else length o.
Proof.
  assert (∀ l : list string, NoDup l → length (filter (λ k, k ≠ "retry") l) =
    if decide ("retry" ∈ l) then (length l - 1)%nat else length l) as Hl.
  { induction l as [|k l IH]; intros Hnd; [done|]. apply NoDup_cons in Hnd as [Hni Hnd]. specialize (IH Hnd).
    rewrite filter_cons. destruct (decide (k = "retry")) as [->|Hk].
    - rewrite decide_False by (by intros H). rewrite IH, decide_False by done. rewrite decide_True by (by left). cbn. lia.
    - rewrite decide_True by done. cbn [length]. rewrite IH. destruct (decide ("retry" ∈ l)) as [Hin|Hin].
      + rewrite decide_True by (by right). destruct l; [by apply elem_of_nil in Hin|]. cbn. lia.
      + rewrite decide_False; [done|]. intros [?|?]%elem_of_cons; congruence. }
  intros Hnd. unfold other_keys. rewrite (Hl _ Hnd). assert (length (keys o) = length o) as -> by apply length_map.
  destruct (has_key o "retry") eqn:Hk; [apply has_key_elem in Hk|]; [by rewrite decide_True|].
  rewrite decide_False; [done|]. intros Hin%has_key_elem. congruence.
Qed.

Lemma equalConfigWithoutRetry_spec before after : NoDup (keys before) → NoDup (keys after) →
  equalConfigWithoutRetry before after = true ↔ ∀ k, k ≠ "retry" → same_value (obj_get before k) (obj_get after k).
Proof.
  intros Hb Ha. unfold equalConfigWithoutRetry. rewrite andb_true_iff, Nat.eqb_eq, forallb_elem.
  rewrite <-!length_other_keys by done.
  assert (∀ o k, k ∈ other_keys o ↔ k ≠ "retry" ∧ is_Some (obj_get o k)) as Hother.
  { intros o k. unfold other_keys. rewrite list_elem_of_filter, <-has_key_elem. unfold has_key. by rewrite bool_decide_eq_true. }
  split.
  - intros [Hlen Hall] k Hk.
    assert (∀ k v, k ≠ "retry" → obj_get before k = Some v → ∃ w, obj_get after k = Some w ∧ deep_equal v w = true) as Hsub.
    { intros k' v Hk' Hv. specialize (Hall (k', v) (obj_get_elem _ _ _ Hv)). cbn [fst snd] in Hall.
      apply orb_true_iff in Hall as [?%String.eqb_eq|Hall]; [done|]. destruct (obj_get after k') as [w|]; [|done]. by exists w. }
    destruct (obj_get before k) as [v|] eqn:Hv.
    { destruct (Hsub k v Hk Hv) as (w & -> & Hw). done. }
    destruct (obj_get after k) as [w|] eqn:Hw; [|done]. exfalso.
    assert (k ∈ other_keys before) as [_ [? ?]]%Hother; [|congruence].
    apply list_elem_of_In. apply (NoDup_length_incl (l := other_keys before) (l' := other_keys after)).
    + apply NoDup_ListNoDup, NoDup_filter, Hb.
    + by rewrite Hlen.
    + intros k' Hin%list_elem_of_In. apply list_elem_of_In, Hother. apply Hother in Hin as [Hk' [v Hv']]. split; [done|].
      destruct (Hsub k' v Hk' Hv') as (w' & -> & _). by eexists.
    + apply list_elem_of_In, Hother. split; [done|]. by eexists.
  - intros Hsame. split.
    + apply Permutation_length, NoDup_Permutation; [apply NoDup_filter, Hb|apply NoDup_filter, Ha|].
      intros k. rewrite !Hother. split; intros [Hk Hs]; (split; [done|]); specialize (Hsame k Hk);
        destruct (obj_get before k), (obj_get after k); try done; by destruct Hs.
    + intros [k v] Hin. cbn [fst snd]. destruct (String.eqb_spec k "retry") as [->|Hk]; [done|]. cbn [orb].
      specialize (Hsame k Hk). rewrite (elem_obj_get _ _ _ Hb Hin) in Hsame. by destruct (obj_get after k).
Qed.

(** ** What a repair changes *)

Definition nodes_of (w : TechnicalRecoveryWorkflow) : gmap string Node := technicalNodeMap (Nodes (tw_Workflow w)).
Definition edges_of (w : TechnicalRecoveryWorkflow) : list Edge := Edges (tw_Workflow w).
Definition same_node (x y : option Node) : Prop :=
  match x, y with Some a, Some b => node_deep_equal a b = true | None, None => True | _, _ => False end.
Definition same_scope (o c : TechnicalRecoveryWorkflow) : Prop :=
  deep_equal (AObj (workflowScope o)) (AObj (workflowScope c)) = true.

(** Only the configuration of one node changed: [only_retry] tells whether its retry policy
    is all that did. *)
Record node_repair (only_retry : Prop → Prop) (o c : TechnicalRecoveryWorkflow) (failing : string) : Prop :=
  { np_scope : same_scope o c;
    np_edges : edges_of o ≡ₚ edges_of c;
    np_others : ∀ id, id ≠ failing → same_node (nodes_of o !! id) (nodes_of c !! id);
    np_node : ∃ b a, nodes_of o !! failing = Some b ∧ nodes_of c !! failing = Some a ∧
      Graph.Type_ b = Graph.Type_ a ∧ Label b = Label a ∧ deep_equal (AObj (Config b)) (AObj (Config a)) = false ∧
      only_retry (∀ k, k ≠ "retry" → same_value (obj_get (Config b) k) (obj_get (Config a) k)) }.

(** One approval was put before the failing node, and nothing else changed. *)
Record approval_insertion (o c : TechnicalRecoveryWorkflow) (failing : string) : Prop :=
  { ai_scope : same_scope o c;
    ai_failing : is_Some (nodes_of o !! failing);
    ai_approval : ∃ approval, nodes_of o !! ID approval = None ∧ nodes_of c !! ID approval = Some approval ∧
      approval_shape approval = true ∧ (∀ id, id ≠ ID approval → same_node (nodes_of o !! id) (nodes_of c !! id)) ∧
      map (redirect failing (ID approval)) (edges_of o) ++ [mkEdge "" (ID approval) failing "" false] ≡ₚ edges_of c }.

Lemma technicalNodeMap_ID nodes id n : technicalNodeMap nodes !! id = Some n → ID n = id.
Proof.
  unfold technicalNodeMap. assert (∀ m : gmap string Node, (∀ k x, m !! k = Some x → ID x = k) →
    ∀ k x, fold_left (λ m n, <[ID n := n]> m) nodes m !! k = Some x → ID x = k) as Hfold.
  { induction nodes as [|y nodes IH]; intros m Hm; [done|]. cbn. apply IH. intros k x.
    destruct (decide (ID y = k)) as [<-|Hne]; [rewrite lookup_insert_eq; by intros [= <-]|rewrite lookup_insert_ne by done; apply Hm]. }
  apply Hfold. intros k x. by rewrite lookup_empty.
Qed.

Section changes.
Context (before after : gmap string Node).
Let changes := technicalNodeChanges before after.

Lemma changes_unfold : changes =
  (ids_where (λ id, bool_decide (before !! id = None)) after, ids_where (λ id, bool_decide (after !! id = None)) before,
   ids_where (λ id, match before !! id, after !! id with
                    | Some previous, Some node => negb (node_deep_equal previous node) | _, _ => false end) after).
Proof. done. Qed.

Lemma changes_in_one x : changes = ([], [], [x]) ↔
  (∀ id, id ≠ x → same_node (before !! id) (after !! id)) ∧
  ∃ b a, before !! x = Some b ∧ after !! x = Some a ∧ node_deep_equal b a = false.
Proof.
  rewrite changes_unfold, !pair_eq, !ids_where_nil, ids_where_one. split.
  - intros [[Hadd Hrem] Hch]. split.
    + intros id Hid. specialize (Hadd id). specialize (Hrem id). specialize (Hch id).
      destruct (before !! id) as [b|], (after !! id) as [a|]; cbn; [|by specialize (Hrem ltac:(by eexists))|by specialize (Hadd ltac:(by eexists))|done].
      destruct (node_deep_equal b a); [done|]. destruct Hid. by apply Hch.
    + destruct (proj2 (Hch x) eq_refl) as [[a Ha] Hk]. rewrite Ha in Hk. destruct (before !! x) as [b|]; [|done].
      exists b, a. split_and!; [done..|]. by apply negb_true_iff.
  - intros (Hsame & b & a & Hb & Ha & Hne). split; [split|].
    + intros id [n Hn]. destruct (decide (id = x)) as [->|Hid]; [by rewrite Hb|]. specialize (Hsame id Hid). rewrite Hn in Hsame.
      by destruct (before !! id).
    + intros id [n Hn]. destruct (decide (id = x)) as [->|Hid]; [by rewrite Ha|]. specialize (Hsame id Hid). rewrite Hn in Hsame.
      by destruct (after !! id).
    + intros id. split; [|intros ->; rewrite Hb, Ha, Hne; split; [by eexists|done]].
      intros [_ Hk]. destruct (decide (id = x)) as [|Hid]; [done|]. specialize (Hsame id Hid).
      destruct (before !! id) as [b'|], (after !! id) as [a'|]; try done. cbn in Hsame. by rewrite Hsame in Hk.
Qed.

Lemma changes_insert x : changes = ([x], [], []) ↔
  before !! x = None ∧ is_Some (after !! x) ∧ ∀ id, id ≠ x → same_node (before !! id) (after !! id).
Proof.
  rewrite changes_unfold, !pair_eq, !ids_where_nil, ids_where_one. split.
  - intros [[Hadd Hrem] Hch]. destruct (proj2 (Hadd x) eq_refl) as [Hx Hb]. apply bool_decide_eq_true in Hb.
    split; [done|]. split; [done|]. intros id Hid. specialize (Hadd id). specialize (Hrem id). specialize (Hch id).
    destruct (before !! id) as [b|], (after !! id) as [a|]; cbn; [| |destruct Hid; apply Hadd; split; [by eexists|done]|done].
    + specialize (Hch ltac:(by eexists)). by apply negb_false_iff.
    + by specialize (Hrem ltac:(by eexists)).
  - intros (Hb & Ha & Hsame). split; [split|].
    + intros id. split; [|by intros ->; rewrite bool_decide_eq_true]. intros [[n Hn] Hk%bool_decide_eq_true].
      destruct (decide (id = x)) as [|Hid]; [done|]. specialize (Hsame id Hid). by rewrite Hn, Hk in Hsame.
    + intros id [n Hn]. destruct (decide (id = x)) as [->|Hid]; [congruence|]. specialize (Hsame id Hid). rewrite Hn in Hsame.
      by destruct (after !! id).
    + intros id _. destruct (decide (id = x)) as [->|Hid]; [by rewrite Hb|]. specialize (Hsame id Hid).
      destruct (before !! id), (after !! id); try done. cbn in Hsame. by rewrite Hsame.
Qed.
End changes.

(** Every node binds each field of its configuration once. *)
Definition wf_nodes (w : TechnicalRecoveryWorkflow) : Prop := ∀ n, n ∈ Nodes (tw_Workflow w) → NoDup (keys (Config n)).
Lemma technicalNodeMap_elem nodes id n : technicalNodeMap nodes !! id = Some n → n ∈ nodes.
Proof.
  unfold technicalNodeMap. assert (∀ (m : gmap string Node), fold_left (λ m n, <[ID n := n]> m) nodes m !! id = Some n →
    n ∈ nodes ∨ m !! id = Some n) as Hfold.
  { induction nodes as [|y nodes IH]; intros m; cbn; [by right|]. intros [?|Hm]%IH; [left; by right|].
    destruct (decide (ID y = id)) as [<-|Hne]; [rewrite lookup_insert_eq in Hm; injection Hm as <-; left; by left|].
    rewrite lookup_insert_ne in Hm by done. by right. }
  intros [?|Hm]%Hfold; [done|]. by rewrite lookup_empty in Hm.
Qed.

Lemma exact_insertion o c failing changes :
  changes = technicalNodeChanges (nodes_of o) (nodes_of c) →
  exactTechnicalApprovalInsertion o c failing changes.1.1 changes.1.2 changes.2 = true ↔
  ∃ approval, changes = ([ID approval], [], []) ∧ is_Some (nodes_of o !! failing) ∧ nodes_of c !! ID approval = Some approval ∧
    approval_shape approval = true ∧
    map (redirect failing (ID approval)) (edges_of o) ++ [mkEdge "" (ID approval) failing "" false] ≡ₚ edges_of c.
Proof.
  intros _. unfold exactTechnicalApprovalInsertion. fold (nodes_of o) (nodes_of c). split.
  - destruct changes as [[[|x [|? ?]] [|? ?]] [|? ?]]; cbn [fst snd]; try done. intros [Hf Hc]%andb_true_iff.
    apply bool_decide_eq_true in Hf. destruct (nodes_of c !! x) as [approval|] eqn:Hx; [|done].
    apply technicalNodeMap_ID in Hx as Hid. subst x. apply andb_true_iff in Hc as [Hshape He].
    apply equalTechnicalEdgeSets_spec in He. by exists approval.
  - intros (approval & -> & Hf & Hc & Hshape & He). cbn [fst snd]. rewrite bool_decide_eq_true_2, Hc, Hshape by done. cbn [andb].
    by apply equalTechnicalEdgeSets_spec.
Qed.

Definition class_is (o c : TechnicalRecoveryWorkflow) (failing class : string) : Prop :=
  if String.eqb class "retry" then node_repair id o c failing
  else if String.eqb class "config_patch" then node_repair not o c failing
  else if String.eqb class "structural_patch" then approval_insertion o c failing
  else class = "" ∧ ¬ node_repair (λ _, True) o c failing ∧ ¬ approval_insertion o c failing.

(** The repair with no change in the graph, as the code reads it. *)
Lemma node_repair_iff R o c failing : wf_nodes o → wf_nodes c →
  node_repair R o c failing ↔ same_scope o c ∧ edges_of o ≡ₚ edges_of c ∧
    technicalNodeChanges (nodes_of o) (nodes_of c) = ([], [], [failing]) ∧
    ∃ b a, nodes_of o !! failing = Some b ∧ nodes_of c !! failing = Some a ∧
      Graph.Type_ b = Graph.Type_ a ∧ Label b = Label a ∧ deep_equal (AObj (Config b)) (AObj (Config a)) = false ∧
      R (∀ k, k ≠ "retry" → same_value (obj_get (Config b) k) (obj_get (Config a) k)).
Proof.
  intros Ho Hc. rewrite changes_in_one. split.
  - intros [Hs He Hoth (b & a & Hb & Ha & Ht & Hl & Hd & HR)]. split_and!; [done|done|done| |].
    + exists b, a. split_and!; [done..|]. unfold node_deep_equal. by rewrite Hd, andb_false_r.
    + by exists b, a.
  - intros (Hs & He & [Hoth _] & Hn). by constructor.
Qed.

Lemma insertion_iff o c failing : approval_insertion o c failing ↔ same_scope o c ∧
  exactTechnicalApprovalInsertion o c failing
    (technicalNodeChanges (nodes_of o) (nodes_of c)).1.1 (technicalNodeChanges (nodes_of o) (nodes_of c)).1.2
    (technicalNodeChanges (nodes_of o) (nodes_of c)).2 = true.
Proof.
  rewrite (exact_insertion _ _ _ _ eq_refl). split.
  - intros [Hs Hf (ap & Hno & Hc & Hshape & Hsame & He)]. split; [done|]. exists ap.
    split_and!; [|done..]. apply changes_insert. split_and!; [done|by eexists|done].
  - intros [Hs (ap & Hch & Hf & Hc & Hshape & He)]. apply changes_insert in Hch as (Hno & _ & Hsame).
    constructor; [done|done|]. by exists ap.
Qed.

Lemma Classify_spec o c failing : wf_nodes o → wf_nodes c →
  class_is o c failing (ClassifyTechnicalRecoveryRepair (Some o) (Some c) failing).
Proof.
  intros Ho Hc. unfold ClassifyTechnicalRecoveryRepair. fold (nodes_of o) (nodes_of c) (edges_of o) (edges_of c).
  assert (∀ R, node_repair R o c failing → ¬ approval_insertion o c failing) as Hexcl.
  { intros R (Hs & He & Hch & _)%node_repair_iff [_ Hex]%insertion_iff; [|done|done]. by rewrite Hch in Hex. }
  destruct (deep_equal (AObj (workflowScope o)) (AObj (workflowScope c))) eqn:Hscope; cbn [negb].
  2:{ split; [done|]. split; [intros [Hs _ _ _]|intros [Hs _ _]]; unfold same_scope in Hs; congruence. }
  assert (approval_insertion o c failing ↔ exactTechnicalApprovalInsertion o c failing
    (technicalNodeChanges (nodes_of o) (nodes_of c)).1.1 (technicalNodeChanges (nodes_of o) (nodes_of c)).1.2
    (technicalNodeChanges (nodes_of o) (nodes_of c)).2 = true) as Hins.
  { rewrite insertion_iff. unfold same_scope. naive_solver. }
  pose proof (λ R, node_repair_iff R o c failing Ho Hc) as Hrep.
  destruct (technicalNodeChanges (nodes_of o) (nodes_of c)) as [[added removed] changed]. cbn [fst snd] in Hins.
  destruct (_ || negb (equalTechnicalEdgeSets _ _)) eqn:Hgraph.
  - assert (∀ R, ¬ node_repair R o c failing) as Hno.
    { intros R (_ & He & Hch & _)%Hrep. injection Hch as -> -> ->. apply equalTechnicalEdgeSets_spec in He. by rewrite He in Hgraph. }
    destruct (exactTechnicalApprovalInsertion _ _ _ _ _ _); [by apply Hins|]. split; [done|]. split; [apply Hno|].
    by intros ?%Hins.
  - apply orb_false_iff in Hgraph as [[Ha%negb_false_iff Hr%negb_false_iff]%orb_false_iff He%negb_false_iff].
    apply bool_decide_eq_true in Ha, Hr. subst. apply equalTechnicalEdgeSets_spec in He.
    assert (¬ approval_insertion o c failing) as Hnoins by (by intros ?%Hins).
    destruct (bool_decide (changed = [failing])) eqn:Hch; cbn [negb].
    2:{ apply bool_decide_eq_false in Hch. split; [done|]. split; [|done]. intros (_ & _ & Heq & _)%Hrep. by injection Heq. }
    apply bool_decide_eq_true in Hch. subst changed.
    destruct (nodes_of o !! failing) as [b|] eqn:Hb; [|split_and!; [done| |done]; by intros (_ & _ & _ & b & a & ? & _)%Hrep].
    destruct (nodes_of c !! failing) as [a|] eqn:Hca; [|split_and!; [done| |done]; by intros (_ & _ & _ & b' & a & _ & ? & _)%Hrep].
    destruct (_ || deep_equal _ _) eqn:Hsame.
    { split_and!; [done| |done]. intros (_ & _ & _ & b' & a' & [= <-] & [= <-] & Ht & Hl & Hd & _)%Hrep.
      rewrite Ht, Hl, !String.eqb_refl in Hsame. cbn [negb orb] in Hsame. congruence. }
    apply orb_false_iff in Hsame as [[Ht%negb_false_iff%String.eqb_eq Hl%negb_false_iff%String.eqb_eq]%orb_false_iff Hd].
    assert (equalConfigWithoutRetry (Config b) (Config a) = true ↔
      ∀ k, k ≠ "retry" → same_value (obj_get (Config b) k) (obj_get (Config a) k)) as Hretry.
    { apply equalConfigWithoutRetry_spec; [by apply Ho, (technicalNodeMap_elem _ failing)|by apply Hc, (technicalNodeMap_elem _ failing)]. }
    destruct (equalConfigWithoutRetry (Config b) (Config a)).
    + apply Hrep. split_and!; [done..|]. exists b, a. split_and!; [done..|]. exact (proj1 Hretry eq_refl).
    + apply Hrep. split_and!; [done..|]. exists b, a. split_and!; [done..|]. intros Hall. by pose proof (proj2 Hretry Hall).
Qed.

Lemma typesByID_map wf : typesByID wf = Graph.Type_ <$> technicalNodeMap (Nodes wf).
Proof.
  unfold typesByID, technicalNodeMap. rewrite <-(fmap_empty (M := gmap string) Graph.Type_) at 1.
  generalize (∅ : gmap string Node). induction (Nodes wf) as [|n nodes IH]; intros m; [done|]. cbn. by rewrite <-fmap_insert, IH.
Qed.

(** The class that the classifier derives from the two documents
    describes the repair exactly: a retry changes nothing but the retry policy of the
    failing node, a configuration patch changes the rest of its configuration, a structural
    patch puts one approval before it, and any other difference gets no class. *)
Theorem repair_class_correct (o c : TechnicalRecoveryWorkflow) (failing : string) :
  wf_nodes o → wf_nodes c →
  let class := ClassifyTechnicalRecoveryRepair (Some o) (Some c) failing in
  class ∈ ["retry"; "config_patch"; "structural_patch"; ""] ∧
  (class = "retry" ↔ node_repair id o c failing) ∧
  (class = "config_patch" ↔ node_repair not o c failing) ∧
  (class = "structural_patch" ↔ approval_insertion o c failing).
Proof.
  intros Ho Hc class. pose proof (Classify_spec o c failing Ho Hc) as Hspec. fold class in Hspec. clearbody class.
  assert (∀ R, node_repair R o c failing → ¬ approval_insertion o c failing) as Hexcl.
  { intros R (Hs & He & Hch & _)%node_repair_iff [_ Hex]%insertion_iff; [|done|done]. by rewrite Hch in Hex. }
  assert (node_repair id o c failing → ¬ node_repair not o c failing) as Hid.
  { intros [_ _ _ (b & a & Hb & Ha & _ & _ & _ & Hall)] [_ _ _ (b' & a' & Hb' & Ha' & _ & _ & _ & Hnot)].
    rewrite Hb in Hb'. rewrite Ha in Ha'. injection Hb' as <-. injection Ha' as <-. by apply Hnot. }
  assert (∀ R, node_repair R o c failing → node_repair (λ _, True) o c failing) as Hweak.
  { intros R [? ? ? (b & a & ? & ? & ? & ? & ? & _)]. constructor; [done..|]. by exists b, a. }
  unfold class_is in Hspec. destruct (String.eqb_spec class "retry") as [Hc1|Hn1].
  { rewrite Hc1. split_and!; [set_solver|done|..]; (split; [done|]); intros Hr; [by destruct Hid|by destruct (Hexcl _ Hspec)]. }
  destruct (String.eqb_spec class "config_patch") as [Hc2|Hn2].
  { rewrite Hc2. split_and!; [set_solver|..]; (split; [done|]); intros Hr; [by destruct (Hid Hr)|done|by destruct (Hexcl _ Hspec)]. }
  destruct (String.eqb_spec class "structural_patch") as [Hc3|Hn3].
  { rewrite Hc3. split_and!; [set_solver|..]; (split; [done|]); intros Hr; [by destruct (Hexcl _ Hr)..|done]. }
  destruct Hspec as (Hc4 & Hnr & Hni). rewrite Hc4. split_and!; [set_solver|..]; (split; [done|]); intros Hr;
    [by destruct Hnr; eapply Hweak..|done].
Qed.

(** After a structural patch the failing node has approval
    authority: on every path to it the inserted approval comes first. *)
Theorem structural_patch_guarded (o c : TechnicalRecoveryWorkflow) (failing : string) :
  wf_nodes o → wf_nodes c → ClassifyTechnicalRecoveryRepair (Some o) (Some c) failing = "structural_patch" →
  HasApprovalAncestorIn (tw_Workflow c) failing = Some true.
Proof.
  intros Ho Hc Hclass. pose proof (Classify_spec o c failing Ho Hc) as Hspec. rewrite Hclass in Hspec. cbn in Hspec.
  destruct Hspec as [_ [nf Hf] (ap & Hno & Hap & Hshape & _ & Hedges)].
  assert (ID ap ≠ failing) as Hne by congruence.
  destruct (HasApprovalAncestorIn_spec (tw_Workflow c) failing) as (b & -> & Hb). f_equal. apply Hb.
  assert (∀ e, e ∈ edges_of c → To e = failing → From e = ID ap) as Hinto.
  { intros e He Hto. rewrite <-Hedges in He. apply elem_of_app in He as [He|He%list_elem_of_singleton]; [|by subst].
    apply list_elem_of_fmap in He as (e' & -> & _). unfold redirect in Hto.
    destruct (String.eqb_spec (To e') failing) as [Ht|Ht]; [by cbn in Hto|done]. }
  constructor.
  - intros Hnil. assert (ID ap ∈ predecessors (tw_Workflow c) failing) as Hin; [|rewrite Hnil in Hin; by apply elem_of_nil in Hin].
    apply elem_of_predecessors. exists (mkEdge "" (ID ap) failing "" false). split; [|done].
    fold (edges_of c). rewrite <-Hedges. apply elem_of_app. right. by left.
  - intros p (e & He & <- & Hto)%elem_of_predecessors Hna. destruct Hna. rewrite (Hinto e He Hto). unfold is_approval.
    rewrite typesByID_map. fold (nodes_of c). rewrite lookup_fmap, Hap. cbn. unfold approval_shape in Hshape.
    by apply andb_true_iff in Hshape as [[Ht%String.eqb_eq _]%andb_true_iff _].
Qed.

(** *** The seven gates *)

Record gates_open (input : TechnicalRecoveryAutonomyInput) (c : RecoveryContract) (n : RecoveryNarrowAutonomy) : Prop :=
  { go_contract : in_Contract input = Some c;
    go_narrow : NarrowAutonomy c = Some n;
    go_policy : Level (input_policy input) = Some 4%Z ∧ ProductionMutation c = "autonomous_level_4";
    go_repair : in_RepairClass input ≠ "" ∧ in_RepairClass input ∈ RepairsAllowed c ∧
      in_RepairClass input ∈ AllowedRepairClasses n;
    go_evidence : evidence_level input ∈ ["provider_simulated"; "live_canary"] ∧
      (MinimumEvidenceLevel c = "live_canary" → evidence_level input = "live_canary");
    go_prior : (MinimumPriorVerifiedRecoveries n ≤ in_PriorVerifiedRecoveries input)%Z;
    go_blast : (1 ≤ in_AffectedExecutions input ≤ MaxAffectedExecutions n)%Z;
    go_rollback : RollbackRequired n = true ∧ in_RollbackReady input = true;
    go_receipts : "effect_receipt" ∈ EvidenceRequired c ∧
      ∀ e, e ∈ Effects c → Idempotency e ≠ "unavailable" ∧ Receipt e ≠ "manual" }.

Lemma evidence_iff level minimum :
  (technicalEvidenceRank minimum <=? technicalEvidenceRank level)%Z && SupportsAutonomousRecovery level = true ↔
  level ∈ ["provider_simulated"; "live_canary"] ∧ (minimum = "live_canary" → level = "live_canary").
Proof.
  unfold SupportsAutonomousRecovery. rewrite andb_true_iff, orb_true_iff, !String.eqb_eq, Z.leb_le, !elem_of_cons, elem_of_nil.
  unfold technicalEvidenceRank. split.
  - intros [Hle Hl]. split; [naive_solver|]. intros ->. cbn in Hle. destruct Hl as [->| ->]; [cbn in Hle; lia|done].
  - intros [Hl Hm]. split; [|naive_solver]. destruct Hl as [->|[->|[]]]; cbn;
      repeat case_match; try lia. rename select (_ = true) into Hc. apply String.eqb_eq in Hc. by specialize (Hm Hc).
Qed.

(** A technical repair may be applied without a person exactly
    when the contract says so and every gate is open: level 4, an allowlisted class, evidence
    that exercised the effects, enough verified recoveries, a bounded number of executions, a
    rollback that is ready and receipts for every effect. The seven factors come in their
    documented order, and each names a reason exactly when it is closed. *)
Theorem autonomous_apply_correct (input : TechnicalRecoveryAutonomyInput) :
  let result := EvaluateTechnicalRecoveryAutonomy input in
  (Eligible result = true ↔ ∃ c n, gates_open input c n) ∧
  map tf_ID (as_Factors result) = TechnicalAutonomyFactorIDs ∧
  ∀ f, f ∈ as_Factors result → Passed f = true ↔ Reason f = "ready".
Proof.
  cbn zeta. split; [|split; [done|]].
  - unfold EvaluateTechnicalRecoveryAutonomy, technical_factors. cbn [Eligible fold_left Passed technicalFactor].
    rewrite !andb_true_iff. split.
    + intros [[[[[[[_ Hpol] Hrep] Hev] Hpr] Hbl] Hro] Hef]. unfold policy_ready in Hpol. unfold repair_ready, narrow in Hrep.
      unfold evidence_ready in Hev. unfold prior_ready, narrow in Hpr. unfold blast_radius_ready, narrow in Hbl.
      unfold rollback_ready, narrow in Hro. unfold effect_receipts_ready in Hef.
      destruct (in_Contract input) as [c|] eqn:Hc; [|by rewrite andb_false_r in Hpol]. cbn [mbind option_bind] in *.
      destruct (NarrowAutonomy c) as [n|] eqn:Hn; [|done]. exists c, n. apply evidence_iff in Hev. bool_split.
      constructor; [done|done|done| |done|by apply Z.leb_le|split; by apply Z.leb_le|done|].
      * split; [done|]. by rewrite <-!in_list_spec.
      * split; [by apply in_list_spec|]. intros e He. rename select (forallb _ _ = true) into Hall.
        rewrite forallb_elem in Hall. specialize (Hall e He). by bool_split.
    + intros (c & n & [Hc Hn [Hl Hp] (H1 & H2 & H3) Hev Hpr [Hb1 Hb2] [Hr1 Hr2] [He1 He2]]).
      unfold policy_ready, repair_ready, evidence_ready, prior_ready, blast_radius_ready, rollback_ready, effect_receipts_ready, narrow.
      rewrite Hc. cbn [mbind option_bind]. rewrite Hn, Hl, Hp, Hr1, Hr2, (proj2 (evidence_iff _ _) Hev).
      rewrite !(proj2 (Z.leb_le _ _)) by done. rewrite !(proj2 (in_list_spec _ _)) by done.
      apply String.eqb_neq in H1. rewrite H1. cbn. split; [done|]. apply forallb_elem. intros e He.
      destruct (He2 e He) as [Hi%String.eqb_neq Hm%String.eqb_neq]. by rewrite Hi, Hm.
  - intros f Hf. assert (∃ passed reason, Passed f = passed ∧ Reason f = (if passed then "ready" else reason) ∧ reason ≠ "ready")
      as (passed & reason & -> & -> & Hne).
    { change (as_Factors _) with (technical_factors input) in Hf. unfold technical_factors in Hf. rewrite !elem_of_cons, elem_of_nil in Hf. unfold policy_reason in Hf.
      destruct Hf as [->|[->|[->|[->|[->|[->|[->|[]]]]]]]]; eexists _, _; (split; [reflexivity|]); (split; [reflexivity|]);
        repeat case_match; done. }
    by destruct passed.
Qed.

(** *** An approval put before a failing node *)

Definition charge_nodes : list Node := [mkNode "fetch" "http" "" [("url", AStr "https://example.test")]; mkNode "charge" "tool" "" []].
Definition charge_before : TechnicalRecoveryWorkflow :=
  mkTechnicalWorkflow (graph_workflow charge_nodes [mkEdge "e1" "fetch" "charge" "" false] []) [("dslVersion", AStr "1.0")].
Definition charge_after : TechnicalRecoveryWorkflow :=
  mkTechnicalWorkflow
    (graph_workflow (charge_nodes ++ [mkNode "ok" "approval" "" [("message", AStr "Charge again?")]])
       [mkEdge "" "ok" "charge" "" false; mkEdge "e1" "fetch" "ok" "" false] []) [("dslVersion", AStr "1.0")].
Lemma charge_before_wf : wf_nodes charge_before.
Proof. unfold wf_nodes. apply (proj1 (Forall_forall (λ n, NoDup (keys (Config n))) _)). repeat constructor; cbn; set_solver. Qed.
Lemma charge_after_wf : wf_nodes charge_after.
Proof. unfold wf_nodes. apply (proj1 (Forall_forall (λ n, NoDup (keys (Config n))) _)). repeat constructor; cbn; set_solver. Qed.

Lemma repair_class_correct_witness :
  let class := ClassifyTechnicalRecoveryRepair (Some charge_before) (Some charge_after) "charge" in
  class ∈ ["retry"; "config_patch"; "structural_patch"; ""] ∧
  (class = "retry" ↔ node_repair id charge_before charge_after "charge") ∧
  (class = "config_patch" ↔ node_repair not charge_before charge_after "charge") ∧
  (class = "structural_patch" ↔ approval_insertion charge_before charge_after "charge").
Proof. exact (repair_class_correct charge_before charge_after "charge" charge_before_wf charge_after_wf). Defined.

Lemma structural_patch_guarded_witness : HasApprovalAncestorIn (tw_Workflow charge_after) "charge" = Some true.
Proof.
  apply (structural_patch_guarded charge_before charge_after "charge"); [apply charge_before_wf|apply charge_after_wf|].
  vm_compute. reflexivity.
Defined.
