(* ===== verification/WorkflowParse.v ===== *)
(** Workflow documents read from JSON (domain/workflow.go [Parse] and the helpers of its
    fields), and the reading of both sides of a repair (domain/technicalautonomy.go
    [ParseTechnicalRecoveryWorkflow]). *)
From S2P Require Import Prelude GoStrings GoFloat GoAny Json JsonTree Graph Inputs SchemaWire RecoveryContract RecoveryWire RecoveryDag Validate TechnicalAutonomy.
Local Open Scope string_scope.
Local Open Scope list_scope.

(** ** The document as decoded *)

Record rawNode := mkRawNode
  { rn_ID : option string; rn_Type : option string; rn_Label : option string; rn_Config : option obj }.
Record rawEdge := mkRawEdge
  { re_ID : option string; re_From : option string; re_To : option string; re_Condition : option string;
    re_OnError : option bool }.
Record rawWorkflow := mkRawWorkflow
  { rw_DSLVersion : option string; rw_ID : option string; rw_Name : option string; rw_Inputs : option InputSchema;
    rw_Outputs : option (list (string * string)); rw_TemplatePolicy : option string;
    rw_Recovery : option WorkflowRecovery; rw_Nodes : option (list rawNode); rw_Edges : option (list rawEdge) }.

Definition read_string_pointer : reader (option string) := read_pointer read_string "".

Definition read_node : reader rawNode :=
  read_struct ["id"; "type"; "label"; "config"] (λ field v n,
    let 'mkRawNode id type label config := n in
    if eqs field "id" then s ← read_string_pointer v id; Some (mkRawNode s type label config)
    else if eqs field "type" then s ← read_string_pointer v type; Some (mkRawNode id s label config)
    else if eqs field "label" then s ← read_string_pointer v label; Some (mkRawNode id type s config)
    else m ← read_any_map v config; Some (mkRawNode id type label m)).
Definition read_edge : reader rawEdge :=
  read_struct ["id"; "from"; "to"; "condition"; "onError"] (λ field v e,
    let 'mkRawEdge id from to condition onError := e in
    if eqs field "id" then s ← read_string_pointer v id; Some (mkRawEdge s from to condition onError)
    else if eqs field "from" then s ← read_string_pointer v from; Some (mkRawEdge id s to condition onError)
    else if eqs field "to" then s ← read_string_pointer v to; Some (mkRawEdge id from s condition onError)
    else if eqs field "condition" then s ← read_string_pointer v condition; Some (mkRawEdge id from to s onError)
    else b ← read_pointer read_bool false v onError; Some (mkRawEdge id from to condition b)).

Definition no_raw_node : rawNode := mkRawNode None None None None.
Definition no_raw_edge : rawEdge := mkRawEdge None None None None None.
Definition no_raw_workflow : rawWorkflow := mkRawWorkflow None None None None None None None None None.
Definition no_recovery : WorkflowRecovery := mkRecovery None None.
Definition workflow_fields : list string :=
  ["dslVersion"; "id"; "name"; "inputs"; "outputs"; "templatePolicy"; "recovery"; "nodes"; "edges"].

Definition read_workflow : reader rawWorkflow :=
  read_struct workflow_fields (λ field v w,
    let 'mkRawWorkflow dsl id name inputs outputs policy recovery nodes edges := w in
    if eqs field "dslVersion" then
      s ← read_string_pointer v dsl; Some (mkRawWorkflow s id name inputs outputs policy recovery nodes edges)
    else if eqs field "id" then
      s ← read_string_pointer v id; Some (mkRawWorkflow dsl s name inputs outputs policy recovery nodes edges)
    else if eqs field "name" then
      s ← read_string_pointer v name; Some (mkRawWorkflow dsl id s inputs outputs policy recovery nodes edges)
    else if eqs field "inputs" then
      s ← read_schema v inputs; Some (mkRawWorkflow dsl id name s outputs policy recovery nodes edges)
    else if eqs field "outputs" then
      m ← read_map read_string "" v outputs; Some (mkRawWorkflow dsl id name inputs m policy recovery nodes edges)
    else if eqs field "templatePolicy" then
      s ← read_string_pointer v policy; Some (mkRawWorkflow dsl id name inputs outputs s recovery nodes edges)
    else if eqs field "recovery" then
      r ← read_pointer read_recovery no_recovery v recovery;
      Some (mkRawWorkflow dsl id name inputs outputs policy r nodes edges)
    else if eqs field "nodes" then
      l ← read_pointer (read_slice read_node no_raw_node) [] v nodes;
      Some (mkRawWorkflow dsl id name inputs outputs policy recovery l edges)
    else
      l ← read_pointer (read_slice read_edge no_raw_edge) [] v edges;
      Some (mkRawWorkflow dsl id name inputs outputs policy recovery nodes l)).

(** ** The fields *)

Definition problem_if (b : bool) (path message : string) : problems := push_if b (mkFieldProblem path message).
(** The second reading of an array, [nil] when its value is no array; a null element is a
    nil map. *)
Definition raw_objects (v : option json) : option (list (option members)) :=
  match v with
  | Some JNull => Some []
  | Some (JArr l) =>
      mapM (λ x, match x with JObj o => Some (Some o) | JNull => Some None | _ => None end) l
  | _ => None
  end.
(** The explicit nulls of an element, found by the second reading. The code skips it when
    the text has no [null], where there are none to find. *)
Definition explicit_nulls (raws : list (option members)) (i : nat) (path : string) (fields : list string) : problems :=
  match raws !! i with
  | Some (Some o) =>
      flat_map (λ field, problem_if (match jget o field with Some JNull => true | _ => false end)
                           (path +:+ "." +:+ field) "expected a non-null value") fields
  | _ => []
  end.
Definition required_text (v : option string) (path message : string) : problems * string :=
  match v with
  | None => ([mkFieldProblem path message], "")
  | Some s => if eqs (TrimSpace s) "" then ([mkFieldProblem path message], "") else ([], TrimSpace s)
  end.
Definition optional_text (v : option string) (path : string) : problems * string :=
  match v with
  | None => ([], "")
  | Some s => (problem_if (eqs (TrimSpace s) "") path "expected a non-empty string", TrimSpace s)
  end.
Definition parse_label (v : option string) (path : string) : problems * string :=
  match v with
  | None => ([], "")
  | Some s => (problem_if (eqs (TrimSpace s) "" || (80 <? len (TrimSpace s))%nat) path "expected 1..80 characters", TrimSpace s)
  end.

Definition parse_node (raws : list (option members)) (i : nat) (n : rawNode) : problems * Node :=
  let path := index_path "nodes" i in
  let '(p1, id) := required_text (rn_ID n) (path +:+ ".id") "Node id is required" in
  let '(p2, type) := required_text (rn_Type n) (path +:+ ".type") "Node type is required" in
  let '(p3, label) := parse_label (rn_Label n) (path +:+ ".label") in
  (explicit_nulls raws i path ["label"; "config"] ++ p1 ++ p2 ++ p3,
   mkNode id type label (default [] (rn_Config n))).
Definition parseNodes (doc : rawWorkflow) (document : members) : problems * list Node :=
  match rw_Nodes doc with
  | None => ([mkFieldProblem "nodes" "Invalid input: expected array, received undefined"], [])
  | Some nodes =>
      let parsed := imap (parse_node (default [] (raw_objects (jget document "nodes")))) nodes in
      (concat (map fst parsed), map snd parsed)
  end.

Definition parse_edge (raws : list (option members)) (i : nat) (e : rawEdge) : problems * Edge :=
  let path := index_path "edges" i in
  let '(p1, id) := optional_text (re_ID e) (path +:+ ".id") in
  let '(p2, from) := required_text (re_From e) (path +:+ ".from") "Edge source is required" in
  let '(p3, to) := required_text (re_To e) (path +:+ ".to") "Edge target is required" in
  let '(p4, condition) := optional_text (re_Condition e) (path +:+ ".condition") in
  (explicit_nulls raws i path ["id"; "condition"; "onError"] ++ p1 ++ p2 ++ p3 ++ p4,
   mkEdge id from to condition (default false (re_OnError e))).
Definition parseEdges (doc : rawWorkflow) (document : members) : problems * list Edge :=
  match rw_Edges doc with
  | None => ([mkFieldProblem "edges" "Invalid input: expected array, received undefined"], [])
  | Some edges =>
      let parsed := imap (parse_edge (default [] (raw_objects (jget document "edges")))) edges in
      (concat (map fst parsed), map snd parsed)
  end.

Definition parse_tags (v : json) : problems * list string :=
  match v with
  | JArr l =>
      match read_elements read_string "" l [] with
      | Some tags =>
          (concat (imap (λ i tag, problem_if (eqs (TrimSpace tag) "") (index_path ".tags" i) "expected a non-empty string") tags),
           map TrimSpace tags)
      | None => ([mkFieldProblem ".tags" "expected an array of strings"], [])
      end
  | _ => ([mkFieldProblem ".tags" "expected an array of strings"], [])
  end.
Definition parseWorkflowJSONMetadata (v : json) : problems * option WorkflowJSONMetadata :=
  match v with
  | JObj o =>
      let '(p1, description) :=
        match jget o "description" with
        | None => ([], "")
        | Some (JStr s) => ([], TrimSpace s)
        | Some _ => ([mkFieldProblem ".description" "expected a string"], "")
        end in
      let '(p2, tags) := match jget o "tags" with None => ([], []) | Some v => parse_tags v end in
      (p1 ++ p2, Some (mkMetadata description tags))
  | _ => ([mkFieldProblem "" "expected an object"], None)
  end.

Definition validWorkflowOutputsWire (v : option json) : bool :=
  match v with Some (JObj o) => forallb (λ kv, is_string_tree kv.2) (bindings o) | _ => false end.

(** One axis of a position. *)
Definition finite_number (v : option json) : option float64 :=
  match v with
  | Some (JNum literal) => f ← num_float literal; if is_finite f then Some f else None
  | _ => None
  end.
Abbreviation positions := (list (string * WorkflowPosition)).
Definition parse_position (ids : list string) (members : members) (acc : problems * positions) (rawID : string)
  : problems * positions :=
  let '(ps, placed) := acc in
  let id := TrimSpace rawID in
  let path := (".positions." +:+ rawID) in
  let reject message := (ps ++ [mkFieldProblem path message], placed) in
  if eqs id "" then reject "expected a non-empty node id"
  else if in_list (map fst placed) id then reject "duplicate node id after trimming"
  else if negb (in_list ids id) then reject "position must reference an existing node"
  else
    match jget members rawID with
    | Some (JObj position) =>
        match finite_number (jget position "x"), finite_number (jget position "y") with
        | Some x, Some y => (ps, placed ++ [(id, mkPosition x y)])
        | x, y =>
            (ps ++ problem_if (bool_decide (x = None)) (path +:+ ".x") "expected a finite number" ++
                   problem_if (bool_decide (y = None)) (path +:+ ".y") "expected a finite number", placed)
        end
    | _ => reject "expected an object"
    end.
(** The members of a [map[string]map[string]json.RawMessage]. *)
Definition object_members (v : json) : option members :=
  match v with
  | JObj o => if forallb (λ kv, match kv.2 with JObj _ | JNull => true | _ => false end) o then Some o else None
  | _ => None
  end.
Definition parseWorkflowUI (v : json) (ids : list string) : problems * option positions :=
  match v with
  | JObj o =>
      match jget o "positions" with
      | None => ([], Some [])
      | Some encoded =>
          match object_members encoded with
          | None => ([mkFieldProblem ".positions" "expected an object"], None)
          | Some members =>
              let '(ps, placed) := fold_left (parse_position ids members) (sort_strings (jkeys members)) ([], []) in
              (ps, Some placed)
          end
      end
  | _ => ([mkFieldProblem "" "expected an object"], None)
  end.

(** ** The whole document *)

Definition under (prefix : string) (ps : problems) : problems :=
  map (λ p, mkFieldProblem (prefix +:+ fp_path p) (fp_message p)) ps.
(** A member that is neither absent nor null. *)
Definition given (document : members) (field : string) : option json :=
  match jget document field with Some JNull | None => None | Some v => Some v end.

Section parse.
Context `{UnicodeTables} (json_error : string → string).

Definition nullable_fields : list string :=
  ["dslVersion"; "id"; "name"; "metadata"; "inputs"; "outputs"; "templatePolicy"; "recovery"; "ui"].
Definition null_problems (document : members) : problems :=
  flat_map (λ field, problem_if (match jget document field with Some JNull => true | _ => false end)
                       field "expected a non-null value") nullable_fields.

Definition no_metadata : option WorkflowJSONMetadata := Some (mkMetadata "" []).
(** A rejected block leaves the default in place. *)
Definition parse_metadata (document : members) : problems * option WorkflowJSONMetadata :=
  match given document "metadata" with
  | None => ([], no_metadata)
  | Some v =>
      match parseWorkflowJSONMetadata v with
      | ([], metadata) => ([], metadata)
      | (ps, _) => (under "metadata" ps, no_metadata)
      end
  end.
Definition parse_ui (document : members) (nodes : list Node) : problems * option positions :=
  match given document "ui" with
  | None => ([], None)
  | Some v =>
      match parseWorkflowUI v (map ID nodes) with
      | ([], ui) => ([], ui)
      | (ps, _) => (under "ui" ps, None)
      end
  end.

Definition inputs_problems (doc : rawWorkflow) (document : members) : problems :=
  match rw_Inputs doc with
  | None => []
  | Some schema =>
      problem_if (negb (default false (validInputSchemaWire (jget document "inputs"))) ||
                  negb (default false (validInputSchemaShape (Some schema)))) "inputs"
        ("expected a supported recursive schema with at most " +:+ Itoa (Z.of_nat InputSchemaNodeMax) +:+ " nodes")
  end.
Definition outputs_problems (doc : rawWorkflow) (document : members) : problems :=
  match rw_Outputs doc with
  | None => []
  | Some _ => problem_if (negb (validWorkflowOutputsWire (jget document "outputs"))) "outputs"
                "expected an object of string templates"
  end.
Definition version_problems (doc : rawWorkflow) : problems :=
  match rw_DSLVersion doc with
  | None => []
  | Some v => problem_if (negb (eqs (TrimSpace v) dslVersion)) "dslVersion" ("expected " +:+ quoted dslVersion)
  end.
Definition policy_problems (doc : rawWorkflow) : problems :=
  match rw_TemplatePolicy doc with
  | None => []
  | Some p => problem_if (negb (eqs p "lenient") && negb (eqs p "strict")) "templatePolicy"
                ("expected " +:+ quoted "lenient" +:+ " or " +:+ quoted "strict")
  end.
Definition breaker_problems (breaker : option any) : problems :=
  match breaker with
  | Some ANil => []
  | _ => let '(_, _, problem) := ParseCircuitBreakerThreshold breaker in
         problem_if (negb (eqs problem "")) "recovery" problem
  end.
Definition parse_recovery (doc : rawWorkflow) (document : members) : problems * option WorkflowRecovery :=
  match rw_Recovery doc with
  | None => ([], None)
  | Some (mkRecovery breaker contract) =>
      let contract := normalizeRecoveryContract contract in
      (under "recovery" (validateWorkflowRecoveryWire (jget document "recovery")) ++
       map (mkFieldProblem "recovery.contract") (ValidateRecoveryContract contract) ++
       breaker_problems breaker,
       Some (mkRecovery breaker contract))
  end.

Definition parse_document (doc : rawWorkflow) (document : members) : problems * Workflow :=
  let '(p_metadata, metadata) := parse_metadata document in
  let '(p_id, id) := optional_text (rw_ID doc) "id" in
  let '(p_name, name) := optional_text (rw_Name doc) "name" in
  let '(p_recovery, recovery) := parse_recovery doc document in
  let '(p_nodes, nodes) := parseNodes doc document in
  let '(p_edges, edges) := parseEdges doc document in
  let '(p_ui, ui) := parse_ui document nodes in
  (null_problems document ++ p_metadata ++ inputs_problems doc document ++ outputs_problems doc document ++
   version_problems doc ++ p_id ++ p_name ++ policy_problems doc ++ p_recovery ++ p_nodes ++ p_edges ++ p_ui,
   mkWorkflow dslVersion id name metadata (rw_Inputs doc) (default [] (rw_Outputs doc)) (default "" (rw_TemplatePolicy doc))
     recovery ui nodes edges).

Definition contract_issue (p : workflowFieldProblem) : Issue :=
  mkIssue CodeInvalidContract (fp_path p +:+ ": " +:+ fp_message p) "" "".
Definition Parse (raw : string) : option Workflow * list Issue :=
  match (tree ← ReadTree raw; doc ← read_workflow tree no_raw_workflow; Some (tree, doc)) with
  | None => (None, [mkIssue CodeInvalidContract ("workflow: " +:+ json_error raw) "" ""])
  | Some (JObj document, doc) =>
      match parse_document doc document with
      | ([], wf) => (Some wf, [])
      | (ps, _) => (None, map contract_issue ps)
      end
  | Some _ => (None, [mkIssue CodeInvalidContract "workflow: expected an object" "" ""])
  end.

(** ** Both sides of a repair *)

Definition validTechnicalOptionalFields (document : members) (wf : Workflow) : bool :=
  forallb (λ name, negb (match jget document name with Some v => isJSONNull v | None => false end))
    ["dslVersion"; "id"; "name"; "inputs"; "outputs"; "templatePolicy"; "recovery"] &&
  eqs (DSLVersion wf) dslVersion.

Definition null_member (raw : option members) (name : string) : bool :=
  match (o ← raw; jget o name) with Some JNull => true | _ => false end.
(** [json.Unmarshal] into a [map[string]any]. *)
Definition isJSONObject (v : json) : bool := match v with JObj _ => numbers_ok v | _ => false end.
Definition technical_node_ok (raw : option members) (node : Node) : bool :=
  in_list platformNodeTypes (Graph.Type_ node) && negb (null_member raw "label") &&
  match (o ← raw; jget o "config") with Some v => isJSONObject v | None => true end.
Definition technical_edge_ok (raw : option members) : bool :=
  negb (null_member raw "id") && negb (null_member raw "condition").
Definition validTechnicalNodesAndEdges (document : members) (wf : Workflow) : bool :=
  match raw_objects (jget document "nodes"), raw_objects (jget document "edges") with
  | Some nodes, Some edges =>
      (length nodes =? length (Nodes wf))%nat &&
      forallb (λ rn, technical_node_ok rn.1 rn.2) (combine nodes (Nodes wf)) &&
      (length edges =? length (Edges wf))%nat && forallb technical_edge_ok edges
  | _, _ => false
  end.

(** [None] is a rejected block; the absent block gives no metadata. *)
Definition normalizedTechnicalMetadata (raw : option json) : option (option obj) :=
  match raw with
  | None => Some None
  | Some (JObj o) =>
      description ← match jget o "description" with
                    | None => Some []
                    | Some (JStr s) => Some [("description", AStr (TrimSpace s))]
                    | Some _ => None
                    end;
      tags ← match jget o "tags" with
             | None => Some []
             | Some (JArr l) =>
                 tags ← read_elements read_string "" l [];
                 if existsb (λ t, eqs (TrimSpace t) "") tags then None else Some (map TrimSpace tags)
             | Some _ => None
             end;
      Some (Some (("tags", AStrs tags) :: description))
  | Some _ => None
  end.

(** A null coordinate leaves the zero in place. *)
Definition technical_axis_ok (v : option json) : bool :=
  match v with Some JNull => true | _ => bool_decide (is_Some (finite_number v)) end.
Definition validTechnicalUI (raw : option json) (wf : Workflow) : bool :=
  match raw with
  | None => true
  | Some (JObj ui) =>
      match jget ui "positions" with
      | None => true
      | Some encoded =>
          match object_members encoded with
          | None => false
          | Some members =>
              forallb (λ rawID,
                in_list (map ID (Nodes wf)) (TrimSpace rawID) && negb (eqs (TrimSpace rawID) "") &&
                match jget members rawID with
                | Some (JObj position) => technical_axis_ok (jget position "x") && technical_axis_ok (jget position "y")
                | _ => false
                end) (jkeys members)
          end
      end
  | Some _ => false
  end.

Definition canonicalTechnicalValue (value : any) : any := default ANil (raw ← Marshal value; Unmarshal raw).
Definition canonicalTechnicalRaw (v : json) : any := default ANil (to_any v).

Definition technical_scope (document : members) (metadata : option obj) (wf : Workflow) : obj :=
  let present (name : string) (value : any) : obj :=
    if bool_decide (is_Some (jget document name)) then [(name, value)] else [] in
  let raw_member (name : string) : obj :=
    match jget document name with Some v => [(name, canonicalTechnicalRaw v)] | None => [] end in
  ("dslVersion", AStr (DSLVersion wf)) ::
  present "id" (canonicalTechnicalValue (AStr (WorkflowID wf))) ++
  present "name" (canonicalTechnicalValue (AStr (Name wf))) ++
  present "metadata" (AObj (default [] metadata)) ++
  present "templatePolicy" (canonicalTechnicalValue (AStr (TemplatePolicy wf))) ++
  raw_member "inputs" ++ raw_member "outputs" ++ raw_member "recovery".

Definition effects_exist (wf : Workflow) : bool :=
  match (r ← Recovery wf; Contract r) with
  | Some c => forallb (λ e, in_list (map ID (Nodes wf)) (eff_NodeID e)) (Effects c)
  | None => true
  end.

Definition ParseTechnicalRecoveryWorkflow (raw : string) : option TechnicalRecoveryWorkflow :=
  match Parse raw, ReadTree raw with
  | (Some wf, []), Some (JObj document) =>
      if validTechnicalOptionalFields document wf && validTechnicalNodesAndEdges document wf then
        match normalizedTechnicalMetadata (jget document "metadata") with
        | None => None
        | Some metadata =>
            if validTechnicalUI (jget document "ui") wf && effects_exist wf
            then Some (mkTechnicalWorkflow wf (technical_scope document metadata wf)) else None
        end
      else None
  | _, _ => None
  end.
End parse.
