(* ===== verification/ParseFacts.v ===== *)
(** What an accepted workflow document looks like, and what a refused one reports. *)
From S2P Require Import Prelude GoStrings GoFloat GoAny Json JsonTree Graph Inputs InputsFacts HttpConfig SchemaWire RecoveryContract RecoveryWire RecoveryDag Validate ValidateFacts TechnicalAutonomy WorkflowParse.
Local Open Scope string_scope.
Local Open Scope list_scope.

(** ** Trimming twice *)

Lemma strip_any_None seqs l : strip_any seqs l = None ↔ ∀ p, p ∈ seqs → strip_prefix p l = None.
Proof.
  induction seqs as [|p seqs IH]; cbn [strip_any]; [set_solver|].
  destruct (strip_prefix p l) as [r|] eqn:E; [|rewrite IH; set_solver].
  split; [done|]. intros Hall. specialize (Hall p). rewrite E in Hall. set_solver.
Qed.

Lemma strip_none_front seqs l k : strip_any seqs (l ++ k) = None → strip_any seqs l = None.
Proof.
  rewrite !strip_any_None. intros Hall p Hp. destruct (strip_prefix p l) as [r|] eqn:E; [|done].
  apply strip_prefix_Some in E as ->. specialize (Hall p Hp). rewrite <-app_assoc in Hall.
  by rewrite (proj2 (strip_prefix_Some p _ (r ++ k))) in Hall.
Qed.

Definition nonempty_seqs (seqs : list (list ascii)) : Prop := ∀ p, p ∈ seqs → p ≠ [].
Lemma strip_any_shorter seqs l r : nonempty_seqs seqs → strip_any seqs l = Some r → (length r < length l)%nat.
Proof.
  intros Hne. induction seqs as [|p seqs IH]; cbn [strip_any]; [done|].
  destruct (strip_prefix p l) as [r'|] eqn:E; [|apply IH; intros q Hq; apply Hne; set_solver].
  intros [= <-]. apply strip_prefix_Some in E as ->. rewrite length_app.
  destruct p as [|c p]; [by destruct (Hne [] ltac:(by left))|]. cbn. lia.
Qed.

Lemma trim_front_done fuel seqs l : nonempty_seqs seqs → (length l ≤ fuel)%nat → strip_any seqs (trim_front fuel seqs l) = None.
Proof.
  intros Hne. revert l. induction fuel as [|fuel IH]; intros l Hlen; cbn [trim_front].
  - destruct l; [|cbn in Hlen; lia]. apply strip_any_None. intros [|c p] Hp; [by destruct (Hne [])|done].
  - destruct (strip_any seqs l) as [r|] eqn:E; [|done]. apply IH. apply strip_any_shorter in E; [lia|done].
Qed.
Lemma trim_front_fixed fuel seqs l : strip_any seqs l = None → trim_front fuel seqs l = l.
Proof. destruct fuel; cbn [trim_front]; [done|]. by intros ->. Qed.

Lemma space_seqs_nonempty : nonempty_seqs space_seqs ∧ nonempty_seqs (map (@rev ascii) space_seqs).
Proof. split; intros p Hp ->; revert Hp; apply (bool_decide_unpack (_ → False)); by vm_compute. Qed.

(** What is left has no white space at either end. *)
Lemma TrimSpace_twice s : TrimSpace (TrimSpace s) = TrimSpace s.
Proof.
  destruct space_seqs_nonempty as [Hf Hb]. unfold TrimSpace. rewrite bytes_of_bytes. f_equal.
  set (l := bytes s). unfold trim_space_bytes at 2.
  pose proof (trim_front_done (length l) _ l Hf ltac:(lia)) as Hfront.
  set (l1 := trim_front (length l) space_seqs l) in *.
  pose proof (trim_front_done (length l1) _ (rev l1) Hb ltac:(rewrite length_rev; lia)) as Hback.
  destruct (trim_front_suffix (length l1) (map (@rev ascii) space_seqs) (rev l1)) as [b Hl1].
  set (r := trim_front _ _ (rev l1)) in *.
  assert (strip_any space_seqs (rev r) = None) as Hfront'.
  { apply (strip_none_front _ _ (rev b)). rewrite <-rev_app_distr, <-Hl1. by rewrite rev_involutive. }
  unfold trim_space_bytes. rewrite (trim_front_fixed _ _ (rev r)) by done.
  rewrite rev_involutive. by rewrite (trim_front_fixed _ _ r).
Qed.

(** ** The normal form of an accepted document *)

Definition trimmed (s : string) : Prop := TrimSpace s = s.
Definition present_text (s : string) : Prop := trimmed s ∧ s ≠ "".

Record node_normal (n : Node) : Prop := mkNodeNormal
  { node_id_text : present_text (ID n);
    node_type_text : present_text (Graph.Type_ n);
    node_label_text : trimmed (Label n) ∧ (len (Label n) ≤ 80)%nat }.
Record edge_normal (e : Edge) : Prop := mkEdgeNormal
  { edge_id_text : trimmed (EdgeID e);
    edge_from_text : present_text (From e);
    edge_to_text : present_text (To e);
    edge_condition_text : trimmed (Condition e) }.
Record recovery_normal `{UnicodeTables} (r : WorkflowRecovery) : Prop := mkRecoveryNormal
  { recovery_contract_valid : ValidateRecoveryContract (Contract r) = [];
    recovery_breaker_valid :
      CircuitBreaker r = Some ANil ∨ ∃ threshold enabled, ParseCircuitBreakerThreshold (CircuitBreaker r) = (threshold, enabled, "");
    recovery_effects_trimmed : ∀ c e, Contract r = Some c → e ∈ Effects c → trimmed (eff_NodeID e);
    recovery_detectors_trimmed : ∀ c d, Contract r = Some c → d ∈ Detectors (Semantic c) →
      trimmed (det_ID d) ∧ trimmed (det_SourceNodeID d) ∧ trimmed (PassWhen d) ∧ trimmed (Message d) }.
Record position_normal (ids : list string) (id : string) (p : WorkflowPosition) : Prop := mkPositionNormal
  { position_id_text : present_text id;
    position_of_node : id ∈ ids;
    position_finite : is_finite (X p) = true ∧ is_finite (Y p) = true }.

Record document_normal `{UnicodeTables} (wf : Workflow) : Prop := mkDocumentNormal
  { doc_version : DSLVersion wf = dslVersion;
    doc_id : trimmed (WorkflowID wf);
    doc_name : trimmed (Name wf);
    doc_metadata : ∃ m, Metadata wf = Some m ∧ trimmed (meta_Description m) ∧ Forall present_text (Tags m);
    doc_inputs : ∀ s, WorkflowInputs wf = Some s → sound s;
    doc_policy : TemplatePolicy wf ∈ [""; "lenient"; "strict"];
    doc_recovery : ∀ r, Recovery wf = Some r → recovery_normal r;
    doc_ui : ∀ ui, UI wf = Some ui → NoDup ui.*1 ∧ ∀ id p, (id, p) ∈ ui → position_normal (map ID (Nodes wf)) id p;
    doc_nodes : Forall node_normal (Nodes wf);
    doc_edges : Forall edge_normal (Edges wf) }.

(** ** The fields *)

Lemma trimmed_trim s : trimmed (TrimSpace s).
Proof. apply TrimSpace_twice. Qed.
Lemma trimmed_empty : trimmed "".
Proof. done. Qed.
#[local] Hint Resolve trimmed_trim trimmed_empty : core.

Lemma problem_if_nil b path message : problem_if b path message = [] ↔ b = false.
Proof. apply push_if_nil. Qed.
Lemma eqs_false a b : eqs a b = false ↔ a ≠ b.
Proof. apply String.eqb_neq. Qed.
Lemma present_trim s : eqs (TrimSpace s) "" = false → present_text (TrimSpace s).
Proof. intros ?%eqs_false. done. Qed.
#[local] Hint Resolve present_trim : core.

Lemma required_text_ok v path message s : required_text v path message = ([], s) → present_text s.
Proof. unfold required_text. destruct v as [v|]; [|done]. destruct (eqs (TrimSpace v) "") eqn:E; [done|]. intros [= <-]. auto. Qed.
Lemma optional_text_ok v path s : optional_text v path = ([], s) → trimmed s ∧ (is_Some v → s ≠ "").
Proof.
  unfold optional_text. destruct v as [v|]; [|intros [= <-]; split; [done|by intros [? [=]]]].
  destruct (eqs (TrimSpace v) "") eqn:E; intros [= <-]. apply eqs_false in E. auto.
Qed.
Lemma parse_label_ok v path s : parse_label v path = ([], s) → trimmed s ∧ (len s ≤ 80)%nat.
Proof.
  unfold parse_label. destruct v as [v|]; [|intros [= <-]; split; [done|cbn; lia]].
  destruct (eqs _ _ || _)%bool eqn:E; intros [= <-]. apply orb_false_iff in E as [_ E%Nat.ltb_ge]. auto.
Qed.

Lemma parse_node_ok raws i n : (parse_node raws i n).1 = [] → node_normal (parse_node raws i n).2.
Proof.
  unfold parse_node. destruct (required_text (rn_ID n) _ _) as [p1 id] eqn:E1, (required_text (rn_Type n) _ _) as [p2 type] eqn:E2,
    (parse_label _ _) as [p3 label] eqn:E3. cbn. rewrite !app_nil. intros (_ & -> & -> & ->).
  apply required_text_ok in E1, E2. apply parse_label_ok in E3. done.
Qed.
Lemma parse_edge_ok raws i e : (parse_edge raws i e).1 = [] → edge_normal (parse_edge raws i e).2.
Proof.
  unfold parse_edge. destruct (optional_text (re_ID e) _) as [p1 id] eqn:E1, (required_text (re_From e) _ _) as [p2 from] eqn:E2,
    (required_text (re_To e) _ _) as [p3 to] eqn:E3, (optional_text (re_Condition e) _) as [p4 condition] eqn:E4.
  cbn. rewrite !app_nil. intros (_ & -> & -> & -> & ->).
  apply optional_text_ok in E1, E4. apply required_text_ok in E2, E3. by destruct E1, E4.
Qed.

(** An array parsed element by element, its problems concatenated. *)
Lemma parsed_all {A B} (f : nat → A → problems * B) (P : B → Prop) l :
  (∀ i x, (f i x).1 = [] → P (f i x).2) → concat (map fst (imap f l)) = [] → Forall P (map snd (imap f l)).
Proof.
  intros Hf. revert f Hf. induction l as [|x l IH]; intros f Hf; cbn; [constructor|]. rewrite app_nil. intros [H0 H1].
  constructor; [by apply Hf|]. apply IH; [|done]. intros i y. apply Hf.
Qed.
Lemma parseNodes_ok doc document : (parseNodes doc document).1 = [] → Forall node_normal (parseNodes doc document).2.
Proof. unfold parseNodes. destruct (rw_Nodes doc); [|done]. cbn [fst snd]. apply parsed_all. intros. by apply parse_node_ok. Qed.
Lemma parseEdges_ok doc document : (parseEdges doc document).1 = [] → Forall edge_normal (parseEdges doc document).2.
Proof. unfold parseEdges. destruct (rw_Edges doc); [|done]. cbn [fst snd]. apply parsed_all. intros. by apply parse_edge_ok. Qed.

Lemma parse_tags_ok v : (parse_tags v).1 = [] → Forall present_text (parse_tags v).2.
Proof.
  unfold parse_tags. destruct v; try done. destruct (read_elements _ _ _ _) as [tags|]; [|done]. cbn [fst snd].
  rewrite imap_concat_nil, Forall_map, Forall_lookup. intros Hall i tag Htag.
  specialize (Hall i tag Htag). apply problem_if_nil in Hall. auto.
Qed.
Lemma parse_metadata_ok document : (parse_metadata document).1 = [] →
  ∃ m, (parse_metadata document).2 = Some m ∧ trimmed (meta_Description m) ∧ Forall present_text (Tags m).
Proof.
  unfold parse_metadata. destruct (given document "metadata") as [v|]; [|by eexists].
  destruct (parseWorkflowJSONMetadata v) as [[|p ps] m] eqn:E; [|done]. intros _. cbn [snd]. revert E.
  unfold parseWorkflowJSONMetadata. destruct v; try done.
  destruct (match jget o "description" with None => _ | _ => _ end) as [p1 description] eqn:E1.
  destruct (match jget o "tags" with None => _ | _ => _ end) as [p2 tags] eqn:E2.
  intros [= [-> ->]%app_nil <-]. eexists. split; [done|]. cbn. split.
  - destruct (jget o "description") as [[]|]; simplify_eq; auto.
  - destruct (jget o "tags") as [v|]; simplify_eq; [|constructor]. change tags with (([], tags) : problems * list string).2.
    rewrite <-E2. apply parse_tags_ok. by rewrite E2.
Qed.

(** The node budget is enough fuel for the check of the text. *)
Lemma wire_loop_total fuel pending visited :
  (fuel + visited = S InputSchemaNodeMax)%nat → fuel ≠ 0%nat → is_Some (wire_loop fuel pending visited).
Proof.
  revert pending visited. induction fuel as [|fuel IH]; intros pending visited Hsum Hne; [done|].
  destruct pending as [|current rest]; cbn [wire_loop]; [by eexists|].
  destruct (Nat.ltb_spec InputSchemaNodeMax (S visited)); [by eexists|].
  destruct current; try by eexists. destruct (wire_object o); [|by eexists]. apply IH; lia.
Qed.
Lemma validInputSchemaWire_total raw : is_Some (validInputSchemaWire raw).
Proof.
  assert (∀ v, is_Some (wire_loop (S InputSchemaNodeMax) [v] 0)) by (intros; apply wire_loop_total; lia).
  unfold validInputSchemaWire. destruct raw as [[]|]; done.
Qed.

Definition placed_normal (ids : list string) (placed : positions) : Prop :=
  NoDup placed.*1 ∧ ∀ id p, (id, p) ∈ placed → position_normal ids id p.
Lemma finite_number_finite v f : finite_number v = Some f → is_finite f = true.
Proof.
  unfold finite_number. destruct v as [[]|]; try done. destruct (num_float _) as [x|]; cbn; [|done].
  by destruct (is_finite x) eqn:E; intros [= <-].
Qed.
Lemma parse_position_ok ids members acc rawID :
  placed_normal ids acc.2 → placed_normal ids (parse_position ids members acc rawID).2.
Proof.
  destruct acc as [ps placed]. intros [Hnodup Hall]. unfold parse_position. cbn [snd] in *.
  destruct (eqs _ "") eqn:Hempty; [done|]. destruct (in_list (map fst placed) _) eqn:Hdup; [done|].
  destruct (in_list ids _) eqn:Hid; [|done]. cbn [negb]. destruct (jget members rawID) as [[]|]; try done.
  destruct (finite_number (jget o "x")) as [x|] eqn:Hx, (finite_number (jget o "y")) as [y|] eqn:Hy; try done.
  cbn [snd]. apply finite_number_finite in Hx, Hy. apply in_list_spec in Hid.
  apply not_true_iff_false in Hdup. rewrite in_list_spec in Hdup. split.
  - rewrite fmap_app. apply NoDup_app. cbn. split_and!; [done| |by apply NoDup_singleton].
    intros z Hz ->%list_elem_of_singleton. by apply Hdup.
  - intros id p [Hin|Heq]%elem_of_app; [by apply Hall|]. apply list_elem_of_singleton in Heq as [= -> ->]. by split; auto.
Qed.
Lemma parse_ui_ok document nodes ui : (parse_ui document nodes).2 = Some ui → placed_normal (map ID nodes) ui.
Proof.
  unfold parse_ui. destruct (given document "ui") as [v|]; [|done].
  destruct (parseWorkflowUI v _) as [[|p ps] m] eqn:E; [|done]. cbn [snd]. intros ->. revert E.
  assert (placed_normal (map ID nodes) []) as Hnil by (split; [constructor|set_solver]).
  unfold parseWorkflowUI. destruct v; try done. destruct (jget o "positions") as [v|]; [|by intros [= <-]].
  destruct (object_members v) as [members|]; [|done].
  enough (∀ l acc, placed_normal (map ID nodes) acc.2 →
    placed_normal (map ID nodes) (fold_left (parse_position (map ID nodes) members) l acc).2) as Hfold.
  { destruct (fold_left _ _ _) as [ps placed] eqn:E. intros [= _ <-]. change placed with (ps, placed).2. rewrite <-E. by apply Hfold. }
  induction l as [|rawID l IH]; intros acc Hacc; cbn; [done|]. by apply IH, parse_position_ok.
Qed.

Section facts.
Context `{UnicodeTables} (json_error : string → string).

Lemma normalize_trimmed contract c : normalizeRecoveryContract contract = Some c →
  (∀ e, e ∈ Effects c → trimmed (eff_NodeID e)) ∧
  (∀ d, d ∈ Detectors (Semantic c) →
     trimmed (det_ID d) ∧ trimmed (det_SourceNodeID d) ∧ trimmed (PassWhen d) ∧ trimmed (Message d)).
Proof.
  unfold normalizeRecoveryContract. destruct contract as [[? ? []]|]; [|done]. intros [= <-]. cbn. split.
  - intros ? ([] & -> & _)%list_elem_of_fmap. cbn. auto.
  - intros ? ([] & -> & _)%list_elem_of_fmap. cbn. auto.
Qed.

Lemma parse_recovery_ok doc document r :
  (parse_recovery doc document).1 = [] → (parse_recovery doc document).2 = Some r → recovery_normal r.
Proof.
  unfold parse_recovery. destruct (rw_Recovery doc) as [[breaker contract]|]; [|done]. cbn [fst snd].
  rewrite !app_nil. intros (_ & Hvalid%fmap_nil_inv & Hbreaker) [= <-].
  split; cbn [Contract CircuitBreaker]; [done| |..].
  - unfold breaker_problems in Hbreaker. destruct (ParseCircuitBreakerThreshold breaker) as [[threshold enabled] problem] eqn:E.
    assert (breaker = Some ANil ∨ problem_if (negb (eqs problem "")) "recovery" problem = []) as [->|Hproblem]
      by (destruct breaker as [[]|]; auto); [by left|].
    right. exists threshold, enabled.
    apply problem_if_nil, negb_false_iff, String.eqb_eq in Hproblem as ->. done.
  - intros c e Hc. apply normalize_trimmed in Hc as [? _]. auto.
  - intros c d Hc. apply normalize_trimmed in Hc as [_ ?]. auto.
Qed.

Lemma parse_document_ok doc document : (parse_document doc document).1 = [] → document_normal (parse_document doc document).2.
Proof.
  unfold parse_document.
  destruct (parse_metadata document) as [p1 metadata] eqn:E1, (optional_text (rw_ID doc) "id") as [p2 id] eqn:E2,
    (optional_text (rw_Name doc) "name") as [p3 name] eqn:E3, (parse_recovery doc document) as [p4 recovery] eqn:E4,
    (parseNodes doc document) as [p5 nodes] eqn:E5, (parseEdges doc document) as [p6 edges] eqn:E6,
    (parse_ui document nodes) as [p7 ui] eqn:E7.
  cbn [fst snd]. rewrite !app_nil. intros (_ & -> & Hinputs & _ & _ & -> & -> & Hpolicy & -> & -> & -> & ->).
  apply optional_text_ok in E2 as [? _], E3 as [? _].
  pose proof (parse_metadata_ok document) as K1. pose proof (parse_recovery_ok doc document) as K4.
  pose proof (parseNodes_ok doc document) as K5. pose proof (parseEdges_ok doc document) as K6.
  pose proof (parse_ui_ok document nodes) as K7.
  rewrite E1 in K1. rewrite E4 in K4. rewrite E5 in K5. rewrite E6 in K6. rewrite E7 in K7. cbn [fst snd] in *.
  split; cbn; auto.
  - intros s Hs. unfold inputs_problems in Hinputs. rewrite Hs in Hinputs.
    apply problem_if_nil, orb_false_iff in Hinputs as [_ Hshape%negb_false_iff].
    apply shape_sound. by destruct (validInputSchemaShape (Some s)) as [[]|].
  - unfold policy_problems in Hpolicy. destruct (rw_TemplatePolicy doc) as [p|]; cbn; [|set_solver].
    apply problem_if_nil, andb_false_iff in Hpolicy. rewrite !negb_false_iff in Hpolicy.
    destruct Hpolicy as [->%String.eqb_eq| ->%String.eqb_eq]; set_solver.
Qed.

(** Reading a workflow document gives either a workflow and no
    issue, or no workflow and at least one issue, every one of them a contract violation.
    An accepted workflow is in normal form: the version is the supported one; ids, types,
    endpoints and tags are non-empty and without white space around them; labels have at
    most 80 bytes; the inputs schema has the supported shape; the template policy is one of
    the two names or absent; the recovery contract passes its validation after its own
    fields are trimmed, and its circuit breaker has a readable threshold; every editor
    position belongs to a node of the document, once, at finite coordinates. *)
Theorem accepted_document_normal (raw : string) :
  match Parse json_error raw with
  | (Some wf, issues) => issues = [] ∧ document_normal wf
  | (None, issues) => issues ≠ [] ∧ Forall (λ i, Code i = CodeInvalidContract) issues
  end.
Proof.
  unfold Parse. destruct (tree ← ReadTree raw; _) as [[tree doc]|]; [|split; [done|by repeat constructor]].
  destruct tree as [| | | | |document]; try (split; [done|by repeat constructor]).
  pose proof (parse_document_ok doc document) as Hok. destruct (parse_document doc document) as [[|p ps] wf]; [by split; [|apply Hok]|].
  split; [done|]. rewrite Forall_map. by apply Forall_true.
Qed.
End facts.

(** A text with its quotes written as apostrophes. *)
Definition from_apostrophes (s : string) : string :=
  of_bytes (map (λ c, if Ascii.eqb c "'" then chr 34 else c) (bytes s)).
Definition demo_document : string := from_apostrophes
  "{'name':' Nightly ','metadata':{'tags':[' ops ']},'nodes':[{'id':' a ','type':'http','config':{'url':'x'}},{'id':'b','type':'noop','LABEL':'B'}],
    'edges':[{'from':'a','to':' b','onError':true}],'ui':{'positions':{' b ':{'x':1.5,'y':-2}}}}".
Example demo_parsed `{UnicodeTables} : Parse id demo_document =
  (Some (mkWorkflow "1.0" "" "Nightly" (Some (mkMetadata "" ["ops"])) None [] "" None
     (Some [("b", mkPosition (f_div (f_of_Z 3) (f_of_Z 2)) (f_of_Z (-2)))])
     [mkNode "a" "http" "" [("url", AStr "x")]; mkNode "b" "noop" "B" []] [mkEdge "" "a" "b" "" true]), []).
Proof. vm_compute. reflexivity. Qed.

(** ** A document on which the gate panics *)

(** An input schema with a field spelled with a capital letter, which the exact-key check
    of the wire overlooks and encoding/json reads. *)
Definition folded_document : string := from_apostrophes
  "{'inputs':{'type':'string','Properties':{'x':null}},'nodes':[{'id':'a','type':'noop'}],'edges':[]}".

(** Parse accepts a document on which the workflow gate then
    follows a nil pointer: the wire check of the inputs reads exact keys, the decoder folds
    case, and the walk over the declared defaults enters the properties of a schema of any
    type. *)
Theorem accepted_document_panics `{UnicodeTables, HttpConfig.HttpLibrary} : ∃ wf,
  Parse id folded_document = (Some wf, []) ∧ ValidateWithOptions id id may_2025 wf None None fan_options = None.
Proof. eexists. split; [vm_compute; reflexivity|]. vm_compute. reflexivity. Qed.
