(* ===== verification/Rollout.v ===== *)
(** Canary rollouts of workflow versions (engine/rollouts.go, engine/rolloutoutcomes.go) with
    the transactions that share their lock: saving a version (engine/workflowversions.go) and
    deactivating a workflow (engine/workflowlifecycle.go). The state is the tables these
    transactions touch; a transaction is atomic and its database errors are left out. *)
From S2P Require Import Prelude GoStrings GoFloat GoAny Json Graph Inputs RecoveryContract RecoveryDag WorkflowParse.
Local Open Scope string_scope.
Local Open Scope list_scope.

Definition WorkflowRolloutTrafficMin : Z := 1.
Definition WorkflowRolloutTrafficMax : Z := 50.
Definition WorkflowRolloutSampleMin : Z := 5.
Definition WorkflowRolloutSampleMax : Z := 100.
Definition WorkflowRolloutSuccessRateMin : Z := 1.
Definition WorkflowRolloutSuccessRateMax : Z := 100.
Definition RecoveryQualificationDatasetVersion : string := "1".
Definition WorkflowRolloutStatuses : list string := ["active"; "promoted"; "rolled_back"; "cancelled"].

(** ** The tables *)

(** [ro_EndedAt] and the texts are NULL when [None]. *)
Record WorkflowRollout := mkRollout
  { ro_ID : string; ro_OrgID : string; ro_WorkflowID : string; BaselineVersionID : string; CanaryVersionID : string;
    TrafficPercent : Z; MinimumSampleSize : Z; MinimumSuccessRatePercent : Z; CreatedBy : string; CreatedAt : Z;
    ro_Status : string; BaselineSucceeded : Z; BaselineFailed : Z; CanarySucceeded : Z; CanaryFailed : Z;
    RolledBackReason : option string }.
Record VersionRow := mkVersion
  { ve_ID : string; ve_OrgID : string; ve_WorkflowID : string; ve_Version : Z; DagJson : string }.
Record WorkflowRow := mkWorkflowRow
  { w_ID : string; w_OrgID : string; w_Name : string; w_Status : string; PausedReason : option string; w_Deleted : bool }.
(** The columns of a run that the outcome and the circuit breaker read. *)
Record RunRow := mkRunRow
  { ru_OrgID : string; ru_Status : string; ReplayMode : option string; WorkflowRolloutID : option string;
    WorkflowRolloutVariant : option string; WorkflowVersionID : string; ParentLinkKind : option string;
    ru_CreatedAt : Z }.
Record OutcomeRow := mkOutcomeRow
  { oc_RunID : string; oc_OrgID : string; oc_RolloutID : string; oc_WorkflowID : string; oc_Variant : string;
    oc_Status : string }.
Record QualificationRow := mkQualification
  { qu_OrgID : string; qu_WorkflowID : string; qu_Baseline : string; qu_Candidate : string; qu_Dataset : string;
    qu_Status : string }.
Record AuditRow := mkAudit { au_OrgID : string; au_UserID : string; au_Action : string; au_TargetID : string; Metadata : obj }.

Record Store := mkStore
  { workflows : list WorkflowRow; versions : list VersionRow; rollouts : list WorkflowRollout;
    outcomes : list OutcomeRow; runs : gmap string RunRow; qualifications : list QualificationRow;
    audits : list AuditRow }.
Definition empty_store : Store := mkStore [] [] [] [] ∅ [] [].

Definition set_workflows (l : list WorkflowRow) (s : Store) : Store :=
  let 'mkStore _ ve ro oc ru qu au := s in mkStore l ve ro oc ru qu au.
Definition set_versions (l : list VersionRow) (s : Store) : Store :=
  let 'mkStore wo _ ro oc ru qu au := s in mkStore wo l ro oc ru qu au.
Definition set_rollouts (l : list WorkflowRollout) (s : Store) : Store :=
  let 'mkStore wo ve _ oc ru qu au := s in mkStore wo ve l oc ru qu au.
Definition set_outcomes (l : list OutcomeRow) (s : Store) : Store :=
  let 'mkStore wo ve ro _ ru qu au := s in mkStore wo ve ro l ru qu au.
Definition set_runs (m : gmap string RunRow) (s : Store) : Store :=
  let 'mkStore wo ve ro oc _ qu au := s in mkStore wo ve ro oc m qu au.
Definition set_qualifications (l : list QualificationRow) (s : Store) : Store :=
  let 'mkStore wo ve ro oc ru _ au := s in mkStore wo ve ro oc ru l au.
Definition set_audits (l : list AuditRow) (s : Store) : Store :=
  let 'mkStore wo ve ro oc ru qu _ := s in mkStore wo ve ro oc ru qu l.

(** ** The statements *)

Definition live_workflow (s : Store) (orgID id : string) : bool :=
  existsb (λ w, eqs (w_ID w) id && eqs (w_OrgID w) orgID && negb (w_Deleted w)) (workflows s).
Definition versions_of (s : Store) (orgID workflowID : string) : list VersionRow :=
  stable_sort (λ a b, (ve_Version b <? ve_Version a)%Z)
    (filter (λ v, ve_OrgID v = orgID ∧ ve_WorkflowID v = workflowID) (versions s)).
Definition ListWorkflowVersionsForRollout (s : Store) (orgID workflowID : string) : list VersionRow :=
  take 200 (versions_of s orgID workflowID).
Definition latest_version (s : Store) (orgID workflowID : string) : option VersionRow :=
  head (versions_of s orgID workflowID).
Definition GetWorkflowVersionByID (s : Store) (id orgID workflowID : string) : option VersionRow :=
  head (filter (λ v, ve_ID v = id ∧ ve_OrgID v = orgID ∧ ve_WorkflowID v = workflowID) (versions s)).
Definition active (r : WorkflowRollout) : bool := eqs (ro_Status r) "active".
Definition FindActiveWorkflowRollout (s : Store) (orgID workflowID : string) : bool :=
  existsb (λ r, eqs (ro_OrgID r) orgID && eqs (ro_WorkflowID r) workflowID && active r) (rollouts s).
Definition FindPassedRecoveryQualification (s : Store) (orgID workflowID baseline candidate : string) : bool :=
  existsb (λ q, eqs (qu_OrgID q) orgID && eqs (qu_WorkflowID q) workflowID && eqs (qu_Baseline q) baseline &&
                eqs (qu_Candidate q) candidate && eqs (qu_Dataset q) RecoveryQualificationDatasetVersion &&
                eqs (qu_Status q) "passed") (qualifications s).
(** The primary key and the partial unique index on the active rows. *)
Definition InsertWorkflowRollout (r : WorkflowRollout) (s : Store) : option Store :=
  if existsb (λ r', eqs (ro_ID r') (ro_ID r)) (rollouts s) ||
     FindActiveWorkflowRollout s (ro_OrgID r) (ro_WorkflowID r)
  then None else Some (set_rollouts (rollouts s ++ [r]) s).
(** The active row first, then the newest, then the greatest id. *)
Definition newer (a b : WorkflowRollout) : bool :=
  match active a, active b with
  | true, false => true
  | false, true => false
  | _, _ => (CreatedAt b <? CreatedAt a)%Z || ((CreatedAt a =? CreatedAt b)%Z && string_less (ro_ID b) (ro_ID a))
  end.
Definition GetLatestWorkflowRolloutRow (s : Store) (orgID workflowID : string) : option WorkflowRollout :=
  if live_workflow s orgID workflowID then
    head (stable_sort newer (filter (λ r, ro_OrgID r = orgID ∧ ro_WorkflowID r = workflowID) (rollouts s)))
  else None.

(** [UPDATE ... SET status, rolled_back_reason] and the counters, of one row. *)
Definition with_status (status : string) (reason : option string) (r : WorkflowRollout) : WorkflowRollout :=
  let 'mkRollout id org wf base canary traffic sample rate by_ created _ bs bf cs cf _ := r in
  mkRollout id org wf base canary traffic sample rate by_ created status bs bf cs cf reason.
Definition with_counters (bs' bf' cs' cf' : Z) (r : WorkflowRollout) : WorkflowRollout :=
  let 'mkRollout id org wf base canary traffic sample rate by_ created status bs bf cs cf reason := r in
  mkRollout id org wf base canary traffic sample rate by_ created status (bs + bs') (bf + bf') (cs + cs') (cf + cf') reason.
Definition update_where (p : WorkflowRollout → bool) (f : WorkflowRollout → WorkflowRollout) (s : Store) : Store :=
  set_rollouts (map (λ r, if p r then f r else r) (rollouts s)) s.
Definition active_with_id (id : string) (r : WorkflowRollout) : bool := eqs (ro_ID r) id && active r.

(** ** The trigger contract of a version *)

Definition externalTriggerTypes : list string := ["schedule"; "email_received"; "file_dropped"; "mcp_server_event"].

Fixpoint stableJSON (value : any) : string :=
  match value with
  | AArr l => "[" +:+ Join (map stableJSON l) "," +:+ "]"
  | AObj o =>
      "{" +:+ Join (map (λ kv, default "" (Marshal (AStr kv.1)) +:+ ":" +:+ kv.2)
                      (by_key (map (λ kv, (kv.1, stableJSON kv.2)) o))) "," +:+ "}"
  | _ => default "null" (Marshal value)
  end.

Definition trigger_entry (node : Node) : any :=
  AObj [("id", AStr (ID node)); ("type", AStr (Graph.Type_ node)); ("config", AObj (Config node))].
Definition externalTriggerContract (wf : Workflow) : string :=
  stableJSON (AArr (map trigger_entry
    (filter (λ n, in_list externalTriggerTypes (Graph.Type_ n) = true)
       (stable_sort (λ a b, string_less (ID a) (ID b)) (Nodes wf))))).
Definition HaveCompatibleWorkflowRolloutTriggers (baseline canary : Workflow) : bool :=
  eqs (externalTriggerContract baseline) (externalTriggerContract canary).

Section rollouts.
Context `{UnicodeTables} (json_error : string → string).
(** The SHA-256 digest of a byte string, as bytes. *)
Context (sha256 : string → list ascii).

Definition be_uint32 (l : list ascii) : Z := fold_left (λ n c, (n * 256 + Z.of_nat (code c))%Z) (take 4 l) 0%Z.
Definition WorkflowRolloutBucket (rolloutID assignmentKey : string) : Z :=
  (be_uint32 (sha256 (default "" (Marshal (AStrs [rolloutID; assignmentKey])))) mod 100)%Z.

(** ** Creation *)

Inductive CreateRolloutKind :=
| RolloutCreated | RolloutNotFound | RolloutInvalidVersions | RolloutCanaryNotLatest | RolloutIncompatibleTriggers
| RolloutQualificationRequired | RolloutActiveExists.

Record CreateRolloutInput := mkCreateRollout
  { cr_OrgID : string; cr_WorkflowID : string; cr_Baseline : string; cr_Canary : string; cr_Traffic : Z;
    cr_Sample : Z; cr_Rate : Z; cr_CreatedBy : string }.

Definition validRolloutBound (value minValue maxValue : Z) : bool := (minValue <=? value)%Z && (value <=? maxValue)%Z.
Definition parse_version (v : VersionRow) : option Workflow :=
  match Parse json_error (DagJson v) with (Some wf, []) => Some wf | _ => None end.
Definition contract_v2 (wf : Workflow) : bool :=
  match (r ← Recovery wf; Contract r) with Some c => eqs (Version c) "2" | None => false end.
Definition version_with_id (id : string) (l : list VersionRow) : option VersionRow :=
  last (filter (λ v, ve_ID v = id) l).
Definition input_in_bounds (i : CreateRolloutInput) : bool :=
  validRolloutBound (cr_Traffic i) WorkflowRolloutTrafficMin WorkflowRolloutTrafficMax &&
  validRolloutBound (cr_Sample i) WorkflowRolloutSampleMin WorkflowRolloutSampleMax &&
  validRolloutBound (cr_Rate i) WorkflowRolloutSuccessRateMin WorkflowRolloutSuccessRateMax &&
  negb (eqs (cr_Baseline i) (cr_Canary i)).
(** The guards on the two versions, in the order of the code; [None] admits them. *)
Definition version_guards (s : Store) (i : CreateRolloutInput) : option CreateRolloutKind :=
  let versions := ListWorkflowVersionsForRollout s (cr_OrgID i) (cr_WorkflowID i) in
  match version_with_id (cr_Baseline i) versions, version_with_id (cr_Canary i) versions with
  | Some baseline, Some canary =>
      if (ve_Version canary <=? ve_Version baseline)%Z then Some RolloutInvalidVersions
      else if negb (match head versions with Some v => eqs (ve_ID v) (ve_ID canary) | None => false end)
      then Some RolloutCanaryNotLatest
      else
        match parse_version baseline, parse_version canary with
        | Some baselineWorkflow, Some canaryWorkflow =>
            if negb (HaveCompatibleWorkflowRolloutTriggers baselineWorkflow canaryWorkflow)
            then Some RolloutIncompatibleTriggers
            else if FindActiveWorkflowRollout s (cr_OrgID i) (cr_WorkflowID i) then Some RolloutActiveExists
            else if (contract_v2 baselineWorkflow || contract_v2 canaryWorkflow) &&
                    negb (FindPassedRecoveryQualification s (cr_OrgID i) (cr_WorkflowID i) (ve_ID baseline) (ve_ID canary))
            then Some RolloutQualificationRequired else None
        | _, _ => Some RolloutInvalidVersions
        end
  | _, _ => Some RolloutInvalidVersions
  end.
Definition new_rollout (i : CreateRolloutInput) (id : string) (now : Z) : WorkflowRollout :=
  mkRollout id (cr_OrgID i) (cr_WorkflowID i) (cr_Baseline i) (cr_Canary i) (cr_Traffic i) (cr_Sample i) (cr_Rate i)
    (cr_CreatedBy i) now "active" 0 0 0 0 None.
Definition CreateWorkflowRollout (i : CreateRolloutInput) (id : string) (now : Z) (s : Store)
  : CreateRolloutKind * option WorkflowRollout * Store :=
  if negb (input_in_bounds i) then (RolloutInvalidVersions, None, s)
  else if negb (live_workflow s (cr_OrgID i) (cr_WorkflowID i)) then (RolloutNotFound, None, s)
  else
    match version_guards s i with
    | Some kind => (kind, None, s)
    | None =>
        match InsertWorkflowRollout (new_rollout i id now) s with
        | Some s' => (RolloutCreated, Some (new_rollout i id now), s')
        | None => (RolloutActiveExists, None, s)
        end
    end.

(** ** Assignment *)

Record RolloutAssignment := mkAssignment
  { ra_Rollout : WorkflowRollout; ra_Variant : string; ra_VersionID : string; ra_Version : Z; ra_Workflow : Workflow }.
Record VersionUnavailable := mkUnavailable { un_RolloutID : string; un_VersionID : string; un_Version : Z }.

Definition assigned_variant (r : WorkflowRollout) (assignmentKey : string) : string :=
  if active r then
    if (WorkflowRolloutBucket (ro_ID r) assignmentKey <? TrafficPercent r)%Z then "canary" else "baseline"
  else if eqs (ro_Status r) "promoted" then "canary" else "baseline".
Definition variant_version (r : WorkflowRollout) (variant : string) : string :=
  if eqs variant "canary" then CanaryVersionID r else BaselineVersionID r.

(** [Ok None] keeps the latest version. *)
Definition ResolveWorkflowRolloutAssignment (orgID workflowID assignmentKey : string) (s : Store)
  : res VersionUnavailable (option RolloutAssignment) :=
  match GetLatestWorkflowRolloutRow s orgID workflowID, latest_version s orgID workflowID with
  | Some r, Some latest =>
      if negb (eqs (ve_ID latest) (CanaryVersionID r)) then Ok None
      else
        let variant := assigned_variant r assignmentKey in
        let versionID := variant_version r variant in
        match GetWorkflowVersionByID s versionID orgID workflowID with
        | None => Err (mkUnavailable (ro_ID r) versionID 0)
        | Some v =>
            match parse_version v with
            | None => Err (mkUnavailable (ro_ID r) versionID (ve_Version v))
            | Some wf => Ok (Some (mkAssignment r variant versionID (ve_Version v) wf))
            end
        end
  | _, _ => Ok None
  end.

(** ** The operator's decision *)

Inductive FinishRolloutKind := RolloutFinishUpdated | RolloutFinishNotFound | RolloutFinishInactive.

Definition FinishWorkflowRollout (orgID workflowID rolloutID decision reason : string) (s : Store)
  : FinishRolloutKind * Store :=
  let mine r := eqs (ro_ID r) rolloutID && eqs (ro_OrgID r) orgID && eqs (ro_WorkflowID r) workflowID in
  if negb (existsb mine (rollouts s)) then (RolloutFinishNotFound, s)
  else
    let status := if eqs decision "promote" then "promoted" else "rolled_back" in
    let trimmed := slice (TrimSpace reason) 0 500 in
    let trimmed := if eqs trimmed "" then "operator_rollback" else trimmed in
    let target r := mine r && active r in
    if existsb target (rollouts s) then
      (RolloutFinishUpdated,
       update_where target (with_status status (if eqs status "rolled_back" then Some trimmed else None)) s)
    else (RolloutFinishInactive, s).

(** ** The receipt of a finished run *)

Definition terminal_status (status : string) : bool := in_list ["succeeded"; "failed"; "cancelled"] status.
Definition canary_sample (r : WorkflowRollout) : Z := (CanarySucceeded r + CanaryFailed r)%Z.
Definition canary_success_rate (r : WorkflowRollout) : float64 :=
  if (0 <? canary_sample r)%Z
  then f_mul (f_div (f_of_Z (CanarySucceeded r)) (f_of_Z (canary_sample r))) (f_of_Z 100) else f_of_Z 100.
(** The guardrail's test. *)
Definition breach (r : WorkflowRollout) : bool :=
  (MinimumSampleSize r <=? canary_sample r)%Z &&
  f_ltb (canary_success_rate r) (f_of_Z (MinimumSuccessRatePercent r)).
Definition count_outcome (variant status : string) (r : WorkflowRollout) : WorkflowRollout :=
  if eqs status "cancelled" then r
  else if eqs variant "canary" then
    if eqs status "succeeded" then with_counters 0 0 1 0 r else with_counters 0 0 0 1 r
  else if eqs status "succeeded" then with_counters 1 0 0 0 r else with_counters 0 1 0 0 r.
Definition rollback_audit (r : WorkflowRollout) : AuditRow :=
  mkAudit (ro_OrgID r) "rollout-guardrail" "workflow.rollout.auto_rolled_back" (ro_ID r)
    [("workflowId", AStr (ro_WorkflowID r)); ("baselineVersionId", AStr (BaselineVersionID r));
     ("canaryVersionId", AStr (CanaryVersionID r)); ("canarySucceeded", AInt KInt32 (CanarySucceeded r));
     ("canaryFailed", AInt KInt32 (CanaryFailed r)); ("minimumSampleSize", AInt KInt32 (MinimumSampleSize r));
     ("minimumSuccessRatePercent", AInt KInt32 (MinimumSuccessRatePercent r));
     ("observedSuccessRatePercent", AF64 (canary_success_rate r)); ("reason", AStr "canary_success_rate_breach")].

Inductive OutcomeKind := Recorded | Duplicate | Ignored.

(** The receipt a run would leave in the tables, and the rollout it counts for. *)
Definition outcome_of (s : Store) (runID : string) : option (WorkflowRollout * OutcomeRow) :=
  run ← runs s !! runID;
  rolloutID ← WorkflowRolloutID run;
  variant ← WorkflowRolloutVariant run;
  if bool_decide (is_Some (ReplayMode run)) || negb (terminal_status (ru_Status run)) then None
  else
    rollout ← head (filter (λ r, ro_ID r = rolloutID ∧ ro_OrgID r = ru_OrgID run ∧ active r = true) (rollouts s));
    if eqs (WorkflowVersionID run) (variant_version rollout variant)
    then Some (rollout, mkOutcomeRow runID (ru_OrgID run) (ro_ID rollout) (ro_WorkflowID rollout) variant (ru_Status run))
    else None.
Definition RecordWorkflowRolloutOutcome (runID : string) (s : Store) : OutcomeKind * Store :=
  match outcome_of s runID with
  | None => (Ignored, s)
  | Some (rollout, receipt) =>
      if existsb (λ o, eqs (oc_RunID o) runID) (outcomes s) then (Duplicate, s)
      else
        let updated := count_outcome (oc_Variant receipt) (oc_Status receipt) rollout in
        let s := set_outcomes (outcomes s ++ [receipt]) s in
        let s := update_where (active_with_id (ro_ID rollout)) (count_outcome (oc_Variant receipt) (oc_Status receipt)) s in
        if eqs (oc_Variant receipt) "canary" && negb (eqs (oc_Status receipt) "cancelled") && breach updated then
          let s := update_where (active_with_id (ro_ID rollout))
                     (with_status "rolled_back" (Some "canary_success_rate_breach")) s in
          (Recorded, set_audits (audits s ++ [rollback_audit updated]) s)
        else (Recorded, s)
  end.

(** The runs of active rollouts without a receipt, in an order of the caller's choice. *)
Definition unrecorded (s : Store) (runID : string) : bool :=
  match runs s !! runID with
  | Some run =>
      match WorkflowRolloutID run with
      | Some rolloutID =>
          existsb (λ r, eqs (ro_ID r) rolloutID && eqs (ro_OrgID r) (ru_OrgID run) && active r) (rollouts s) &&
          bool_decide (ReplayMode run = None) && terminal_status (ru_Status run) &&
          negb (existsb (λ o, eqs (oc_RunID o) runID) (outcomes s))
      | None => false
      end
  | None => false
  end.
Definition repair_limit (limit : Z) : nat := Z.to_nat (if (limit <=? 0)%Z || (500 <? limit)%Z then 500 else limit).
Definition RepairWorkflowRolloutOutcomes (order : list string) (limit : Z) (s : Store) : Z * Store :=
  fold_left (λ acc runID,
    let '(repaired, s) := acc in
    match RecordWorkflowRolloutOutcome runID s with
    | (Recorded, s') => ((repaired + 1)%Z, s')
    | (_, s') => (repaired, s')
    end) (take (repair_limit limit) (filter (λ id, unrecorded s id = true) order)) (0%Z, s).

(** ** Versions and workflows under the same lock *)

Inductive SaveKind :=
| SaveAppended (version : Z) | SaveNotFound | SaveIDTaken | SaveRolloutActive | SaveFailed.

(** The insertion after the parent row is locked; a refusal gives back the tables as they
    were [before]. The schedules are tables of their own. *)
Definition write_version (orgID workflowID versionID dagJSON : string) (before s : Store) : SaveKind * Store :=
  if FindActiveWorkflowRollout s orgID workflowID then (SaveRolloutActive, before)
  else
    let version := (match latest_version s orgID workflowID with Some v => ve_Version v | None => 0 end + 1)%Z in
    if existsb (λ v, eqs (ve_ID v) versionID) (versions s) then (SaveFailed, before)
    else (SaveAppended version, set_versions (versions s ++ [mkVersion versionID orgID workflowID version dagJSON]) s).
Definition renamed (orgID workflowID name : string) (w : WorkflowRow) : WorkflowRow :=
  if eqs (w_ID w) workflowID && eqs (w_OrgID w) orgID && negb (w_Deleted w)
  then mkWorkflowRow (w_ID w) (w_OrgID w) name (w_Status w) (PausedReason w) false else w.
Definition saveWorkflowVersionAttempt (orgID workflowID name versionID dagJSON : string) (s : Store) : SaveKind * Store :=
  let write := write_version orgID workflowID versionID dagJSON s in
  if live_workflow s orgID workflowID then write (set_workflows (map (renamed orgID workflowID name) (workflows s)) s)
  else
    match filter (λ w, w_ID w = workflowID) (workflows s) with
    | w :: _ =>
        if negb (eqs (w_OrgID w) orgID) then (SaveIDTaken, s)
        else if w_Deleted w then (SaveNotFound, s) else (SaveFailed, s)
    | [] => write (set_workflows (workflows s ++ [mkWorkflowRow workflowID orgID name "active" None false]) s)
    end.

(** [true] is success. *)
Definition set_deleted (orgID workflowID : string) (before after : bool) (s : Store) : bool * Store :=
  let target w := eqs (w_ID w) workflowID && eqs (w_OrgID w) orgID && Bool.eqb (w_Deleted w) before in
  if existsb target (workflows s) then
    (true, set_workflows (map (λ w, if target w
                                    then mkWorkflowRow (w_ID w) (w_OrgID w) (w_Name w) (w_Status w) (PausedReason w) after
                                    else w) (workflows s)) s)
  else (false, s).
Definition DeactivateWorkflow (orgID workflowID : string) (s : Store) : bool * Store :=
  match set_deleted orgID workflowID false true s with
  | (true, s) =>
      (true, update_where (λ r, eqs (ro_OrgID r) orgID && eqs (ro_WorkflowID r) workflowID && active r)
               (with_status "cancelled" (Some "workflow_deleted")) s)
  | (false, s) => (false, s)
  end.
(** The latest version must still be readable, or there is none. *)
Definition ReactivateWorkflow (orgID workflowID : string) (s : Store) : bool * Store :=
  match set_deleted orgID workflowID true false s with
  | (true, s') =>
      match latest_version s' orgID workflowID with
      | Some v => match (Parse json_error (DagJson v)).1 with Some _ => (true, s') | None => (false, s) end
      | None => (true, s')
      end
  | (false, s') => (false, s')
  end.

(** ** Histories *)

(** Runs and qualifications are written by other parts of the program: any row may appear
    or change. *)
Inductive step (s : Store) : Store → Prop :=
| step_create i id now : step s (CreateWorkflowRollout i id now s).2
| step_finish orgID workflowID rolloutID decision reason :
    step s (FinishWorkflowRollout orgID workflowID rolloutID decision reason s).2
| step_record runID : step s (RecordWorkflowRolloutOutcome runID s).2
| step_repair order limit : step s (RepairWorkflowRolloutOutcomes order limit s).2
| step_save orgID workflowID name versionID dagJSON :
    step s (saveWorkflowVersionAttempt orgID workflowID name versionID dagJSON s).2
| step_deactivate orgID workflowID : step s (DeactivateWorkflow orgID workflowID s).2
| step_reactivate orgID workflowID : step s (ReactivateWorkflow orgID workflowID s).2
| step_run id run : step s (set_runs (<[id := run]> (runs s)) s)
| step_qualification q : step s (set_qualifications (qualifications s ++ [q]) s).
Inductive reachable : Store → Prop :=
| reach_empty : reachable empty_store
| reach_step s s' : reachable s → step s s' → reachable s'.
End rollouts.
