(* ===== verification/Qualification.v ===== *)
(** Semantic outcomes and the qualification of a candidate version (recovery/semanticoutcomes.go,
    recovery/qualification.go). A detector whose schema is nil panics: [None]. *)
From S2P Require Import Prelude GoStrings GoFloat GoAny Json Expression Graph Inputs RecoveryContract RecoveryDag WorkflowParse Rollout.
Local Open Scope string_scope.
Local Open Scope list_scope.

Definition RecoveryQualificationFailureLimit : nat := 20.
Definition QualificationFailureDatasets : list string := ["baseline"; "candidate"].
Definition QualificationFailureReasons : list string :=
  ["baseline_dataset_invalid"; "candidate_contract_missing"; "detector_uncovered"; "expected_mismatch"].

(** ** The verdict on one output *)

Record SemanticOutcomeViolation := mkViolation
  { vi_DetectorID : string; vi_SourceNodeID : string; vi_Kind : string; vi_Action : string; vi_Message : string;
    Details : list string }.
Record SemanticOutcomeEvaluation := mkEvaluation
  { ev_SourceNodeID : string; Evaluated : Z; Violations : list SemanticOutcomeViolation; Quarantined : bool }.
Record SemanticOutcomeFixtureResult := mkFixtureResult
  { fr_ID : string; fr_SourceNodeID : string; fr_Expected : string; fr_Actual : string; fr_Passed : bool;
    fr_Violations : list SemanticOutcomeViolation }.

Definition semanticContract (contract : option RecoveryContract) : option RecoverySemanticFailure :=
  c ← contract; if eqs (Version c) "2" then Some (Semantic c) else None.
Definition attached_detectors (contract : option RecoveryContract) (sourceNodeID : string) : list RecoverySemanticDetector :=
  match semanticContract contract with
  | Some semantic => filter (λ d, det_SourceNodeID d = sourceNodeID) (Detectors semantic)
  | None => []
  end.
(** The context with the completed output in place. *)
Definition overlay (context : obj) (sourceNodeID : string) (output : any) : obj :=
  let existing := match obj_at context sourceNodeID with AObj prior => prior | _ => [] end in
  obj_set context sourceNodeID (AObj (obj_set (obj_set existing "status" (AStr "succeeded")) "output" output)).

Definition violation_of (d : RecoverySemanticDetector) (details : list string) : SemanticOutcomeViolation :=
  mkViolation (det_ID d) (det_SourceNodeID d) (det_Kind d) (Action d) (RecoveryContract.Message d) details.
Definition detector_violations (context : obj) (output : any) (d : RecoverySemanticDetector)
  : option (list SemanticOutcomeViolation) :=
  if eqs (det_Kind d) "expression" then
    match EvaluateExpression (PassWhen d) (mkScope (AObj context) (AObj [])) with
    | None => None
    | Some (Ok true) => Some []
    | Some (Ok false) => Some [violation_of d []]
    | Some (Err e) => Some [violation_of d [e]]
    end
  else if eqs (det_Kind d) "schema" then
    schema ← Schema d;
    problems ← ValidateInputValue schema output "$";
    Some (match problems with [] => [] | _ => [violation_of d (take 50 problems)] end)
  else Some [].

Fixpoint concat_all {A} (l : list (option (list A))) : option (list A) :=
  match l with [] => Some [] | x :: l => x ← x; xs ← concat_all l; Some (x ++ xs) end.
Definition EvaluateSemanticOutcome (contract : option RecoveryContract) (sourceNodeID : string) (output : any) (context : obj)
  : option SemanticOutcomeEvaluation :=
  let detectors := attached_detectors contract sourceNodeID in
  violations ← concat_all (map (detector_violations (overlay context sourceNodeID output) output) detectors);
  Some (mkEvaluation sourceNodeID (Z.of_nat (length detectors)) violations
          (existsb (λ v, eqs (vi_Action v) "quarantine") violations)).

Definition verdict (violations : list SemanticOutcomeViolation) : string :=
  match violations with [] => "pass" | _ => "violation" end.
Definition fixture_result (contract : option RecoveryContract) (f : RecoverySemanticFixture)
  : option SemanticOutcomeFixtureResult :=
  e ← EvaluateSemanticOutcome contract (fix_SourceNodeID f) (fix_Output f) (fix_Context f);
  let actual := verdict (Violations e) in
  Some (mkFixtureResult (fix_ID f) (fix_SourceNodeID f) (Expected f) actual (eqs actual (Expected f)) (Violations e)).
Definition EvaluateSemanticOutcomeFixtures (contract : option RecoveryContract)
  : option (list SemanticOutcomeFixtureResult) :=
  match semanticContract contract with
  | Some semantic => mapM (fixture_result contract) (EvaluationFixtures semantic)
  | None => Some []
  end.
Definition FixtureOutcomesForValidation (contract : option RecoveryContract) : option (list SemanticFixtureOutcome) :=
  results ← EvaluateSemanticOutcomeFixtures contract;
  Some (map (λ r, mkOutcome (fr_ID r) (fr_SourceNodeID r) (fr_Expected r) (fr_Actual r) (fr_Passed r)
                    (map vi_DetectorID (fr_Violations r))) results).

(** ** The qualification *)

Record QualificationFailure := mkFailure
  { qf_Dataset : string; FixtureID : string; qf_SourceNodeID : string; qf_Expected : string; qf_Actual : string;
    qf_Reason : string; qf_Violations : list SemanticOutcomeViolation }.
Record QualificationSummary := mkSummary
  { DatasetVersion : string; DatasetDigest : string; qs_Mode : string; qs_Status : string; BaselineCaseCount : Z;
    CandidateCaseCount : Z; CandidateAssertionCount : Z; PassedCandidateAssertions : Z; FailedCandidateAssertions : Z;
    RegressionCount : Z; CoverageFailureCount : Z; BaselineDatasetValid : bool; Failures : list QualificationFailure;
    FailuresTruncated : bool }.

Definition ToReceiptSummary (s : QualificationSummary) : QualificationSummary :=
  let 'mkSummary version digest mode status bc cc ca pa fa rc cf valid failures truncated := s in
  mkSummary version digest mode status bc cc ca pa fa rc cf valid
    (map (λ f, mkFailure (qf_Dataset f) (FixtureID f) (qf_SourceNodeID f) (qf_Expected f) (qf_Actual f) (qf_Reason f) []) failures)
    truncated.

Definition qualificationContract (wf : Workflow) : option RecoveryContract :=
  r ← Recovery wf; c ← Contract r; if eqs (Version c) "2" then Some c else None.

(** The text of [stableJSON], written a second time in the source. *)
Definition stableRender : any → string := stableJSON.
(** A fixture through json.Marshal and back: an empty context is left out. *)
Definition fixture_any (f : RecoverySemanticFixture) : any :=
  AObj ([("id", AStr (fix_ID f)); ("sourceNodeId", AStr (fix_SourceNodeID f)); ("output", fix_Output f)] ++
        match fix_Context f with [] => [] | context => [("context", AObj context)] end ++
        [("expected", AStr (Expected f))]).
(** The nil slice is the text [null]. *)
Definition generic_fixtures (fixtures : list RecoverySemanticFixture) : any :=
  match fixtures with
  | [] => ANil
  | _ => default (AArr []) (raw ← Marshal (AArr (map fixture_any fixtures)); Unmarshal raw)
  end.

Section qualification.
(** The hexadecimal SHA-256 digest of a byte string. *)
Context (sha256_hex : string → string).

Definition datasetDigest (baseline candidate : list RecoverySemanticFixture) : string :=
  sha256_hex (stableRender (AObj
    [("version", AStr RecoveryQualificationDatasetVersion); ("baseline", generic_fixtures baseline);
     ("candidate", generic_fixtures candidate)])).

(** The verdict, whether it is the expected one, and the violations. *)
Definition evaluateQualificationFixture (contract : RecoveryContract) (f : RecoverySemanticFixture)
  : option (string * bool * list SemanticOutcomeViolation) :=
  if negb (existsb (λ d, eqs (det_SourceNodeID d) (fix_SourceNodeID f)) (Detectors (Semantic contract)))
  then Some ("uncovered", false, [])
  else
    e ← EvaluateSemanticOutcome (Some contract) (fix_SourceNodeID f) (fix_Output f) (fix_Context f);
    let actual := verdict (Violations e) in
    Some (actual, eqs actual (Expected f), Violations e).

(** The counters the closures of the code share. *)
Record tallies := mkTallies
  { passedAssertions : Z; regressions : Z; coverageFailures : Z; totalFailures : Z; failures : list QualificationFailure }.
Definition addFailure (f : QualificationFailure) (t : tallies) : tallies :=
  let 'mkTallies passed regression coverage total fs := t in
  mkTallies passed regression coverage (total + 1)
    (if (length fs <? RecoveryQualificationFailureLimit)%nat then fs ++ [f] else fs).
Definition assess_result (acc : bool * tallies) (r : SemanticOutcomeFixtureResult) : bool * tallies :=
  if fr_Passed r then acc
  else (false, addFailure (mkFailure "baseline" (fr_ID r) (fr_SourceNodeID r) (fr_Expected r) (fr_Actual r)
                             "baseline_dataset_invalid" (fr_Violations r)) acc.2).
Definition assess_baseline (results : list SemanticOutcomeFixtureResult) (t : tallies) : bool * tallies :=
  fold_left assess_result results (true, t).
Definition assess_fixture (contract : RecoveryContract) (dataset : string) (f : RecoverySemanticFixture) (t : tallies)
  : option tallies :=
  '(actual, passed, violations) ← evaluateQualificationFixture contract f;
  let 'mkTallies p r c total fs := t in
  if (passed : bool) then Some (mkTallies (p + 1) r c total fs)
  else
    let uncovered := eqs actual "uncovered" in
    Some (addFailure (mkFailure dataset (fix_ID f) (fix_SourceNodeID f) (Expected f) actual
                        (if uncovered then "detector_uncovered" else "expected_mismatch") violations)
            (mkTallies p (r + (if eqs dataset "baseline" then 1 else 0)) (c + (if uncovered then 1 else 0)) total fs)).
Fixpoint evaluateDataset (contract : RecoveryContract) (dataset : string) (fixtures : list RecoverySemanticFixture)
    (t : tallies) : option tallies :=
  match fixtures with
  | [] => Some t
  | f :: fixtures => t ← assess_fixture contract dataset f t; evaluateDataset contract dataset fixtures t
  end.

Definition no_tallies : tallies := mkTallies 0 0 0 0 [].
Definition fixtures_of (contract : option RecoveryContract) : list RecoverySemanticFixture :=
  match contract with Some c => EvaluationFixtures (Semantic c) | None => [] end.

Definition QualifyRecoveryCandidate (baseline candidate : Workflow) : option QualificationSummary :=
  let baselineContract := qualificationContract baseline in
  let candidateContract := qualificationContract candidate in
  let baselineFixtures := fixtures_of baselineContract in
  let candidateFixtures := fixtures_of candidateContract in
  let digest := datasetDigest baselineFixtures candidateFixtures in
  let count {A} (l : list A) := Z.of_nat (length l) in
  match baselineContract, candidateContract with
  | None, None =>
      Some (mkSummary RecoveryQualificationDatasetVersion digest "not_required" "not_required" 0 0 0 0 0 0 0 true [] false)
  | _, _ =>
      let mode := match baselineContract with Some _ => "compare" | None => "bootstrap" end in
      results ← EvaluateSemanticOutcomeFixtures baselineContract;
      let '(valid, t) := assess_baseline results no_tallies in
      match candidateContract with
      | None =>
          let t := addFailure (mkFailure "candidate" "candidate-contract" "" "pass" "uncovered" "candidate_contract_missing" []) t in
          let n := count baselineFixtures in
          Some (mkSummary RecoveryQualificationDatasetVersion digest mode "failed" n 0 n 0 n n n valid (failures t)
                  (count (failures t) <? totalFailures t)%Z)
      | Some contract =>
          t ← evaluateDataset contract "baseline" baselineFixtures t;
          t ← evaluateDataset contract "candidate" candidateFixtures t;
          let assertions := (count baselineFixtures + count candidateFixtures)%Z in
          let failed := (assertions - passedAssertions t)%Z in
          Some (mkSummary RecoveryQualificationDatasetVersion digest mode
                  (if valid && (failed =? 0)%Z then "passed" else "failed")
                  (count baselineFixtures) (count candidateFixtures) assertions (passedAssertions t) failed (regressions t)
                  (coverageFailures t) valid (failures t) (count (failures t) <? totalFailures t)%Z)
      end
  end.
End qualification.
