(* ===== verification/RolloutFacts.v ===== *)
(** Rollouts: the invariant of every history, the evidence that a finished rollout keeps, the
    traffic an active one assigns, and the rounding of the guardrail's rate. *)
From S2P Require Import Prelude GoStrings GoFloat GoAny Json Graph Inputs RecoveryContract RecoveryDag WorkflowParse Rollout.
Local Open Scope string_scope.
Local Open Scope list_scope.

Definition tally (s : Store) (r : WorkflowRollout) (canary : bool) (status : string) : Z :=
  Z.of_nat (length (filter (λ o, oc_RolloutID o = ro_ID r ∧ eqs (oc_Variant o) "canary" = canary ∧ oc_Status o = status)
    (outcomes s))).
Definition within (lo hi n : Z) : Prop := (lo <= n <= hi)%Z.

Section facts.
Context `{UnicodeTables} (json_error : string → string).
Abbreviation parse_version := (parse_version json_error).
Abbreviation step := (step json_error).
Abbreviation reachable := (reachable json_error).

(** ** The invariant *)

Record row_ok (s : Store) (r : WorkflowRollout) : Prop := mkRowOk
  { row_traffic : within 1 50 (TrafficPercent r);
    row_sample : within 5 100 (MinimumSampleSize r);
    row_rate : within 1 100 (MinimumSuccessRatePercent r);
    row_status : ro_Status r ∈ WorkflowRolloutStatuses;
    row_versions : ∃ baseline canary baselineWorkflow canaryWorkflow,
      GetWorkflowVersionByID s (BaselineVersionID r) (ro_OrgID r) (ro_WorkflowID r) = Some baseline ∧
      GetWorkflowVersionByID s (CanaryVersionID r) (ro_OrgID r) (ro_WorkflowID r) = Some canary ∧
      (ve_Version baseline < ve_Version canary)%Z ∧
      parse_version baseline = Some baselineWorkflow ∧ parse_version canary = Some canaryWorkflow;
    row_counts :
      BaselineSucceeded r = tally s r false "succeeded" ∧ BaselineFailed r = tally s r false "failed" ∧
      CanarySucceeded r = tally s r true "succeeded" ∧ CanaryFailed r = tally s r true "failed";
    row_live : active r = true → live_workflow s (ro_OrgID r) (ro_WorkflowID r) = true;
    row_latest : active r = true →
      ∃ v, latest_version s (ro_OrgID r) (ro_WorkflowID r) = Some v ∧ ve_ID v = CanaryVersionID r;
    row_breach : breach r = true →
      ro_Status r = "rolled_back" ∧ RolledBackReason r = Some "canary_success_rate_breach";
    row_announced : length (filter (λ a, au_TargetID a = ro_ID r) (audits s)) = if breach r then 1%nat else 0%nat }.

Record store_ok (s : Store) : Prop := mkStoreOk
  { ok_ids : NoDup (map ro_ID (rollouts s));
    ok_version_ids : NoDup (map ve_ID (versions s));
    ok_receipts : NoDup (map oc_RunID (outcomes s));
    ok_receipt_rows : ∀ o, o ∈ outcomes s → terminal_status (oc_Status o) = true ∧ oc_RolloutID o ∈ map ro_ID (rollouts s);
    ok_audits : ∀ a, a ∈ audits s → au_TargetID a ∈ map ro_ID (rollouts s);
    ok_one_active : ∀ r r', r ∈ rollouts s → r' ∈ rollouts s → active r = true → active r' = true →
      ro_OrgID r = ro_OrgID r' → ro_WorkflowID r = ro_WorkflowID r' → r = r';
    ok_rows : ∀ r, r ∈ rollouts s → row_ok s r }.

(** ** Lists with distinct keys *)

Lemma NoDup_map_inj {A} (key : A → string) (l : list A) x y :
  NoDup (map key l) → x ∈ l → y ∈ l → key x = key y → x = y.
Proof.
  induction l as [|z l IH]; cbn; [set_solver|]. rewrite NoDup_cons, list_elem_of_fmap. intros [Hz Hl].
  rewrite !elem_of_cons. intros [->|Hx] [->|Hy] Hk; [done| | |by apply IH].
  - destruct Hz. by exists y.
  - destruct Hz. by exists x.
Qed.
Lemma head_filter_Some {A} (P : A → Prop) `{∀ x, Decision (P x)} l x :
  head (filter P l) = Some x → x ∈ l ∧ P x.
Proof.
  destruct (filter P l) as [|y k] eqn:E; [done|]. intros [= ->].
  assert (x ∈ filter P l) as Hx by (rewrite E; by left). apply list_elem_of_filter in Hx. by destruct Hx.
Qed.
Lemma head_filter_app {A} (P : A → Prop) `{∀ x, Decision (P x)} l k x :
  head (filter P l) = Some x → head (filter P (l ++ k)) = Some x.
Proof. rewrite filter_app. by destruct (filter P l). Qed.
Lemma last_elem {A} (l : list A) x : last l = Some x → x ∈ l.
Proof. intros (k & ->)%last_Some. apply elem_of_app. right. by left. Qed.

(** ** Rows and statements *)

Lemma with_status_fields status reason r :
  ro_ID (with_status status reason r) = ro_ID r ∧ ro_OrgID (with_status status reason r) = ro_OrgID r ∧
  ro_WorkflowID (with_status status reason r) = ro_WorkflowID r ∧ breach (with_status status reason r) = breach r ∧
  active (with_status status reason r) = eqs status "active".
Proof. by destruct r. Qed.

(** What a row says that no transaction changes. *)
Definition same_plan (r r' : WorkflowRollout) : Prop :=
  ro_ID r' = ro_ID r ∧ ro_OrgID r' = ro_OrgID r ∧ ro_WorkflowID r' = ro_WorkflowID r ∧
  BaselineVersionID r' = BaselineVersionID r ∧ CanaryVersionID r' = CanaryVersionID r ∧
  TrafficPercent r' = TrafficPercent r ∧ MinimumSampleSize r' = MinimumSampleSize r ∧
  MinimumSuccessRatePercent r' = MinimumSuccessRatePercent r.
Lemma same_plan_status status reason r : same_plan r (with_status status reason r).
Proof. by destruct r. Qed.
Lemma same_plan_count variant status r : same_plan r (count_outcome variant status r).
Proof. unfold count_outcome. destruct r. by repeat case_match. Qed.

(** A row closed without a breach, in a store that keeps everything else the row speaks of. *)
Lemma row_ok_close s r status reason :
  row_ok s r → active r = true → status ∈ ["promoted"; "rolled_back"; "cancelled"] →
  row_ok s (with_status status reason r).
Proof.
  intros [] Hactive Hstatus. destruct (with_status_fields status reason r) as (_ & _ & _ & Hbreach & Hact).
  assert (breach r = false) as Hno.
  { destruct (breach r); [|done]. destruct row_breach0 as [Hs _]; [done|]. unfold active in Hactive.
    apply String.eqb_eq in Hactive. congruence. }
  assert (eqs status "active" = false) as Hclosed.
  { rewrite !elem_of_cons, elem_of_nil in Hstatus. naive_solver. }
  split; rewrite ?Hbreach, ?Hno, ?Hact, ?Hclosed; destruct r; cbn in *; try done.
  - set_solver.
  - by rewrite Hno in row_announced0.
Qed.

Lemma row_ok_store s s' r :
  row_ok s r → outcomes s' = outcomes s → audits s' = audits s →
  (∀ id orgID workflowID v, GetWorkflowVersionByID s id orgID workflowID = Some v →
     GetWorkflowVersionByID s' id orgID workflowID = Some v) →
  (active r = true → live_workflow s (ro_OrgID r) (ro_WorkflowID r) = true →
     live_workflow s' (ro_OrgID r) (ro_WorkflowID r) = true) →
  (active r = true → latest_version s' (ro_OrgID r) (ro_WorkflowID r) = latest_version s (ro_OrgID r) (ro_WorkflowID r)) →
  row_ok s' r.
Proof.
  intros [] Ho Ha Hget Hlive Hlatest. split; try done.
  - destruct row_versions0 as (b & c & bw & cw & Hb & Hc & Hrest). exists b, c, bw, cw. eauto.
  - unfold tally in *. by rewrite Ho.
  - eauto.
  - intros Hact. rewrite Hlatest by done. eauto.
  - by rewrite Ha.
Qed.
Lemma row_ok_set_rollouts s l r : row_ok s r → row_ok (set_rollouts l s) r.
Proof. intros Hr. destruct s. by apply (row_ok_store _ _ _ Hr). Qed.

Lemma map_ids p f l : (∀ r, r ∈ l → p r = true → ro_ID (f r) = ro_ID r) →
  map ro_ID (map (λ r, if p r then f r else r) l) = map ro_ID l.
Proof.
  intros Hf. rewrite map_map. apply map_ext_in. intros r Hr%list_elem_of_In. destruct (p r) eqn:E; [|done]. by apply Hf.
Qed.

(** Closing some active rows. *)
Lemma store_ok_close p status reason s : store_ok s → (∀ r, p r = true → active r = true) →
  status ∈ ["promoted"; "rolled_back"; "cancelled"] → store_ok (update_where p (with_status status reason) s).
Proof.
  intros [] Hp Hstatus. set (f := λ r, if p r then with_status status reason r else r).
  assert (∀ r, active (f r) = true → f r = r ∧ active r = true) as Hkept.
  { intros r. unfold f. destruct (p r); [|done]. destruct (with_status_fields status reason r) as (_ & _ & _ & _ & ->).
    intros ->%String.eqb_eq. exfalso. revert Hstatus. rewrite !elem_of_cons, elem_of_nil. naive_solver. }
  assert (map ro_ID (map f (rollouts s)) = map ro_ID (rollouts s)) as Hids.
  { apply map_ids. intros r _ _. apply with_status_fields. }
  unfold update_where. fold f. destruct s as [wo ve ro oc ru qu au]. cbn in *.
  split; cbn [rollouts versions outcomes audits]; rewrite ?Hids; try done.
  - intros ? ? (r & -> & Hr)%list_elem_of_fmap (r' & -> & Hr')%list_elem_of_fmap Ha Ha'.
    apply Hkept in Ha as [-> Ha], Ha' as [-> Ha']. by apply ok_one_active0.
  - intros ? (r & -> & Hr)%list_elem_of_fmap. apply (row_ok_set_rollouts (mkStore wo ve ro oc ru qu au)).
    unfold f. destruct (p r) eqn:Ep; [|by apply ok_rows0]. apply row_ok_close; auto.
Qed.

(** Changing tables that rows do not speak of, or only by name. *)
Lemma store_ok_workflows wo' s : store_ok s →
  (∀ r, r ∈ rollouts s → active r = true → live_workflow s (ro_OrgID r) (ro_WorkflowID r) = true →
     live_workflow (set_workflows wo' s) (ro_OrgID r) (ro_WorkflowID r) = true) →
  store_ok (set_workflows wo' s).
Proof.
  intros [] Hlive. destruct s as [wo ve ro oc ru qu au]. split; try done.
  intros r Hr. apply (row_ok_store _ _ _ (ok_rows0 r Hr)); try done. by apply Hlive.
Qed.
Lemma store_ok_runs m s : store_ok s → store_ok (set_runs m s).
Proof.
  intros []. destruct s as [wo ve ro oc ru qu au]. split; try done.
  intros r Hr. by apply (row_ok_store _ _ _ (ok_rows0 r Hr)).
Qed.
Lemma store_ok_qualifications l s : store_ok s → store_ok (set_qualifications l s).
Proof.
  intros []. destruct s as [wo ve ro oc ru qu au]. split; try done.
  intros r Hr. by apply (row_ok_store _ _ _ (ok_rows0 r Hr)).
Qed.

(** A new version of a workflow without an active rollout. *)
Lemma no_active s orgID workflowID r : FindActiveWorkflowRollout s orgID workflowID = false → r ∈ rollouts s →
  active r = true → ro_OrgID r = orgID → ro_WorkflowID r = workflowID → False.
Proof.
  unfold FindActiveWorkflowRollout. rewrite existsb_false_elem. intros Hnone Hr Ha <- <-.
  specialize (Hnone r Hr). unfold eqs in Hnone. by rewrite !String.eqb_refl, Ha in Hnone.
Qed.
Lemma versions_of_app s v orgID workflowID : ve_OrgID v ≠ orgID ∨ ve_WorkflowID v ≠ workflowID →
  versions_of (set_versions (versions s ++ [v]) s) orgID workflowID = versions_of s orgID workflowID.
Proof.
  intros Hne. unfold versions_of. destruct s as [wo ve ro oc ru qu au]. cbn.
  rewrite filter_app, filter_cons_False, filter_nil, app_nil_r; [done|naive_solver].
Qed.
Lemma store_ok_version s v : store_ok s → ve_ID v ∉ map ve_ID (versions s) →
  FindActiveWorkflowRollout s (ve_OrgID v) (ve_WorkflowID v) = false →
  store_ok (set_versions (versions s ++ [v]) s).
Proof.
  intros [] Hfresh Hnone. pose proof (versions_of_app s v) as Hold. pose proof (no_active s) as Hna.
  destruct s as [wo ve ro oc ru qu au]. cbn [rollouts versions outcomes audits set_versions] in *.
  split; cbn [rollouts versions outcomes audits]; try done.
  - rewrite map_app. apply NoDup_app. cbn. split_and!; [done|set_solver|by apply NoDup_singleton].
  - intros r Hr. apply (row_ok_store _ _ _ (ok_rows0 r Hr)); try done.
    + intros id orgID workflowID v' Hget. by apply (head_filter_app _ ve [v]).
    + intros Ha. unfold latest_version. rewrite Hold; [done|].
      destruct (decide (ve_OrgID v = ro_OrgID r)) as [Ho|]; [|by left]. right. intros Hw.
      by eapply (Hna _ _ r Hnone).
Qed.

(** ** The transactions *)

Lemma finish_ok orgID workflowID rolloutID decision reason s : store_ok s →
  store_ok (FinishWorkflowRollout orgID workflowID rolloutID decision reason s).2.
Proof.
  intros Hs. unfold FinishWorkflowRollout. case_match; [done|]. case_match; [|done]. apply store_ok_close; [done| |].
  - intros r Hr. by apply andb_true_iff in Hr as [_ ?].
  - destruct (eqs decision "promote"); set_solver.
Qed.

Lemma not_in_existsb {A} (key : A → string) (l : list A) (k : string) :
  existsb (λ x, eqs (key x) k) l = false → k ∉ map key l.
Proof.
  rewrite existsb_false_elem, list_elem_of_fmap. intros Hall (x & -> & Hx). specialize (Hall x Hx).
  unfold eqs in Hall. by rewrite String.eqb_refl in Hall.
Qed.
Lemma write_ok orgID workflowID versionID dagJSON before s : store_ok before → store_ok s →
  store_ok (write_version orgID workflowID versionID dagJSON before s).2.
Proof.
  intros Hb Hs. unfold write_version. destruct (FindActiveWorkflowRollout _ _ _) eqn:Ea; [done|].
  destruct (existsb _ _) eqn:Ee; [done|]. apply store_ok_version; [done| |done]. by apply not_in_existsb.
Qed.

Lemma live_workflow_map f wo' s orgID id : wo' = map f (workflows s) →
  (∀ w, w ∈ workflows s → eqs (w_ID w) id && eqs (w_OrgID w) orgID && negb (w_Deleted w) = true →
     eqs (w_ID (f w)) id && eqs (w_OrgID (f w)) orgID && negb (w_Deleted (f w)) = true) →
  live_workflow s orgID id = true → live_workflow (set_workflows wo' s) orgID id = true.
Proof.
  intros -> Hf. destruct s as [wo ve ro oc ru qu au]. unfold live_workflow. cbn [set_workflows workflows] in *.
  rewrite !existsb_elem. intros (w & Hw & Hlive). exists (f w). split; [|by apply Hf].
  apply list_elem_of_fmap. by exists w.
Qed.
Lemma save_ok orgID workflowID name versionID dagJSON s : store_ok s →
  store_ok (saveWorkflowVersionAttempt orgID workflowID name versionID dagJSON s).2.
Proof.
  intros Hs. unfold saveWorkflowVersionAttempt. destruct (live_workflow s orgID workflowID).
  - apply write_ok; [done|]. apply store_ok_workflows; [done|]. intros r _ _.
    apply (live_workflow_map (renamed orgID workflowID name)); [done|]. intros w _ Hw. unfold renamed.
    destruct (eqs (w_ID w) workflowID && eqs (w_OrgID w) orgID && negb (w_Deleted w))%bool; [|done].
    cbn [w_ID w_OrgID w_Deleted]. by apply andb_true_iff in Hw as [-> _].
  - destruct (filter _ _) as [|w l]; [|by repeat case_match].
    apply write_ok; [done|]. apply store_ok_workflows; [done|]. intros r _ _. destruct s as [wo ve ro oc ru qu au].
    unfold live_workflow. cbn [set_workflows workflows]. rewrite existsb_app. by intros ->.
Qed.

Lemma set_deleted_ok orgID workflowID s : store_ok s → store_ok (set_deleted orgID workflowID true false s).2.
Proof.
  intros Hs. unfold set_deleted. destruct (existsb _ _); [|done]. apply store_ok_workflows; [done|]. intros r _ _.
  eapply live_workflow_map; [done|]. intros w _ Hw. cbv beta.
  destruct (eqs (w_ID w) workflowID && eqs (w_OrgID w) orgID && Bool.eqb (w_Deleted w) true)%bool; [|done].
  cbn [w_ID w_OrgID w_Deleted]. by apply andb_true_iff in Hw as [-> _].
Qed.
Lemma reactivate_ok orgID workflowID s : store_ok s → store_ok (ReactivateWorkflow json_error orgID workflowID s).2.
Proof.
  intros Hs. unfold ReactivateWorkflow. pose proof (set_deleted_ok orgID workflowID s Hs) as Hd.
  destruct (set_deleted _ _ _ _ _) as [[] s']; [|done]. repeat case_match; done.
Qed.

(** The rollouts of a deleted workflow are closed in the same transaction. *)
Lemma deactivate_ok orgID workflowID s : store_ok s → store_ok (DeactivateWorkflow orgID workflowID s).2.
Proof.
  intros Hs. unfold DeactivateWorkflow, set_deleted. destruct (existsb _ _); [|done]. cbn [snd].
  set (wo' := map _ (workflows s)). set (p := λ r, eqs (ro_OrgID r) orgID && eqs (ro_WorkflowID r) workflowID && active r).
  assert (store_ok (update_where p (with_status "cancelled" (Some "workflow_deleted")) s)) as Hc.
  { apply store_ok_close; [done| |set_solver]. intros r. unfold p. by intros [_ ?]%andb_true_iff. }
  assert (update_where p (with_status "cancelled" (Some "workflow_deleted")) (set_workflows wo' s) =
    set_workflows wo' (update_where p (with_status "cancelled" (Some "workflow_deleted")) s)) as -> by (by destruct s).
  apply store_ok_workflows; [done|]. intros r Hr Ha.
  eapply live_workflow_map; [by destruct s|]. intros w _ Hw. cbv beta.
  destruct (eqs (w_ID w) workflowID && eqs (w_OrgID w) orgID && Bool.eqb (w_Deleted w) false)%bool eqn:E; [|done].
  exfalso. apply andb_true_iff in E as [[Ew Eo]%andb_true_iff _], Hw as [[Hw Ho]%andb_true_iff _].
  apply String.eqb_eq in Ew, Eo, Hw, Ho. destruct s as [wo ve ro oc ru qu au]. cbn in Hr.
  apply list_elem_of_fmap in Hr as (r0 & -> & Hr0). destruct (p r0) eqn:Ep.
  - destruct (with_status_fields "cancelled" (Some "workflow_deleted") r0) as (_ & _ & _ & _ & Hact). by rewrite Hact in Ha.
  - unfold p in Ep. rewrite Ha in Ep. unfold eqs in Ep. rewrite <-Eo, <-Ew, Hw, Ho, !String.eqb_refl in Ep. done.
Qed.

Lemma get_version s v : NoDup (map ve_ID (versions s)) → v ∈ versions s →
  GetWorkflowVersionByID s (ve_ID v) (ve_OrgID v) (ve_WorkflowID v) = Some v.
Proof.
  intros Hnd Hv. unfold GetWorkflowVersionByID. destruct (head (filter _ _)) as [v'|] eqn:E.
  - apply head_filter_Some in E as (Hv' & Hid & _). f_equal. by apply (NoDup_map_inj ve_ID (versions s)).
  - destruct (filter _ _) as [|] eqn:Ef; [|done]. exfalso.
    eapply (not_elem_of_nil v). rewrite <-Ef. by apply list_elem_of_filter.
Qed.
Lemma listed_version s orgID workflowID id v :
  version_with_id id (ListWorkflowVersionsForRollout s orgID workflowID) = Some v →
  v ∈ versions s ∧ ve_ID v = id ∧ ve_OrgID v = orgID ∧ ve_WorkflowID v = workflowID.
Proof.
  intros [Hid Hv]%last_elem%list_elem_of_filter. apply elem_of_take in Hv as (i & Hv & _).
  apply list_elem_of_lookup_2 in Hv. unfold versions_of in Hv.
  apply elem_of_stable_sort, list_elem_of_filter in Hv as [[Ho Hw] Hv]. done.
Qed.
Lemma version_guards_pass s i : NoDup (map ve_ID (versions s)) → version_guards json_error s i = None →
  FindActiveWorkflowRollout s (cr_OrgID i) (cr_WorkflowID i) = false ∧
  (∃ v, latest_version s (cr_OrgID i) (cr_WorkflowID i) = Some v ∧ ve_ID v = cr_Canary i) ∧
  ∃ baseline canary baselineWorkflow canaryWorkflow,
    GetWorkflowVersionByID s (cr_Baseline i) (cr_OrgID i) (cr_WorkflowID i) = Some baseline ∧
    GetWorkflowVersionByID s (cr_Canary i) (cr_OrgID i) (cr_WorkflowID i) = Some canary ∧
    (ve_Version baseline < ve_Version canary)%Z ∧
    parse_version baseline = Some baselineWorkflow ∧ parse_version canary = Some canaryWorkflow.
Proof.
  intros Hnd. unfold version_guards.
  destruct (version_with_id (cr_Baseline i) _) as [b|] eqn:Eb; [|done].
  destruct (version_with_id (cr_Canary i) _) as [c|] eqn:Ec; [|done].
  apply listed_version in Eb as (Hb & Hbi & Hbo & Hbw), Ec as (Hc & Hci & Hco & Hcw).
  destruct (Z.leb_spec (ve_Version c) (ve_Version b)); [done|].
  destruct (head (ListWorkflowVersionsForRollout s _ _)) as [v|] eqn:Eh; [|done].
  destruct (eqs (ve_ID v) (ve_ID c)) eqn:Ev; [|done]. cbn [negb].
  destruct (parse_version b) as [bw|] eqn:Epb; [|done]. destruct (parse_version c) as [cw|] eqn:Epc; [|done].
  repeat (case_match; [done|]). intros _. split; [done|]. split.
  - exists v. apply String.eqb_eq in Ev. split; [|congruence].
    unfold ListWorkflowVersionsForRollout in Eh. unfold latest_version. by destruct (versions_of s _ _).
  - exists b, c, bw, cw. rewrite <-Hbi at 1. rewrite <-Hci at 1. rewrite <-Hbo at 1. rewrite <-Hbw at 1.
    rewrite <-Hco at 1. rewrite <-Hcw at 1. by rewrite !get_version.
Qed.


(** A row whose id is new to the tables. *)
Lemma row_ok_new s i id now : store_ok s → id ∉ map ro_ID (rollouts s) → input_in_bounds i = true →
  live_workflow s (cr_OrgID i) (cr_WorkflowID i) = true → version_guards json_error s i = None →
  row_ok s (new_rollout i id now).
Proof.
  intros [] Hfresh Hbounds Hlive (_ & Hlatest & Hversions)%version_guards_pass; [|done].
  unfold input_in_bounds, validRolloutBound in Hbounds. rewrite !andb_true_iff, !Z.leb_le in Hbounds.
  unfold WorkflowRolloutTrafficMin, WorkflowRolloutTrafficMax, WorkflowRolloutSampleMin, WorkflowRolloutSampleMax,
    WorkflowRolloutSuccessRateMin, WorkflowRolloutSuccessRateMax in Hbounds.
  destruct Hbounds as [[[Ht Hm] Hr] _].
  assert (breach (new_rollout i id now) = false) as Hbreach.
  { unfold breach. apply andb_false_iff. left. apply Z.leb_gt. change (0 < cr_Sample i)%Z. lia. }
  assert (∀ canary status, tally s (new_rollout i id now) canary status = 0%Z) as Htally.
  { intros canary status. unfold tally. rewrite filter_none; [done|]. intros o Ho (Hid & _ & _).
    apply Hfresh. cbn in Hid. rewrite <-Hid. by apply ok_receipt_rows0. }
  split; try done.
  - cbn. set_solver.
  - by rewrite Hbreach.
  - rewrite Hbreach. rewrite filter_none; [done|]. intros a Ha Hid. apply Hfresh. cbn in Hid. rewrite <-Hid. by apply ok_audits0.
Qed.

Lemma create_ok i id now s : store_ok s → store_ok (CreateWorkflowRollout json_error i id now s).2.
Proof.
  intros Hs. unfold CreateWorkflowRollout. destruct (input_in_bounds i) eqn:Hbounds; [|done]. cbn [negb].
  destruct (live_workflow s _ _) eqn:Hlive; [|done]. cbn [negb].
  destruct (version_guards json_error s i) eqn:Hguards; [done|]. unfold InsertWorkflowRollout.
  destruct (_ || _)%bool eqn:Hinsert; [done|]. apply orb_false_iff in Hinsert as [Hfresh%not_in_existsb Hnone].
  pose proof (row_ok_new s i id now Hs Hfresh Hbounds Hlive Hguards) as Hnew.
  pose proof (λ r, no_active s _ _ r Hnone) as Hna. cbn [snd]. set (r := new_rollout i id now) in *. destruct Hs.
  assert (∀ x, x ∈ rollouts s ++ [r] → row_ok (set_rollouts (rollouts s ++ [r]) s) x) as Hrows.
  { intros x [Hx|Hx]%elem_of_app; apply row_ok_set_rollouts; [by apply ok_rows0|]. by apply list_elem_of_singleton in Hx as ->. }
  destruct s as [wo ve ro oc ru qu au]. cbn [rollouts versions outcomes audits set_rollouts] in *.
  split; cbn [rollouts versions outcomes audits]; rewrite ?map_app; try done.
  - apply NoDup_app. cbn. split_and!; [done|set_solver|by apply NoDup_singleton].
  - intros o Ho. destruct (ok_receipt_rows0 o Ho). set_solver.
  - intros a Ha. specialize (ok_audits0 a Ha). set_solver.
  - intros x y [Hx|Hx]%elem_of_app [Hy|Hy]%elem_of_app Hax Hay Ho Hw;
      try apply list_elem_of_singleton in Hx as ->; try apply list_elem_of_singleton in Hy as ->; [eauto| | |done].
    + exfalso. by apply (Hna x).
    + exfalso. by apply (Hna y).
Qed.

(** *** The receipt *)

Definition guardrail (variant status : string) (counted : WorkflowRollout) : bool :=
  eqs variant "canary" && negb (eqs status "cancelled") && breach counted.
(** The row after the receipt, and the evidence. *)
Definition recorded (variant status : string) (r : WorkflowRollout) : WorkflowRollout :=
  let counted := count_outcome variant status r in
  if guardrail variant status counted then with_status "rolled_back" (Some "canary_success_rate_breach") counted else counted.
Definition rollback_rows (variant status : string) (r : WorkflowRollout) : list AuditRow :=
  let counted := count_outcome variant status r in
  if guardrail variant status counted then [rollback_audit counted] else [].

Lemma count_fields variant status r :
  ro_ID (count_outcome variant status r) = ro_ID r ∧ active (count_outcome variant status r) = active r ∧
  (eqs variant "canary" && negb (eqs status "cancelled") = false → breach (count_outcome variant status r) = breach r).
Proof.
  unfold count_outcome. destruct r, (eqs status "cancelled"), (eqs variant "canary"), (eqs status "succeeded");
    repeat split; try done; cbn; unfold breach, canary_success_rate, canary_sample; cbn; intros; by rewrite ?Z.add_0_r.
Qed.
Lemma recorded_plan variant status r : same_plan r (recorded variant status r).
Proof.
  unfold recorded. destruct (guardrail _ _ _); [|apply same_plan_count].
  destruct (same_plan_count variant status r) as (?&?&?&?&?&?&?&?).
  destruct (same_plan_status "rolled_back" (Some "canary_success_rate_breach") (count_outcome variant status r))
    as (?&?&?&?&?&?&?&?). repeat split; congruence.
Qed.

Lemma outcome_of_spec s runID r o : outcome_of s runID = Some (r, o) →
  r ∈ rollouts s ∧ active r = true ∧ oc_RunID o = runID ∧ oc_RolloutID o = ro_ID r ∧ terminal_status (oc_Status o) = true ∧
  ∃ run, runs s !! runID = Some run ∧ oc_Status o = ru_Status run ∧ WorkflowRolloutVariant run = Some (oc_Variant o) ∧
    WorkflowRolloutID run = Some (ro_ID r) ∧ ReplayMode run = None ∧ WorkflowVersionID run = variant_version r (oc_Variant o).
Proof.
  unfold outcome_of. destruct (runs s !! runID) as [run|]; cbn; [|done].
  destruct (WorkflowRolloutID run) as [rolloutID|] eqn:Hro; cbn; [|done].
  destruct (WorkflowRolloutVariant run) as [variant|] eqn:Hva; cbn; [|done].
  destruct (_ || _)%bool eqn:Eg; [done|]. apply orb_false_iff in Eg as [Hreplay%bool_decide_eq_false Hterm%negb_false_iff].
  destruct (head (filter _ _)) as [x|] eqn:Eh; cbn; [|done].
  destruct (eqs (WorkflowVersionID run) _) eqn:Ev; [|done]. intros [= <- <-]. cbn.
  apply head_filter_Some in Eh as (Hx & <- & _ & Hact). apply String.eqb_eq in Ev. split_and!; try done. exists run. split_and!; try done.
  destruct (ReplayMode run); [|done]. by destruct Hreplay.
Qed.

Lemma record_shape runID s r o : NoDup (map ro_ID (rollouts s)) → outcome_of s runID = Some (r, o) →
  runID ∉ map oc_RunID (outcomes s) →
  RecordWorkflowRolloutOutcome runID s =
    (Recorded, mkStore (workflows s) (versions s)
       (map (λ x, if active_with_id (ro_ID r) x then recorded (oc_Variant o) (oc_Status o) x else x) (rollouts s))
       (outcomes s ++ [o]) (runs s) (qualifications s) (audits s ++ rollback_rows (oc_Variant o) (oc_Status o) r)).
Proof.
  intros Hnd Ho Hfresh. unfold RecordWorkflowRolloutOutcome. rewrite Ho.
  destruct (existsb _ _) eqn:Ee.
  { exfalso. apply existsb_elem in Ee as (x & Hx & Heq%String.eqb_eq). apply Hfresh. rewrite <-Heq. apply list_elem_of_fmap. by exists x. }
  apply outcome_of_spec in Ho as (Hr & Hact & _).
  assert (∀ x, x ∈ rollouts s → active_with_id (ro_ID r) x = true → x = r) as Honly.
  { intros x Hx [Hid%String.eqb_eq _]%andb_true_iff. by apply (NoDup_map_inj ro_ID (rollouts s)). }
  unfold recorded, rollback_rows, update_where. fold (guardrail (oc_Variant o) (oc_Status o) (count_outcome (oc_Variant o) (oc_Status o) r)).
  destruct (guardrail _ _ (count_outcome _ _ r)) eqn:Eg; destruct s as [wo ve ro oc ru qu au]; cbn in *; rewrite ?app_nil_r; do 2 f_equal.
  - rewrite map_map. apply map_ext_in. intros x Hx%list_elem_of_In. destruct (active_with_id (ro_ID r) x) eqn:Ex; [|by rewrite Ex].
    rewrite (Honly x) in * by done. rewrite Eg. unfold active_with_id in *.
    destruct (count_fields (oc_Variant o) (oc_Status o) r) as (-> & -> & _). by rewrite Ex.
  - apply map_ext_in. intros x Hx%list_elem_of_In. destruct (active_with_id (ro_ID r) x) eqn:Ex; [|done].
    rewrite (Honly x) by done. by rewrite Eg.
Qed.

Lemma tally_app s s' r r' o canary status : outcomes s' = outcomes s ++ [o] → ro_ID r' = ro_ID r →
  tally s' r' canary status = (tally s r canary status +
    if bool_decide (oc_RolloutID o = ro_ID r ∧ eqs (oc_Variant o) "canary" = canary ∧ oc_Status o = status) then 1 else 0)%Z.
Proof.
  intros Hout Hid. unfold tally. rewrite Hout, Hid, filter_app, length_app, Nat2Z.inj_add, filter_cons, filter_nil.
  case_decide as Hd; case_bool_decide; try done.
Qed.
Lemma announced_filter variant status r x :
  length (filter (λ a, au_TargetID a = ro_ID x) (rollback_rows variant status r)) =
    if guardrail variant status (count_outcome variant status r) && bool_decide (ro_ID r = ro_ID x) then 1%nat else 0%nat.
Proof.
  unfold rollback_rows. destruct (guardrail _ _ _); [|done]. cbn [andb]. rewrite filter_cons, filter_nil. cbn [rollback_audit au_TargetID].
  destruct (count_fields variant status r) as (-> & _). case_decide; by case_bool_decide.
Qed.

(** Every counter follows its receipts. *)
Lemma recorded_counts s s' r o : outcomes s' = outcomes s ++ [o] → oc_RolloutID o = ro_ID r → terminal_status (oc_Status o) = true →
  BaselineSucceeded r = tally s r false "succeeded" ∧ BaselineFailed r = tally s r false "failed" ∧
  CanarySucceeded r = tally s r true "succeeded" ∧ CanaryFailed r = tally s r true "failed" →
  let r' := recorded (oc_Variant o) (oc_Status o) r in
  BaselineSucceeded r' = tally s' r' false "succeeded" ∧ BaselineFailed r' = tally s' r' false "failed" ∧
  CanarySucceeded r' = tally s' r' true "succeeded" ∧ CanaryFailed r' = tally s' r' true "failed".
Proof.
  intros Hout Hid Hterm Hcounts r'. destruct (recorded_plan (oc_Variant o) (oc_Status o) r) as (Hid' & _). fold r' in Hid'.
  rewrite !(tally_app s s' r r' o _ _ Hout Hid'). destruct Hcounts as (<- & <- & <- & <-).
  assert (∀ f : WorkflowRollout → Z, (∀ a b x, f (with_status a b x) = f x) → f r' = f (count_outcome (oc_Variant o) (oc_Status o) r)) as Hf.
  { intros f Hsame. unfold r', recorded. by destruct (guardrail _ _ _). }
  rewrite (Hf BaselineSucceeded), (Hf BaselineFailed), (Hf CanarySucceeded), (Hf CanaryFailed) by (by intros ? ? []).
  unfold count_outcome. apply in_list_spec in Hterm. rewrite !elem_of_cons, elem_of_nil in Hterm.
  destruct Hterm as [Hst|[Hst|[Hst|[]]]]; rewrite Hst; destruct (eqs (oc_Variant o) "canary") eqn:Ev;
    repeat case_bool_decide; destruct r; cbn in *; naive_solver lia.
Qed.

Lemma row_ok_recorded s s' r o : row_ok s r → active r = true → oc_RolloutID o = ro_ID r → terminal_status (oc_Status o) = true →
  workflows s' = workflows s → versions s' = versions s → outcomes s' = outcomes s ++ [o] →
  audits s' = audits s ++ rollback_rows (oc_Variant o) (oc_Status o) r → row_ok s' (recorded (oc_Variant o) (oc_Status o) r).
Proof.
  intros [] Hact Hid Hterm Hwo Hve Hout Hau.
  assert (breach r = false) as Hno.
  { destruct (breach r); [|done]. destruct row_breach0 as [Hst _]; [done|]. unfold active in Hact. apply String.eqb_eq in Hact. congruence. }
  pose proof (recorded_counts s s' r o Hout Hid Hterm row_counts0) as Hcounts.
  destruct (recorded_plan (oc_Variant o) (oc_Status o) r) as (H1 & H2 & H3 & H4 & H5 & H6 & H7 & H8).
  destruct (count_fields (oc_Variant o) (oc_Status o) r) as (Hcid & Hcact & Hcbreach).
  assert (breach (recorded (oc_Variant o) (oc_Status o) r) = guardrail (oc_Variant o) (oc_Status o) (count_outcome (oc_Variant o) (oc_Status o) r) ∧
    active (recorded (oc_Variant o) (oc_Status o) r) = negb (guardrail (oc_Variant o) (oc_Status o) (count_outcome (oc_Variant o) (oc_Status o) r)))
    as [Hbreach Hactive].
  { unfold recorded. set (c := count_outcome _ _ r) in *. destruct (guardrail _ _ c) eqn:Eg.
    - destruct (with_status_fields "rolled_back" (Some "canary_success_rate_breach") c) as (_ & _ & _ & -> & ->).
      unfold guardrail in Eg. by apply andb_true_iff in Eg as [_ ->].
    - rewrite Hcact, Hact. split; [|done]. unfold guardrail in Eg.
      destruct (eqs (oc_Variant o) "canary" && negb (eqs (oc_Status o) "cancelled"))%bool; [done|]. by rewrite Hcbreach. }
  split; rewrite ?H2, ?H3, ?H4, ?H5, ?H6, ?H7, ?H8; try done.
  - unfold recorded. destruct (guardrail _ _ _); [destruct (count_outcome _ _ r); cbn; set_solver|].
    unfold active in Hcact, Hact. rewrite Hact in Hcact. apply String.eqb_eq in Hcact as ->. set_solver.
  - destruct s, s'. cbn in *. by subst.
  - intros _. destruct s, s'. cbn in *. subst. auto.
  - intros _. destruct s, s'. cbn in *. subst. auto.
  - rewrite Hbreach. unfold recorded. intros ->. by destruct (count_outcome _ _ r).
  - rewrite H1, Hau, filter_app, length_app, announced_filter, row_announced0, Hno, Hbreach, bool_decide_true by done. by destruct (guardrail _ _ _).
Qed.

Lemma record_ok runID s : store_ok s → store_ok (RecordWorkflowRolloutOutcome runID s).2.
Proof.
  intros Hs. destruct (outcome_of s runID) as [[r o]|] eqn:Ho; [|unfold RecordWorkflowRolloutOutcome; by rewrite Ho].
  destruct (decide (runID ∈ map oc_RunID (outcomes s))) as [Hdup|Hfresh].
  { unfold RecordWorkflowRolloutOutcome. rewrite Ho. destruct (existsb _ _) eqn:Ee; [done|].
    by apply not_in_existsb in Ee. }
  rewrite (record_shape runID s r o) by (done || apply Hs). cbn [snd].
  apply outcome_of_spec in Ho as (Hr & Hact & Hrun & Hid & Hterm & _). destruct Hs.
  set (variant := oc_Variant o) in *. set (status := oc_Status o) in *.
  set (g := λ x, if active_with_id (ro_ID r) x then recorded variant status x else x).
  assert (map ro_ID (map g (rollouts s)) = map ro_ID (rollouts s)) as Hids.
  { apply map_ids. intros x _ _. apply recorded_plan. }
  assert (∀ x, ro_OrgID (g x) = ro_OrgID x ∧ ro_WorkflowID (g x) = ro_WorkflowID x ∧ ro_ID (g x) = ro_ID x) as Hplan.
  { intros x. unfold g. destruct (active_with_id _ x); [|done]. destruct (recorded_plan variant status x) as (?&?&?&_). done. }
  assert (∀ x, active (g x) = true → active x = true) as Hwas.
  { intros x. unfold g. destruct (active_with_id _ x) eqn:Ex; [|done]. by apply andb_true_iff in Ex as [_ ?]. }
  split; cbn [rollouts versions outcomes audits]; fold g; rewrite ?Hids; try done.
  - rewrite map_app. apply NoDup_app. cbn. split_and!; [done| |by apply NoDup_singleton]. intros x Hx ->%list_elem_of_singleton. by rewrite Hrun in Hx.
  - intros x [Hx|Hx]%elem_of_app; [by apply ok_receipt_rows0|]. apply list_elem_of_singleton in Hx as ->. split; [done|].
    rewrite Hid. apply list_elem_of_fmap. by exists r.
  - intros a [Ha|Ha]%elem_of_app; [by apply ok_audits0|]. unfold rollback_rows in Ha. destruct (guardrail _ _ _); [|set_solver].
    apply list_elem_of_singleton in Ha as ->. cbn. destruct (count_fields variant status r) as (-> & _). apply list_elem_of_fmap. by exists r.
  - intros ? ? (x & -> & Hx)%list_elem_of_fmap (y & -> & Hy)%list_elem_of_fmap Hax Hay.
    destruct (Hplan x) as (-> & -> & _), (Hplan y) as (-> & -> & _). intros Hox Hwx. f_equal. apply ok_one_active0; auto.
  - intros ? (x & -> & Hx)%list_elem_of_fmap. unfold g. destruct (active_with_id (ro_ID r) x) eqn:Ex.
    + apply andb_true_iff in Ex as [Exid%String.eqb_eq _].
      assert (x = r) as -> by (by apply (NoDup_map_inj ro_ID (rollouts s))). by apply (row_ok_recorded s); auto.
    + assert (ro_ID r ≠ ro_ID x) as Hne.
      { intros Heq. assert (x = r) as -> by (by apply (NoDup_map_inj ro_ID (rollouts s))).
        unfold active_with_id, eqs in Ex. by rewrite String.eqb_refl, Hact in Ex. }
      destruct (ok_rows0 x Hx). split; try done.
      * match goal with |- context [tally ?s' x _ "failed"] => assert (∀ c st, tally s' x c st = tally s x c st) as Hsame end.
        { intros c st. rewrite (tally_app s _ x x o c st), bool_decide_false by (done || rewrite Hid; naive_solver). lia. }
        by rewrite !Hsame.
      * cbn. rewrite filter_app, length_app, announced_filter, row_announced0, (bool_decide_false (ro_ID r = ro_ID x)) by done.
        rewrite andb_false_r. lia.
Qed.

Lemma repair_loop_ok (P : Store → Prop) : (∀ runID s, P s → P (RecordWorkflowRolloutOutcome runID s).2) →
  ∀ l acc, P acc.2 → P (fold_left (λ acc runID,
    let '(repaired, s) := acc in
    match RecordWorkflowRolloutOutcome runID s with
    | (Recorded, s') => ((repaired + 1)%Z, s')
    | (_, s') => (repaired, s')
    end) l acc).2.
Proof.
  intros Hrec. induction l as [|runID l IH]; intros [n s] Hs; cbn [fold_left]; [done|]. apply IH.
  specialize (Hrec runID s Hs). by destruct (RecordWorkflowRolloutOutcome runID s) as [[] s'].
Qed.

Lemma step_ok s s' : store_ok s → step s s' → store_ok s'.
Proof.
  intros Hs []; auto using create_ok, finish_ok, record_ok, save_ok, deactivate_ok, reactivate_ok, store_ok_runs, store_ok_qualifications.
  unfold RepairWorkflowRolloutOutcomes. by apply (repair_loop_ok store_ok record_ok).
Qed.
Lemma empty_ok : store_ok empty_store.
Proof. split; cbn; try set_solver; constructor. Qed.
Lemma reachable_ok s : reachable s → store_ok s.
Proof. induction 1; [apply empty_ok|by eapply step_ok]. Qed.

(** ** What one transaction may do to a rollout *)

Definition receipts_of (s : Store) (r : WorkflowRollout) : list OutcomeRow :=
  filter (λ o, oc_RolloutID o = ro_ID r) (outcomes s).
Definition evolves (s s' : Store) : Prop :=
  ∀ r, r ∈ rollouts s → ∃ r', r' ∈ rollouts s' ∧ same_plan r r' ∧
    (active r = false → r' = r ∧ receipts_of s' r = receipts_of s r).
Lemma same_plan_refl r : same_plan r r.
Proof. by repeat split. Qed.
Lemma evolves_refl s : evolves s s.
Proof. intros r Hr. exists r. auto using same_plan_refl. Qed.
Lemma evolves_keep s s' : (∀ r, r ∈ rollouts s → r ∈ rollouts s') → outcomes s' = outcomes s → evolves s s'.
Proof. intros Hr Ho r ?. exists r. unfold receipts_of. rewrite Ho. auto using same_plan_refl. Qed.
Lemma evolves_trans s1 s2 s3 : evolves s1 s2 → evolves s2 s3 → evolves s1 s3.
Proof.
  intros H12 H23 r Hr. destruct (H12 r Hr) as (r2 & Hr2 & Hp2 & Hf2). destruct (H23 r2 Hr2) as (r3 & Hr3 & Hp3 & Hf3).
  exists r3. split; [done|]. split.
  - destruct Hp2 as (?&?&?&?&?&?&?&?), Hp3 as (?&?&?&?&?&?&?&?). repeat split; congruence.
  - intros Ha. destruct (Hf2 Ha) as [-> Hrec]. destruct (Hf3 Ha) as [-> Hrec']. by rewrite Hrec'.
Qed.
Lemma evolves_close p status reason s : (∀ r, p r = true → active r = true) → evolves s (update_where p (with_status status reason) s).
Proof.
  intros Hp r Hr. exists (if p r then with_status status reason r else r). destruct s as [wo ve ro oc ru qu au]. cbn in *.
  split; [apply list_elem_of_fmap; by exists r|]. split; [destruct (p r); auto using same_plan_status, same_plan_refl|].
  intros Ha. destruct (p r) eqn:E; [|done]. by rewrite (Hp r E) in Ha.
Qed.
Lemma evolves_record runID s : NoDup (map ro_ID (rollouts s)) → evolves s (RecordWorkflowRolloutOutcome runID s).2.
Proof.
  intros Hnd. destruct (outcome_of s runID) as [[r o]|] eqn:Ho; [|unfold RecordWorkflowRolloutOutcome; rewrite Ho; apply evolves_refl].
  destruct (decide (runID ∈ map oc_RunID (outcomes s))) as [Hdup|Hfresh].
  { unfold RecordWorkflowRolloutOutcome. rewrite Ho. destruct (existsb _ _) eqn:Ee; [apply evolves_refl|]. by apply not_in_existsb in Ee. }
  rewrite (record_shape runID s r o) by done. apply outcome_of_spec in Ho as (Hr & Hact & _ & Hid & _). intros x Hx.
  exists (if active_with_id (ro_ID r) x then recorded (oc_Variant o) (oc_Status o) x else x).
  cbn. split; [apply list_elem_of_fmap; by exists x|]. split; [destruct (active_with_id _ x); auto using recorded_plan, same_plan_refl|].
  intros Ha. destruct (active_with_id (ro_ID r) x) eqn:Ex; [unfold active_with_id in Ex; by rewrite Ha, andb_false_r in Ex|].
  split; [done|]. unfold receipts_of. cbn. rewrite filter_app, filter_cons_False, filter_nil, app_nil_r; [done|]. rewrite Hid. intros Heq.
  assert (x = r) as -> by (by apply (NoDup_map_inj ro_ID (rollouts s))). congruence.
Qed.
Lemma evolves_step s s' : store_ok s → step s s' → evolves s s'.
Proof.
  intros Hs [].
  - unfold CreateWorkflowRollout, InsertWorkflowRollout. repeat case_match; simplify_eq/=; try apply evolves_refl.
    destruct s. apply evolves_keep; [|done]. cbn. set_solver.
  - unfold FinishWorkflowRollout. case_match; [apply evolves_refl|]. case_match; [|apply evolves_refl].
    apply evolves_close. by intros r [_ ?]%andb_true_iff.
  - apply evolves_record, Hs.
  - unfold RepairWorkflowRolloutOutcomes. apply (repair_loop_ok (λ t, store_ok t ∧ evolves s t)).
    + intros runID t [Ht He]. split; [by apply record_ok|]. eapply evolves_trans; [done|]. apply evolves_record, Ht.
    + split; [done|]. apply evolves_refl.
  - unfold saveWorkflowVersionAttempt, write_version. repeat case_match; try apply evolves_refl; by destruct s; apply evolves_keep.
  - unfold DeactivateWorkflow, set_deleted. destruct (existsb _ _); [|apply evolves_refl]. cbn [snd].
    eapply evolves_trans; [|apply evolves_close; by intros r [_ ?]%andb_true_iff]. by destruct s; apply evolves_keep.
  - unfold ReactivateWorkflow, set_deleted. destruct (existsb _ _); [|apply evolves_refl].
    repeat case_match; try apply evolves_refl; by destruct s; apply evolves_keep.
  - by destruct s; apply evolves_keep.
  - by destruct s; apply evolves_keep.
Qed.

(** ** The row an assignment reads *)

Lemma newer_active a b : newer a b = true → active b = true → active a = true.
Proof. unfold newer. by destruct (active a), (active b). Qed.
Lemma newer_inactive a b : newer a b = false → active a = true → active b = true.
Proof. unfold newer. by destruct (active a), (active b). Qed.
Lemma head_insert_active x l : (active x = true ∨ ∃ y, head l = Some y ∧ active y = true) →
  ∃ z, head (insert_before newer x l) = Some z ∧ active z = true.
Proof.
  destruct l as [|y l]; cbn; [intros [?|(? & [=] & _)]; eauto|].
  intros Hor. destruct (newer y x) eqn:E; cbn.
  - exists y. split; [done|]. destruct Hor as [Hx|(? & [= <-] & ?)]; [by eapply newer_active|done].
  - exists x. split; [done|]. destruct Hor as [Hx|(? & [= <-] & ?)]; [done|by eapply newer_inactive].
Qed.
Lemma head_sort_active l r : r ∈ l → active r = true → ∃ z, head (stable_sort newer l) = Some z ∧ active z = true.
Proof.
  induction l as [|x l IH]; [set_solver|]. cbn [stable_sort]. intros [<-|Hr]%elem_of_cons Ha; apply head_insert_active; auto.
Qed.
(** The active rollout is the one that traffic follows. *)
Lemma active_is_latest s r : store_ok s → r ∈ rollouts s → active r = true →
  GetLatestWorkflowRolloutRow s (ro_OrgID r) (ro_WorkflowID r) = Some r.
Proof.
  intros Hs Hr Ha. unfold GetLatestWorkflowRolloutRow. rewrite (row_live _ _ (ok_rows s Hs r Hr) Ha).
  set (P := λ x, ro_OrgID x = ro_OrgID r ∧ ro_WorkflowID x = ro_WorkflowID r).
  destruct (head_sort_active (filter P (rollouts s)) r) as (z & Hz & Haz); [by apply list_elem_of_filter|done|].
  rewrite Hz. f_equal. destruct (stable_sort newer _) as [|z' l] eqn:E; [done|]. injection Hz as ->.
  assert (z ∈ stable_sort newer (filter P (rollouts s))) as Hin by (rewrite E; by left).
  apply elem_of_stable_sort, list_elem_of_filter in Hin as [[Ho Hw] Hin]. by apply (ok_one_active s Hs).
Qed.

(** No transaction changes the plan of a rollout (its versions,
    its traffic, its thresholds); and once a rollout is finished, its row and its receipts
    never change again, whatever runs end later and however they are repaired. *)
Theorem finished_rollout_frozen (s s' : Store) (r : WorkflowRollout) :
  reachable s → step s s' → r ∈ rollouts s →
  ∃ r', r' ∈ rollouts s' ∧ same_plan r r' ∧
    (active r = false → r' = r ∧ receipts_of s' r = receipts_of s r).
Proof. intros Hs Hstep Hr. by apply (evolves_step s s' (reachable_ok s Hs) Hstep). Qed.

(** ** A history *)

Definition demo_dag : string :=
  of_bytes (map (λ c, if Ascii.eqb c "'" then chr 34 else c) (bytes "{'nodes':[],'edges':[]}")).
Definition demo_input : CreateRolloutInput := mkCreateRollout "org" "wf" "v1" "v2" 50 50 58 "ana".
Definition demo_start : Store :=
  (CreateWorkflowRollout json_error demo_input "ro" 0
    (saveWorkflowVersionAttempt "org" "wf" "W" "v2" demo_dag
      (saveWorkflowVersionAttempt "org" "wf" "W" "v1" demo_dag empty_store).2).2).2.
Definition finished_canary (status : string) : RunRow := mkRunRow "org" status None (Some "ro") (Some "canary") "v2" None 0.
Definition demo_finish (s : Store) (run : string * string) : Store :=
  (RecordWorkflowRolloutOutcome run.1 (set_runs (<[run.1 := finished_canary run.2]> (runs s)) s)).2.
Definition demo_runs (status : string) (from n : nat) : list (string * string) :=
  map (λ i, (Itoa (Z.of_nat i), status)) (seq from n).

Lemma demo_start_reachable : reachable demo_start.
Proof.
  eapply reach_step; [|apply step_create]. eapply reach_step; [|apply step_save]. eapply reach_step; [|apply step_save]. constructor.
Qed.
Lemma demo_reachable l s : reachable s → reachable (fold_left demo_finish l s).
Proof.
  revert s. induction l as [|run l IH]; intros s Hs; cbn [fold_left]; [done|]. apply IH.
  eapply reach_step; [|apply step_record]. eapply reach_step; [done|apply step_run].
Qed.
(** 29 successes and 21 failures of a canary that must succeed in 58% of at least 50 runs. *)
Definition exact_rate : Store := fold_left demo_finish (demo_runs "succeeded" 0 29 ++ demo_runs "failed" 29 21) demo_start.

(** A canary whose success rate equals the minimum exactly can be
    rolled back for being below it: 29 of 50 runs are 58%, but the quotient times one
    hundred rounds to a number below 58. *)
Theorem exact_rate_rolls_back : ∃ s r, reachable s ∧ rollouts s = [r] ∧ ro_Status r = "rolled_back" ∧
  RolledBackReason r = Some "canary_success_rate_breach" ∧
  (100 * CanarySucceeded r = MinimumSuccessRatePercent r * canary_sample r)%Z.
Proof.
  exists exact_rate. eexists. split; [apply demo_reachable, demo_start_reachable|]. split; [vm_compute; reflexivity|]. by vm_compute.
Qed.
(** ** Assignments *)

Context (sha256 : string → list ascii).

(** The receipt of a run that carries an assignment. *)
Lemma assigned_run_counts s r variant runID status run : store_ok s → r ∈ rollouts s → active r = true →
  terminal_status status = true →
  run = mkRunRow (ro_OrgID r) status None (Some (ro_ID r)) (Some variant) (variant_version r variant) None 0 →
  (RecordWorkflowRolloutOutcome runID (set_runs (<[runID := run]> (runs s)) s)).1 ≠ Ignored.
Proof.
  intros Hs Hr Ha Hterm ->. unfold RecordWorkflowRolloutOutcome, outcome_of. destruct s as [wo ve ro oc ru qu au].
  cbn [set_runs runs rollouts outcomes] in *. rewrite lookup_insert_eq. cbn [mbind option_bind WorkflowRolloutID WorkflowRolloutVariant ReplayMode ru_Status ru_OrgID WorkflowVersionID].
  rewrite bool_decide_false by (by intros [? [=]]). rewrite Hterm. cbn [orb negb].
  destruct (head (filter _ ro)) as [x|] eqn:E; cbn.
  - apply head_filter_Some in E as (Hx & Hid & _ & _).
    assert (x = r) as -> by (by apply (NoDup_map_inj ro_ID ro); [apply Hs|..]). unfold eqs at 1. rewrite String.eqb_refl.
    repeat case_match; done.
  - exfalso. destruct (filter _ ro) as [|] eqn:Ef; [|done]. apply (not_elem_of_nil r). rewrite <-Ef. by apply list_elem_of_filter.
Qed.

(** While a rollout is active, every key that starts a run of its
    workflow gets an assignment of that rollout, without an error: the canary version when
    the bucket of the key is below the traffic percentage, the baseline version otherwise,
    each with its readable document. A run with this assignment that ends while the rollout
    is active is counted. *)
Theorem active_rollout_assigns (s : Store) (r : WorkflowRollout) (key : string) :
  reachable s → r ∈ rollouts s → active r = true →
  let variant := if decide (WorkflowRolloutBucket sha256 (ro_ID r) key < TrafficPercent r)%Z then "canary" else "baseline" in
  (∃ v wf, GetWorkflowVersionByID s (variant_version r variant) (ro_OrgID r) (ro_WorkflowID r) = Some v ∧
     parse_version v = Some wf ∧
     ResolveWorkflowRolloutAssignment json_error sha256 (ro_OrgID r) (ro_WorkflowID r) key s =
       Ok (Some (mkAssignment r variant (variant_version r variant) (ve_Version v) wf))) ∧
  (∀ runID status, terminal_status status = true →
     (RecordWorkflowRolloutOutcome runID
        (set_runs (<[runID := mkRunRow (ro_OrgID r) status None (Some (ro_ID r)) (Some variant) (variant_version r variant) None 0]> (runs s)) s)).1
       ≠ Ignored).
Proof.
  intros Hs%reachable_ok Hr Ha variant. split; [|intros; by eapply assigned_run_counts].
  assert (assigned_variant sha256 r key = variant) as Hvariant.
  { unfold assigned_variant. rewrite Ha. unfold variant.
    destruct (decide _) as [Hlt%Z.ltb_lt|Hge%Z.ltb_nlt]; [by rewrite Hlt|by rewrite Hge]. }
  pose proof (ok_rows s Hs r Hr) as Hrow. destruct (row_latest _ _ Hrow Ha) as (latest & Hlatest & Hid).
  destruct (row_versions _ _ Hrow) as (b & c & bw & cw & Hb & Hc & _ & Hpb & Hpc).
  assert (∃ v wf, GetWorkflowVersionByID s (variant_version r variant) (ro_OrgID r) (ro_WorkflowID r) = Some v ∧ parse_version v = Some wf)
    as (v & wf & Hv & Hwf).
  { unfold variant_version. destruct (eqs variant "canary"); eauto. }
  exists v, wf. split_and!; [done|done|]. unfold ResolveWorkflowRolloutAssignment.
  rewrite (active_is_latest s r Hs Hr Ha), Hlatest, Hid. unfold eqs at 1. rewrite String.eqb_refl. cbn [negb].
  by rewrite Hvariant, Hv, Hwf.
Qed.

End facts.

#[local] Instance tables : UnicodeTables := {| is_print := λ _, true |}.
Definition zero_digest : string → list ascii := λ _, repeat (chr 0) 32.

Definition demo_finished : Store := exact_rate id.
Definition demo_row : WorkflowRollout := default (new_rollout demo_input "" 0) (head (rollouts demo_finished)).
Lemma finished_rollout_frozen_witness :
  active demo_row = false ∧ ∃ r', r' ∈ rollouts (demo_finish demo_finished ("late", "succeeded")) ∧ same_plan demo_row r' ∧
    (active demo_row = false → r' = demo_row ∧
       receipts_of (demo_finish demo_finished ("late", "succeeded")) demo_row =
       receipts_of (set_runs (<["late" := finished_canary "succeeded"]> (runs demo_finished)) demo_finished) demo_row).
Proof.
  split; [by vm_compute|]. apply (finished_rollout_frozen id).
  - eapply reach_step; [|apply step_run]. apply (demo_reachable id), (demo_start_reachable id).
  - apply step_record.
  - assert (rollouts demo_finished = [demo_row]) as Heq by (vm_compute; reflexivity).
    destruct demo_finished. cbn in *. rewrite Heq. by left.
Defined.

Definition demo_active : Store := demo_start id.
Definition active_row : WorkflowRollout := new_rollout demo_input "ro" 0.
Lemma active_rollout_assigns_witness :
  let variant := "canary" in
  active active_row = true ∧
  (∃ v wf, GetWorkflowVersionByID demo_active (variant_version active_row variant) "org" "wf" = Some v ∧
     parse_version id v = Some wf ∧
     ResolveWorkflowRolloutAssignment id zero_digest "org" "wf" "key" demo_active =
       Ok (Some (mkAssignment active_row variant (variant_version active_row variant) (ve_Version v) wf))) ∧
  (∀ runID status, terminal_status status = true →
     (RecordWorkflowRolloutOutcome runID
        (set_runs (<[runID := mkRunRow "org" status None (Some "ro") (Some variant) "v2" None 0]> (runs demo_active)) demo_active)).1
       ≠ Ignored).
Proof.
  intros variant. split; [done|].
  apply (active_rollout_assigns id zero_digest demo_active active_row "key"); [apply demo_start_reachable| |done].
  by left.
Defined.
