(* ===== verification/QualificationFacts.v ===== *)
(** Semantic verdicts and qualifications: what a verdict on an output says of its detectors,
    and when a candidate version passes. *)
From S2P Require Import Prelude GoStrings GoFloat GoAny Json Expression ExpressionFacts Graph Inputs InputsFacts RecoveryContract RecoveryDag WorkflowParse Rollout Qualification.
Local Open Scope string_scope.
Local Open Scope list_scope.

(** ** The verdict on one output *)

(** What it is for a detector to fail on an output in a context. *)
Definition detector_fails (context : obj) (output : any) (d : RecoverySemanticDetector) : Prop :=
  (det_Kind d = "expression" ∧ EvaluateExpression (PassWhen d) (mkScope (AObj context) (AObj [])) ≠ Some (Ok true)) ∨
  (det_Kind d = "schema" ∧ ∃ s, Schema d = Some s ∧ ¬ conforms s output).
(** A detector that cannot panic. *)
Definition readable_detector (d : RecoverySemanticDetector) : Prop :=
  det_Kind d = "schema" → ∃ s, Schema d = Some s ∧ sound s.

Lemma detector_violations_spec context output d : readable_detector d →
  ∃ vs, detector_violations context output d = Some vs ∧ (∀ v, v ∈ vs → vi_DetectorID v = det_ID d ∧ vi_Action v = Action d) ∧
    (vs ≠ [] ↔ detector_fails context output d).
Proof.
  intros Hok. unfold detector_violations, detector_fails, eqs.
  destruct (String.eqb_spec (det_Kind d) "expression") as [Hk|Hk].
  - destruct (evaluateInternal_total (PassWhen d) (mkScope (AObj context) (AObj [])) false) as [r Hr].
    unfold EvaluateExpression. rewrite Hr. rewrite Hk.
    destruct r as [[]|e]; eexists; (split; [done|]); split; set_solver.
  - destruct (String.eqb_spec (det_Kind d) "schema") as [Hs|Hs].
    + destruct (Hok Hs) as (s & Hsch & Hsound). rewrite Hsch. cbn [mbind option_bind].
      destruct (walkInput_ok s Hsound output "$") as (errs & He & Hiff). unfold ValidateInputValue. rewrite He. cbn [mbind option_bind].
      destruct errs as [|e errs]; eexists; (split; [done|]); (split; [set_solver|]); rewrite Hs.
      * split; [done|]. intros [[? _]|(_ & s' & Hs' & Hno)]; [done|]. simplify_eq. destruct Hno. by apply Hiff.
      * split; [|done]. intros _. right. split; [done|]. exists s. split; [done|]. intros Hc. by apply Hiff in Hc.
    + exists []. split_and!; [done|set_solver|]. naive_solver.
Qed.

Section verdict.
Context (contract : option RecoveryContract) (source : string) (output : any) (context : obj).
Abbreviation seen := (overlay context source output).
Abbreviation attached := (attached_detectors contract source).

Lemma concat_violations l : (∀ d, d ∈ l → readable_detector d) →
  ∃ vs, concat_all (map (detector_violations seen output) l) = Some vs ∧
    (∀ v, v ∈ vs → ∃ d, d ∈ l ∧ detector_fails seen output d ∧ vi_DetectorID v = det_ID d ∧ vi_Action v = Action d) ∧
    (∀ d, d ∈ l → detector_fails seen output d → ∃ v, v ∈ vs ∧ vi_DetectorID v = det_ID d ∧ vi_Action v = Action d).
Proof.
  induction l as [|d l IH]; intros Hok; cbn [map concat_all]; [exists []; set_solver|].
  destruct (detector_violations_spec seen output d) as (vs & Hvs & Hv & Hfail); [apply Hok; by left|].
  destruct IH as (ws & Hws & Hsound & Hcomplete); [intros; apply Hok; by right|].
  rewrite Hvs. cbn [mbind option_bind]. rewrite Hws. cbn [mbind option_bind]. eexists. split; [done|]. split.
  - intros v [Hin|Hin]%elem_of_app.
    + exists d. split; [by left|]. destruct (Hv v Hin). split; [|done]. apply Hfail. intros ->. set_solver.
    + destruct (Hsound v Hin) as (d' & ? & ?). exists d'. split; [by right|done].
  - intros d' [->|Hd']%elem_of_cons Hf.
    + apply Hfail in Hf. destruct vs as [|v vs]; [done|]. exists v. destruct (Hv v ltac:(by left)). set_solver.
    + destruct (Hcomplete d' Hd' Hf) as (v & ? & ?). exists v. set_solver.
Qed.

Lemma evaluation_spec : (∀ d, d ∈ attached → readable_detector d) →
  ∃ e, EvaluateSemanticOutcome contract source output context = Some e ∧
    Evaluated e = Z.of_nat (length attached) ∧
    (∀ id, id ∈ map vi_DetectorID (Violations e) ↔ ∃ d, d ∈ attached ∧ det_ID d = id ∧ detector_fails seen output d) ∧
    (Violations e = [] ↔ ∀ d, d ∈ attached → ¬ detector_fails seen output d) ∧
    (Quarantined e = true ↔ ∃ d, d ∈ attached ∧ detector_fails seen output d ∧ Action d = "quarantine").
Proof.
  intros Hok. destruct (concat_violations attached Hok) as (vs & Hvs & Hsound & Hcomplete).
  unfold EvaluateSemanticOutcome. rewrite Hvs. cbn [mbind option_bind]. eexists. split; [done|]. cbn [Evaluated Violations Quarantined].
  split; [done|]. split_and!.
  - intros id. rewrite list_elem_of_fmap. split.
    + intros (v & -> & Hv). destruct (Hsound v Hv) as (d & ? & ? & ? & _). eauto.
    + intros (d & Hd & <- & Hf). destruct (Hcomplete d Hd Hf) as (v & ? & ? & _). by exists v.
  - split.
    + intros -> d Hd Hf. destruct (Hcomplete d Hd Hf) as (v & ? & _). set_solver.
    + intros Hnone. destruct vs as [|v vs]; [done|]. destruct (Hsound v ltac:(by left)) as (d & Hd & Hf & _). by destruct (Hnone d).
  - rewrite existsb_elem. split.
    + intros (v & Hv & Hq%String.eqb_eq). destruct (Hsound v Hv) as (d & Hd & Hf & _ & Ha). exists d. by rewrite <-Ha.
    + intros (d & Hd & Hf & Ha). destruct (Hcomplete d Hd Hf) as (v & Hv & _ & Hva). exists v. split; [done|]. rewrite Hva, Ha. done.
Qed.
End verdict.

Section valid.
Context `{UnicodeTables}.

Lemma valid_detectors c : ValidateRecoveryContract (Some c) = [] → Version c = "2" →
  (∀ d, d ∈ Detectors (Semantic c) → readable_detector d ∧ det_Kind d ∈ ["expression"; "schema"]) ∧
  (∀ f, f ∈ EvaluationFixtures (Semantic c) → Expected f ∈ ["pass"; "violation"]).
Proof.
  intros Hvalid Hv2. unfold ValidateRecoveryContract in Hvalid. rewrite Hv2 in Hvalid. change (eqs "2" "1") with false in Hvalid.
  change (eqs "2" "2") with true in Hvalid. cbn [negb andb] in Hvalid. apply app_nil in Hvalid as [Hfailure _].
  unfold validateRecoveryFailure in Hfailure. rewrite Hv2 in Hfailure. change (eqs "2" "1") with false in Hfailure.
  change (eqs "2" "2") with true in Hfailure. cbv iota in Hfailure. unfold validateSemanticV2 in Hfailure.
  autorewrite with report in Hfailure. destruct Hfailure as (_ & _ & _ & _ & Hdet & _ & _ & Hfix & _). split.
  - intros d [i Hi]%list_elem_of_lookup. apply Hdet in Hi. unfold detector_problems in Hi. autorewrite with report in Hi.
    destruct Hi as (_ & _ & Hkind & _). unfold readable_detector. unfold eqs in Hkind.
    destruct (String.eqb_spec (det_Kind d) "expression") as [->|]; [split; [done|set_solver]|].
    destruct (String.eqb_spec (det_Kind d) "schema") as [->|]; [|done]. split; [|set_solver]. intros _.
    destruct (Schema d) as [s|]; [|done]. exists s. split; [done|]. apply push_if_nil, negb_false_iff in Hkind.
    apply shape_sound. by destruct (validInputSchemaShape (Some s)) as [[]|].
  - intros f [i Hi]%list_elem_of_lookup. apply Hfix in Hi. unfold fixture_problems in Hi. autorewrite with report in Hi.
    destruct Hi as (_ & _ & [Hp|Hp]%andb_false_iff); apply negb_false_iff, String.eqb_eq in Hp; set_solver.
Qed.
Lemma attached_readable c source : ValidateRecoveryContract (Some c) = [] →
  ∀ d, d ∈ attached_detectors (Some c) source → readable_detector d.
Proof.
  intros Hvalid d. unfold attached_detectors, semanticContract. cbn [mbind option_bind].
  destruct (eqs (Version c) "2") eqn:E; [|set_solver]. apply String.eqb_eq in E.
  intros [_ Hd]%list_elem_of_filter. by apply (valid_detectors c).
Qed.

(** Under a valid contract the verdict on the output of a node
    always exists. Its violations are the detectors attached to the node that fail on the
    output: an expression that is false or an error when it reads the output in the place of
    the node, a schema to which the output does not conform. The output is quarantined
    exactly when a detector whose action is quarantine fails; and a contract of version 1
    has no violations. *)
Theorem semantic_verdict_correct (c : RecoveryContract) (source : string) (output : any) (context : obj) :
  ValidateRecoveryContract (Some c) = [] →
  ∃ e, EvaluateSemanticOutcome (Some c) source output context = Some e ∧
    (∀ id, id ∈ map vi_DetectorID (Violations e) ↔
       ∃ d, d ∈ attached_detectors (Some c) source ∧ det_ID d = id ∧ detector_fails (overlay context source output) output d) ∧
    (Quarantined e = true ↔
       ∃ d, d ∈ attached_detectors (Some c) source ∧ detector_fails (overlay context source output) output d ∧ Action d = "quarantine") ∧
    (Version c = "1" → Violations e = [] ∧ Quarantined e = false).
Proof.
  intros Hvalid. destruct (evaluation_spec (Some c) source output context (attached_readable c source Hvalid))
    as (e & He & _ & Hids & Hnone & Hq). exists e. split_and!; [done|done|done|]. intros Hv1.
  assert (attached_detectors (Some c) source = []) as Hno by (unfold attached_detectors, semanticContract; cbn; by rewrite Hv1).
  rewrite Hno in Hnone, Hq. split; [apply Hnone; set_solver|]. apply not_true_iff_false. rewrite Hq. set_solver.
Qed.

(** ** The qualification *)

Definition violated (contract : option RecoveryContract) (f : RecoverySemanticFixture) : Prop :=
  ∃ d, d ∈ attached_detectors contract (fix_SourceNodeID f) ∧
    detector_fails (overlay (fix_Context f) (fix_SourceNodeID f) (fix_Output f)) (fix_Output f) d.
(** The fixture has the outcome it expects. *)
Definition as_expected (contract : option RecoveryContract) (f : RecoverySemanticFixture) : Prop :=
  (Expected f = "pass" ∧ ¬ violated contract f) ∨ (Expected f = "violation" ∧ violated contract f).
Definition covered (c : RecoveryContract) (f : RecoverySemanticFixture) : Prop :=
  ∃ d, d ∈ Detectors (Semantic c) ∧ det_SourceNodeID d = fix_SourceNodeID f.

Lemma fixture_spec contract f : (∀ d, d ∈ attached_detectors contract (fix_SourceNodeID f) → readable_detector d) →
  ∃ e, EvaluateSemanticOutcome contract (fix_SourceNodeID f) (fix_Output f) (fix_Context f) = Some e ∧
    (eqs (verdict (Violations e)) (Expected f) = true ↔ as_expected contract f).
Proof.
  intros Hok. destruct (evaluation_spec _ _ (fix_Output f) (fix_Context f) Hok) as (e & He & _ & Hids & Hnone & _).
  exists e. split; [done|]. unfold eqs. rewrite String.eqb_eq. unfold as_expected.
  destruct (Violations e) as [|v vs]; cbn [verdict].
  - assert (¬ violated contract f) by (intros (d & Hd & Hf); by apply (proj1 Hnone eq_refl d Hd)). naive_solver.
  - assert (violated contract f); [|naive_solver].
    destruct (proj1 (Hids (vi_DetectorID v))) as (d & Hd & _ & Hf); [by left|]. by exists d.
Qed.

(** The expectation under a candidate: some detector watches the node, and the outcome holds. *)
Definition holds (c : RecoveryContract) (f : RecoverySemanticFixture) : Prop := covered c f ∧ as_expected (Some c) f.
Definition valid_v2 (c : RecoveryContract) : Prop := ValidateRecoveryContract (Some c) = [] ∧ Version c = "2".

Lemma candidate_fixture_spec c f : valid_v2 c →
  ∃ actual passed vs, evaluateQualificationFixture c f = Some (actual, passed, vs) ∧ (passed = true ↔ holds c f).
Proof.
  intros [Hvalid Hv2]. unfold evaluateQualificationFixture, holds, covered. destruct (existsb _ _) eqn:Ec; cbn [negb].
  - destruct (fixture_spec (Some c) f) as (e & He & Hiff); [by apply attached_readable|]. rewrite He. cbn [mbind option_bind].
    do 3 eexists. split; [done|]. rewrite Hiff. apply existsb_elem in Ec as (d & Hd & Hs%String.eqb_eq). naive_solver.
  - do 3 eexists. split; [done|]. split; [done|]. intros [(d & Hd & Hs) _]. rewrite existsb_false_elem in Ec.
    specialize (Ec d Hd). unfold eqs in Ec. by rewrite Hs, String.eqb_refl in Ec.
Qed.

(** The counters that the failures respect: a bounded list of the first ones. *)
Definition bounded (t : tallies) : Prop :=
  (0 <= totalFailures t)%Z ∧ length (failures t) = Nat.min RecoveryQualificationFailureLimit (Z.to_nat (totalFailures t)).
Lemma addFailure_bounded f t : bounded t → bounded (addFailure f t).
Proof.
  destruct t as [p r c total fs]. unfold bounded. cbn [addFailure totalFailures failures]. intros [Ht Hlen]. split; [lia|].
  destruct (Nat.ltb_spec (length fs) RecoveryQualificationFailureLimit); rewrite ?length_app; cbn [length]; lia.
Qed.
(** What a data set adds: [bad] of its fixtures do not hold. *)
Lemma evaluateDataset_spec c dataset fixtures t : valid_v2 c → bounded t →
  ∃ t' bad, evaluateDataset c dataset fixtures t = Some t' ∧ bounded t' ∧ (0 <= bad)%Z ∧
    passedAssertions t' = (passedAssertions t + Z.of_nat (length fixtures) - bad)%Z ∧
    regressions t' = (regressions t + if eqs dataset "baseline" then bad else 0)%Z ∧
    totalFailures t' = (totalFailures t + bad)%Z ∧
    (bad = 0%Z ↔ ∀ f, f ∈ fixtures → holds c f).
Proof.
  intros Hc. revert t. induction fixtures as [|f fixtures IH]; intros t Hb; cbn [evaluateDataset length].
  { exists t, 0%Z. split_and!; try done; [lia|destruct (eqs _ _); lia|lia|set_solver]. }
  destruct (candidate_fixture_spec c f Hc) as (actual & passed & vs & He & Hiff). unfold assess_fixture. rewrite He.
  destruct t as [p r co total fs]. destruct passed; cbn [mbind option_bind].
  - destruct (IH (mkTallies (p + 1) r co total fs) Hb) as (t' & bad & Ht' & Hb' & Hbad & Hp & Hr & Htot & Hall).
    exists t', bad. rewrite Ht'. cbn in Hp, Hr, Htot |- *. split_and!; try done; [lia|]. rewrite Hall. set_solver.
  - match goal with |- context [evaluateDataset _ _ _ ?t0] => destruct (IH t0) as (t' & bad & Ht' & Hb' & Hbad & Hp & Hr & Htot & Hall) end.
    { by apply addFailure_bounded. }
    exists t', (bad + 1)%Z. rewrite Ht'. cbn in Hp, Hr, Htot |- *. split_and!; try done; [lia|lia|destruct (eqs dataset "baseline"); lia|lia|].
    split; [lia|]. intros Hevery. assert (holds c f) as Hf by (apply Hevery; by left). by apply Hiff in Hf.
Qed.

Lemma fixture_results contract fixtures : (∀ f d, f ∈ fixtures → d ∈ attached_detectors contract (fix_SourceNodeID f) → readable_detector d) →
  ∃ results, mapM (fixture_result contract) fixtures = Some results ∧
    (forallb fr_Passed results = true ↔ ∀ f, f ∈ fixtures → as_expected contract f).
Proof.
  induction fixtures as [|f fixtures IH]; intros Hok; [exists []; split; [done|]; set_solver|].
  destruct IH as (results & Hr & Hall); [set_solver|].
  destruct (fixture_spec contract f) as (e & He & Hiff); [set_solver|].
  assert (∃ r, fixture_result contract f = Some r ∧ fr_Passed r = eqs (verdict (Violations e)) (Expected f)) as (r & Hf & Hp).
  { unfold fixture_result. rewrite He. by eexists. }
  exists (r :: results). split; [cbn; by rewrite Hf; cbn; rewrite Hr|]. cbn [forallb]. rewrite andb_true_iff, Hall, Hp, Hiff. set_solver.
Qed.
Lemma assess_fold results valid t : bounded t →
  bounded (fold_left assess_result results (valid, t)).2 ∧
  (fold_left assess_result results (valid, t)).1 = valid && forallb fr_Passed results ∧
  passedAssertions (fold_left assess_result results (valid, t)).2 = passedAssertions t ∧
  regressions (fold_left assess_result results (valid, t)).2 = regressions t.
Proof.
  revert valid t. induction results as [|r results IH]; intros valid t Hb; cbn [fold_left forallb]; [by rewrite andb_true_r|].
  unfold assess_result at 2 4 6 8. destruct (fr_Passed r); [by apply IH|]. cbn [snd].
  match goal with |- context [fold_left _ _ (false, ?t0)] => destruct (IH false t0 (addFailure_bounded _ _ Hb)) as (Hb' & -> & Hp & Hr) end.
  rewrite andb_false_r. split_and!; try done; rewrite ?Hp, ?Hr; by destruct t.
Qed.

Definition contract_ok (o : option RecoveryContract) : Prop := ∀ c, o = Some c → ValidateRecoveryContract (Some c) = [].
Lemma qualification_v2 wf c : contract_ok (qualificationContract wf) → qualificationContract wf = Some c → valid_v2 c.
Proof.
  intros Hok Hc. split; [by apply Hok|]. unfold qualificationContract in Hc.
  destruct (Recovery wf) as [r|]; [|done]. cbn [mbind option_bind] in Hc. destruct (Contract r) as [c'|]; [|done]. cbn [mbind option_bind] in Hc.
  destruct (eqs (Version c') "2") eqn:E; [|done]. injection Hc as <-. by apply String.eqb_eq.
Qed.
Lemma baseline_results (o : option RecoveryContract) : (∀ c, o = Some c → valid_v2 c) →
  ∃ results, EvaluateSemanticOutcomeFixtures o = Some results ∧
    (forallb fr_Passed results = true ↔ ∀ f, f ∈ fixtures_of o → as_expected o f).
Proof.
  intros Hok. unfold EvaluateSemanticOutcomeFixtures, semanticContract, fixtures_of. destruct o as [c|]; cbn [mbind option_bind].
  - destruct (Hok c eq_refl) as [Hvalid Hv2]. rewrite Hv2. cbn [eqs]. apply fixture_results. intros f d _. by apply attached_readable.
  - exists []. split; [done|]. set_solver.
Qed.
Lemma bounded_limit t : bounded t → (length (failures t) ≤ 20)%nat ∧
  ((Z.of_nat (length (failures t)) <? totalFailures t)%Z = true ↔ (20 < totalFailures t)%Z).
Proof. unfold bounded, RecoveryQualificationFailureLimit. intros [? ->]. rewrite Z.ltb_lt. lia. Qed.

(** C34: the comparison of two versions with valid contracts always
    returns. It is not required exactly when neither version has a contract of version 2. A
    candidate passes exactly when it has one, every fixture of the baseline has the outcome
    it expects under the baseline, and every fixture of both versions has it under the
    candidate, with a detector on its node. Passed and failed assertions add up to the
    fixtures; the regressions are zero exactly when no fixture of the baseline is lost; and
    at most twenty failures are kept. *)
Theorem qualification_decides (sha256_hex : string → string) (baseline candidate : Workflow) :
  contract_ok (qualificationContract baseline) → contract_ok (qualificationContract candidate) →
  ∃ s, QualifyRecoveryCandidate sha256_hex baseline candidate = Some s ∧
    (qs_Status s = "not_required" ↔ qualificationContract baseline = None ∧ qualificationContract candidate = None) ∧
    (qs_Status s = "passed" ↔ ∃ c, qualificationContract candidate = Some c ∧
       (∀ f, f ∈ fixtures_of (qualificationContract baseline) → as_expected (qualificationContract baseline) f ∧ holds c f) ∧
       (∀ f, f ∈ EvaluationFixtures (Semantic c) → holds c f)) ∧
    (PassedCandidateAssertions s + FailedCandidateAssertions s = CandidateAssertionCount s)%Z ∧
    (∀ c, qualificationContract candidate = Some c →
       (RegressionCount s = 0%Z ↔ ∀ f, f ∈ fixtures_of (qualificationContract baseline) → holds c f)) ∧
    (length (Failures s) ≤ 20)%nat.
Proof.
  intros Hb Hc. unfold QualifyRecoveryCandidate.
  pose proof (qualification_v2 baseline) as Hb2. pose proof (qualification_v2 candidate) as Hc2.
  destruct (baseline_results (qualificationContract baseline)) as (results & Hres & Hvalid); [auto|]. rewrite Hres.
  destruct (assess_fold results true no_tallies) as (Hbd & Hv & Hp0 & Hr0); [by split|].
  unfold assess_baseline. destruct (fold_left assess_result results (true, no_tallies)) as [valid t] eqn:Ea.
  cbn [fst snd andb] in Hbd, Hv, Hp0, Hr0. subst valid.
  destruct (qualificationContract candidate) as [c|].
  - destruct (evaluateDataset_spec c "baseline" (fixtures_of (qualificationContract baseline)) t (Hc2 c Hc eq_refl) Hbd)
      as (t1 & bad1 & Ht1 & Hbd1 & Hpos1 & Hp1 & Hr1 & _ & Hall1).
    destruct (evaluateDataset_spec c "candidate" (fixtures_of (Some c)) t1 (Hc2 c Hc eq_refl) Hbd1)
      as (t2 & bad2 & Ht2 & Hbd2 & Hpos2 & Hp2 & Hr2 & _ & Hall2).
    destruct (bounded_limit t2 Hbd2) as [Hlim _]. cbn in Hr1, Hr2. rewrite Hp0 in Hp1. rewrite Hr0 in Hr1. cbn in Hp1, Hr1.
    set (n := Z.of_nat (length (fixtures_of (qualificationContract baseline)))) in *. set (m := Z.of_nat (length (fixtures_of (Some c)))) in *.
    exists (mkSummary RecoveryQualificationDatasetVersion
      (datasetDigest sha256_hex (fixtures_of (qualificationContract baseline)) (fixtures_of (Some c)))
      (match qualificationContract baseline with Some _ => "compare" | None => "bootstrap" end)
      (if forallb fr_Passed results && (n + m - passedAssertions t2 =? 0)%Z then "passed" else "failed")
      n m (n + m) (passedAssertions t2) (n + m - passedAssertions t2) (regressions t2) (coverageFailures t2) (forallb fr_Passed results)
      (failures t2) (Z.of_nat (length (failures t2)) <? totalFailures t2)%Z). split.
    { destruct (qualificationContract baseline); cbn -[evaluateDataset fixtures_of Z.of_nat Z.add Z.sub Z.ltb]; rewrite Ea, Ht1;
        cbn -[evaluateDataset fixtures_of Z.of_nat Z.add Z.sub Z.ltb]; rewrite Ht2; reflexivity. }
    cbn [qs_Status PassedCandidateAssertions FailedCandidateAssertions CandidateAssertionCount RegressionCount Failures].
    split_and!; [by destruct (_ && _)%bool; naive_solver| |lia| |done].
    + transitivity (forallb fr_Passed results = true ∧ bad1 = 0%Z ∧ bad2 = 0%Z).
      { rewrite Hp2, Hp1. destruct (forallb fr_Passed results), (Z.eqb_spec (n + m - (0 + n - bad1 + m - bad2)) 0);
          cbn [andb]; split; try done; try lia; intros (? & ? & ?); try done; lia. }
      rewrite Hvalid, Hall1, Hall2. split.
      * intros (Hbase & Hkept & Hown). exists c. split_and!; [done|intros f Hf; split; [by apply Hbase|by apply Hkept]|done].
      * intros (c' & [= <-] & Hboth & Hown). split_and!; [intros f Hf; by apply Hboth|intros f Hf; by apply Hboth|done].
    + intros c' [= <-]. rewrite <-Hall1. lia.
  - destruct (qualificationContract baseline) as [b|]; cbn [mbind option_bind]; rewrite ?Ea; (eexists; split; [reflexivity|]);
      cbn [qs_Status PassedCandidateAssertions FailedCandidateAssertions CandidateAssertionCount RegressionCount Failures];
      (split_and!; [naive_solver|naive_solver|lia|done|]).
    + pose proof (addFailure_bounded (mkFailure "candidate" "candidate-contract" "" "pass" "uncovered" "candidate_contract_missing" []) t Hbd) as Hl.
      by apply bounded_limit in Hl as [? _].
    + cbn. lia.
Qed.
End valid.

#[local] Instance tables : UnicodeTables := {| is_print := λ _, true |}.
(** A contract that quarantines the output of [charge] unless its amount stays below a limit. *)
Definition limit_contract (passWhen : string) : RecoveryContract :=
  mkContract "2" (mkTechnical true false [])
    (mkSemantic "deterministic"
       [mkDetector "limit" "charge" "expression" passWhen None "quarantine" "amount" None]
       [mkFixture "small" "charge" (AObj [("amount", AF64 (f_of_Z 5))]) [] "pass";
        mkFixture "large" "charge" (AObj [("amount", AF64 (f_of_Z 500))]) [] "violation"])
    ["failure_snapshot"; "audit_trail"; "terminal_outcome"] [] ["retry"] "static" "required" "recovery.write" 2 None
    "generation_bound_terminal_success" 7.
Definition limit_workflow (passWhen : string) : Workflow :=
  mkWorkflow dslVersion "" "" None None [] "" (Some (mkRecovery None (Some (limit_contract passWhen)))) None [] [].
Definition limit_100 : string := "context.charge.output.amount < 100".
Definition limit_1000 : string := "context.charge.output.amount < 1000".

Lemma semantic_verdict_correct_witness :
  let c := limit_contract limit_100 in
  let output := AObj [("amount", AF64 (f_of_Z 500))] in
  ValidateRecoveryContract (Some c) = [] ∧
  ∃ e, EvaluateSemanticOutcome (Some c) "charge" output [] = Some e ∧
    (∀ id, id ∈ map vi_DetectorID (Violations e) ↔
       ∃ d, d ∈ attached_detectors (Some c) "charge" ∧ det_ID d = id ∧ detector_fails (overlay [] "charge" output) output d) ∧
    (Quarantined e = true ↔
       ∃ d, d ∈ attached_detectors (Some c) "charge" ∧ detector_fails (overlay [] "charge" output) output d ∧ Action d = "quarantine") ∧
    (Version c = "1" → Violations e = [] ∧ Quarantined e = false).
Proof. intros c output. split; [by vm_compute|]. apply (semantic_verdict_correct c "charge" output []). by vm_compute. Defined.
Example limit_verdict : Quarantined <$> EvaluateSemanticOutcome (Some (limit_contract limit_100)) "charge"
  (AObj [("amount", AF64 (f_of_Z 500))]) [] = Some true.
Proof. vm_compute. reflexivity. Qed.

Lemma limit_ok passWhen c : ValidateRecoveryContract (Some (limit_contract passWhen)) = [] →
  qualificationContract (limit_workflow passWhen) = Some c → ValidateRecoveryContract (Some c) = [].
Proof. by intros Hok [= <-]. Qed.
Lemma qualification_decides_witness :
  let baseline := limit_workflow limit_100 in
  let candidate := limit_workflow limit_1000 in
  ∃ s, QualifyRecoveryCandidate id baseline candidate = Some s ∧
    (qs_Status s = "not_required" ↔ qualificationContract baseline = None ∧ qualificationContract candidate = None) ∧
    (qs_Status s = "passed" ↔ ∃ c, qualificationContract candidate = Some c ∧
       (∀ f, f ∈ fixtures_of (qualificationContract baseline) → as_expected (qualificationContract baseline) f ∧ holds c f) ∧
       (∀ f, f ∈ EvaluationFixtures (Semantic c) → holds c f)) ∧
    (PassedCandidateAssertions s + FailedCandidateAssertions s = CandidateAssertionCount s)%Z ∧
    (∀ c, qualificationContract candidate = Some c →
       (RegressionCount s = 0%Z ↔ ∀ f, f ∈ fixtures_of (qualificationContract baseline) → holds c f)) ∧
    (length (Failures s) ≤ 20)%nat.
Proof.
  intros baseline candidate. apply (qualification_decides id baseline candidate); intros c; apply limit_ok; by vm_compute.
Defined.
(** The looser limit loses the large amount of the baseline. *)
Example looser_limit_fails :
  (λ s, (qs_Status s, RegressionCount s)) <$> QualifyRecoveryCandidate id (limit_workflow limit_100) (limit_workflow limit_1000) = Some ("failed", 1%Z).
Proof. vm_compute. reflexivity. Qed.
Example same_limit_passes :
  qs_Status <$> QualifyRecoveryCandidate id (limit_workflow limit_100) (limit_workflow limit_100) = Some "passed".
Proof. vm_compute. reflexivity. Qed.
