(* ===== verification/Trigger.v ===== *)
(** Inbound trigger events: the tables they live in, the statements on them, the fixed-window
    limiter (ratelimit/ratelimit.go) and the transaction that starts a run for one
    (engine/start.go). The rollout tables are those of [Rollout]. *)
From S2P Require Import Prelude GoStrings GoFloat GoAny GoInt Json Graph Inputs RecoveryContract NodeConfig RecoveryDag WorkflowParse Rollout.
Local Open Scope string_scope.
Local Open Scope list_scope.

(** ** The tables *)

(** [None] is NULL; the payload is the text of the column. *)
Record TriggerEvent := mkTriggerEvent
  { te_ID : string; te_OrgID : string; te_TriggerType : string; te_WorkflowID : option string; te_VersionID : string;
    te_NodeID : string; te_Status : string; te_RunID : option string; te_DedupeKey : option string; te_Payload : string;
    te_SkippedReason : option string; te_RateAdmittedAt : option Z; te_CreatedAt : Z; te_ClaimToken : option string;
    te_RolloutID : option string; te_Variant : option string }.

(** The input [ANil] is an absent one. *)
Record StartInput := mkStartInput
  { si_OrgID : string; si_Workflow : Workflow; si_VersionID : string; si_Input : any; si_CreatedBy : string;
    si_ReplayMode : string; TriggerEventID : string; IdempotencyKey : string; si_LinkKind : string; si_RolloutID : string;
    si_Variant : string }.

(** An entry of the scheduler: a schedule node of a saved version, with the instant it is due
    or leased until, and the due time of the tick that is claimed. *)
Record ScheduleEntry := mkScheduleEntry
  { se_ID : string; se_OrgID : string; se_WorkflowID : string; se_VersionID : string; se_NodeID : string;
    se_CronExpression : string; se_Enabled : bool; NextFireAt : option Z; ClaimedDueAt : option Z;
    LastRunAt : option Z; LastRunID : option string }.

(** [starts] is what each run recorded of its start; [clock] is the instant of the database
    and of the program, in nanoseconds. *)
Record Tables := mkTables
  { base : Store; events : list TriggerEvent; windows : gmap (string * string * Z) (Z * Z);
    run_keys : gmap (string * string) string; starts : gmap string StartInput; trail : list AuditRow;
    schedules : list ScheduleEntry; clock : Z }.
Definition empty_tables (now : Z) : Tables := mkTables empty_store [] ∅ ∅ ∅ [] [] now.

Definition set_base (b : Store) (s : Tables) : Tables :=
  let 'mkTables _ ev wi ke st tr sc now := s in mkTables b ev wi ke st tr sc now.
Definition set_events (l : list TriggerEvent) (s : Tables) : Tables :=
  let 'mkTables b _ wi ke st tr sc now := s in mkTables b l wi ke st tr sc now.
Definition set_windows (m : gmap (string * string * Z) (Z * Z)) (s : Tables) : Tables :=
  let 'mkTables b ev _ ke st tr sc now := s in mkTables b ev m ke st tr sc now.
Definition add_trail (a : AuditRow) (s : Tables) : Tables :=
  let 'mkTables b ev wi ke st tr sc now := s in mkTables b ev wi ke st (tr ++ [a]) sc now.
Definition set_schedules (l : list ScheduleEntry) (s : Tables) : Tables :=
  let 'mkTables b ev wi ke st tr _ now := s in mkTables b ev wi ke st tr l now.
Definition set_clock (now : Z) (s : Tables) : Tables :=
  let 'mkTables b ev wi ke st tr sc _ := s in mkTables b ev wi ke st tr sc now.

(** ** The statements on events *)

Definition event_is (orgID id : string) (e : TriggerEvent) : bool := eqs (te_OrgID e) orgID && eqs (te_ID e) id.
Definition GetTriggerEvent (orgID id : string) (s : Tables) : option TriggerEvent :=
  head (filter (λ e, event_is orgID id e = true) (events s)).
Definition FindTriggerEventByDedupe (orgID key : string) (s : Tables) : option TriggerEvent :=
  head (filter (λ e, te_OrgID e = orgID ∧ te_DedupeKey e = Some key) (events s)).
(** The primary key and the unique index on the organisation and the dedupe key; NULL keys
    are distinct. *)
Definition same_delivery (e e' : TriggerEvent) : bool :=
  eqs (te_ID e) (te_ID e') ||
  (eqs (te_OrgID e) (te_OrgID e') && bool_decide (is_Some (te_DedupeKey e)) && bool_decide (te_DedupeKey e = te_DedupeKey e')).
(** The row as it is inserted: received, with the defaults of the other columns. *)
Definition inserted (now : Z) (e : TriggerEvent) : TriggerEvent :=
  let 'mkTriggerEvent id org ty wf ve node _ _ key pay _ _ _ _ ro va := e in
  mkTriggerEvent id org ty wf ve node "received" None key pay None None now None ro va.
Definition InsertTriggerEvent (e : TriggerEvent) (s : Tables) : bool * Tables :=
  if existsb (same_delivery e) (events s) then (false, s)
  else (true, set_events (events s ++ [inserted (clock s) e]) s).

Definition with_outcome (status : string) (reason : option string) (e : TriggerEvent) : TriggerEvent :=
  let 'mkTriggerEvent id org ty wf ve node _ run key pay _ adm created claim ro va := e in
  mkTriggerEvent id org ty wf ve node status run key pay reason adm created claim ro va.
Definition with_run (runID : string) (e : TriggerEvent) : TriggerEvent :=
  let 'mkTriggerEvent id org ty wf ve node _ _ key pay _ adm created _ ro va := e in
  mkTriggerEvent id org ty wf ve node "started" (Some runID) key pay None adm created None ro va.
Definition with_admission (now : Z) (e : TriggerEvent) : TriggerEvent :=
  let 'mkTriggerEvent id org ty wf ve node st run key pay re _ created claim ro va := e in
  mkTriggerEvent id org ty wf ve node st run key pay re (Some now) created claim ro va.
Definition with_claim (token : string) (e : TriggerEvent) : TriggerEvent :=
  let 'mkTriggerEvent id org ty wf ve node st run key pay re adm created _ ro va := e in
  mkTriggerEvent id org ty wf ve node st run key pay re adm created (Some token) ro va.

Definition update_events (p : TriggerEvent → bool) (f : TriggerEvent → TriggerEvent) (s : Tables) : Tables :=
  set_events (map (λ e, if p e then f e else e) (events s)) s.
Definition received (e : TriggerEvent) : bool := eqs (te_Status e) "received".
(** The outcomes that a handler marks; the others are set by the statements below. *)
Inductive event_outcome := OutcomeBuffered | OutcomeFailed.
Definition outcome_text (o : event_outcome) : string := match o with OutcomeBuffered => "buffered" | OutcomeFailed => "failed" end.
Definition MarkTriggerEventOutcome (orgID id : string) (outcome : event_outcome) (reason : option string) (s : Tables) : Tables :=
  update_events (λ e, event_is orgID id e && received e) (with_outcome (outcome_text outcome) reason) s.
Definition owed_a_run (e : TriggerEvent) : bool :=
  in_list ["received"; "buffered"] (te_Status e) && bool_decide (te_RunID e = None).
Definition claimable (orgID id : string) (e : TriggerEvent) : bool := event_is orgID id e && owed_a_run e.
Definition ClaimTriggerEventStart (orgID id runID : string) (s : Tables) : Tables :=
  update_events (claimable orgID id) (with_run runID) s.

(** The buffered events of a workflow that nobody claimed, oldest first. Rows that another
    transaction holds are skipped. *)
Definition buffered_for (orgID workflowID : string) (e : TriggerEvent) : bool :=
  eqs (te_OrgID e) orgID && bool_decide (te_WorkflowID e = Some workflowID) && eqs (te_Status e) "buffered" &&
  bool_decide (te_ClaimToken e = None).
Definition oldest_first (l : list TriggerEvent) : list TriggerEvent :=
  stable_sort (λ a b, (te_CreatedAt a <? te_CreatedAt b)%Z) l.
Definition ClaimBufferedTriggerEvents (orgID workflowID token : string) (limit : nat) (locked : list string) (s : Tables)
  : list TriggerEvent * Tables :=
  let page := take limit (oldest_first (filter (λ e, buffered_for orgID workflowID e && negb (in_list locked (te_ID e)) = true)
                                          (events s))) in
  (map (with_claim token) page, update_events (λ e, in_list (map te_ID page) (te_ID e)) (with_claim token) s).
Definition CountBufferedTriggerEvents (orgID workflowID : string) (s : Tables) : Z :=
  Z.of_nat (length (filter (λ e, buffered_for orgID workflowID e = true) (events s))).

(** ** The fixed-window limiter *)

Record Options := mkOptions { op_Name : string; op_Max : Z; op_Window : Z }.

(** [time.Time.Truncate]: down to a multiple of the duration since the year 1. *)
Definition zero_time : Z := -62135596800000000000.
Definition Truncate (now window : Z) : Z := if (window <=? 0)%Z then now else (now - (now - zero_time) mod window)%Z.
(** [time.Duration.Seconds]. *)
Definition Seconds (d : Z) : float64 :=
  f_add (f_of_Z (Z.quot d 1000000000)) (f_div (f_of_Z (Z.rem d 1000000000)) (f_of_Z 1000000000)).
Definition retry_after (now window : Z) : Z :=
  Z.max (int_of_float (Seconds (Truncate now window + window - now)) + 1) 1.

(** A window is its count and its end. *)
Definition BumpRateWindow (name key : string) (windowStart expiresAt : Z) (s : Tables) : Z * Tables :=
  let '(count, expires) := match windows s !! (name, key, windowStart) with
                           | Some (count, expires) => (count + 1, expires)%Z
                           | None => (1%Z, expiresAt)
                           end in
  (count, set_windows (<[(name, key, windowStart) := (count, expires)]> (windows s)) s).
Definition CleanupExpiredRateWindows (s : Tables) : Tables :=
  set_windows (filter (λ kv, (clock s <= kv.2.2)%Z) (windows s)) s.

Inductive LimitResult := Allowed | Limited (retryAfterSec : Z) | Settled (status : string).

Definition Enforce (key : string) (opts : Options) (s : Tables) : LimitResult * Tables :=
  let windowStart := Truncate (clock s) (op_Window opts) in
  let '(count, s') := BumpRateWindow (op_Name opts) key windowStart (windowStart + op_Window opts) s in
  (if (op_Max opts <? count)%Z then Limited (retry_after (clock s) (op_Window opts)) else Allowed, s').

Definition MarkTriggerEventRateLimited (orgID eventID : string) (s : Tables) : Tables :=
  update_events (λ e, event_is orgID eventID e && received e && bool_decide (te_RateAdmittedAt e = None))
    (with_outcome "skipped" (Some "rate_limited")) s.
Definition MarkTriggerEventRateAdmitted (orgID eventID : string) (s : Tables) : Tables :=
  update_events (λ e, event_is orgID eventID e && received e && bool_decide (te_RateAdmittedAt e = None))
    (with_admission (clock s)) s.

(** The transaction without faults; an event that is not there is a store error, which
    fails open. *)
Definition EnforceTriggerEvent (key orgID eventID : string) (opts : Options) (s : Tables) : LimitResult * Tables :=
  match GetTriggerEvent orgID eventID s with
  | None => (Allowed, s)
  | Some admission =>
      if negb (received admission) then (Settled (te_Status admission), s)
      else if bool_decide (is_Some (te_RateAdmittedAt admission)) then (Allowed, s)
      else
        let windowStart := Truncate (clock s) (op_Window opts) in
        let '(count, s') := BumpRateWindow (op_Name opts) key windowStart (windowStart + op_Window opts) s in
        if (op_Max opts <? count)%Z
        then (Limited (retry_after (clock s) (op_Window opts)), MarkTriggerEventRateLimited orgID eventID s')
        else (Allowed, MarkTriggerEventRateAdmitted orgID eventID s')
  end.

(** ** The start of a run *)

Inductive StartError :=
| InputInvalid (errors : list string) | IdempotencyReplay (runID : string) | TriggerConflict | RunIDTaken | StartPanic.

Definition text (s : string) : option string := if eqs s "" then None else Some s.
(** The input with the defaults of the workflow; [None] is a panic. *)
Definition start_input (i : StartInput) : option (res (list string) any) :=
  let input := match si_Input i with ANil => AObj [] | v => v end in
  match WorkflowInputs (si_Workflow i) with
  | None => Some (Ok input)
  | Some schema =>
      input ← ApplyInputDefaults schema input;
      errs ← ValidateInputValue schema input "$";
      Some (match errs with [] => Ok input | _ => Err errs end)
  end.
Definition run_row (i : StartInput) (runID : string) (now : Z) : RunRow :=
  mkRunRow (si_OrgID i) "running" (text (si_ReplayMode i)) (text (si_RolloutID i)) (text (si_Variant i))
    (if eqs (si_VersionID i) "" then runID else si_VersionID i) (text (si_LinkKind i)) now.
Definition insert_run (i : StartInput) (runID : string) (s : Tables) : Tables :=
  let 'mkTables b ev wi ke st tr sc now := s in
  mkTables (set_runs (<[runID := run_row i runID now]> (runs b)) b) ev wi
    (if eqs (IdempotencyKey i) "" then ke else <[(si_OrgID i, IdempotencyKey i) := runID]> ke)
    (<[runID := i]> st) tr sc now.
(** The rows of the nodes are those of [Runtime.StartRun]. *)
Definition StartRun (i : StartInput) (runID : string) (s : Tables) : res StartError string * Tables :=
  match start_input i with
  | None => (Err StartPanic, s)
  | Some (Err errs) => (Err (InputInvalid errs), s)
  | Some (Ok _) =>
      if bool_decide (is_Some (runs (base s) !! runID)) then (Err RunIDTaken, s)
      else
        match (if eqs (IdempotencyKey i) "" then None else run_keys s !! (si_OrgID i, IdempotencyKey i)) with
        | Some original => (Err (IdempotencyReplay original), s)
        | None =>
            if eqs (TriggerEventID i) "" then (Ok runID, insert_run i runID s)
            else if existsb (claimable (si_OrgID i) (TriggerEventID i)) (events s)
            then (Ok runID, ClaimTriggerEventStart (si_OrgID i) (TriggerEventID i) runID (insert_run i runID s))
            else (Err TriggerConflict, s)
        end
  end.

(** ** The statements of the circuit breaker *)

Definition GetWorkflowBreakerStatus (orgID id : string) (s : Tables) : option string :=
  w_Status <$> head (filter (λ w, w_OrgID w = orgID ∧ w_ID w = id ∧ w_Deleted w = false) (workflows (base s))).
Definition GetWorkflowIngestState (id : string) (s : Tables) : option (string * string * bool) :=
  (λ w, (w_OrgID w, w_Status w, w_Deleted w)) <$> head (filter (λ w, w_ID w = id) (workflows (base s))).
Definition GetLatestWorkflowVersion (workflowID orgID : string) (s : Tables) : option VersionRow :=
  latest_version (base s) orgID workflowID.
Definition GetWorkflowVersionAnyWorkflow (id orgID : string) (s : Tables) : option VersionRow :=
  head (filter (λ v, ve_ID v = id ∧ ve_OrgID v = orgID) (versions (base s))).

(** [COALESCE(v.workflow_id, r.workflow_version_id)]. *)
Definition workflow_of_run (s : Store) (r : RunRow) : string :=
  match head (filter (λ v, ve_ID v = WorkflowVersionID r ∧ ve_OrgID v = ru_OrgID r) (versions s)) with
  | Some v => ve_WorkflowID v
  | None => WorkflowVersionID r
  end.
Definition counts_for_breaker (s : Store) (orgID workflowID : string) (r : RunRow) : bool :=
  eqs (ru_OrgID r) orgID && eqs (workflow_of_run s r) workflowID && bool_decide (ReplayMode r = None) &&
  negb (bool_decide (ParentLinkKind r = Some "rerun")) && in_list ["succeeded"; "failed"] (ru_Status r).
(** Newest first. The order of runs of one instant is that of the map here; the database
    leaves it open. *)
Definition recent_runs (orgID workflowID : string) (s : Tables) : list RunRow :=
  stable_sort (λ a b, (ru_CreatedAt b <? ru_CreatedAt a)%Z)
    (filter (λ r, counts_for_breaker (base s) orgID workflowID r = true) (map snd (map_to_list (runs (base s))))).
Definition CountRecentWorkflowRunStatuses (orgID workflowID : string) (limit : Z) (s : Tables) : list string :=
  take (Z.to_nat limit) (map ru_Status (recent_runs orgID workflowID s)).

(** [UPDATE workflows SET status, paused_reason] where the status is [before]; the number of
    rows is 0 or 1, the id being the primary key. *)
Definition has_status (orgID id before : string) (w : WorkflowRow) : bool :=
  eqs (w_OrgID w) orgID && eqs (w_ID w) id && eqs (w_Status w) before && negb (w_Deleted w).
Definition with_pause (status : string) (reason : option string) (w : WorkflowRow) : WorkflowRow :=
  mkWorkflowRow (w_ID w) (w_OrgID w) (w_Name w) status reason (w_Deleted w).
Definition set_status (orgID id before after : string) (reason : option string) (s : Tables) : bool * Tables :=
  let b := base s in
  if existsb (has_status orgID id before) (workflows b)
  then (true, set_base (set_workflows (map (λ w, if has_status orgID id before w then with_pause after reason w else w)
                                         (workflows b)) b) s)
  else (false, s).
Definition TripWorkflowCircuitBreaker (orgID id reason : string) : Tables → bool * Tables :=
  set_status orgID id "active" "paused_circuit_breaker" (Some reason).
Definition ResumeWorkflowCircuitBreaker_flip (orgID id : string) : Tables → bool * Tables :=
  set_status orgID id "paused_circuit_breaker" "active" None.
Definition trip_reason (streak : Z) : string := "Circuit breaker: " +:+ Itoa streak +:+ " consecutive failed runs".
Definition trip_row (orgID workflowID runID : string) (streak threshold : Z) : AuditRow :=
  mkAudit orgID "circuit-breaker" "workflow.circuit_breaker.tripped" workflowID
    [("reason", AStr (trip_reason streak)); ("consecutiveFailures", AInt KInt streak); ("threshold", AInt KInt threshold);
     ("runId", AStr runID)].
Definition resume_row (orgID workflowID userID : string) : AuditRow :=
  mkAudit orgID userID "workflow.circuit_breaker.resumed" workflowID [("via", AStr "operator_resume")].
(** The transactions: the compare-and-set, and the audit row if it won. *)
Definition announced (flip : Tables → bool * Tables) (a : AuditRow) (s : Tables) : bool * Tables :=
  let '(won, s') := flip s in (won, if won then add_trail a s' else s').
Definition trip (orgID id runID : string) (streak threshold : Z) : Tables → bool * Tables :=
  announced (TripWorkflowCircuitBreaker orgID id (trip_reason streak)) (trip_row orgID id runID streak threshold).
Definition resume (orgID id userID : string) : Tables → bool * Tables :=
  announced (ResumeWorkflowCircuitBreaker_flip orgID id) (resume_row orgID id userID).
(** The rows of the audit trail about events and ticks. *)
Inductive event_action := EventReceived | EventSkipped | EventBuffered | EventStarted | ScheduleDisabled | TickDropped.
Definition action_text (a : event_action) : string :=
  match a with
  | EventReceived => "trigger.event.received" | EventSkipped => "trigger.event.skipped"
  | EventBuffered => "trigger.event.buffered" | EventStarted => "trigger.event.started"
  | ScheduleDisabled => "schedule.entry.disabled" | TickDropped => "schedule.tick.dropped"
  end.
Definition event_row (auth : string * string) (a : event_action) (eventID : string) (metadata : obj) : AuditRow :=
  mkAudit auth.1 auth.2 (action_text a) eventID metadata.
(** The poller of upstream health (upstream/), which takes a list of workflows, deleted ones
    included. *)
Definition set_upstream (ids : list string) (orgID before after : string) (reason : option string) (s : Tables) : Tables :=
  let b := base s in
  set_base (set_workflows (map (λ w, if eqs (w_OrgID w) orgID && in_list ids (w_ID w) && eqs (w_Status w) before
                                     then with_pause after reason w else w) (workflows b)) b) s.
Definition PauseWorkflowsForUpstream (orgID : string) (ids : list string) (reason : string) : Tables → Tables :=
  set_upstream ids orgID "active" "paused_upstream_degraded" (Some reason).
Definition ResumeWorkflowsForUpstream (orgID : string) (ids : list string) : Tables → Tables :=
  set_upstream ids orgID "paused_upstream_degraded" "active" None.

(** ** The statements on schedule entries *)

Definition GetStartIdempotencyRun (orgID key : string) (s : Tables) : option string := run_keys s !! (orgID, key).

Definition with_claimed_tick (lease : Z) (e : ScheduleEntry) : ScheduleEntry :=
  let 'mkScheduleEntry id org wf ve node cron on next claimed lastAt lastRun := e in
  mkScheduleEntry id org wf ve node cron on (Some lease) (match claimed with Some d => Some d | None => next end) lastAt lastRun.
Definition with_advance (next now : Z) (runID : string) (e : ScheduleEntry) : ScheduleEntry :=
  let 'mkScheduleEntry id org wf ve node cron on _ _ _ lastRun := e in
  mkScheduleEntry id org wf ve node cron on (Some next) None (Some now) (if eqs runID "" then lastRun else Some runID).
Definition disabled (e : ScheduleEntry) : ScheduleEntry :=
  let 'mkScheduleEntry id org wf ve node cron _ next claimed lastAt lastRun := e in
  mkScheduleEntry id org wf ve node cron false next claimed lastAt lastRun.
Definition update_schedules (p : ScheduleEntry → bool) (f : ScheduleEntry → ScheduleEntry) (s : Tables) : Tables :=
  set_schedules (map (λ e, if p e then f e else e) (schedules s)) s.

Definition is_due (now : Z) (e : ScheduleEntry) : bool :=
  se_Enabled e && match NextFireAt e with Some t => (t <=? now)%Z | None => false end.
Definition earliest_first (l : list ScheduleEntry) : list ScheduleEntry :=
  stable_sort (λ a b, (default 0 (NextFireAt a) <? default 0 (NextFireAt b))%Z) l.
(** The rows that are returned carry the lease and the due time of the tick. Rows that
    another transaction holds are skipped. *)
Definition ClaimDueScheduleEntries (now lease : Z) (limit : nat) (locked : list string) (s : Tables)
  : list ScheduleEntry * Tables :=
  let page := take limit (earliest_first (filter (λ e, is_due now e && negb (in_list locked (se_ID e)) = true) (schedules s))) in
  (map (with_claimed_tick lease) page, update_schedules (λ e, in_list (map se_ID page) (se_ID e)) (with_claimed_tick lease) s).
Definition holds_claim (id : string) (claimed : option Z) (e : ScheduleEntry) : bool :=
  eqs (se_ID e) id && bool_decide (ClaimedDueAt e = claimed).
(** Whether a row was advanced. *)
Definition AdvanceScheduleEntry (id : string) (next now : Z) (runID : string) (claimed : option Z) (s : Tables) : bool * Tables :=
  (existsb (holds_claim id claimed) (schedules s), update_schedules (holds_claim id claimed) (with_advance next now runID) s).
Definition DisableScheduleEntry (id : string) (s : Tables) : Tables := update_schedules (λ e, eqs (se_ID e) id) disabled s.
Definition DeleteScheduleEntry (id : string) (s : Tables) : Tables :=
  set_schedules (filter (λ e, se_ID e ≠ id) (schedules s)) s.
Definition DeleteScheduleEntriesForWorkflow (orgID workflowID : string) (s : Tables) : Tables :=
  set_schedules (filter (λ e, ¬ (se_OrgID e = orgID ∧ se_WorkflowID e = workflowID)) (schedules s)) s.
(** On a conflict of organisation, version and node the row takes the expression and the
    firing of the new one, and loses its claim. [None] is a violation of the primary key. *)
Definition same_node (e e' : ScheduleEntry) : bool :=
  eqs (se_OrgID e) (se_OrgID e') && eqs (se_VersionID e) (se_VersionID e') && eqs (se_NodeID e) (se_NodeID e').
Definition with_schedule (new e : ScheduleEntry) : ScheduleEntry :=
  mkScheduleEntry (se_ID e) (se_OrgID e) (se_WorkflowID e) (se_VersionID e) (se_NodeID e) (se_CronExpression new) true
    (NextFireAt new) None (LastRunAt e) (LastRunID e).
Definition UpsertScheduleEntry (new : ScheduleEntry) (s : Tables) : option Tables :=
  if existsb (same_node new) (schedules s) then Some (update_schedules (same_node new) (with_schedule new) s)
  else if in_list (map se_ID (schedules s)) (se_ID new) then None
  else Some (set_schedules (schedules s ++ [new]) s).
