(* ===== verification/TriggerProg.v ===== *)
(** Programs over the tables of [Trigger]: what one statement or transaction may do to them,
    and a handler as a sequence of such operations that other processes interleave with; and a logic of what
    a handler establishes then. *)
From S2P Require Import Prelude GoStrings GoFloat GoAny GoInt Json Graph Inputs RecoveryContract NodeConfig RecoveryDag WorkflowParse Rollout Trigger.
Local Open Scope string_scope.
Local Open Scope list_scope.

Section programs.
Context `{UnicodeTables} (json_error : string → string) (sha256 : string → list ascii).

(** The operations, indexed by their answers. The last group is issued by the parts of the
    program that are not modelled as handlers. *)
Inductive op : Type → Type :=
| GetIngestState (workflowID : string) : op (option (string * string * bool))
| FindByDedupe (orgID key : string) : op (option TriggerEvent)
| GetEvent (orgID id : string) : op (option TriggerEvent)
| GetVersionAny (id orgID : string) : op (option VersionRow)
| GetLatestVersion (workflowID orgID : string) : op (option VersionRow)
| ListLatestDags (orgID : string) : op (list (string * string))
| ResolveAssignment (orgID workflowID assignmentKey : string) : op (res VersionUnavailable (option RolloutAssignment))
| InsertEvent (e : TriggerEvent) : op bool
| AuditEvent (auth : string * string) (a : event_action) (eventID : string) (metadata : obj) : op unit
| EnforceEvent (key orgID eventID : string) (opts : Options) : op LimitResult
| MarkOutcome (orgID id : string) (outcome : event_outcome) (reason : option string) : op unit
| Start (i : StartInput) : op (res StartError string)
| BreakerStatus (orgID id : string) : op (option string)
| GetRunStart (runID : string) : op (option StartInput)
| OrgNumber (orgID key : string) : op float64
| RecentStatuses (orgID workflowID : string) (limit : Z) : op (list string)
| TripBreaker (orgID id runID : string) (streak threshold : Z) : op bool
| ResumeBreaker (orgID id userID : string) : op bool
| ClaimBuffered (orgID workflowID token : string) (limit : nat) : op (list TriggerEvent)
| CountBuffered (orgID workflowID : string) : op Z
| GetVersionByID (id orgID workflowID : string) : op (option VersionRow)
| StartedBy (orgID key : string) : op (option string)
| ClaimDue (now lease : Z) (limit : nat) : op (list ScheduleEntry)
| AdvanceEntry (id : string) (next now : Z) (runID : string) (claimed : option Z) : op bool
| DisableEntry (id : string) : op unit
| DeleteEntry (id : string) : op unit
| ReplaceEntries (orgID workflowID : string) (entries : list ScheduleEntry) : op unit
| EnforceBucket (key : string) (opts : Options) : op LimitResult
| CleanupWindows : op unit
| PauseUpstream (orgID : string) (ids : list string) (reason : string) : op unit
| ResumeUpstream (orgID : string) (ids : list string) : op unit
| RolloutTransaction : op unit
| RunSettles (runID status : string) : op unit
| Tick : op unit.

(** The latest version of each live workflow of an organisation, one per workflow, at most a
    thousand, by the workflow's id. *)
Definition latest_dags (orgID : string) (s : Store) : list (string * string) :=
  let live := filter (λ w, w_OrgID w = orgID ∧ w_Deleted w = false) (workflows s) in
  take 1000 (omap (λ w, (λ v, (w_ID w, DagJson v)) <$> latest_version s orgID (w_ID w))
               (stable_sort (λ a b, string_less (w_ID a) (w_ID b)) live)).

(** What an operation that commits may answer and leave behind. *)
Definition returns {X} (o : op X) (s : Tables) : X → Tables → Prop :=
  match o in op X return X → Tables → Prop with
  | GetIngestState workflowID => λ x s', s' = s ∧ x = GetWorkflowIngestState workflowID s
  | FindByDedupe orgID key => λ x s', s' = s ∧ x = FindTriggerEventByDedupe orgID key s
  | GetEvent orgID id => λ x s', s' = s ∧ x = GetTriggerEvent orgID id s
  | GetVersionAny id orgID => λ x s', s' = s ∧ x = GetWorkflowVersionAnyWorkflow id orgID s
  | GetLatestVersion workflowID orgID => λ x s', s' = s ∧ x = GetLatestWorkflowVersion workflowID orgID s
  | ListLatestDags orgID => λ x s', s' = s ∧ x = latest_dags orgID (base s)
  | ResolveAssignment orgID workflowID key =>
      λ x s', s' = s ∧ x = ResolveWorkflowRolloutAssignment json_error sha256 orgID workflowID key (base s)
  | InsertEvent e => λ x s', (x, s') = InsertTriggerEvent e s
  | AuditEvent auth a eventID metadata => λ _ s', s' = add_trail (event_row auth a eventID metadata) s
  | EnforceEvent key orgID eventID opts => λ x s', (x, s') = EnforceTriggerEvent key orgID eventID opts s
  | MarkOutcome orgID id outcome reason => λ _ s', s' = MarkTriggerEventOutcome orgID id outcome reason s
  | Start i => λ x s', ∃ runID, (x, s') = StartRun i runID s
  | BreakerStatus orgID id => λ x s', s' = s ∧ x = GetWorkflowBreakerStatus orgID id s
  | GetRunStart runID => λ x s', s' = s ∧ x = starts s !! runID
  | OrgNumber _ _ => λ _ s', s' = s
  | RecentStatuses orgID workflowID limit =>
      λ x s', s' = s ∧ x = CountRecentWorkflowRunStatuses orgID workflowID limit s
  | TripBreaker orgID id runID streak threshold => λ x s', (x, s') = trip orgID id runID streak threshold s
  | ResumeBreaker orgID id userID => λ x s', (x, s') = resume orgID id userID s
  | ClaimBuffered orgID workflowID token limit =>
      λ x s', ∃ locked page, (page, s') = ClaimBufferedTriggerEvents orgID workflowID token limit locked s ∧ x ≡ₚ page
  | CountBuffered orgID workflowID => λ x s', s' = s ∧ x = CountBufferedTriggerEvents orgID workflowID s
  | GetVersionByID id orgID workflowID => λ x s', s' = s ∧ x = GetWorkflowVersionByID (base s) id orgID workflowID
  | StartedBy orgID key => λ x s', s' = s ∧ x = GetStartIdempotencyRun orgID key s
  | ClaimDue now lease limit =>
      λ x s', ∃ locked page, (page, s') = ClaimDueScheduleEntries now lease limit locked s ∧ x ≡ₚ page
  | AdvanceEntry id next now runID claimed => λ x s', (x, s') = AdvanceScheduleEntry id next now runID claimed s
  | DisableEntry id => λ _ s', s' = DisableScheduleEntry id s
  | DeleteEntry id => λ _ s', s' = DeleteScheduleEntry id s
  | ReplaceEntries orgID workflowID entries =>
      λ _ s', Some s' = fold_left (λ s e, s ← s; UpsertScheduleEntry e s) entries
                          (Some (DeleteScheduleEntriesForWorkflow orgID workflowID s))
  | EnforceBucket key opts => λ x s', (x, s') = Enforce key opts s
  | CleanupWindows => λ _ s', s' = CleanupExpiredRateWindows s
  | PauseUpstream orgID ids reason => λ _ s', s' = PauseWorkflowsForUpstream orgID ids reason s
  | ResumeUpstream orgID ids => λ _ s', s' = ResumeWorkflowsForUpstream orgID ids s
  | RolloutTransaction => λ _ s', ∃ b, step json_error (base s) b ∧ s' = set_base b s
  | RunSettles runID status =>
      λ _ s', ∃ r, runs (base s) !! runID = Some r ∧
        s' = set_base (set_runs (<[runID := mkRunRow (ru_OrgID r) status (ReplayMode r) (WorkflowRolloutID r)
               (WorkflowRolloutVariant r) (WorkflowVersionID r) (ParentLinkKind r) (ru_CreatedAt r)]> (runs (base s)))
               (base s)) s
  | Tick => λ _ s', ∃ now, (clock s <= now)%Z ∧ s' = set_clock now s
  end.

(** A fault before the commit leaves the tables alone; one at the commit leaves it open
    whether the transaction took effect. *)
Inductive fault := BeforeCommit | AtCommit.
Inductive exec {X} (o : op X) (s : Tables) : res fault X → Tables → Prop :=
| exec_ok x s' : returns o s x s' → exec o s (Ok x) s'
| exec_before : exec o s (Err BeforeCommit) s
| exec_lost : exec o s (Err AtCommit) s
| exec_applied x s' : returns o s x s' → exec o s (Err AtCommit) s'.

(** What the processes of the program issue: an event has an identifier. *)
Definition issued {X} (o : op X) : Prop := match o with InsertEvent e => te_ID e ≠ "" | _ => True end.

(** The histories of the tables under every process at once. *)
Inductive change (s s' : Tables) : Prop := change_op X (o : op X) r : issued o → exec o s r s' → change s s'.
Definition evolves : Tables → Tables → Prop := rtc change.
Definition history (s : Tables) : Prop := ∃ now, evolves (empty_tables now) s.

(** A handler. [Fresh] is a new identifier, of the handler's random source, which is not empty. *)
Inductive prog (A : Type) : Type :=
| Ret (a : A)
| Do {X} (o : op X) (k : res fault X → prog A)
| Fresh (k : string → prog A).

Fixpoint prog_map {A B} (f : A → B) (p : prog A) : prog B :=
  match p with
  | Ret _ a => Ret _ (f a)
  | Do _ o k => Do _ o (λ r, prog_map f (k r))
  | Fresh _ k => Fresh _ (λ id, prog_map f (k id))
  end.

Fixpoint prog_bind {A B} (p : prog A) (f : A → prog B) : prog B :=
  match p with
  | Ret _ a => f a
  | Do _ o k => Do _ o (λ r, prog_bind (k r) f)
  | Fresh _ k => Fresh _ (λ id, prog_bind (k id) f)
  end.

(** [a] is an answer of a run of the handler to its end, from [s] to [s'], with other
    processes between its operations. A process that dies on the way is a history that ends
    there. *)
Fixpoint finishes {A} (p : prog A) (s : Tables) (a : A) (s' : Tables) : Prop :=
  match p with
  | Ret _ b => a = b ∧ s' = s
  | Do _ o k => ∃ s1 r s2, evolves s s1 ∧ exec o s1 r s2 ∧ finishes (k r) s2 a s'
  | Fresh _ k => ∃ id, id ≠ "" ∧ finishes (k id) s a s'
  end.
(** The tables that a process without others leaves, wherever it dies; its operations may
    fail. *)
Fixpoint reaches {A} (p : prog A) (s s' : Tables) : Prop :=
  s' = s ∨
  match p with
  | Ret _ _ => False
  | Do _ o k => ∃ r s1, exec o s r s1 ∧ reaches (k r) s1 s'
  | Fresh _ k => ∃ id, id ≠ "" ∧ reaches (k id) s s'
  end.
(** The same without other processes and without faults. *)
Fixpoint alone {A} (p : prog A) (s : Tables) (a : A) (s' : Tables) : Prop :=
  match p with
  | Ret _ b => a = b ∧ s' = s
  | Do _ o k => ∃ x s1, returns o s x s1 ∧ alone (k (Ok x)) s1 a s'
  | Fresh _ k => ∃ id, id ≠ "" ∧ alone (k id) s a s'
  end.
End programs.
Arguments Ret {A} _.
Arguments Do {A X} _ _.
Arguments Fresh {A} _.

(** [do! x := o or k in rest]: the answer of [o], or [k] when the operation fails. *)
Notation "'do!' x ':=' o 'or' e 'in' k" := (Do o (λ r, match r with Ok x => k | Err _ => e end))
  (at level 10, x pattern, o at level 200, e at level 200, k at level 200) : go_scope.
(** An operation whose failure the program ignores. *)
Notation "'try!' o 'in' k" := (Do o (λ _, k)) (at level 10, o at level 200, k at level 200) : go_scope.

(** * A logic of handlers *)

Section logic.
Context `{UnicodeTables} (json_error : string → string) (sha256 : string → list ascii).
Abbreviation returns := (returns json_error sha256).
Abbreviation exec := (exec json_error sha256).
Abbreviation evolves := (evolves json_error sha256).
Abbreviation finishes := (finishes json_error sha256).

Lemma exec_committed {X} (o : op X) s x s' : exec o s (Ok x) s' → returns o s x s'.
Proof. by inversion 1. Qed.

(** An invariant of the tables, and what every operation lets grow. *)
Context (Inv : Tables → Prop) (Grows : Tables → Tables → Prop) `{!Reflexive Grows, !Transitive Grows}.
Hypothesis exec_keeps : ∀ X (o : op X) s r s', issued o → Inv s → exec o s r s' → Inv s' ∧ Grows s s'.

Lemma evolves_keeps s s' : evolves s s' → Inv s → Inv s' ∧ Grows s s'.
Proof.
  intros Hs. induction Hs as [s|s1 s2 s3 [X o r Hi Hex] _ IH]; intros Hok; [done|].
  destruct (exec_keeps X o s1 r s2 Hi Hok Hex) as [Hok2 Hr]. destruct (IH Hok2) as [? Hr']. split; [done|by transitivity s2].
Qed.

(** A handler that issues what the program issues. *)
Fixpoint issues {A} (p : prog A) : Prop :=
  match p with
  | Ret _ => True
  | Do o k => issued o ∧ ∀ r, issues (k r)
  | Fresh k => ∀ id, id ≠ EmptyString → issues (k id)
  end.
Lemma finishes_keeps {A} (p : prog A) s a s' : issues p → Inv s → finishes p s a s' → Inv s' ∧ Grows s s'.
Proof.
  revert s. induction p as [b|X o k IH|k IH]; intros s Hp Hs; cbn.
  - intros [_ ->]. done.
  - destruct Hp as [Hi Hp]. intros (s1 & r & s2 & Hev & Hex & Hrest). destruct (evolves_keeps s s1 Hev Hs) as [Hs1 Hm1].
    destruct (exec_keeps X o s1 r s2 Hi Hs1 Hex) as [Hs2 Hm2]. destruct (IH r s2 (Hp r) Hs2 Hrest) as [? ?].
    split; [done|]. transitivity s1; [done|by transitivity s2].
  - intros (id & Hid & Hrest). exact (IH id s (Hp id Hid) Hs Hrest).
Qed.

(** What other processes cannot make false. *)
Definition stable (P : Tables → Prop) : Prop := ∀ s s', Grows s s' → P s → P s'.
Lemma stable_true : stable (λ _, True).
Proof. by intros s s'. Qed.
Lemma stable_and P Q : stable P → stable Q → stable (λ s, P s ∧ Q s).
Proof. intros HP HQ s s' Hm [? ?]. split; [by eapply HP|by eapply HQ]. Qed.

(** Every end of the handler from a state of [P] is one of [Q]. *)
Definition holds {A} (P : Tables → Prop) (p : prog A) (Q : A → Tables → Prop) : Prop :=
  ∀ s a s', Inv s → P s → finishes p s a s' → Inv s' ∧ Q a s'.

Lemma holds_ret {A} P (a : A) Q : (∀ s, Inv s → P s → Q a s) → holds P (Ret a) Q.
Proof. intros HQ s a' s' Hok HP [-> ->]. split; [done|by apply HQ]. Qed.
Lemma holds_weaken {A} (P P' : Tables → Prop) (p : prog A) Q : (∀ s, Inv s → P' s → P s) → holds P p Q → holds P' p Q.
Proof. intros HPP Hp s a s' Hok HP. by apply Hp; auto. Qed.
Lemma holds_post {A} P (p : prog A) (Q Q' : A → Tables → Prop) : (∀ a s, Q a s → Q' a s) → holds P p Q → holds P p Q'.
Proof. intros HQQ Hp s a s' Hok HP Hf. destruct (Hp s a s' Hok HP Hf). auto. Qed.
(** What an operation that commits establishes is known to the rest. *)
Lemma holds_do {A X} (F : X → Tables → Prop) P (o : op X) (k : res fault X → prog A) Q : stable P → issued o →
  (∀ x s s', Inv s → P s → returns o s x s' → F x s') →
  (∀ x, holds (λ s, P s ∧ F x s) (k (Ok x)) Q) → (∀ f, holds P (k (Err f)) Q) → holds P (Do o k) Q.
Proof.
  intros Hst Hi HF Hok Herr s a s' Hs HP (s1 & x & s2 & Hev & Hex & Hrest).
  destruct (evolves_keeps s s1 Hev Hs) as [Hs1 Hm1]. destruct (exec_keeps X o s1 x s2 Hi Hs1 Hex) as [Hs2 Hm2].
  assert (P s1) as HP1 by (by eapply Hst). assert (P s2) as HP2 by (by eapply Hst).
  destruct x as [x|f]; [|by apply (Herr f s2)]. apply (Hok x s2); [done| |done]. split; [done|].
  eapply HF; [exact Hs1|done|]. by apply exec_committed.
Qed.
Lemma holds_read {A X} P (o : op X) (k : res fault X → prog A) Q : stable P → issued o →
  (∀ x, holds P (k x) Q) → holds P (Do o k) Q.
Proof.
  intros Hst Hi Hk. apply (holds_do (λ _ _, True)); [done|done|done| |by intros f].
  intros x. eapply holds_weaken; [|apply Hk]. by intros s _ [? _].
Qed.
Lemma holds_fresh {A} P (k : string → prog A) Q : (∀ id, id ≠ EmptyString → holds P (k id) Q) → holds P (Fresh k) Q.
Proof. intros Hk s a s' Hok HP (id & Hid & Hrest). by apply (Hk id Hid s). Qed.
End logic.
