(* ===== verification/Ingest.v ===== *)
(** The ingestion of trigger events: the durable pipeline that every inbound route feeds
    (httpapi/webhooks.go) and the routes of webhooks, emails, dropped files and MCP
    notifications (httpapi/triggeringest.go), from the decoded body on. *)
From S2P Require Import Prelude GoStrings GoFloat GoAny GoInt Base64 Json Regex Calendar Graph Inputs RecoveryContract NodeConfig HttpConfig RecoveryDag Expression Validate WorkflowParse Rollout Qualification Trigger TriggerProg.
Local Open Scope string_scope.
Local Open Scope list_scope.

Definition duplicateResult (e : TriggerEvent) : opResult :=
  opOK (AObj [("ok", ABool true); ("duplicate", ABool true); ("triggerEventId", AStr (te_ID e)); ("runId", textOrNull (te_RunID e))]).

(** ** The saved-workflow gate (workflowvalidation/) *)

Definition MaxWorkflowNodes : nat := 500.
Definition MaxWorkflowEdges : nat := 1000.

Section gate.
Context `{UnicodeTables, HttpLibrary} (lower upper : string → string) (now : instant).
(** The registry of tools, a component of its own. *)
Context (ValidateInput ValidatePartialInput : string → obj → option string).

Definition tool_validator (name : string) (input : obj) (strictInput : bool) : option string :=
  if strictInput then ValidateInput name input else ValidatePartialInput name input.
Definition workflow_validate (workflow : Workflow) (allowIncompleteToolInputs : bool) : option Validate.ValidationResult :=
  if (MaxWorkflowNodes <? length (Nodes workflow))%nat || (MaxWorkflowEdges <? length (Edges workflow))%nat then
    Some (Validate.mkValidation false [mkIssue "workflow_too_large"
      ("Workflow has " +:+ Itoa (Z.of_nat (length (Nodes workflow))) +:+ " nodes and " +:+
       Itoa (Z.of_nat (length (Edges workflow))) +:+ " edges; the limit is " +:+ Itoa (Z.of_nat MaxWorkflowNodes) +:+
       " nodes and " +:+ Itoa (Z.of_nat MaxWorkflowEdges) +:+ " edges.") "" ""])
  else
    ValidateWithOptions lower upper now workflow (Some (λ expression, default (false, "") (DomainValidator expression)))
      (Some (λ c, default [] (FixtureOutcomesForValidation (Some c))))
      (mkValidationOptions (Some tool_validator) allowIncompleteToolInputs).
End gate.

(** ** The durable pipeline *)

(** [matchNode] selects the trigger node of a document, or answers; [ti_NoMatch] is the
    answer to a caller that has no trigger there. *)
Record triggerIngestRequest := mkIngest
  { ti_OrgID : string; ti_Auth : string * string; ti_CreatedBy : string; ti_WorkflowID : string; ti_TriggerType : string;
    ti_Payload : obj; ti_DedupeKey : string; ti_EventID : string; ti_NoMatch : opResult;
    ti_MatchNode : Workflow → opResult → string * opResult }.

(** What an accepted event pins: the document and the node, the version and its rollout, the
    payload. *)
Record accepted := mkAccepted
  { ac_EventID : string; ac_Workflow : Workflow; ac_NodeID : string; ac_VersionID : string; ac_Rollout : option string;
    ac_Variant : option string; ac_Payload : obj }.

Definition node_config (wf : Workflow) (nodeID : string) : obj :=
  match filter (λ n, ID n = nodeID) (Nodes wf) with n :: _ => Config n | [] => [] end.
Definition rate_options (a : accepted) : Options :=
  mkOptions ("trigger." +:+ ac_VersionID a +:+ "." +:+ ac_NodeID a)
    (ResolveTriggerRateLimitPerMin (obj_at (node_config (ac_Workflow a) (ac_NodeID a)) "rateLimitPerMin")) 60000000000.

Section ingest.
Context (Parse : string → option Workflow * list Issue) (Validate : Workflow → option Validate.ValidationResult).

(** [None] is a panic. *)
Abbreviation handler := (prog (option opResult)).
Definition answer (r : opResult) : handler := Ret (Some r).
Definition fails : handler := answer internal.
Definition panics : handler := Ret None.

Definition trail_row (i : triggerIngestRequest) (action : event_action) (eventID : string) (metadata : obj) : op unit :=
  AuditEvent (ti_Auth i) action eventID (("triggerType", AStr (ti_TriggerType i)) :: metadata).

(** The event of an earlier delivery, in the version it was accepted with. When the node of
    that version is another one, the closure of the code returns the zero answer and its
    callers go on: that is [unset]. *)
Definition adoptExisting (i : triggerIngestRequest) (existing : TriggerEvent) (unset : handler) (k : accepted → handler)
  : handler :=
  if negb (eqs (te_OrgID existing) (ti_OrgID i)) || negb (bool_decide (te_WorkflowID existing = Some (ti_WorkflowID i))) ||
     negb (eqs (te_TriggerType existing) (ti_TriggerType i)) || eqs (te_NodeID existing) ""
  then answer (opError 409 "trigger_event_identity_mismatch" "Persisted trigger event does not match this delivery")
  else
    do! captured := GetVersionAny (te_VersionID existing) (ti_OrgID i) or fails in
    match captured with
    | None => fails
    | Some v =>
        if negb (eqs (ve_WorkflowID v) (ti_WorkflowID i)) then fails
        else
          match (Parse (DagJson v)).1 with
          | None => fails
          | Some wf =>
              let '(nodeID, result) := ti_MatchNode i wf (opError 409 "trigger_no_matching_node"
                "Persisted workflow version no longer contains the trigger node") in
              if eqs nodeID "" || negb (eqs nodeID (te_NodeID existing))
              then (if (rs_status result =? 0)%Z then unset else answer result)
              else
                match (raw ← Unmarshal (te_Payload existing); o ← as_obj raw; as_obj (obj_at o "event")) with
                | None => fails
                | Some payload =>
                    k (mkAccepted (te_ID existing) wf nodeID (te_VersionID existing) (te_RolloutID existing)
                         (te_Variant existing) payload)
                end
          end
    end.

(** After the acceptance: storm guard, buffering, validation, start. *)
Definition start_of (i : triggerIngestRequest) (a : accepted) : StartInput :=
  let assigned := match ac_Rollout a, ac_Variant a with Some r, Some v => (r, v) | _, _ => ("", "") end in
  mkStartInput (ti_OrgID i) (ac_Workflow a) (ac_VersionID a)
    (AObj [("triggeredBy", AStr (ti_TriggerType i)); ("triggerEventId", AStr (ac_EventID a)); ("event", AObj (ac_Payload a))])
    (ti_CreatedBy i) "" (ac_EventID a) "" "" assigned.1 assigned.2.
Definition reread_duplicate (i : triggerIngestRequest) (eventID : string) : handler :=
  do! existing := GetEvent (ti_OrgID i) eventID or fails in
  match existing with Some e => answer (duplicateResult e) | None => fails end.
Definition start_event (i : triggerIngestRequest) (a : accepted) : handler :=
  do! started := Start (start_of i a) or fails in
  match started with
  | Ok runID =>
      try! (trail_row i EventStarted (ac_EventID a)
             [("runId", AStr runID); ("workflowId", AStr (ti_WorkflowID i)); ("nodeId", AStr (ac_NodeID a))]) in
      answer (opOK (AObj [("ok", ABool true); ("triggerEventId", AStr (ac_EventID a)); ("runId", AStr runID)]))
  | Err TriggerConflict => reread_duplicate i (ac_EventID a)
  | Err StartPanic => panics
  | Err _ => fails
  end.
Definition buffer_or_start (i : triggerIngestRequest) (ownerStatus : string) (a : accepted) : handler :=
  if negb (eqs ownerStatus "") && negb (eqs ownerStatus "active") then
    do! _ := MarkOutcome (ti_OrgID i) (ac_EventID a) OutcomeBuffered (Some ownerStatus) or fails in
    try! (trail_row i EventBuffered (ac_EventID a)
           [("reason", AStr ownerStatus); ("workflowId", AStr (ti_WorkflowID i)); ("nodeId", AStr (ac_NodeID a))]) in
    answer (mkResult 202 "" "" (AObj [("ok", ABool true); ("buffered", ABool true); ("reason", AStr ownerStatus);
                                      ("triggerEventId", AStr (ac_EventID a))]))
  else
    match Validate (ac_Workflow a) with
    | None => panics
    | Some result =>
        if Validate.Valid result then start_event i a
        else
          try! MarkOutcome (ti_OrgID i) (ac_EventID a) OutcomeFailed (Some "workflow_parse_failed") in
          answer (opError 422 "trigger_invalid_payload" "Resolved workflow failed schema validation")
    end.
(** The limiter fails open, except when the outcome of its commit is not known. *)
Definition guard_and_start (i : triggerIngestRequest) (ownerStatus : string) (a : accepted) : handler :=
  Do (EnforceEvent (ti_OrgID i) (ti_OrgID i) (ac_EventID a) (rate_options a)) (λ verdict,
    match verdict with
    | Ok Allowed | Err BeforeCommit => buffer_or_start i ownerStatus a
    | Err AtCommit => fails
    | Ok (Settled _) => reread_duplicate i (ac_EventID a)
    | Ok (Limited _) =>
        try! (trail_row i EventSkipped (ac_EventID a)
               [("reason", AStr "rate_limited"); ("ratePerMin", AInt KInt (op_Max (rate_options a)))]) in
        answer (mkResult 429 "" "" (AObj [("ok", ABool false); ("skipped", ABool true); ("reason", AStr "rate_limited");
                                          ("triggerEventId", AStr (ac_EventID a))]))
    end).

(** A first delivery: the deployment of now, the assignment of the event, the durable row. *)
Definition new_event (i : triggerIngestRequest) (a : accepted) (payload : string) : TriggerEvent :=
  mkTriggerEvent (ac_EventID a) (ti_OrgID i) (ti_TriggerType i) (Some (ti_WorkflowID i)) (ac_VersionID a) (ac_NodeID a)
    "received" None (text (ti_DedupeKey i)) payload None None 0 None (ac_Rollout a) (ac_Variant a).
Definition with_event_id (id : string) (a : accepted) : accepted :=
  let 'mkAccepted _ wf node version rollout variant payload := a in mkAccepted id wf node version rollout variant payload.
Definition persist_event (i : triggerIngestRequest) (a : accepted) (k : accepted → handler) : handler :=
  match Marshal (AObj [("event", AObj (ti_Payload i))]) with
  | None => fails
  | Some payload =>
      do! created := InsertEvent (new_event i a payload) or fails in
      if (created : bool) then
        try! (trail_row i EventReceived (ac_EventID a)
               [("workflowId", AStr (ti_WorkflowID i)); ("nodeId", AStr (ac_NodeID a)); ("replay", ABool false)]) in
        k a
      else if eqs (ti_DedupeKey i) "" then k a
      else
        do! existing := FindByDedupe (ti_OrgID i) (ti_DedupeKey i) or fails in
        match existing with
        | None => fails
        | Some e =>
            if negb (eqs (te_Status e) "received") then answer (duplicateResult e)
            else adoptExisting i e (k (with_event_id (te_ID e) a)) k
        end
  end.
Definition first_delivery (i : triggerIngestRequest) (eventID : string) (k : accepted → handler) : handler :=
  do! latest := GetLatestVersion (ti_WorkflowID i) (ti_OrgID i) or fails in
  match latest with
  | None => answer (ti_NoMatch i)
  | Some version =>
      match (Parse (DagJson version)).1 with
      | None => answer (opError 422 "trigger_invalid_payload" "Resolved workflow failed schema validation")
      | Some wf =>
          let '(nodeID, result) := ti_MatchNode i wf (ti_NoMatch i) in
          if eqs nodeID "" then answer result
          else
            do! assignment := ResolveAssignment (ti_OrgID i) (ti_WorkflowID i) eventID or fails in
            match assignment with
            | Err _ => fails
            | Ok None => persist_event i (mkAccepted eventID wf nodeID (ve_ID version) None None (ti_Payload i)) k
            | Ok (Some ra) =>
                let '(exactNodeID, exactResult) := ti_MatchNode i (ra_Workflow ra) (opError 409 "trigger_no_matching_node"
                  "Assigned workflow version no longer contains the trigger node") in
                if eqs exactNodeID "" || negb (eqs exactNodeID nodeID) then answer exactResult
                else persist_event i (mkAccepted eventID (ra_Workflow ra) nodeID (ra_VersionID ra)
                       (Some (ro_ID (ra_Rollout ra))) (Some (ra_Variant ra)) (ti_Payload i)) k
            end
      end
  end.
Definition with_id (eventID : string) (k : string → handler) : handler := if eqs eventID "" then Fresh k else k eventID.

Definition ingestTriggerEventCore (i : triggerIngestRequest) : handler :=
  do! owner := GetIngestState (ti_WorkflowID i) or fails in
  match owner with
  | None => answer (ti_NoMatch i)
  | Some (orgID, ownerStatus, deleted) =>
      if negb (eqs orgID (ti_OrgID i)) || deleted then answer (ti_NoMatch i)
      else
        with_id (ti_EventID i) (λ eventID,
          if eqs (ti_DedupeKey i) "" then first_delivery i eventID (guard_and_start i ownerStatus)
          else
            do! existing := FindByDedupe (ti_OrgID i) (ti_DedupeKey i) or fails in
            match existing with
            | None => first_delivery i eventID (guard_and_start i ownerStatus)
            | Some e =>
                if negb (eqs (te_Status e) "received") then answer (duplicateResult e)
                else adoptExisting i e panics (guard_and_start i ownerStatus)
            end)
  end.
End ingest.

(** ** The routes *)

Section routes.
Context (lower : string → string) (fold : string → string → bool).
Context (Parse : string → option Workflow * list Issue) (Validate : Workflow → option Validate.ValidationResult).
Abbreviation handler := (prog (option opResult)).
Abbreviation answer := (λ r : opResult, (Ret (Some r) : handler)).

(** The caller: organisation, user, authentication. [now] is the text of the instant that
    stands in for an absent one. *)
Record caller := mkCaller { rc_OrgID : string; rc_UserID : string; rc_Auth : string * string; rc_Now : string }.

Definition invalid_payload (message : string) : opResult := opError 400 "trigger_invalid_payload" message.
Definition no_match (message : string) : opResult := opError 404 "trigger_no_matching_node" message.
Definition ambiguous_selector (message : string) : opResult := opError 409 "trigger_selector_ambiguous" message.

Definition matchTriggerNodeByID (nodeID nodeType : string) (candidate : Workflow) (noMatch : opResult) : string * opResult :=
  if existsb (λ n, eqs (ID n) nodeID && eqs (Graph.Type_ n) nodeType) (Nodes candidate) then (nodeID, no_result)
  else ("", noMatch).

(** The trigger nodes of a type in the live workflows of an organisation whose configuration
    matches: one, none or several. *)
Record resolvedTriggerNode := mkResolved { rt_WorkflowID : string; rt_NodeID : string; rt_Config : obj }.
Definition matching_nodes (triggerType : string) (matches : obj → bool) (rows : list (string * string))
  : list resolvedTriggerNode :=
  flat_map (λ row : string * string,
    match (Parse row.2).1 with
    | None => []
    | Some wf => map (λ n, mkResolved row.1 (ID n) (Config n))
                   (filter (λ n, eqs (Graph.Type_ n) triggerType && matches (Config n) = true) (Nodes wf))
    end) rows.
Definition resolveUniqueTriggerNode (orgID triggerType : string) (matches : obj → bool) (ambiguous missing : opResult)
    (k : resolvedTriggerNode → handler) : handler :=
  do! rows := ListLatestDags orgID or answer internal in
  match matching_nodes triggerType matches rows with
  | [] => answer missing
  | [resolved] => k resolved
  | _ => answer ambiguous
  end.

(** *** Webhooks *)

Record webhookIngestBody := mkWebhookBody
  { wb_EndpointKey : string; wb_EventID : string; wb_EventType : string; wb_Payload : obj; wb_ReceivedAt : string }.
Definition validateWebhookIngestBody (b : webhookIngestBody) : opResult :=
  let endpointKey := TrimSpace (wb_EndpointKey b) in
  let eventID := TrimSpace (wb_EventID b) in
  if eqs endpointKey "" || (128 <? len endpointKey)%nat then invalid_payload "endpointKey must be 1..128 characters"
  else if eqs eventID "" || (256 <? len eventID)%nat then invalid_payload "eventId must be 1..256 characters"
  else if (128 <? len (TrimSpace (wb_EventType b)))%nat then invalid_payload "eventType must be at most 128 characters"
  else if (64 <? len (TrimSpace (wb_ReceivedAt b)))%nat then invalid_payload "receivedAt must be at most 64 characters"
  else no_result.

Definition has_endpoint_key (endpointKey : string) (n : Node) : bool :=
  eqs (Graph.Type_ n) "webhook_received" &&
  match ResolveWebhookEndpointKey (Config n) with
  | Ok key => negb (eqs key "") && EqualFold fold key endpointKey
  | Err _ => false
  end.
Definition matchWebhookNode (wf : Workflow) (endpointKey : string) (noMatch : opResult) : string * opResult :=
  match filter (λ n, has_endpoint_key endpointKey n = true) (Nodes wf) with
  | [] => ("", noMatch)
  | [n] => (ID n, no_result)
  | _ => ("", ambiguous_selector "Multiple active workflows use this webhook endpoint key")
  end.
Definition or_now (rc : caller) (receivedAt : string) : string :=
  if eqs (TrimSpace receivedAt) "" then rc_Now rc else TrimSpace receivedAt.
Definition webhook_request (rc : caller) (workflowID : string) (b : webhookIngestBody) : triggerIngestRequest :=
  let endpointKey := TrimSpace (wb_EndpointKey b) in
  let eventID := TrimSpace (wb_EventID b) in
  let eventType := TrimSpace (wb_EventType b) in
  mkIngest (rc_OrgID rc) (rc_Auth rc) (rc_UserID rc) workflowID "webhook_received"
    ([("endpointKey", AStr endpointKey); ("eventId", AStr eventID); ("payload", AObj (wb_Payload b));
      ("receivedAt", AStr (or_now rc (wb_ReceivedAt b)))] ++
     (if eqs eventType "" then [] else [("eventType", AStr eventType)]))
    ("webhook:" +:+ ToLower lower endpointKey +:+ ":" +:+ eventID) ""
    (no_match "No webhook_received trigger matches this endpoint key")
    (λ wf noMatch, matchWebhookNode wf endpointKey noMatch).
Definition webhookIngestBodyCore (rc : caller) (workflowID : string) (b : webhookIngestBody) : handler :=
  let invalid := validateWebhookIngestBody b in
  if negb (rs_status invalid =? 0)%Z then answer invalid
  else ingestTriggerEventCore Parse Validate (webhook_request rc workflowID b).
Definition webhook_selector (endpointKey : string) (config : obj) : bool :=
  match ValidateWebhookReceivedConfig config with
  | Some _ => false
  | None => match ResolveWebhookEndpointKey config with Ok key => EqualFold fold key endpointKey | Err _ => false end
  end.
Definition webhookSelectorIngestCore (rc : caller) (b : webhookIngestBody) : handler :=
  let invalid := validateWebhookIngestBody b in
  if negb (rs_status invalid =? 0)%Z then answer invalid
  else
    resolveUniqueTriggerNode (rc_OrgID rc) "webhook_received" (webhook_selector (TrimSpace (wb_EndpointKey b)))
      (ambiguous_selector "Multiple active workflows use this webhook endpoint key")
      (no_match "No webhook_received trigger matches this endpoint key")
      (λ resolved, webhookIngestBodyCore rc (rt_WorkflowID resolved) b).

(** *** Emails *)

Definition emailBodyMaxBytes : nat := N.to_nat 1048576.
Definition emailAttachmentMax : nat := 20.
Definition emailAttachmentMaxBytes : nat := N.to_nat 1048576.

Record emailAttachmentMeta := mkAttachment { em_Filename : string; em_ContentType : string; em_SizeBytes : float64 }.
Record emailIngestBody := mkEmailBody
  { em_AliasKey : string; em_From : string; em_To : string; em_Subject : string; em_Body : string; em_DkimPass : bool;
    em_MessageID : string; em_Attachments : list emailAttachmentMeta; em_ReceivedAt : string;
    em_AttachmentBodies : list (string * string) }.

(** [sha256_hex] is the hexadecimal SHA-256 digest; [put] the object store: key, body,
    content type, and whether it was stored. *)
Context (sha256_hex : string → string) (put : string → string → string → bool).
Definition shortHash (value : string) (length : nat) : string := slice (sha256_hex value) 0 length.

(** [attachmentNameUnsafe.ReplaceAllString(filename, "_")], then without any "..". *)
Definition safe_rune (r : N) : bool :=
  (r <? 128)%N && (let c := chr (N.to_nat r) in is_alnum c || one_of "._-" c).
Definition replace_unsafe (filename : string) : string :=
  of_bytes (map (λ r, if safe_rune r then chr (N.to_nat r) else "_"%char) (runes filename)).
Fixpoint drop_dots (fuel : nat) (name : string) : string :=
  match fuel with
  | 0 => name
  | S fuel => if Contains name ".." then drop_dots fuel (ReplaceAll name ".." "") else name
  end.
Definition only_marks (name : string) : bool := forallb (one_of "_.") (bytes name).
Definition safeName (filename : string) : string :=
  let name := replace_unsafe filename in
  let name := drop_dots (len name) name in
  let name := if (200 <? len name)%nat then slice name 0 200 else name in
  if only_marks name then "attachment" else name.
Definition object_key (orgID prefix : string) (index : nat) (filename : string) : string :=
  "orgs/" +:+ orgID +:+ "/email/" +:+ prefix +:+ "/" +:+ Itoa (Z.of_nat index) +:+ "-" +:+ safeName filename.
Definition attachment_prefix (orgID eventID filename : string) (index size : nat) : string :=
  if eqs eventID "" then
    "adhoc-" +:+ shortHash (orgID +:+ filename +:+ Itoa (Z.of_nat index) +:+ " " +:+ Itoa (Z.of_nat size)) 16
  else eventID.
Definition body_of (bodies : list (string * string)) (key : string) : string :=
  match filter (λ kv, kv.1 = key) bodies with kv :: _ => kv.2 | [] => "" end.
Definition attachment_entry (m : emailAttachmentMeta) (size : any) (stored : bool) (key : option string) : any :=
  AObj ([("filename", AStr (em_Filename m)); ("sizeBytes", size); ("stored", ABool stored)] ++
        (if eqs (em_ContentType m) "" then [] else [("contentType", AStr (em_ContentType m))]) ++
        match key with Some k => [("objectKey", AStr k)] | None => [] end).
Definition offload_one (orgID eventID : string) (bodies : list (string * string)) (index : nat) (m : emailAttachmentMeta) : any :=
  let raw := body_of bodies (em_Filename m) in
  let raw := if eqs raw "" then body_of bodies (Itoa (Z.of_nat index)) else raw in
  if eqs raw "" then attachment_entry m (AF64 (em_SizeBytes m)) false None
  else
    match StdDecode raw with
    | None => attachment_entry m (AInt KInt 0) false None
    | Some decoded =>
        let size := AInt KInt (Z.of_nat (len decoded)) in
        if (emailAttachmentMaxBytes <? len decoded)%nat then attachment_entry m size false None
        else
          let key := object_key orgID (attachment_prefix orgID eventID (em_Filename m) index (len decoded)) index (em_Filename m) in
          if put key decoded (em_ContentType m) then attachment_entry m size true (Some key)
          else attachment_entry m size false None
    end.
Definition offloadEmailAttachments (orgID eventID : string) (attachments : list emailAttachmentMeta)
    (bodies : list (string * string)) : list any :=
  imap (offload_one orgID eventID bodies) attachments.

Definition email_problem (b : emailIngestBody) : option opResult :=
  let aliasKey := TrimSpace (em_AliasKey b) in
  let from := TrimSpace (em_From b) in
  let messageID := TrimSpace (em_MessageID b) in
  if eqs aliasKey "" || (128 <? len aliasKey)%nat || negb (MatchString emailAliasKeyPattern aliasKey)
  then Some (invalid_payload "aliasKey must be a valid email local-part")
  else if eqs from "" || (512 <? len from)%nat then Some (invalid_payload "from must be 1..512 characters")
  else if (512 <? len (em_To b))%nat || (2048 <? len (em_Subject b))%nat || (998 <? len messageID)%nat ||
          (64 <? len (em_ReceivedAt b))%nat
  then Some (invalid_payload "email envelope field exceeds its cap")
  else if (emailAttachmentMax <? length (em_Attachments b))%nat
  then Some (invalid_payload ("at most " +:+ Itoa (Z.of_nat emailAttachmentMax) +:+ " attachments"))
  else if existsb (λ m, eqs (TrimSpace (em_Filename m)) "" || (512 <? len (em_Filename m))%nat ||
                        (256 <? len (em_ContentType m))%nat) (em_Attachments b)
  then Some (invalid_payload "invalid attachment metadata")
  else if (emailBodyMaxBytes <? len (em_Body b))%nat
  then Some (opError 413 "trigger_payload_too_large" "Email body exceeds 1 MiB cap")
  else None.
Definition email_selector (aliasKey : string) (config : obj) : bool :=
  match ValidateEmailReceivedConfig lower config with
  | Some _ => false
  | None => EqualFold fold (string_or_zero (obj_at config "aliasKey")) aliasKey
  end.
(** [from[at+1:]] after the last [@]. *)
Definition sender_domain (from : string) : string :=
  match split_bytes "@" (bytes from) [] with
  | [_] => ""
  | parts => ToLower lower (of_bytes (default [] (last parts)))
  end.
Definition sender_problem (b : emailIngestBody) (config : obj) : option opResult :=
  let dkimRequired := match obj_at config "dkimRequired" with ABool required => required | _ => true end in
  if dkimRequired && negb (em_DkimPass b)
  then Some (opError 403 "trigger_dkim_required" "Inbound email failed the DKIM check")
  else
    match obj_at config "fromDomains" with
    | AArr (d :: rest) =>
        if existsb (λ listed, match listed with AStr l => EqualFold fold l (sender_domain (TrimSpace (em_From b))) | _ => false end)
             (d :: rest)
        then None else Some (opError 403 "trigger_dkim_required" "Sender domain is not in the allow-list")
    | _ => None
    end.
Definition email_event_id (rc : caller) (dedupeKey : string) : string :=
  "email-" +:+ shortHash (rc_OrgID rc +:+ of_bytes [chr 0] +:+ dedupeKey) 40.
Definition email_request (rc : caller) (b : emailIngestBody) (resolved : resolvedTriggerNode) (dedupeKey eventID : string)
  : triggerIngestRequest :=
  let missing := no_match "No email_received trigger matches this alias" in
  mkIngest (rc_OrgID rc) (rc_Auth rc) (rc_UserID rc) (rt_WorkflowID resolved) "email_received"
    [("aliasKey", AStr (TrimSpace (em_AliasKey b))); ("from", AStr (TrimSpace (em_From b))); ("to", AStr (em_To b));
     ("subject", AStr (em_Subject b)); ("body", AStr (em_Body b)); ("dkimPass", ABool (em_DkimPass b));
     ("messageId", AStr (TrimSpace (em_MessageID b)));
     ("attachments", AArr (offloadEmailAttachments (rc_OrgID rc) eventID (em_Attachments b) (em_AttachmentBodies b)));
     ("receivedAt", AStr (or_now rc (em_ReceivedAt b)))]
    dedupeKey eventID missing (matchTriggerNodeByID (rt_NodeID resolved) "email_received").
Definition emailIngestCore (rc : caller) (b : emailIngestBody) : handler :=
  match email_problem b with
  | Some problem => answer problem
  | None =>
      resolveUniqueTriggerNode (rc_OrgID rc) "email_received" (email_selector (TrimSpace (em_AliasKey b)))
        (ambiguous_selector "Multiple active workflows use this email alias")
        (no_match "No email_received trigger matches this alias")
        (λ resolved,
           match sender_problem b (rt_Config resolved) with
           | Some problem => answer problem
           | None =>
               let messageID := TrimSpace (em_MessageID b) in
               if eqs messageID "" then ingestTriggerEventCore Parse Validate (email_request rc b resolved "" "")
               else
                 let dedupeKey := "email:" +:+ messageID in
                 let ingest := ingestTriggerEventCore Parse Validate
                                 (email_request rc b resolved dedupeKey (email_event_id rc dedupeKey)) in
                 Do (FindByDedupe (rc_OrgID rc) dedupeKey) (λ prior,
                   match prior with
                   | Ok (Some e) => if eqs (te_Status e) "received" then ingest else answer (duplicateResult e)
                   | _ => ingest
                   end)
           end)
  end.

(** *** Dropped files *)

Definition fileMetadataMaxBytes : nat := N.to_nat 65536.
Record fileIngestBody := mkFileBody
  { fi_Bucket : string; fi_Key : string; fi_SizeBytes : float64; fi_ContentType : string; fi_Etag : string;
    fi_EventName : string; fi_ReceivedAt : string }.
Definition file_json (b : fileIngestBody) : any :=
  AObj [("bucket", AStr (fi_Bucket b)); ("key", AStr (fi_Key b)); ("sizeBytes", AF64 (fi_SizeBytes b));
        ("contentType", AStr (fi_ContentType b)); ("etag", AStr (fi_Etag b)); ("eventName", AStr (fi_EventName b));
        ("receivedAt", AStr (fi_ReceivedAt b))].
Definition too_long (value : any) (limit : nat) : bool :=
  match Marshal value with Some text => (limit <? len text)%nat | None => true end.
Definition file_problem (b : fileIngestBody) : option opResult :=
  let bucket := TrimSpace (fi_Bucket b) in
  let key := TrimSpace (fi_Key b) in
  if eqs bucket "" || (256 <? len bucket)%nat then Some (invalid_payload "bucket must be 1..256 characters")
  else if eqs key "" || (2048 <? len key)%nat then Some (invalid_payload "key must be 1..2048 characters")
  else if f_ltb (fi_SizeBytes b) (f_of_Z 0) || (256 <? len (fi_ContentType b))%nat || (256 <? len (fi_Etag b))%nat ||
          (256 <? len (fi_EventName b))%nat || (64 <? len (fi_ReceivedAt b))%nat
  then Some (invalid_payload "file event field exceeds its cap")
  else if too_long (file_json b) fileMetadataMaxBytes
  then Some (opError 413 "trigger_payload_too_large" "File event metadata exceeds the cap")
  else None.
(** [strings.ToLower(key[dot+1:])] after the last dot, or nothing. *)
Definition file_extension (key : string) : string :=
  match split_bytes "." (bytes key) [] with
  | [_] => ""
  | parts => ToLower lower (of_bytes (default [] (last parts)))
  end.
Definition file_selector (bucket key : string) (config : obj) : bool :=
  match ValidateFileDroppedConfig lower config with
  | Some _ => false
  | None =>
      let prefix := string_or_zero (obj_at config "prefix") in
      eqs (string_or_zero (obj_at config "bucket")) bucket &&
      (eqs prefix "" || HasPrefix key prefix) &&
      match obj_at config "extensions" with
      | AArr (e :: rest) =>
          existsb (λ listed, match listed with AStr l => EqualFold fold l (file_extension key) | _ => false end) (e :: rest)
      | _ => true
      end
  end.
Definition file_request (rc : caller) (b : fileIngestBody) (resolved : resolvedTriggerNode) : triggerIngestRequest :=
  let bucket := TrimSpace (fi_Bucket b) in
  let key := TrimSpace (fi_Key b) in
  mkIngest (rc_OrgID rc) (rc_Auth rc) (rc_UserID rc) (rt_WorkflowID resolved) "file_dropped"
    [("bucket", AStr bucket); ("key", AStr key); ("sizeBytes", AF64 (fi_SizeBytes b));
     ("contentType", AStr (fi_ContentType b)); ("etag", AStr (fi_Etag b)); ("eventName", AStr (fi_EventName b));
     ("receivedAt", AStr (or_now rc (fi_ReceivedAt b)))]
    ("file:" +:+ bucket +:+ ":" +:+ key +:+ ":" +:+ fi_Etag b) ""
    (no_match "No file_dropped trigger matches this object")
    (matchTriggerNodeByID (rt_NodeID resolved) "file_dropped").
Definition fileIngestCore (rc : caller) (b : fileIngestBody) : handler :=
  match file_problem b with
  | Some problem => answer problem
  | None =>
      resolveUniqueTriggerNode (rc_OrgID rc) "file_dropped" (file_selector (TrimSpace (fi_Bucket b)) (TrimSpace (fi_Key b)))
        (ambiguous_selector "Multiple active workflows match this file selector")
        (no_match "No file_dropped trigger matches this object")
        (λ resolved, ingestTriggerEventCore Parse Validate (file_request rc b resolved))
  end.

(** *** MCP notifications *)

Definition mcpEventPayloadMaxBytes : nat := N.to_nat 65536.
(** A payload that is absent is [None]. *)
Record mcpIngestBody := mkMcpBody
  { mc_ConnectionAlias : string; mc_ResourceURI : string; mc_EventType : string; mc_Payload : option obj;
    mc_ReceivedAt : string }.
Definition mcp_problem (b : mcpIngestBody) : option opResult :=
  let alias := TrimSpace (mc_ConnectionAlias b) in
  let resourceURI := TrimSpace (mc_ResourceURI b) in
  let eventType := TrimSpace (mc_EventType b) in
  if eqs alias "" || (128 <? len alias)%nat then Some (invalid_payload "connectionAlias must be 1..128 characters")
  else if eqs resourceURI "" || (2048 <? len resourceURI)%nat
  then Some (invalid_payload "resourceUri must be 1..2048 characters")
  else if eqs eventType "" || (128 <? len eventType)%nat then Some (invalid_payload "eventType must be 1..128 characters")
  else if (64 <? len (mc_ReceivedAt b))%nat then Some (invalid_payload "receivedAt must be at most 64 characters")
  else
    match mc_Payload b with
    | Some payload =>
        if too_long (AObj payload) mcpEventPayloadMaxBytes
        then Some (opError 413 "trigger_payload_too_large" "MCP resource payload exceeds the cap") else None
    | None => None
    end.
Definition mcp_selector (alias resourceURI eventType : string) (config : obj) : bool :=
  match ValidateMcpServerEventConfig config with
  | Some _ => false
  | None =>
      eqs (string_or_zero (obj_at config "connectionAlias")) alias &&
      eqs (string_or_zero (obj_at config "resourceUri")) resourceURI &&
      match obj_at config "eventTypes" with
      | AArr (e :: rest) => existsb (λ listed, match listed with AStr l => eqs l eventType | _ => false end) (e :: rest)
      | _ => true
      end
  end.
Definition mcp_request (rc : caller) (b : mcpIngestBody) (resolved : resolvedTriggerNode) : triggerIngestRequest :=
  mkIngest (rc_OrgID rc) (rc_Auth rc) (rc_UserID rc) (rt_WorkflowID resolved) "mcp_server_event"
    [("connectionAlias", AStr (TrimSpace (mc_ConnectionAlias b))); ("resourceUri", AStr (TrimSpace (mc_ResourceURI b)));
     ("eventType", AStr (TrimSpace (mc_EventType b))); ("payload", AObj (default [] (mc_Payload b)));
     ("receivedAt", AStr (or_now rc (mc_ReceivedAt b)))]
    "" "" (no_match "No mcp_server_event trigger matches this notification")
    (matchTriggerNodeByID (rt_NodeID resolved) "mcp_server_event").
Definition mcpIngestCore (rc : caller) (b : mcpIngestBody) : handler :=
  match mcp_problem b with
  | Some problem => answer problem
  | None =>
      resolveUniqueTriggerNode (rc_OrgID rc) "mcp_server_event"
        (mcp_selector (TrimSpace (mc_ConnectionAlias b)) (TrimSpace (mc_ResourceURI b)) (TrimSpace (mc_EventType b)))
        (ambiguous_selector "Multiple active workflows match this MCP event selector")
        (no_match "No mcp_server_event trigger matches this notification")
        (λ resolved, ingestTriggerEventCore Parse Validate (mcp_request rc b resolved))
  end.
End routes.
