(* ===== verification/Breaker.v ===== *)
(** The circuit breaker of a workflow: the trip at a terminal failure, the manual resume and
    the drain of the events that were buffered meanwhile (engine/circuitbreaker.go,
    recovery/circuitbreaker.go). *)
From S2P Require Import Prelude GoStrings GoFloat GoAny GoInt Json Graph Inputs RecoveryContract NodeConfig RecoveryDag WorkflowParse Rollout Trigger TriggerProg.
Local Open Scope string_scope.
Local Open Scope list_scope.

Definition DefaultCircuitBreakerThreshold : Z := 5.
Definition WorkflowStatusPausedCircuitBreaker : string := "paused_circuit_breaker".
Definition IsCircuitBreakerEnabled (env : string) : bool := negb (eqs env "false").
Definition ShouldTripCircuitBreaker (consecutiveFailures threshold : Z) (workflowStatus : string) : bool :=
  if (threshold <=? 0)%Z then false
  else if negb (eqs workflowStatus "active") then false
  else (threshold <=? consecutiveFailures)%Z.

(** The failures at the head of a list of statuses. *)
Fixpoint failure_streak (statuses : list string) : Z :=
  match statuses with
  | s :: statuses => if eqs s "failed" then (1 + failure_streak statuses)%Z else 0
  | [] => 0
  end.

(** The workflow's own knob wins when it parses. [orgThreshold] is the organisation's
    setting, 0 when there is none. *)
Definition resolveBreakerThreshold (workflowKnob : option any) (orgThreshold : float64) : Z :=
  let org := if f_leb (f_of_Z 2) orgThreshold && f_leb orgThreshold (f_of_Z 100)
             then int_of_float orgThreshold else DefaultCircuitBreakerThreshold in
  match workflowKnob with
  | None => org
  | Some _ =>
      let '(threshold, on, problem) := ParseCircuitBreakerThreshold workflowKnob in
      if eqs problem "" then (if (on : bool) then threshold else 0) else org
  end.
Definition run_knob (i : option StartInput) : option any := i ← i; r ← Recovery (si_Workflow i); CircuitBreaker r.

(** [true] when this evaluation paused the workflow. The alert after the commit is left out. *)
Definition maybeTripCircuitBreaker (env orgID workflowID runID : string) : prog bool :=
  let stop : prog bool := Ret false in
  if eqs workflowID "" || negb (IsCircuitBreakerEnabled env) then stop
  else
    do! status := BreakerStatus orgID workflowID or stop in
    match status with
    | None => stop
    | Some status =>
        Do (GetRunStart runID) (λ run,
          let knob := match run with Ok i => run_knob i | Err _ => None end in
          Do (OrgNumber orgID "runs.circuitBreakerThreshold") (λ org,
            let threshold := resolveBreakerThreshold knob (match org with Ok f => f | Err _ => f_of_Z 5 end) in
            if (threshold <=? 0)%Z then stop
            else
              do! statuses := RecentStatuses orgID workflowID threshold or stop in
              let streak := failure_streak statuses in
              if negb (ShouldTripCircuitBreaker streak threshold status) then stop
              else
                do! tripped := TripBreaker orgID workflowID runID streak threshold or stop in
                Ret tripped))
    end.

(** ** The resume *)

Inductive ResumeError := ResumeStoreFault | WorkflowNotFoundForResume | WorkflowNotBreakerPaused (status : string).
Record BackfillOutcome := mkBackfill { Backfilled : Z; Failed : Z; Remaining : Z }.
Definition backfillPageLimit : nat := 50.

Section backfill.
Context (Parse : string → option Workflow * list Issue).

Definition backfill_input (e : TriggerEvent) : any :=
  let event := match (raw ← Unmarshal (te_Payload e); o ← as_obj raw; as_obj (obj_at o "event")) with
               | Some event => AObj event | None => ANil end in
  AObj [("triggeredBy", AStr "webhook_received"); ("triggerEventId", AStr (te_ID e)); ("event", event);
        ("backfilled", ABool true)].
(** A captured assignment replaces the latest version. *)
Definition backfill_start (orgID userID : string) (e : TriggerEvent) (wf : Workflow) (versionID : string)
    (captured : option Workflow) : StartInput :=
  let start wf versionID rollout variant :=
    mkStartInput orgID wf versionID (backfill_input e) userID "" (te_ID e) "" "" rollout variant in
  match captured, te_RolloutID e, te_Variant e with
  | Some capturedWf, Some rollout, Some variant => start capturedWf (te_VersionID e) rollout variant
  | _, _, _ => start wf versionID "" ""
  end.
Definition count_start (started : res fault (res StartError string)) (o : BackfillOutcome) : BackfillOutcome :=
  let 'mkBackfill backfilled failed remaining := o in
  match started with
  | Ok (Ok _) => mkBackfill (backfilled + 1) failed remaining
  | Ok (Err TriggerConflict) => o
  | _ => mkBackfill backfilled (failed + 1) remaining
  end.
Fixpoint drain (orgID userID : string) (wf : Workflow) (versionID : string) (claimed : list TriggerEvent)
    (o : BackfillOutcome) (k : BackfillOutcome → prog BackfillOutcome) : prog BackfillOutcome :=
  match claimed with
  | [] => k o
  | e :: claimed =>
      let start captured :=
        Do (Start (backfill_start orgID userID e wf versionID captured)) (λ started,
          drain orgID userID wf versionID claimed (count_start started o) k) in
      if bool_decide (is_Some (te_RolloutID e)) && bool_decide (is_Some (te_Variant e)) then
        Do (GetVersionAny (te_VersionID e) orgID) (λ captured,
          start (match captured with Ok (Some v) => (Parse (DagJson v)).1 | _ => None end))
      else start None
  end.
Definition backfillBufferedTriggerEvents (orgID workflowID userID : string) : prog BackfillOutcome :=
  Fresh (λ token,
    do! claimed := ClaimBuffered orgID workflowID token backfillPageLimit or Ret (mkBackfill 0 0 0) in
    let lost := mkBackfill 0 (Z.of_nat (length claimed)) 0 in
    do! latest := GetLatestVersion workflowID orgID or Ret lost in
    match latest with
    | None => Ret lost
    | Some version =>
        match (Parse (DagJson version)).1 with
        | None => Ret lost
        | Some wf =>
            drain orgID userID wf (ve_ID version) claimed (mkBackfill 0 0 0) (λ o,
              Do (CountBuffered orgID workflowID) (λ remaining,
                Ret (mkBackfill (Backfilled o) (Failed o) (match remaining with Ok n => n | Err _ => 0 end))))
        end
    end).

Definition ResumeWorkflowCircuitBreaker (orgID workflowID userID : string)
  : prog (res ResumeError (BackfillOutcome * bool)) :=
  let drain_now (resumed : bool) :=
    prog_map (λ o, Ok (o, resumed)) (backfillBufferedTriggerEvents orgID workflowID userID) in
  do! resumed := ResumeBreaker orgID workflowID userID or Ret (Err ResumeStoreFault) in
  if (resumed : bool) then drain_now true
  else
    do! status := BreakerStatus orgID workflowID or Ret (Err ResumeStoreFault) in
    match status with
    | None => Ret (Err WorkflowNotFoundForResume)
    | Some status => if eqs status "active" then drain_now false else Ret (Err (WorkflowNotBreakerPaused status))
    end.
End backfill.
