(* ===== verification/Schedule.v ===== *)
(** The scheduler: the entries of a saved version, and the firing of one due tick
    (engine/schedule.go). *)
From S2P Require Import Prelude GoStrings GoFloat GoAny GoInt Json Regex Calendar Cron Graph Inputs RecoveryContract NodeConfig HttpConfig Waiting RecoveryDag Validate WorkflowParse Rollout Trigger TriggerProg.
Local Open Scope string_scope.
Local Open Scope list_scope.

Definition scheduleSweepLimit : nat := 200.
Definition schedule_lease : Z := minute_ns.

(** [time.RFC3339] and [time.RFC3339Nano] in UTC. *)
Definition date_time (t : instant) : list ascii :=
  pad 4 (Year t) ++ ["-"%char] ++ pad 2 (Month t) ++ ["-"%char] ++ pad 2 (Day t) ++ ["T"%char] ++
  pad 2 (Hour t) ++ [":"%char] ++ pad 2 (Minute t) ++ [":"%char] ++ pad 2 (Second t).
Definition FormatRFC3339 (t : instant) : string := of_bytes (date_time t ++ ["Z"%char]).
Fixpoint drop_zeros (l : list ascii) : list ascii :=
  match l with
  | c :: l => match drop_zeros l with [] => if Ascii.eqb c "0" then [] else [c] | k => c :: k end
  | [] => []
  end.
Definition FormatRFC3339Nano (t : instant) : string :=
  let fraction := drop_zeros (pad 9 (t mod second_ns)) in
  of_bytes (date_time t ++ (match fraction with [] => [] | _ => "."%char :: fraction end) ++ ["Z"%char]).

Definition hasScheduleNode (wf : Workflow) (nodeID : string) : bool :=
  existsb (λ n, eqs (ID n) nodeID && eqs (Graph.Type_ n) "schedule") (Nodes wf).

(** ** The entries of a version *)

Section sync.
Context `{UnicodeTables}.

(** [ids] are the identifiers of the new entries, one per node; [None] is the exhaustion of
    the fuel of the search. The statements themselves are [ReplaceEntries]. *)
Definition schedule_entry (now : instant) (orgID workflowID versionID id : string) (node : Node)
  : option (res string (option ScheduleEntry)) :=
  if negb (eqs (Graph.Type_ node) "schedule") then Some (Ok None)
  else
    config ← ResolveScheduleConfig now (Config node);
    match config with
    | Err e => Some (Err ("resolve schedule node " +:+ Quote (ID node) +:+ ": " +:+ e))
    | Ok config =>
        if negb (Enabled config) then Some (Ok None)
        else
          schedule ← Cron.Parse (CronExpression config);
          match schedule with
          | Err e => Some (Err ("parse schedule node " +:+ Quote (ID node) +:+ ": " +:+ e))
          | Ok schedule =>
              next ← Next schedule now;
              Some match next with
                   | Err e => Err ("advance schedule node " +:+ Quote (ID node) +:+ ": " +:+ e)
                   | Ok next => Ok (Some (mkScheduleEntry id orgID workflowID versionID (ID node) (CronExpression config)
                                            true (Some next) None None None))
                   end
          end
    end.
Fixpoint schedule_entries (now : instant) (orgID workflowID versionID : string) (nodes : list (Node * string))
  : option (res string (list ScheduleEntry)) :=
  match nodes with
  | [] => Some (Ok [])
  | (node, id) :: nodes =>
      entry ← schedule_entry now orgID workflowID versionID id node;
      match entry with
      | Err e => Some (Err e)
      | Ok entry =>
          rest ← schedule_entries now orgID workflowID versionID nodes;
          Some match rest with
               | Err e => Err e
               | Ok rest => Ok (match entry with Some e => e :: rest | None => rest end)
               end
      end
  end.
Definition SyncWorkflowSchedules (now : instant) (ids : list string) (orgID workflowID versionID : string) (wf : Workflow)
  : option (res string (op unit)) :=
  entries ← schedule_entries now orgID workflowID versionID (zip (Nodes wf) ids);
  Some match entries with Err e => Err e | Ok entries => Ok (ReplaceEntries orgID workflowID entries) end.
End sync.

(** ** One due tick *)

(** [Failed] is an error: the tick keeps its claim and is retried after the lease. *)
Inductive FireOutcome := Fired | NotFired | FireFailed | FirePanicked.

Section fire.
Context `{UnicodeTables} (Parse : string → option Workflow * list Issue).

Definition system_scheduler (orgID : string) : string * string := (orgID, "system:scheduler").
Definition tick_name (entryID : string) (dueAt : instant) : string := entryID +:+ "@" +:+ FormatRFC3339Nano dueAt.
Definition tick_key (entryID : string) (dueAt : instant) : string := "schedule:" +:+ tick_name entryID dueAt.
(** A row that the claim returned carries its due time. *)
Definition due_of (now : instant) (e : ScheduleEntry) : instant := default now (ClaimedDueAt e).

Definition tick_start (e : ScheduleEntry) (dueAt : instant) (wf : Workflow) (versionID rolloutID variant : string) : StartInput :=
  mkStartInput (se_OrgID e) wf versionID
    (AObj [("triggeredBy", AStr "schedule"); ("nodeId", AStr (se_NodeID e)); ("scheduledAt", AStr (FormatRFC3339 dueAt))])
    "system:scheduler" "" "" (tick_key (se_ID e) dueAt) "" rolloutID variant.

(** Advancing needs the current claim. *)
Definition advance (e : ScheduleEntry) (next now : instant) (runID : string) (k : bool → prog FireOutcome) : prog FireOutcome :=
  do! advanced := AdvanceEntry (se_ID e) next now runID (ClaimedDueAt e) or Ret FireFailed in k advanced.
Definition drop (e : ScheduleEntry) (next now : instant) (targetID : string) (metadata : obj) : prog FireOutcome :=
  advance e next now "" (λ advanced,
    if (advanced : bool) then
      try! AuditEvent (system_scheduler (se_OrgID e)) TickDropped targetID
             (metadata ++ [("nodeId", AStr (se_NodeID e)); ("scheduledAt", AStr (FormatRFC3339 (due_of now e)))]) in
      Ret NotFired
    else Ret NotFired).
Definition forget (e : ScheduleEntry) : prog FireOutcome := try! DeleteEntry (se_ID e) in Ret NotFired.
Definition start_tick (e : ScheduleEntry) (next now : instant) (start : StartInput) : prog FireOutcome :=
  do! started := Start start or Ret FireFailed in
  match started with
  | Ok runID => advance e next now runID (λ _, Ret Fired)
  | Err (IdempotencyReplay original) => advance e next now original (λ _, Ret NotFired)
  | Err (InputInvalid _) => drop e next now (se_WorkflowID e) [("reason", AStr "input_invalid")]
  | Err StartPanic => Ret FirePanicked
  | Err _ => Ret FireFailed
  end.
(** The deployment of the tick, keyed by the tick. *)
Definition assign_tick (e : ScheduleEntry) (next now : instant) (wf : Workflow) : prog FireOutcome :=
  let dueAt := due_of now e in
  do! assignment := ResolveAssignment (se_OrgID e) (se_WorkflowID e) (tick_name (se_ID e) dueAt) or Ret FireFailed in
  match assignment with
  | Err unavailable =>
      drop e next now (un_RolloutID unavailable)
        [("reason", AStr "rollout_version_unavailable"); ("workflowId", AStr (se_WorkflowID e));
         ("versionId", AStr (un_VersionID unavailable))]
  | Ok None => start_tick e next now (tick_start e dueAt wf (se_VersionID e) "" "")
  | Ok (Some a) =>
      if negb (hasScheduleNode (ra_Workflow a) (se_NodeID e)) then
        drop e next now (ro_ID (ra_Rollout a))
          [("reason", AStr "rollout_trigger_missing"); ("workflowId", AStr (se_WorkflowID e)); ("versionId", AStr (ra_VersionID a))]
      else start_tick e next now (tick_start e dueAt (ra_Workflow a) (ra_VersionID a) (ro_ID (ra_Rollout a)) (ra_Variant a))
  end.
(** The version is read as the sweep's cache of parsed versions holds it: versions never
    change. *)
Definition fire_version (e : ScheduleEntry) (next now : instant) : prog FireOutcome :=
  do! version := GetVersionByID (se_VersionID e) (se_OrgID e) (se_WorkflowID e) or Ret FireFailed in
  match version with
  | None => forget e
  | Some v =>
      match (Parse (DagJson v)).1 with
      | None => drop e next now (se_WorkflowID e) [("reason", AStr "version_unparseable"); ("versionId", AStr (se_VersionID e))]
      | Some wf => if negb (hasScheduleNode wf (se_NodeID e)) then forget e else assign_tick e next now wf
      end
  end.
Definition fire_due (e : ScheduleEntry) (next now : instant) : prog FireOutcome :=
  do! owner := GetIngestState (se_WorkflowID e) or Ret FireFailed in
  match owner with
  | None => forget e
  | Some (orgID, status, deleted) =>
      if negb (eqs orgID (se_OrgID e)) || deleted then forget e
      else
        do! started := StartedBy (se_OrgID e) (tick_key (se_ID e) (due_of now e)) or Ret FireFailed in
        match started with
        | Some runID => advance e next now runID (λ _, Ret NotFired)
        | None =>
            if negb (eqs status "") && negb (eqs status "active")
            then drop e next now (se_WorkflowID e) [("reason", AStr status)]
            else fire_version e next now
        end
  end.
(** The fuel of the parser and of the search is always enough. *)
Definition fireScheduleEntry (e : ScheduleEntry) (now : instant) : prog FireOutcome :=
  match Cron.Parse (se_CronExpression e) with
  | None => Ret FirePanicked
  | Some (Err _) =>
      try! DisableEntry (se_ID e) in
      try! AuditEvent (system_scheduler (se_OrgID e)) ScheduleDisabled (se_ID e)
             [("reason", AStr "invalid_cron"); ("workflowId", AStr (se_WorkflowID e))] in
      Ret NotFired
  | Some (Ok schedule) =>
      match Next schedule now with
      | None => Ret FirePanicked
      | Some (Err _) => try! DisableEntry (se_ID e) in Ret NotFired
      | Some (Ok next) => fire_due e next now
      end
  end.

(** ** The sweep *)

Record SweepResult := mkSweep { sw_Fired : Z; sw_Dropped : Z; sw_Failed : Z }.
Definition tally (o : FireOutcome) (r : SweepResult) : SweepResult :=
  match o with
  | Fired => mkSweep (sw_Fired r + 1) (sw_Dropped r) (sw_Failed r)
  | NotFired => mkSweep (sw_Fired r) (sw_Dropped r + 1) (sw_Failed r)
  | FireFailed | FirePanicked => mkSweep (sw_Fired r) (sw_Dropped r) (sw_Failed r + 1)
  end.
(** [None] is a panic, which ends the sweep. *)
Fixpoint fire_all (now : instant) (due : list ScheduleEntry) (r : SweepResult) : prog (option SweepResult) :=
  match due with
  | [] => Ret (Some r)
  | e :: due => prog_bind (fireScheduleEntry e now) (λ o,
      match o with FirePanicked => Ret None | _ => fire_all now due (tally o r) end)
  end.
(** [budget] is the number of entries that the wall budget leaves time for. *)
Definition SweepDueSchedules (now : instant) (budget : nat) : prog (res fault (option SweepResult)) :=
  Do (ClaimDue now (now + schedule_lease) scheduleSweepLimit) (λ due,
    match due with
    | Err f => Ret (Err f)
    | Ok due => prog_map Ok (fire_all now (take budget due) (mkSweep 0 0 0))
    end).
End fire.
