(* ===== verification/TriggerFacts.v ===== *)
(** Trigger events under every process at once: an event starts at most one run, and a
    bucket of the limiter admits at most its maximum. *)
From S2P Require Import Prelude GoStrings GoFloat GoAny GoInt Json Graph Inputs RecoveryContract NodeConfig RecoveryDag WorkflowParse Rollout Trigger TriggerProg.
Local Open Scope string_scope.
Local Open Scope list_scope.

(** ** What one operation does to the events *)

(** The identity of an event never changes; its status only goes from received to a
    settlement and from buffered to started; its run stays. *)
Record later (e e' : TriggerEvent) : Prop := mkLater
  { later_id : te_ID e' = te_ID e;
    later_org : te_OrgID e' = te_OrgID e;
    later_key : te_DedupeKey e' = te_DedupeKey e;
    later_status : received e = true ∨ te_Status e' = te_Status e ∨
      (te_Status e = "buffered" ∧ te_Status e' = "started");
    later_run : ∀ r, te_RunID e = Some r → te_Status e' = te_Status e ∧ te_RunID e' = Some r;
    later_admitted : is_Some (te_RateAdmittedAt e) → is_Some (te_RateAdmittedAt e') }.

#[global] Instance later_refl : Reflexive later.
Proof. intros e. split; auto. Qed.
#[global] Instance later_trans : Transitive later.
Proof.
  intros e1 e2 e3 [? ? ? Hs Hr] [? ? ? Hs' Hr']. split; [congruence..| | |auto].
  - unfold received, eqs in *. rewrite String.eqb_eq in *. destruct Hs as [?|[Hs|[? Hs]]]; [auto| |]; rewrite Hs in Hs'.
    + destruct Hs' as [?|[?|[? ?]]]; auto.
    + destruct Hs' as [?|[?|[? ?]]]; [done|auto|done].
  - intros r He1. destruct (Hr r He1) as [Hs2 Hr2]. destruct (Hr' r Hr2) as [Hs3 ?]. split; [congruence|done].
Qed.

(** Every event of [s] is in [s'], later; the events of [s'] are those, and new ones that
    are received, with identifiers of [new]. *)
Definition grows (new : list string) (s s' : Tables) : Prop :=
  ∃ f fresh, events s' = map f (events s) ++ fresh ∧ (∀ e, e ∈ events s → later e (f e)) ∧
    (∀ e, e ∈ fresh → te_Status e = "received" ∧ te_RunID e = None ∧ te_ID e ∈ new).

Lemma grows_refl new s s' : events s' = events s → grows new s s'.
Proof. intros He. exists id, []. rewrite map_id, app_nil_r. split_and!; [done|by intros|set_solver]. Qed.
Lemma grows_update p f s s' : events s' = events (update_events p f s) →
  (∀ e, e ∈ events s → p e = true → later e (f e)) → grows [] s s'.
Proof.
  intros Hev Hf. exists (λ e, if p e then f e else e), []. rewrite app_nil_r, Hev. destruct s.
  split_and!; [done| |set_solver].
  intros e He. destruct (p e) eqn:E; [by apply Hf|done].
Qed.

Lemma owed_none e : owed_a_run e = true → te_RunID e = None ∧ (received e = true ∨ te_Status e = "buffered").
Proof.
  unfold owed_a_run, received, eqs. intros [Hs%in_list_spec Hr%bool_decide_eq_true]%andb_true_iff. split; [done|].
  rewrite String.eqb_eq. set_solver.
Qed.
Lemma with_run_later runID e : owed_a_run e = true → later e (with_run runID e).
Proof.
  intros [Hr Hs]%owed_none. destruct e; cbn in *. split; cbn; try done; [|congruence].
  destruct Hs as [?|?]; [by left|by right; right].
Qed.
Lemma with_outcome_later status reason e : received e = true → te_RunID e = None → later e (with_outcome status reason e).
Proof. intros Hs Hr. destruct e; cbn in *. split; cbn; auto. congruence. Qed.
Lemma with_admission_later now e : later e (with_admission now e).
Proof. destruct e. split; cbn; eauto. Qed.
Lemma with_claim_later token e : later e (with_claim token e).
Proof. destruct e. split; cbn; eauto. Qed.

(** ** The invariant *)

Definition event_statuses : list string := ["received"; "buffered"; "started"; "skipped"; "failed"].
Record tables_ok (s : Tables) : Prop := mkTablesOk
  { ok_event_ids : NoDup (map te_ID (events s));
    ok_keys : ∀ e e' k, e ∈ events s → e' ∈ events s → te_OrgID e = te_OrgID e' →
      te_DedupeKey e = Some k → te_DedupeKey e' = Some k → e = e';
    ok_status : ∀ e, e ∈ events s → te_Status e ∈ event_statuses ∧ (te_Status e = "started" ↔ is_Some (te_RunID e));
    ok_event_run : ∀ e r, e ∈ events s → te_RunID e = Some r →
      ∃ i, starts s !! r = Some i ∧ TriggerEventID i = te_ID e ∧ si_OrgID i = te_OrgID e;
    ok_starts : ∀ r i, starts s !! r = Some i → is_Some (runs (base s) !! r) ∧
      (TriggerEventID i ≠ "" → ∃ e, e ∈ events s ∧ te_ID e = TriggerEventID i ∧ te_RunID e = Some r) }.

Lemma same_event s e e' : tables_ok s → e ∈ events s → e' ∈ events s → te_ID e = te_ID e' → e = e'.
Proof.
  intros Hok. pose proof (ok_event_ids _ Hok) as Hnd. revert Hnd. induction (events s) as [|x l IH]; cbn; [set_solver|].
  rewrite NoDup_cons, list_elem_of_fmap. intros [Hx Hl]. rewrite !elem_of_cons. intros [->|He] [->|He'] Hid; [done| | |by apply IH].
  - destruct Hx. by exists e'.
  - destruct Hx. by exists e.
Qed.
Lemma received_no_run s e : tables_ok s → e ∈ events s → received e = true → te_RunID e = None.
Proof.
  intros Hok He Hr. destruct (ok_status _ Hok e He) as [_ Hiff]. destruct (te_RunID e) eqn:E; [|done].
  unfold received, eqs in Hr. apply String.eqb_eq in Hr. rewrite Hr in Hiff. destruct Hiff as [_ Hiff]. by discriminate Hiff.
Qed.

(** The parts of the invariant carry over when the events only change later. *)
Lemma ok_transport s s' f fresh : tables_ok s → events s' = map f (events s) ++ fresh →
  (∀ e, e ∈ events s → later e (f e)) →
  NoDup (map te_ID (events s')) →
  (∀ e e' k, e ∈ events s' → e' ∈ events s' → te_OrgID e = te_OrgID e' →
      te_DedupeKey e = Some k → te_DedupeKey e' = Some k → te_ID e = te_ID e') →
  (∀ e, e ∈ events s' → te_Status e ∈ event_statuses ∧ (te_Status e = "started" ↔ is_Some (te_RunID e))) →
  (∀ e r, e ∈ events s' → te_RunID e = Some r →
      ∃ i, starts s' !! r = Some i ∧ TriggerEventID i = te_ID e ∧ si_OrgID i = te_OrgID e) →
  (∀ r i, starts s' !! r = Some i → is_Some (runs (base s') !! r) ∧
     (starts s !! r = Some i ∨ TriggerEventID i = "" ∨ ∃ e, e ∈ events s' ∧ te_ID e = TriggerEventID i ∧ te_RunID e = Some r)) →
  tables_ok s'.
Proof.
  intros Hok Hev Hlater Hnd Hkeys Hst Hrun Hstarts. split; [done| |done|done|].
  - intros e e' k He He' Ho Hk Hk'. specialize (Hkeys e e' k He He' Ho Hk Hk'). revert Hnd He He' Hkeys. clear.
    induction (events s') as [|x l IH]; cbn; [set_solver|].
    rewrite NoDup_cons, list_elem_of_fmap. intros [Hx Hl]. rewrite !elem_of_cons. intros [->|He] [->|He'] Hid; [done| | |by apply IH].
    + destruct Hx. by exists e'.
    + destruct Hx. by exists e.
  - intros r i Hr. destruct (Hstarts r i Hr) as [Hruns Hcase]. split; [done|]. intros Hne.
    destruct Hcase as [Hold|[?|?]]; [|done|done].
    destruct (ok_starts _ Hok r i Hold) as [_ Hex]. destruct (Hex Hne) as (e & He & Hid & Hre).
    destruct (Hlater e He) as [Hid' _ _ _ Hr' _]. exists (f e). rewrite Hev. split_and!.
    + apply elem_of_app. left. apply list_elem_of_fmap. by exists e.
    + congruence.
    + by apply Hr'.
Qed.

Definition keeps_runs (s s' : Tables) : Prop := ∀ r, is_Some (runs (base s) !! r) → is_Some (runs (base s') !! r).

Lemma ok_update (p : TriggerEvent → bool) (f : TriggerEvent → TriggerEvent) s s' : tables_ok s →
  events s' = map (λ e, if p e then f e else e) (events s) → starts s' = starts s → keeps_runs s s' →
  (∀ e, e ∈ events s → p e = true → later e (f e) ∧ te_RunID (f e) = te_RunID e ∧
     te_Status (f e) ∈ event_statuses ∧ (te_Status (f e) = "started" ↔ is_Some (te_RunID (f e)))) →
  tables_ok s' ∧ grows [] s s'.
Proof.
  intros Hok Hev Hst Hruns Hf. set (g := λ e, if p e then f e else e) in *.
  assert (∀ e, e ∈ events s → later e (g e)) as Hlater.
  { intros e He. unfold g. destruct (p e) eqn:E; [by apply Hf|done]. }
  assert (∀ e, e ∈ events s' → ∃ e0, e0 ∈ events s ∧ e = g e0 ∧ te_ID e = te_ID e0 ∧ te_OrgID e = te_OrgID e0 ∧
            te_DedupeKey e = te_DedupeKey e0 ∧ te_RunID e = te_RunID e0 ∧
            te_Status e ∈ event_statuses ∧ (te_Status e = "started" ↔ is_Some (te_RunID e))) as Hback.
  { intros e. rewrite Hev, list_elem_of_fmap. intros (e0 & -> & He0). exists e0.
    destruct (Hlater e0 He0) as [? ? ? _ _ _]. split_and!; try done; unfold g; destruct (p e0) eqn:E;
      try (by apply Hf); try done; try (by apply (ok_status _ Hok)). }
  assert (map te_ID (events s') = map te_ID (events s)) as Hids.
  { rewrite Hev, map_map. apply map_ext_in. intros e He%list_elem_of_In. by destruct (Hlater e He). }
  split.
  - eapply (ok_transport s s' g []); try done; [by rewrite app_nil_r|by rewrite Hids; apply ok_event_ids| | | |].
    + intros e e' k He He' Ho Hk Hk'. destruct (Hback e He) as (e0 & He0 & _ & Hi & Ho0 & Hk0 & _).
      destruct (Hback e' He') as (e1 & He1 & _ & Hi1 & Ho1 & Hk1 & _).
      assert (e0 = e1) as ->; [|congruence]. apply (ok_keys _ Hok e0 e1 k); congruence.
    + intros e He. by destruct (Hback e He) as (? & _ & _ & _ & _ & _ & _ & ?).
    + intros e r He Hr. destruct (Hback e He) as (e0 & He0 & _ & Hi & Ho & _ & Hr0 & _). rewrite Hst, Hi, Ho.
      apply (ok_event_run _ Hok e0 r He0). congruence.
    + intros r i Hr. rewrite Hst in Hr. split; [apply Hruns; by destruct (ok_starts _ Hok r i Hr)|by left].
  - exists g, []. rewrite app_nil_r. split_and!; [done|done|set_solver].
Qed.
Lemma ok_same s s' : tables_ok s → events s' = events s → starts s' = starts s → keeps_runs s s' → tables_ok s' ∧ grows [] s s'.
Proof.
  intros Hok Hev Hst Hruns. apply (ok_update (λ _ : TriggerEvent, false) (λ e : TriggerEvent, e) s s'); try done.
  by rewrite Hev, map_id.
Qed.

Lemma ok_insert e s : tables_ok s → tables_ok (InsertTriggerEvent e s).2 ∧ grows [te_ID e] s (InsertTriggerEvent e s).2.
Proof.
  intros Hok. unfold InsertTriggerEvent. destruct (existsb (same_delivery e) (events s)) eqn:E; [by split; [|apply grows_refl]|].
  rewrite existsb_false_elem in E. destruct s as [b ev wi ke st tr sc now]; cbn [events snd set_events clock] in *.
  assert (te_Status (inserted now e) = "received" ∧ te_RunID (inserted now e) = None ∧ te_ID (inserted now e) = te_ID e ∧
          te_OrgID (inserted now e) = te_OrgID e ∧ te_DedupeKey (inserted now e) = te_DedupeKey e) as (Hs & Hr & Hi & Ho & Hk) by by destruct e.
  assert (∀ e', e' ∈ ev → te_ID e' ≠ te_ID e ∧ ∀ k, te_OrgID e' = te_OrgID e → te_DedupeKey e = Some k → te_DedupeKey e' ≠ Some k) as Hnew.
  { intros e' He'. specialize (E e' He'). unfold same_delivery, eqs in E. apply orb_false_iff in E as [E1 E2].
    apply String.eqb_neq in E1. split; [congruence|]. intros k Ho' Hk' Hk2. rewrite Ho', String.eqb_refl, Hk', Hk2 in E2.
    rewrite !bool_decide_eq_true_2 in E2; done. }
  split.
  - eapply (ok_transport _ _ id [inserted now e]); try done; cbn [events starts base].
    + by rewrite map_id.
    + rewrite map_app. change (map te_ID [inserted now e]) with [te_ID (inserted now e)]. rewrite Hi. apply NoDup_app. split_and!; [apply (ok_event_ids _ Hok)| |apply NoDup_singleton].
      intros x (e' & -> & He')%list_elem_of_fmap Hx%list_elem_of_singleton. destruct (Hnew e' He'). congruence.
    + intros e1 e2 k. rewrite !elem_of_app, !list_elem_of_singleton. intros [H1| ->] [H2| ->] Ho12 Hk1 Hk2.
      * by rewrite (ok_keys _ Hok e1 e2 k).
      * destruct (Hnew e1 H1) as [_ Hno]. destruct (Hno k); congruence.
      * destruct (Hnew e2 H2) as [_ Hno]. destruct (Hno k); congruence.
      * done.
    + intros e1. rewrite elem_of_app, list_elem_of_singleton. intros [H1| ->]; [by apply (ok_status _ Hok)|].
      rewrite Hs, Hr. split; [set_solver|]. split; [done|by intros []].
    + intros e1 r. rewrite elem_of_app, list_elem_of_singleton. intros [H1| ->]; [by apply (ok_event_run _ Hok)|congruence].
    + intros r i Hri. split; [by destruct (ok_starts _ Hok r i Hri)|by left].
  - exists id, [inserted now e]. cbn. rewrite map_id. split_and!; [done|done|]. intros x ->%list_elem_of_singleton. split_and!; [done|done|]. rewrite Hi. by left.
Qed.

Lemma insert_run_fields i runID s :
  events (insert_run i runID s) = events s ∧ starts (insert_run i runID s) = <[runID := i]> (starts s) ∧
  runs (base (insert_run i runID s)) = <[runID := run_row i runID (clock s)]> (runs (base s)).
Proof. destruct s as [b ? ? ? ? ? ? ?]. by destruct b. Qed.
Lemma insert_run_keeps i runID s : keeps_runs s (insert_run i runID s).
Proof.
  intros r Hr. destruct (insert_run_fields i runID s) as (_ & _ & ->). destruct (decide (r = runID)) as [->|].
  - rewrite lookup_insert_eq. eauto.
  - by rewrite lookup_insert_ne.
Qed.

Lemma ok_start i runID s : tables_ok s → tables_ok (StartRun i runID s).2 ∧ grows [] s (StartRun i runID s).2.
Proof.
  intros Hok. assert (tables_ok s ∧ grows [] s s) as Hsame by (apply ok_same; try done; by intros ?).
  unfold StartRun. destruct (start_input i) as [[input|errs]|]; [|done|done].
  destruct (bool_decide (is_Some (runs (base s) !! runID))) eqn:Htaken; [done|].
  apply bool_decide_eq_false_1 in Htaken. rewrite <-eq_None_not_Some in Htaken.
  destruct (if eqs (IdempotencyKey i) "" then None else run_keys s !! (si_OrgID i, IdempotencyKey i)); [done|].
  destruct (insert_run_fields i runID s) as (Hev & Hst & Hruns).
  assert (starts s !! runID = None) as Hfree.
  { destruct (starts s !! runID) as [j|] eqn:E; [|done]. destruct (ok_starts _ Hok runID j E) as [[x Hx] _]. congruence. }
  assert (∀ p, (∀ e, p e = true → claimable (si_OrgID i) (TriggerEventID i) e = true) →
            (TriggerEventID i = "" ∨ ∃ e, e ∈ events s ∧ p e = true) →
            tables_ok (update_events p (with_run runID) (insert_run i runID s)) ∧
            grows [] s (update_events p (with_run runID) (insert_run i runID s))) as Hmain.
  { intros p Hp Hclaim. set (s' := update_events p (with_run runID) (insert_run i runID s)).
    assert (events s' = map (λ e, if p e then with_run runID e else e) (events s)) as Hev'.
    { rewrite <-Hev. subst s'. by destruct (insert_run i runID s). }
    assert (starts s' = <[runID := i]> (starts s)) as Hst' by (rewrite <-Hst; subst s'; by destruct (insert_run i runID s)).
    assert (runs (base s') = <[runID := run_row i runID (clock s)]> (runs (base s))) as Hruns'.
    { rewrite <-Hruns; subst s'; by destruct (insert_run i runID s). }
    clearbody s'. assert (∀ e, e ∈ events s → p e = true → te_ID e = TriggerEventID i ∧ te_OrgID e = si_OrgID i ∧
      te_RunID e = None ∧ later e (with_run runID e)) as Hclaimed.
    { intros e He Hpe. apply Hp in Hpe. unfold claimable, event_is, eqs in Hpe. bool_split.
      match goal with Ho : owed_a_run e = true |- _ => pose proof (with_run_later runID e Ho); apply owed_none in Ho as [? _] end. done. }
    set (g := λ e, if p e then with_run runID e else e) in *.
    assert (∀ e, e ∈ events s → later e (g e)) as Hlater.
    { intros e He. unfold g. destruct (p e) eqn:E; [by apply Hclaimed|done]. }
    split; [|exists g, []; rewrite app_nil_r; split_and!; [done|done|set_solver]].
    eapply (ok_transport s s' g []); try done; [by rewrite app_nil_r| | | | |].
    - replace (map te_ID (events s')) with (map te_ID (events s)); [apply (ok_event_ids _ Hok)|].
      rewrite Hev', map_map. apply map_ext_in. intros e He%list_elem_of_In. by destruct (Hlater e He).
    - intros e e' k. rewrite Hev', !list_elem_of_fmap. intros (e0 & -> & He0) (e1 & -> & He1).
      destruct (Hlater e0 He0) as [-> -> -> _ _ _], (Hlater e1 He1) as [-> -> -> _ _ _]. intros. f_equal.
      by apply (ok_keys _ Hok e0 e1 k).
    - intros e. rewrite Hev', list_elem_of_fmap. intros (e0 & -> & He0). unfold g. destruct (p e0); [|by apply (ok_status _ Hok)].
      destruct e0; cbn. split; [set_solver|]. split; [eauto|done].
    - intros e r. rewrite Hev', list_elem_of_fmap, Hst'. intros (e0 & -> & He0). unfold g. destruct (p e0) eqn:E.
      + destruct (Hclaimed e0 He0 E) as (Hid & Ho & _). destruct e0; cbn in *. intros [= <-]. exists i.
        by rewrite lookup_insert_eq.
      + intros Hr. destruct (ok_event_run _ Hok e0 r He0 Hr) as (j & Hj & ?). exists j.
        rewrite lookup_insert_ne; [done|]. intros <-. congruence.
    - intros r j. rewrite Hst', Hruns'. destruct (decide (r = runID)) as [->|Hne].
      + rewrite !lookup_insert_eq. intros [= <-]. split; [eauto|]. right. destruct Hclaim as [?|(e & He & Hpe)]; [by left|]. right.
        destruct (Hclaimed e He Hpe) as (Hid & _ & _). exists (with_run runID e). rewrite Hev'. split_and!.
        * apply list_elem_of_fmap. exists e. unfold g. by rewrite Hpe.
        * by destruct e.
        * by destruct e.
      + rewrite !lookup_insert_ne by done. intros Hj. split; [by destruct (ok_starts _ Hok r j Hj)|by left]. }
  destruct (eqs (TriggerEventID i) "") eqn:Enone.
  - apply String.eqb_eq in Enone. specialize (Hmain (λ _, false) ltac:(done) (or_introl Enone)).
    assert (update_events (λ _, false) (with_run runID) (insert_run i runID s) = insert_run i runID s) as Heq.
    { unfold update_events. cbn beta iota. rewrite map_id. by destruct (insert_run i runID s). }
    by rewrite Heq in Hmain.
  - destruct (existsb (claimable (si_OrgID i) (TriggerEventID i)) (events s)) eqn:Eex; [|done].
    apply existsb_elem in Eex. apply Hmain; [done|by right].
Qed.

(** ** Every operation keeps the invariant *)

Lemma received_later_skip s e : tables_ok s → e ∈ events s → received e = true →
  ∀ status reason, status ∈ ["buffered"; "failed"; "skipped"] →
  later e (with_outcome status reason e) ∧ te_RunID (with_outcome status reason e) = te_RunID e ∧
  te_Status (with_outcome status reason e) ∈ event_statuses ∧
  (te_Status (with_outcome status reason e) = "started" ↔ is_Some (te_RunID (with_outcome status reason e))).
Proof.
  intros Hok He Hr status reason Hs. pose proof (received_no_run s e Hok He Hr) as Hnone.
  split; [by apply with_outcome_later|]. destruct e; cbn in *. subst. split_and!; [done|set_solver|].
  split; [|by intros []]. intros ->. set_solver.
Qed.
Lemma keeps_status (f : TriggerEvent → TriggerEvent) s e : tables_ok s → e ∈ events s → later e (f e) →
  te_Status (f e) = te_Status e → te_RunID (f e) = te_RunID e →
  later e (f e) ∧ te_RunID (f e) = te_RunID e ∧ te_Status (f e) ∈ event_statuses ∧
  (te_Status (f e) = "started" ↔ is_Some (te_RunID (f e))).
Proof. intros Hok He Hl -> ->. split_and!; [done|done|..]; by apply (ok_status _ Hok). Qed.

Lemma ok_mark orgID id outcome reason s : tables_ok s →
  tables_ok (MarkTriggerEventOutcome orgID id outcome reason s) ∧ grows [] s (MarkTriggerEventOutcome orgID id outcome reason s).
Proof.
  intros Hok. eapply ok_update; [done|by destruct s|by destruct s|by destruct s; intros ?|].
  intros e He [_ Hr]%andb_true_iff. apply (received_later_skip s); try done. destruct outcome; cbn; set_solver.
Qed.

Lemma windows_fields m s : events (set_windows m s) = events s ∧ starts (set_windows m s) = starts s ∧
  base (set_windows m s) = base s ∧ clock (set_windows m s) = clock s.
Proof. by destruct s. Qed.
Lemma bump_fields name key start expires s s' count : BumpRateWindow name key start expires s = (count, s') →
  events s' = events s ∧ starts s' = starts s ∧ base s' = base s ∧ clock s' = clock s.
Proof.
  unfold BumpRateWindow. destruct (windows s !! (name, key, start)) as [[c x]|]; intros [= _ <-]; apply windows_fields.
Qed.
Lemma ok_enforce_event key orgID eventID opts s : tables_ok s →
  tables_ok (EnforceTriggerEvent key orgID eventID opts s).2 ∧ grows [] s (EnforceTriggerEvent key orgID eventID opts s).2.
Proof.
  intros Hok. assert (tables_ok s ∧ grows [] s s) as Hsame by (apply ok_same; try done; by intros ?).
  unfold EnforceTriggerEvent. destruct (GetTriggerEvent orgID eventID s) as [e|]; [|done].
  destruct (negb (received e)); [done|]. destruct (bool_decide _); [done|].
  destruct (BumpRateWindow _ _ _ _ s) as [count s1] eqn:Eb. apply bump_fields in Eb as (Hev & Hst & Hb & _).
  assert (∀ f, (∀ e, e ∈ events s → received e = true → later e (f e) ∧ te_RunID (f e) = te_RunID e ∧ te_Status (f e) ∈ event_statuses ∧
             (te_Status (f e) = "started" ↔ is_Some (te_RunID (f e)))) →
           let p e := event_is orgID eventID e && received e && bool_decide (te_RateAdmittedAt e = None) in
           tables_ok (update_events p f s1) ∧ grows [] s (update_events p f s1)) as Hmain.
  { intros f Hf p. apply (ok_update p f); try done.
    - rewrite <-Hev. by destruct s1.
    - rewrite <-Hst. by destruct s1.
    - intros r. rewrite <-Hb. by destruct s1.
    - intros e' He' [[_ ?]%andb_true_iff _]%andb_true_iff. by apply Hf. }
  destruct (op_Max opts <? count)%Z; apply Hmain; intros e' He' Hr.
  - apply (received_later_skip s); try done. set_solver.
  - apply (keeps_status (with_admission (clock s1)) s); try done; [apply with_admission_later|by destruct e'|by destruct e'].
Qed.
Lemma ok_claim orgID workflowID token limit locked s : tables_ok s →
  tables_ok (ClaimBufferedTriggerEvents orgID workflowID token limit locked s).2 ∧
  grows [] s (ClaimBufferedTriggerEvents orgID workflowID token limit locked s).2.
Proof.
  intros Hok. eapply ok_update; [done|by destruct s|by destruct s|by destruct s; intros ?|].
  intros e He _. apply (keeps_status (with_claim token) s); try done; [apply with_claim_later|by destruct e|by destruct e].
Qed.

Lemma set_status_fields orgID id before after reason s : 
  events (set_status orgID id before after reason s).2 = events s ∧
  starts (set_status orgID id before after reason s).2 = starts s ∧
  runs (base (set_status orgID id before after reason s).2) = runs (base s).
Proof. unfold set_status. destruct (existsb _ _); [|done]. destruct s as [b ? ? ? ? ? ? ?]. by destruct b. Qed.
Lemma ok_announced flip a s : tables_ok s →
  events (flip s).2 = events s → starts (flip s).2 = starts s → runs (base (flip s).2) = runs (base s) →
  tables_ok (announced flip a s).2 ∧ grows [] s (announced flip a s).2.
Proof.
  intros Hok He Hs Hr. unfold announced. destruct (flip s) as [won s']; cbn [snd] in *.
  assert (∀ (b : bool), events (if b then add_trail a s' else s') = events s' ∧ starts (if b then add_trail a s' else s') = starts s' ∧
           base (if b then add_trail a s' else s') = base s') as Hadd by (intros []; by destruct s').
  destruct (Hadd won) as (He' & Hs' & Hb'). apply ok_same; [done|congruence|congruence|].
  intros r. by rewrite Hb', Hr.
Qed.
Lemma upstream_fields ids orgID before after reason s :
  events (set_upstream ids orgID before after reason s) = events s ∧
  starts (set_upstream ids orgID before after reason s) = starts s ∧
  runs (base (set_upstream ids orgID before after reason s)) = runs (base s).
Proof. destruct s as [b ? ? ? ? ? ? ?]. by destruct b. Qed.

(** What the rollout transactions do to the runs and to the workflows: runs stay, workflows
    keep their status, and a new workflow has an id of its own and is active. *)
Record keeps_workflows (b b' : Store) : Prop := mkKeeps
  { kw_runs : ∀ r, is_Some (runs b !! r) → is_Some (runs b' !! r);
    kw_rows : ∃ f fresh, workflows b' = map f (workflows b) ++ fresh ∧
      (∀ w, w_ID (f w) = w_ID w ∧ w_OrgID (f w) = w_OrgID w ∧ w_Status (f w) = w_Status w) ∧
      (∀ w, w ∈ fresh → w_Status w = "active") ∧ NoDup (map w_ID fresh) ∧ (∀ w, w ∈ fresh → w_ID w ∉ map w_ID (workflows b)) }.
Lemma keeps_same b b' : runs b' = runs b → workflows b' = workflows b → keeps_workflows b b'.
Proof.
  intros Hr Hw. split; [by rewrite Hr|]. exists id, []. rewrite map_id, app_nil_r. split_and!; [done|done|set_solver|constructor|set_solver].
Qed.
Lemma keeps_map b b' f : runs b' = runs b → workflows b' = map f (workflows b) →
  (∀ w, w_ID (f w) = w_ID w ∧ w_OrgID (f w) = w_OrgID w ∧ w_Status (f w) = w_Status w) → keeps_workflows b b'.
Proof.
  intros Hr Hw Hf. split; [by rewrite Hr|]. exists f, []. rewrite app_nil_r. split_and!; [done|done|set_solver|constructor|set_solver].
Qed.
Lemma update_where_fields p f b : runs (update_where p f b) = runs b ∧ workflows (update_where p f b) = workflows b.
Proof. by destruct b. Qed.
Lemma record_fields runID b : runs (RecordWorkflowRolloutOutcome runID b).2 = runs b ∧
  workflows (RecordWorkflowRolloutOutcome runID b).2 = workflows b.
Proof.
  unfold RecordWorkflowRolloutOutcome. destruct (outcome_of b runID) as [[r o]|]; [|done].
  destruct (existsb _ _); [done|]. destruct (_ && _); by destruct b.
Qed.
Lemma repair_fields ids acc : runs (fold_left (λ acc runID, let '(n, b) := acc in
    match RecordWorkflowRolloutOutcome runID b with (Recorded, b') => ((n + 1)%Z, b') | (_, b') => (n, b') end) ids acc).2 = runs acc.2 ∧
  workflows (fold_left (λ acc runID, let '(n, b) := acc in
    match RecordWorkflowRolloutOutcome runID b with (Recorded, b') => ((n + 1)%Z, b') | (_, b') => (n, b') end) ids acc).2 = workflows acc.2.
Proof.
  revert acc. induction ids as [|id ids IH]; intros [n b]; cbn; [done|]. pose proof (record_fields id b) as [Hr Hw].
  destruct (RecordWorkflowRolloutOutcome id b) as [kind b'] eqn:E. cbn in Hr, Hw.
  destruct (IH (match kind with Recorded => ((n + 1)%Z, b') | _ => (n, b') end)) as [IHr IHw].
  destruct kind; cbn in *; rewrite IHr, IHw; done.
Qed.
Lemma write_fields orgID workflowID versionID dagJSON before b : 
  (write_version orgID workflowID versionID dagJSON before b).2 = before ∨
  (runs (write_version orgID workflowID versionID dagJSON before b).2 = runs b ∧
   workflows (write_version orgID workflowID versionID dagJSON before b).2 = workflows b).
Proof. unfold write_version. destruct (FindActiveWorkflowRollout _ _ _); [by left|]. destruct (existsb _ _); [by left|]. right. by destruct b. Qed.
Lemma set_deleted_fields orgID workflowID before after b : keeps_workflows b (set_deleted orgID workflowID before after b).2.
Proof.
  unfold set_deleted. destruct (existsb _ _); [|by apply keeps_same].
  eapply keeps_map; [by destruct b|by destruct b|]. intros w. cbn beta. by destruct (eqs (w_ID w) workflowID && eqs (w_OrgID w) orgID && Bool.eqb (w_Deleted w) before)%bool.
Qed.

(** The statements on schedule entries touch nothing else. *)
Lemma schedules_fields l s : events (set_schedules l s) = events s ∧ starts (set_schedules l s) = starts s ∧
  base (set_schedules l s) = base s ∧ windows (set_schedules l s) = windows s ∧ trail (set_schedules l s) = trail s ∧
  run_keys (set_schedules l s) = run_keys s ∧ clock (set_schedules l s) = clock s.
Proof. by destruct s. Qed.
Lemma set_schedules_twice l l' s : set_schedules l (set_schedules l' s) = set_schedules l s.
Proof. by destruct s. Qed.
Lemma upsert_schedules entries s0 s1 s2 : (∃ l, s1 = set_schedules l s0) →
  Some s2 = fold_left (λ s e, s ← s; UpsertScheduleEntry e s) entries (Some s1) → ∃ l, s2 = set_schedules l s0.
Proof.
  revert s1. induction entries as [|e entries IH]; intros s1 [l ->]; cbn [fold_left]; [intros [= ->]; by exists l|].
  cbn [mbind option_bind]. unfold UpsertScheduleEntry at 2. intros Hs.
  assert (∀ k : list ScheduleEntry, fold_left (λ (s : option Tables) e, s ← s; UpsertScheduleEntry e s) entries None = None) as Hnone.
  { intros _. clear. by induction entries. }
  destruct (existsb (same_node e) _).
  - eapply IH; [|exact Hs]. unfold update_schedules. rewrite set_schedules_twice. by eexists.
  - destruct (in_list _ _); [rewrite Hnone in Hs; done|]. eapply IH; [|exact Hs]. rewrite set_schedules_twice. by eexists.
Qed.
Lemma replace_schedules orgID workflowID entries s s' :
  Some s' = fold_left (λ s e, s ← s; UpsertScheduleEntry e s) entries (Some (DeleteScheduleEntriesForWorkflow orgID workflowID s)) →
  ∃ l, s' = set_schedules l s.
Proof. apply upsert_schedules. unfold DeleteScheduleEntriesForWorkflow. by eexists. Qed.

Section rollouts.
Context `{UnicodeTables} (json_error : string → string).
Lemma save_fields orgID workflowID name versionID dagJSON b :
  keeps_workflows b (saveWorkflowVersionAttempt orgID workflowID name versionID dagJSON b).2.
Proof.
  unfold saveWorkflowVersionAttempt. destruct (live_workflow b orgID workflowID).
  - destruct (write_fields orgID workflowID versionID dagJSON b (set_workflows (map (renamed orgID workflowID name) (workflows b)) b))
      as [->|[Hr Hw]]; [by apply keeps_same|].
    eapply keeps_map; [rewrite Hr; by destruct b|rewrite Hw; by destruct b|]. intros w. unfold renamed. by destruct (_ && _).
  - destruct (filter (λ w, w_ID w = workflowID) (workflows b)) as [|w l] eqn:E.
    2: { destruct (negb _); [by apply keeps_same|]. destruct (w_Deleted w); by apply keeps_same. }
    destruct (write_fields orgID workflowID versionID dagJSON b (set_workflows (workflows b ++ [mkWorkflowRow workflowID orgID name "active" None false]) b))
      as [->|[Hr Hw]]; [by apply keeps_same|]. split; [intros r; rewrite Hr; by destruct b|].
    exists id, [mkWorkflowRow workflowID orgID name "active" None false]. rewrite map_id, Hw. split_and!; [by destruct b|done|set_solver|apply NoDup_singleton|].
    intros w0 ->%list_elem_of_singleton (w & Hid & Hw')%list_elem_of_fmap.
    assert (w ∈ filter (λ w, w_ID w = workflowID) (workflows b)) as Hin by (by apply list_elem_of_filter). rewrite E in Hin. set_solver.
Qed.
Lemma step_keeps b b' : step json_error b b' → keeps_workflows b b'.
Proof.
  intros Hstep. destruct Hstep.
  - unfold CreateWorkflowRollout. destruct (negb (input_in_bounds i)); [by apply keeps_same|]. destruct (negb _); [by apply keeps_same|].
    destruct (version_guards _ _ _); [by apply keeps_same|]. unfold InsertWorkflowRollout. destruct (_ || _); apply keeps_same; by destruct b.
  - unfold FinishWorkflowRollout. destruct (negb _); [by apply keeps_same|]. destruct (existsb _ _); apply keeps_same; by destruct b.
  - apply keeps_same; apply record_fields.
  - unfold RepairWorkflowRolloutOutcomes. apply keeps_same; apply (repair_fields _ (0%Z, b)).
  - apply save_fields.
  - unfold DeactivateWorkflow. pose proof (set_deleted_fields orgID workflowID false true b) as Hk.
    destruct (set_deleted orgID workflowID false true b) as [[] b']; [|done]. destruct Hk as [Hr Hw].
    split; destruct b'; done.
  - unfold ReactivateWorkflow. pose proof (set_deleted_fields orgID workflowID true false b) as Hk.
    destruct (set_deleted orgID workflowID true false b) as [[] b']; [|done].
    destruct (latest_version b' orgID workflowID); [|done]. destruct (Parse json_error _).1; [done|]. by apply keeps_same.
  - destruct (keeps_same b b eq_refl eq_refl) as [_ Hrows]. split; [|by destruct b]. intros r Hr. destruct b; cbn in *. destruct (decide (r = id)) as [->|].
    + rewrite lookup_insert_eq. eauto.
    + by rewrite lookup_insert_ne.
  - apply keeps_same; by destruct b.
Qed.
End rollouts.

Section histories.
Context `{UnicodeTables} (json_error : string → string) (sha256 : string → list ascii).
Abbreviation returns := (returns json_error sha256).
Abbreviation exec := (exec json_error sha256).
Abbreviation evolves := (evolves json_error sha256).
Abbreviation history := (history json_error sha256).

(** The state of a transaction that answers [(x, s')]. *)
Ltac answered :=
  let H := fresh in
  intros H; match type of H with (_, ?s2) = ?t => replace s2 with t.2 in * by (by rewrite <-H); clear H end.

Definition new_ids {X} (o : op X) : list string := match o with InsertEvent e => [te_ID e] | _ => [] end.
(** The operations of the scheduler on its own table. *)
Definition on_schedules {X} (o : op X) : bool :=
  match o with
  | ClaimDue _ _ _ | AdvanceEntry _ _ _ _ _ | DisableEntry _ | DeleteEntry _ | ReplaceEntries _ _ _ => true
  | _ => false
  end.
Lemma on_schedules_keeps {X} (o : op X) s x s' : on_schedules o = true → returns o s x s' → ∃ l, s' = set_schedules l s.
Proof.
  destruct o; cbn [on_schedules TriggerProg.returns]; try done; intros _.
  - intros (locked & page & Hp & _). revert Hp. answered. by eexists.
  - answered. by eexists.
  - intros ->. by eexists.
  - intros ->. by eexists.
  - apply replace_schedules.
Qed.

Lemma returns_ok {X} (o : op X) s x s' : tables_ok s → returns o s x s' → tables_ok s' ∧ grows (new_ids o) s s'.
Proof.
  intros Hok. assert (tables_ok s ∧ grows [] s s) as Hsame by (apply ok_same; try done; by intros ?).
  destruct (on_schedules o) eqn:Eon.
  { intros Hret. assert (new_ids o = []) as -> by by destruct o. destruct (on_schedules_keeps o s x s' Eon Hret) as [l ->].
    destruct (schedules_fields l s) as (He & Hst & Hb & _). apply ok_same; [done|done|done|]. intros r. by rewrite Hb. }
  destruct o; cbn [TriggerProg.returns new_ids]; try discriminate Eon; try (by intros [-> _]); try (by intros ->).
  - answered. by apply ok_insert.
  - intros ->. apply ok_same; try done; by destruct s; try intros ?.
  - answered. by apply ok_enforce_event.
  - intros ->. by apply ok_mark.
  - intros [runID H']. revert H'. answered. by apply ok_start.
  - answered. apply ok_announced; try done; apply set_status_fields.
  - answered. apply ok_announced; try done; apply set_status_fields.
  - intros (locked & page & Hp & _). revert Hp. answered. by apply ok_claim.
  - answered. unfold Enforce. destruct (BumpRateWindow _ _ _ _ s) as [count s1] eqn:E. apply bump_fields in E as (He & Hs & Hb & _).
    apply ok_same; try done. intros r. cbn. by rewrite Hb.
  - intros ->. apply ok_same; try done; by destruct s; try intros ?.
  - intros ->. destruct (upstream_fields ids orgID "active" "paused_upstream_degraded" (Some reason) s) as (? & ? & Hr).
    unfold PauseWorkflowsForUpstream, ResumeWorkflowsForUpstream. apply ok_same; try done. intros r. by rewrite Hr.
  - intros ->. destruct (upstream_fields ids orgID "paused_upstream_degraded" "active" None s) as (? & ? & Hr).
    unfold PauseWorkflowsForUpstream, ResumeWorkflowsForUpstream. apply ok_same; try done. intros r. by rewrite Hr.
  - intros (b & Hstep & ->). apply ok_same; [done|by destruct s..|]. intros r. destruct s. cbn. by apply (step_keeps json_error _ _ Hstep).
  - intros (row & Hrow & ->). apply ok_same; [done|by destruct s..|]. intros r Hr. destruct s as [b ? ? ? ? ? ? ?]; destruct b; cbn in *.
    destruct (decide (r = runID)) as [->|]; [rewrite lookup_insert_eq; eauto|by rewrite lookup_insert_ne].
  - intros (now & _ & ->). apply ok_same; try done; by destruct s; try intros ?.
Qed.
Lemma grows_same new s : grows new s s.
Proof. by apply grows_refl. Qed.
Lemma exec_ok_grows {X} (o : op X) s r s' : tables_ok s → exec o s r s' → tables_ok s' ∧ grows (new_ids o) s s'.
Proof. intros Hok []; by eauto using returns_ok, grows_same. Qed.

Lemma ok_empty now : tables_ok (empty_tables now).
Proof. split; cbn; [constructor|set_solver|set_solver| |].
  - intros e r He. by apply not_elem_of_nil in He.
  - intros r i Hr. by rewrite lookup_empty in Hr. Qed.

(** What a process remembers of an event stays true of it, later. *)
Lemma grows_event new s s' e : grows new s s' → e ∈ events s → ∃ e', e' ∈ events s' ∧ later e e'.
Proof.
  intros (f & fresh & Hev & Hl & _) He. exists (f e). split; [|by apply Hl]. rewrite Hev. apply elem_of_app. left.
  apply list_elem_of_fmap. by exists e.
Qed.
Lemma evolves_ok s s' : evolves s s' → tables_ok s → tables_ok s' ∧
  ∀ e, e ∈ events s → ∃ e', e' ∈ events s' ∧ later e e'.
Proof.
  intros Hs. induction Hs as [s|s1 s2 s3 [X o r _ Hex] _ IH]; intros Hok; [split; [done|]; intros e He; by exists e|].
  destruct (exec_ok_grows o s1 r s2 Hok Hex) as [Hok2 Hg]. destruct (IH Hok2) as [Hok3 Hl]. split; [done|].
  intros e He. destruct (grows_event _ _ _ e Hg He) as (e2 & He2 & Hl2). destruct (Hl e2 He2) as (e3 & He3 & Hl3).
  exists e3. split; [done|by transitivity e2].
Qed.
Lemma history_ok s : history s → tables_ok s.
Proof. intros [now Hs]. apply (evolves_ok _ _ Hs), ok_empty. Qed.

Lemma history_empty now : history (empty_tables now).
Proof. exists now. constructor. Qed.
Lemma history_op {X} (o : op X) s x s' : issued o → history s → returns o s x s' → history s'.
Proof. intros Hissued [now Hs] Hret. exists now. eapply rtc_r; [done|]. by eapply change_op, exec_ok. Qed.

(** C6: In every history, with any number of deliveries, retries, drains,
    crashes and lost answers at once, a trigger event starts at most one run: two runs
    started for the same event are the same run, an event is started exactly when it names
    a run, and that run recorded the event. Two events of an organisation never have the
    same dedupe key, so repeated deliveries share that one run. *)
Theorem event_starts_once (s : Tables) : history s →
  (∀ r1 r2 i1 i2, starts s !! r1 = Some i1 → starts s !! r2 = Some i2 →
     TriggerEventID i1 ≠ "" → TriggerEventID i1 = TriggerEventID i2 → r1 = r2) ∧
  (∀ e, e ∈ events s → (te_Status e = "started" ↔ is_Some (te_RunID e)) ∧
     (∀ r, te_RunID e = Some r → ∃ i, starts s !! r = Some i ∧ TriggerEventID i = te_ID e ∧ si_OrgID i = te_OrgID e)) ∧
  (∀ e e' k, e ∈ events s → e' ∈ events s → te_OrgID e = te_OrgID e' →
     te_DedupeKey e = Some k → te_DedupeKey e' = Some k → e = e').
Proof.
  intros Hok%history_ok. split_and!; [| |apply (ok_keys _ Hok)].
  - intros r1 r2 i1 i2 H1 H2 Hne Heq. destruct (ok_starts _ Hok r1 i1 H1) as [_ Hex1]. destruct (ok_starts _ Hok r2 i2 H2) as [_ Hex2].
    destruct (Hex1 Hne) as (e1 & He1 & Hid1 & Hr1). destruct Hex2 as (e2 & He2 & Hid2 & Hr2); [congruence|].
    assert (e1 = e2) as <- by (apply (same_event s); congruence). congruence.
  - intros e He. split; [by apply (ok_status _ Hok)|]. intros r. by apply (ok_event_run _ Hok).
Qed.

(** ** What the limiter admits *)

(** Every bucket has one maximum and one window, as the code derives them from its name. *)
Context (limit window : string → Z).
Definition uses_options {X} (o : op X) : Prop :=
  match o with
  | EnforceEvent _ _ _ opts | EnforceBucket _ opts => op_Max opts = limit (op_Name opts) ∧ op_Window opts = window (op_Name opts)
  | _ => True
  end.
Definition is_allowed (x : LimitResult) : bool := match x with Allowed => true | _ => false end.
Definition window_of (s : Tables) (key : string) (opts : Options) : string * string * Z :=
  (op_Name opts, key, Truncate (clock s) (op_Window opts)).
(** The hit that an operation is granted: its bucket and window, and the event that pays. *)
Definition charge {X} (o : op X) (s : Tables) : X → list ((string * string * Z) * option string) :=
  match o in op X return X → list ((string * string * Z) * option string) with
  | EnforceEvent key orgID eventID opts => λ x,
      match GetTriggerEvent orgID eventID s with
      | Some e => if received e && negb (bool_decide (is_Some (te_RateAdmittedAt e))) && is_allowed x
                  then [(window_of s key opts, Some eventID)] else []
      | None => []
      end
  | EnforceBucket key opts => λ x, if is_allowed x then [(window_of s key opts, None)] else []
  | _ => λ _, []
  end.
(** A history with the hits that were granted in it. *)
Inductive admissions : Tables → list ((string * string * Z) * option string) → Prop :=
| adm_start now : admissions (empty_tables now) []
| adm_op s l X (o : op X) x s' : admissions s l → uses_options o → returns o s x s' → admissions s' (l ++ charge o s x).

Definition granted (w : string * string * Z) (l : list ((string * string * Z) * option string)) : nat :=
  length (filter (λ c, c.1 = w) l).
Lemma granted_app w l k : granted w (l ++ k) = (granted w l + granted w k)%nat.
Proof. unfold granted. by rewrite filter_app, length_app. Qed.

(** The stored count of a window bounds its hits until the window is over. *)
Definition counted (s : Tables) (l : list ((string * string * Z) * option string)) : Prop :=
  ∀ name key w, (Z.of_nat (granted (name, key, w) l) <= Z.max 0 (limit name))%Z ∧
    match windows s !! (name, key, w) with
    | Some (count, expires) => (Z.of_nat (granted (name, key, w) l) <= count)%Z ∧ expires = (w + window name)%Z
    | None => granted (name, key, w) l = 0%nat ∨ (w + window name < clock s)%Z
    end.
Definition paid_once (s : Tables) (l : list ((string * string * Z) * option string)) : Prop :=
  NoDup (omap snd l) ∧ ∀ id, id ∈ omap snd l → ∃ e, e ∈ events s ∧ te_ID e = id ∧ is_Some (te_RateAdmittedAt e).

Lemma Truncate_bounds now w : (0 < w)%Z → (Truncate now w <= now < Truncate now w + w)%Z.
Proof. unfold Truncate. intros. destruct (Z.leb_spec w 0); [lia|]. pose proof (Z.mod_pos_bound (now - zero_time) w). lia. Qed.

Lemma counted_ext s s' l : counted s l → windows s' = windows s → (clock s <= clock s')%Z → counted s' (l ++ []).
Proof.
  rewrite app_nil_r. intros Hc Hw Hclock name key w. rewrite Hw. destruct (Hc name key w) as [Hl Hm]. split; [done|].
  destruct (windows s !! _) as [[count expires]|]; [done|]. destruct Hm; [by left|right; lia].
Qed.
Lemma counted_bump s l name key p count s1 : (0 < window name)%Z → counted s l →
  let w0 := Truncate (clock s) (window name) in
  BumpRateWindow name key w0 (w0 + window name) s = (count, s1) →
  ∀ b : bool, (b = true → count <= limit name)%Z → counted s1 (l ++ if b then [((name, key, w0), p)] else []).
Proof.
  intros Hpos Hc w0 Hb b Hlimit. destruct (bump_fields _ _ _ _ _ _ _ Hb) as (_ & _ & _ & Hclock).
  assert (∃ old expires, windows s1 = <[(name, key, w0) := (count, expires)]> (windows s) ∧ count = (old + 1)%Z ∧
    (Z.of_nat (granted (name, key, w0) l) <= old)%Z ∧ expires = (w0 + window name)%Z) as (old & expires & Hw & Hcount & Hold & Hexp).
  { destruct (Hc name key w0) as [_ Hm]. unfold BumpRateWindow in Hb.
    destruct (windows s !! (name, key, w0)) as [[c x]|]; injection Hb as <- <-; destruct s; cbn; [exists c, x|exists 0%Z, (w0 + window name)%Z];
      (split_and!; [done|done|..]); try done; try apply Hm.
    destruct Hm as [->|Hover]; [done|]. pose proof (Truncate_bounds clock (window name) Hpos). subst w0. cbn in Hover. lia. }
  intros name' key' w. rewrite Hclock, Hw, granted_app. destruct (decide ((name', key', w) = (name, key, w0))) as [[= -> -> ->]|Hne].
  - rewrite lookup_insert_eq. destruct (Hc name key w0) as [Hl _].
    assert (granted (name, key, w0) (if b then [((name, key, w0), p)] else []) = if b then 1%nat else 0%nat) as ->.
    { destruct b; [|done]. unfold granted. rewrite filter_cons_True by done. done. }
    destruct b; [specialize (Hlimit eq_refl)|]; (split; [lia|]; split; [lia|done]).
  - rewrite lookup_insert_ne by done. destruct (Hc name' key' w) as [Hl Hm].
    assert (granted (name', key', w) (if b then [((name, key, w0), p)] else []) = 0%nat) as ->.
    { destruct b; [|done]. unfold granted. rewrite filter_cons_False; [done|]. cbn. congruence. }
    rewrite Nat.add_0_r. done.
Qed.

Lemma update_events_fields p f s : windows (update_events p f s) = windows s ∧ clock (update_events p f s) = clock s.
Proof. by destruct s. Qed.
Lemma start_fields i runID s : windows (StartRun i runID s).2 = windows s ∧ clock (StartRun i runID s).2 = clock s.
Proof.
  unfold StartRun. destruct (start_input i) as [[|]|]; [|done..]. destruct (bool_decide _); [done|].
  destruct (if eqs (IdempotencyKey i) "" then None else _); [done|]. destruct (eqs (TriggerEventID i) ""); [by destruct s|].
  destruct (existsb _ _); [by destruct s|done].
Qed.
Lemma announced_fields flip a s : windows (flip s).2 = windows s → clock (flip s).2 = clock s →
  windows (announced flip a s).2 = windows s ∧ clock (announced flip a s).2 = clock s.
Proof. unfold announced. destruct (flip s) as [[] s']; cbn [snd]; [|done]. by destruct s'. Qed.
Lemma set_status_windows orgID id before after reason s :
  windows (set_status orgID id before after reason s).2 = windows s ∧ clock (set_status orgID id before after reason s).2 = clock s.
Proof. unfold set_status. destruct (existsb _ _); [|done]. by destruct s. Qed.
Lemma cleanup_counted s l : counted s l → counted (CleanupExpiredRateWindows s) (l ++ []).
Proof.
  rewrite app_nil_r. intros Hc name key w. destruct (Hc name key w) as [Hl Hm]. split; [done|].
  destruct (windows_fields (filter (λ kv, (clock s <= kv.2.2)%Z) (windows s)) s) as (_ & _ & _ & Hclock).
  unfold CleanupExpiredRateWindows. rewrite Hclock. assert (∀ m, windows (set_windows m s) = m) as -> by by destruct s.
  rewrite map_lookup_filter. destruct (windows s !! (name, key, w)) as [[count expires]|] eqn:E; [|done]. cbn [mbind option_bind].
  case_guard as Hg; cbn in Hg |- *; [done|]. right. destruct Hm as [_ ->]. lia.
Qed.

Hypothesis window_positive : ∀ name, (0 < window name)%Z.

Lemma enforce_event_counted key orgID eventID opts s l x s' : counted s l → uses_options (EnforceEvent key orgID eventID opts) →
  (x, s') = EnforceTriggerEvent key orgID eventID opts s → counted s' (l ++ charge (EnforceEvent key orgID eventID opts) s x).
Proof.
  intros Hc [Hmax Hwin]. unfold EnforceTriggerEvent. cbn [charge].
  destruct (GetTriggerEvent orgID eventID s) as [e|]; [|intros [= -> ->]; by apply (counted_ext s)].
  destruct (received e); cbn [negb andb]; [|intros [= -> ->]; by apply (counted_ext s)].
  destruct (bool_decide (is_Some (te_RateAdmittedAt e))); cbn [negb andb]; [intros [= -> ->]; by apply (counted_ext s)|].
  destruct (BumpRateWindow _ _ _ _ s) as [count s1] eqn:Eb. rewrite Hwin in Eb. unfold window_of. rewrite Hwin.
  pose proof (counted_bump s l (op_Name opts) key (Some eventID) count s1 (window_positive _) Hc Eb (count <=? limit (op_Name opts))%Z) as Hs1.
  rewrite Hmax. intros Hx. assert (is_allowed x = (count <=? limit (op_Name opts))%Z ∧ windows s' = windows s1 ∧ clock s' = clock s1) as (-> & Hw & Hclock).
  { destruct (Z.ltb_spec (limit (op_Name opts)) count), (Z.leb_spec count (limit (op_Name opts))); try lia;
      injection Hx as -> ->; (split; [done|apply update_events_fields]). }
  rewrite <-(app_nil_r (l ++ _)). apply (counted_ext s1); [apply Hs1; by intros ?%Z.leb_le|done|lia].
Qed.
Lemma enforce_counted key opts s l x s' : counted s l → uses_options (EnforceBucket key opts) →
  (x, s') = Enforce key opts s → counted s' (l ++ charge (EnforceBucket key opts) s x).
Proof.
  intros Hc [Hmax Hwin]. unfold Enforce. cbn [charge]. destruct (BumpRateWindow _ _ _ _ s) as [count s1] eqn:Eb.
  rewrite Hwin in Eb. unfold window_of. rewrite Hwin, Hmax.
  pose proof (counted_bump s l (op_Name opts) key None count s1 (window_positive _) Hc Eb (count <=? limit (op_Name opts))%Z) as Hs1.
  intros [= -> ->]. assert (is_allowed (if (limit (op_Name opts) <? count)%Z then Limited (retry_after (clock s) (window (op_Name opts))) else Allowed)
    = (count <=? limit (op_Name opts))%Z) as ->.
  { by destruct (Z.ltb_spec (limit (op_Name opts)) count), (Z.leb_spec count (limit (op_Name opts))); try lia. }
  apply Hs1. by intros ?%Z.leb_le.
Qed.
Lemma counted_step {X} (o : op X) s l x s' : counted s l → uses_options o → returns o s x s' → counted s' (l ++ charge o s x).
Proof.
  intros Hc Hu. assert (counted s (l ++ [])) as Hsame by (by apply (counted_ext s)).
  assert (∀ s2, windows s2 = windows s ∧ clock s2 = clock s → counted s2 (l ++ [])) as Hext.
  { intros s2 [Hw Hcl]. apply (counted_ext s); [done|done|lia]. }
  destruct (on_schedules o) eqn:Eon.
  { intros Hret. assert (charge o s x = []) as -> by by destruct o. destruct (on_schedules_keeps o s x s' Eon Hret) as [l' ->].
    apply Hext; by destruct s. }
  destruct o; cbn [TriggerProg.returns]; try discriminate Eon; try (by intros [-> _]); try (by intros ->).
  - answered. apply Hext. unfold InsertTriggerEvent. destruct (existsb _ _); [done|by destruct s].
  - intros ->. apply Hext. by destruct s.
  - by apply enforce_event_counted.
  - intros ->. apply Hext. apply update_events_fields.
  - intros [runID H']. revert H'. answered. apply Hext, start_fields.
  - answered. apply Hext, announced_fields; apply set_status_windows.
  - answered. apply Hext, announced_fields; apply set_status_windows.
  - intros (locked & page & Hp & _). revert Hp. answered. apply Hext. by destruct s.
  - by apply enforce_counted.
  - intros ->. by apply cleanup_counted.
  - intros ->. apply Hext. by destruct s.
  - intros ->. apply Hext. by destruct s.
  - intros (b & _ & ->). apply Hext. by destruct s.
  - intros (row & _ & ->). apply Hext. by destruct s.
  - intros (now & Hnow & ->). apply (counted_ext s); [done|by destruct s|by destruct s].
Qed.

Lemma find_event orgID id s e : GetTriggerEvent orgID id s = Some e → e ∈ events s ∧ te_ID e = id ∧ te_OrgID e = orgID.
Proof.
  unfold GetTriggerEvent. destruct (filter _ _) as [|e' l] eqn:E; [done|]. intros [= ->].
  assert (e ∈ filter (λ e, event_is orgID id e = true) (events s)) as [Hp He]%list_elem_of_filter by (rewrite E; by left).
  unfold event_is, eqs in Hp. by bool_split.
Qed.
Lemma paid_step {X} (o : op X) s l x s' : tables_ok s → paid_once s l → returns o s x s' → paid_once s' (l ++ charge o s x).
Proof.
  intros Hok [Hnd Hpaid] Hret. destruct (returns_ok o s x s' Hok Hret) as [_ Hg].
  assert (∀ id, id ∈ omap snd l → ∃ e, e ∈ events s' ∧ te_ID e = id ∧ is_Some (te_RateAdmittedAt e)) as Hold.
  { intros id Hid. destruct (Hpaid id Hid) as (e & He & Hi & Ha). destruct (grows_event _ s s' e Hg He) as (e' & He' & Hl).
    exists e'. split_and!; [done|by rewrite (later_id _ _ Hl)|by apply (later_admitted _ _ Hl)]. }
  assert (omap snd (charge o s x) = [] → paid_once s' (l ++ charge o s x)) as Hnone.
  { intros Hc. unfold paid_once. rewrite omap_app, Hc, app_nil_r. done. }
  destruct o; try (by apply Hnone); [|by apply Hnone; cbn; destruct (is_allowed x)].
  cbn [charge] in *. destruct (GetTriggerEvent orgID eventID s) as [e|] eqn:Ee; [|by apply Hnone].
  destruct (received e) eqn:Er; [|by apply Hnone]. destruct (bool_decide (is_Some (te_RateAdmittedAt e))) eqn:Ea; [by apply Hnone|].
  destruct (is_allowed x) eqn:Ex; [|by apply Hnone]. cbn [negb andb]. apply bool_decide_eq_false_1 in Ea.
  destruct (find_event _ _ _ _ Ee) as (He & Hid & Horg). unfold paid_once. rewrite omap_app. cbn [omap list_omap snd]. split.
  - apply NoDup_app. split_and!; [done| |apply NoDup_singleton]. intros id Hin ->%list_elem_of_singleton.
    destruct (Hpaid _ Hin) as (e2 & He2 & Hi2 & Ha2). assert (e2 = e) as -> by (apply (same_event s); congruence). done.
  - intros id. rewrite elem_of_app, list_elem_of_singleton. intros [?| ->]; [by apply Hold|].
    cbn [TriggerProg.returns] in Hret. unfold EnforceTriggerEvent in Hret. rewrite Ee, Er in Hret. cbn [negb] in Hret.
    rewrite bool_decide_eq_false_2 in Hret by done. destruct (BumpRateWindow _ _ _ _ s) as [count s1] eqn:Eb.
    apply bump_fields in Eb as (Hev & _). destruct (op_Max opts <? count)%Z; [by injection Hret as -> ->|]. injection Hret as _ ->.
    exists (with_admission (clock s1) e). split_and!; [|by destruct e|by destruct e; cbn; eauto].
    unfold MarkTriggerEventRateAdmitted, update_events. assert (∀ l2, events (set_events l2 s1) = l2) as -> by by destruct s1.
    apply list_elem_of_fmap. exists e. split; [|by rewrite Hev]. unfold event_is, eqs. rewrite Hid, Horg, !String.eqb_refl, Er.
    rewrite bool_decide_eq_true_2; [done|]. by apply eq_None_not_Some.
Qed.

End histories.

(** ** A concrete history *)

(** A workflow is saved and an event starts a run; then the workflow fails, its breaker
    trips, and a second event is buffered. *)
#[local] Instance tables : UnicodeTables := {| is_print := λ _, true |}.
Definition no_digest : string → list ascii := λ _, [].
Definition demo_document : Workflow := mkWorkflow dslVersion "" "" None None [] "" None None [] [].
Definition demo_delivery (id key : string) : TriggerEvent :=
  mkTriggerEvent id "org" "webhook_received" (Some "wf") "v1" "hook" "received" None (Some key) "" None None 0 None None None.
Definition demo_start : StartInput := mkStartInput "org" demo_document "v1" ANil "user" "" "e1" "" "" "" "".
Definition demo_saved : Tables :=
  set_base (saveWorkflowVersionAttempt "org" "wf" "Orders" "v1" "{}" empty_store).2 (empty_tables 0).
Definition demo_received : Tables := (InsertTriggerEvent (demo_delivery "e1" "k1") demo_saved).2.
Definition demo_started : Tables := (StartRun demo_start "r1" demo_received).2.
Definition demo_tripped : Tables := (trip "org" "wf" "r1" 5 5 demo_started).2.
Definition demo_second : Tables := (InsertTriggerEvent (demo_delivery "e2" "k2") demo_tripped).2.
Definition demo_buffered : Tables :=
  MarkTriggerEventOutcome "org" "e2" OutcomeBuffered (Some "paused_circuit_breaker") demo_second.

Lemma demo_history : history id no_digest demo_buffered.
Proof.
  eapply (history_op _ _ (MarkOutcome "org" "e2" OutcomeBuffered (Some "paused_circuit_breaker")) demo_second tt); [done| |done].
  eapply (history_op _ _ (InsertEvent (demo_delivery "e2" "k2")) demo_tripped true); [done| |vm_compute; reflexivity].
  eapply (history_op _ _ (TripBreaker "org" "wf" "r1" 5 5) demo_started true); [done| |vm_compute; reflexivity].
  eapply (history_op _ _ (Start demo_start) demo_received (Ok "r1")); [done| |exists "r1"; vm_compute; reflexivity].
  eapply (history_op _ _ (InsertEvent (demo_delivery "e1" "k1")) demo_saved true); [done| |vm_compute; reflexivity].
  eapply (history_op _ _ RolloutTransaction (empty_tables 0) tt); [done|apply history_empty|].
  exists (saveWorkflowVersionAttempt "org" "wf" "Orders" "v1" "{}" empty_store).2. split; [apply step_save|done].
Qed.

Lemma event_starts_once_witness :
  starts demo_buffered !! "r1" = Some demo_start ∧
  (∀ r i, starts demo_buffered !! r = Some i → TriggerEventID i = "e1" → r = "r1").
Proof.
  assert (starts demo_buffered !! "r1" = Some demo_start) as Hr by (vm_compute; reflexivity). split; [exact Hr|].
  intros r i Hi He. destruct (event_starts_once id no_digest demo_buffered demo_history) as [Honce _].
  apply (Honce r "r1" i demo_start Hi Hr); [by rewrite He|by rewrite He].
Defined.

(** A bucket of one hit: the second hit of a minute is limited. *)
Definition demo_options : Options := mkOptions "api" 1 60000000000.
