(* ===== verification/BreakerFacts.v ===== *)
(** The circuit breaker: every pause and every resume is announced once; what trips it; and
    the buffered events that a drain claims and never starts. *)
From S2P Require Import Prelude GoStrings GoFloat GoAny GoInt Json Graph Inputs RecoveryContract NodeConfig RecoveryDag WorkflowParse Validate Rollout Trigger TriggerProg Ingest Breaker TriggerFacts.
Local Open Scope string_scope.
Local Open Scope list_scope.

(** ** Announcements *)

Definition announcements (action id : string) (s : Tables) : nat :=
  length (filter (λ a, au_Action a = action ∧ au_TargetID a = id) (trail s)).
Definition tripped_action : string := "workflow.circuit_breaker.tripped".
Definition resumed_action : string := "workflow.circuit_breaker.resumed".
Definition paused (w : WorkflowRow) : nat := if eqs (w_Status w) WorkflowStatusPausedCircuitBreaker then 1 else 0.
Definition breaker_action (a : AuditRow) : Prop := au_Action a = tripped_action ∨ au_Action a = resumed_action.

Record breaker_ok (s : Tables) : Prop := mkBreakerOk
  { ok_workflow_ids : NoDup (map w_ID (workflows (base s)));
    ok_balance : ∀ w, w ∈ workflows (base s) →
      announcements tripped_action (w_ID w) s = (announcements resumed_action (w_ID w) s + paused w)%nat;
    ok_targets : ∀ a, a ∈ trail s → breaker_action a → au_TargetID a ∈ map w_ID (workflows (base s)) }.

Lemma announcements_app action id s s' a : trail s' = trail s ++ [a] →
  announcements action id s' = (announcements action id s + if bool_decide (au_Action a = action ∧ au_TargetID a = id) then 1 else 0)%nat.
Proof.
  intros Ht. unfold announcements. rewrite Ht, filter_app, length_app. f_equal. case_bool_decide as Hd.
  - by rewrite filter_cons_True.
  - by rewrite filter_cons_False.
Qed.
Lemma announcements_same action id s s' : trail s' = trail s → announcements action id s' = announcements action id s.
Proof. intros Ht. unfold announcements. by rewrite Ht. Qed.

(** The workflows keep their ids and their pauses by the breaker. *)
Lemma breaker_map s s' f : breaker_ok s → trail s' = trail s → workflows (base s') = map f (workflows (base s)) →
  (∀ w, w ∈ workflows (base s) → w_ID (f w) = w_ID w ∧ paused (f w) = paused w) → breaker_ok s'.
Proof.
  intros [Hnd Hbal Htg] Ht Hw Hf. assert (map w_ID (workflows (base s')) = map w_ID (workflows (base s))) as Hids.
  { rewrite Hw, map_map. apply map_ext_in. intros w Hin%list_elem_of_In. by apply Hf. }
  split; [by rewrite Hids| |by rewrite Ht, Hids].
  intros w. rewrite Hw, list_elem_of_fmap. intros (w0 & -> & Hw0). destruct (Hf w0 Hw0) as [-> ->].
  rewrite !(announcements_same _ _ s s') by done. by apply Hbal.
Qed.
Lemma breaker_same s s' : breaker_ok s → trail s' = trail s → workflows (base s') = workflows (base s) → breaker_ok s'.
Proof. intros Hok Ht Hw. apply (breaker_map s s' id); [done|done|by rewrite map_id|done]. Qed.

Lemma breaker_rollout s b : breaker_ok s → keeps_workflows (base s) b → breaker_ok (set_base b s).
Proof.
  intros [Hnd Hbal Htg] [_ (f & fresh & Hw & Hf & Hact & Hnd' & Hfresh)].
  assert (trail (set_base b s) = trail s ∧ base (set_base b s) = b) as [Ht Hb] by by destruct s.
  assert (map w_ID (workflows b) = map w_ID (workflows (base s)) ++ map w_ID fresh) as Hids.
  { rewrite Hw, map_app. f_equal. rewrite map_map. apply map_ext. intros w. by apply Hf. }
  split; rewrite Hb, ?Ht, ?Hids.
  - apply NoDup_app. split_and!; [done| |done]. intros x Hx (w & -> & Hin)%list_elem_of_fmap. by apply (Hfresh w).
  - intros w. rewrite Hw, elem_of_app, list_elem_of_fmap, !(announcements_same _ _ s (set_base b s)) by done. intros [(w0 & -> & Hw0)|Hin].
    + destruct (Hf w0) as (-> & _ & Hs). unfold paused. rewrite Hs. by apply Hbal.
    + assert (∀ action, action = tripped_action ∨ action = resumed_action → announcements action (w_ID w) s = 0%nat) as Hno.
      { intros action Ha. unfold announcements. rewrite filter_none; [done|]. intros a Hin' [Hact' Htarget].
        apply (Hfresh w Hin). rewrite <-Htarget. apply Htg; [done|]. unfold breaker_action. rewrite Hact'. naive_solver. }
      rewrite !Hno by auto. unfold paused. by rewrite (Hact w Hin).
  - intros a Ha Hba. apply elem_of_app. left. by apply Htg.
Qed.

Lemma same_row s w w' : NoDup (map w_ID (workflows s)) → w ∈ workflows s → w' ∈ workflows s → w_ID w = w_ID w' → w = w'.
Proof.
  induction (workflows s) as [|x l IH]; cbn; [set_solver|]. rewrite NoDup_cons, list_elem_of_fmap. intros [Hx Hl].
  rewrite !elem_of_cons. intros [->|Hw] [->|Hw'] Hid; [done| | |by apply IH].
  - destruct Hx. by exists w'.
  - destruct Hx. by exists w.
Qed.
(** A transaction of the breaker moves the status and the trail together. *)
Lemma breaker_flip orgID id before after reason a s : breaker_ok s → au_TargetID a = id →
  (au_Action a = tripped_action ∧ before = "active" ∧ after = WorkflowStatusPausedCircuitBreaker) ∨
  (au_Action a = resumed_action ∧ before = WorkflowStatusPausedCircuitBreaker ∧ after = "active") →
  breaker_ok (announced (set_status orgID id before after reason) a s).2.
Proof.
  intros Hok Htarget Hcase. unfold announced, set_status. destruct (existsb (has_status orgID id before) (workflows (base s))) eqn:E; [|done].
  cbn [snd]. apply existsb_elem in E as (w0 & Hw0 & Hstatus). set (f := λ w, if has_status orgID id before w then with_pause after reason w else w).
  set (s' := add_trail a _). assert (trail s' = trail s ++ [a] ∧ workflows (base s') = map f (workflows (base s))) as [Ht Hw].
  { subst s'. destruct s as [b ? ? ? ? ? ? ?]; by destruct b. }
  clearbody s'. destruct Hok as [Hnd Hbal Htg].
  assert (∀ w, w_ID (f w) = w_ID w) as Hfid by (intros w; unfold f; cbn beta; by destruct (has_status orgID id before w)).
  assert (map w_ID (workflows (base s')) = map w_ID (workflows (base s))) as Hids.
  { rewrite Hw, map_map. by apply map_ext. }
  pose proof Hstatus as Hfields. unfold has_status, eqs in Hfields. bool_split. split; rewrite ?Hids; [done| |].
  - intros w. rewrite Hw, list_elem_of_fmap. intros (w1 & -> & Hw1). rewrite Hfid.
    rewrite !(announcements_app _ _ s s' a Ht), Hbal, Htarget by done. unfold f. destruct (has_status orgID id before w1) eqn:E1.
    + unfold has_status, eqs in E1. bool_split. unfold paused, eqs. cbn [with_pause w_Status].
      destruct Hcase as [(Ha & Hb & ->)|(Ha & Hb & ->)]; rewrite Ha, Hb in *; repeat match goal with H : w_Status w1 = _ |- _ => rewrite H end;
        repeat case_bool_decide; cbn; try lia; exfalso; naive_solver.
    + assert (id ≠ w_ID w1) as Hne.
      { intros Heq. assert (w0 = w1) as -> by (apply (same_row (base s)); congruence). congruence. }
      rewrite !bool_decide_eq_false_2 by naive_solver. lia.
  - intros a'. rewrite Ht, elem_of_app, list_elem_of_singleton. intros [Ha'| ->] Hba; [by apply Htg|]. rewrite Htarget.
    apply list_elem_of_fmap. exists w0. by subst.
Qed.
Lemma breaker_upstream ids orgID before after reason s : breaker_ok s →
  before ≠ WorkflowStatusPausedCircuitBreaker → after ≠ WorkflowStatusPausedCircuitBreaker →
  breaker_ok (set_upstream ids orgID before after reason s).
Proof.
  intros Hok Hb Ha. eapply (breaker_map s); [done|by destruct s as [b ? ? ? ? ? ? ?]; destruct b|by destruct s as [b ? ? ? ? ? ? ?]; destruct b|].
  intros w _. cbn beta. destruct (_ && _ && _)%bool eqn:E; [|done]. split; [done|]. unfold eqs in E. bool_split.
  unfold paused, eqs. cbn [with_pause w_Status]. 
  destruct (String.eqb_spec after WorkflowStatusPausedCircuitBreaker), (String.eqb_spec (w_Status w) WorkflowStatusPausedCircuitBreaker); congruence.
Qed.

(** A row about something else. *)
Lemma breaker_note a s s' : breaker_ok s → ¬ breaker_action a → trail s' = trail s ++ [a] → base s' = base s → breaker_ok s'.
Proof.
  intros [Hnd Hbal Htg] Hno Ht Hb. assert (∀ action id, action = tripped_action ∨ action = resumed_action →
    announcements action id s' = announcements action id s) as Hsame.
  { intros action id Ha. rewrite (announcements_app _ _ s s' a Ht), bool_decide_eq_false_2; [lia|].
    intros [? _]. apply Hno. unfold breaker_action. naive_solver. }
  split; rewrite Hb; [done| |].
  - intros w Hw. rewrite !Hsame by auto. by apply Hbal.
  - intros a'. rewrite Ht, elem_of_app, list_elem_of_singleton. intros [?| ->]; [by apply Htg|done].
Qed.

Lemma trail_fields s : 
  (∀ p f, trail (update_events p f s) = trail s ∧ base (update_events p f s) = base s) ∧
  (∀ m, trail (set_windows m s) = trail s ∧ base (set_windows m s) = base s) ∧
  (∀ l, trail (set_events l s) = trail s ∧ base (set_events l s) = base s) ∧
  (∀ now, trail (set_clock now s) = trail s ∧ base (set_clock now s) = base s).
Proof. by destruct s. Qed.
Lemma bump_trail name key start expires s : trail (BumpRateWindow name key start expires s).2 = trail s ∧
  base (BumpRateWindow name key start expires s).2 = base s.
Proof. unfold BumpRateWindow. by destruct (windows s !! (name, key, start)) as [[c x]|]; destruct s. Qed.
Lemma enforce_event_trail key orgID eventID opts s : trail (EnforceTriggerEvent key orgID eventID opts s).2 = trail s ∧
  base (EnforceTriggerEvent key orgID eventID opts s).2 = base s.
Proof.
  unfold EnforceTriggerEvent. destruct (GetTriggerEvent orgID eventID s); [|done]. destruct (negb _); [done|].
  destruct (bool_decide _); [done|]. pose proof (bump_trail (op_Name opts) key (Truncate (clock s) (op_Window opts))
    (Truncate (clock s) (op_Window opts) + op_Window opts) s) as Hb. destruct (BumpRateWindow _ _ _ _ s) as [count s1]. cbn in Hb.
  destruct (trail_fields s1) as (Hu & _). unfold MarkTriggerEventRateLimited, MarkTriggerEventRateAdmitted.
  destruct (op_Max opts <? count)%Z; cbn [snd]; destruct Hb as [<- <-]; apply Hu.
Qed.
Lemma start_trail i runID s : trail (StartRun i runID s).2 = trail s ∧ workflows (base (StartRun i runID s).2) = workflows (base s).
Proof.
  unfold StartRun. destruct (start_input i) as [[|]|]; [|done..]. destruct (bool_decide _); [done|].
  destruct (if eqs (IdempotencyKey i) "" then None else _); [done|].
  assert (trail (insert_run i runID s) = trail s ∧ workflows (base (insert_run i runID s)) = workflows (base s)) as [Ht Hw].
  { destruct s as [b ? ? ? ? ? ? ?]; by destruct b. }
  destruct (eqs (TriggerEventID i) ""); [done|]. destruct (existsb _ _); [|done]. cbn [snd].
  destruct (trail_fields (insert_run i runID s)) as (Hu & _). unfold ClaimTriggerEventStart.
  destruct (Hu (claimable (si_OrgID i) (TriggerEventID i)) (with_run runID)) as [-> ->]. done.
Qed.

Section breaker.
Context `{UnicodeTables} (json_error : string → string) (sha256 : string → list ascii).

Lemma breaker_returns {X} (o : op X) s x s' : breaker_ok s → returns json_error sha256 o s x s' → breaker_ok s'.
Proof.
  intros Hok. destruct (trail_fields s) as (Hu & Hw & He & Hc).
  assert (∀ s2, trail s2 = trail s ∧ base s2 = base s → breaker_ok s2) as Hsame.
  { intros s2 [Ht Hb]. apply (breaker_same s); [done|done|by rewrite Hb]. }
  destruct (on_schedules o) eqn:Eon.
  { intros Hret. destruct (on_schedules_keeps _ _ o s x s' Eon Hret) as [l ->]. apply Hsame. by destruct s. }
  destruct o; cbn [TriggerProg.returns]; try discriminate Eon; try (by intros [-> _]); try (by intros ->).
  - intros Hx%(f_equal snd). cbn in Hx. subst. unfold InsertTriggerEvent. destruct (existsb _ _); [done|]. apply Hsame, He.
  - intros ->. eapply (breaker_note (event_row auth a eventID metadata) s); [done| |by destruct s|by destruct s]. intros []; by destruct a.
  - intros Hx%(f_equal snd). cbn in Hx. subst. apply Hsame, enforce_event_trail.
  - intros ->. apply Hsame, Hu.
  - intros [runID Hx%(f_equal snd)]. cbn in Hx. subst. destruct (start_trail i runID s). by apply (breaker_same s).
  - intros Hx%(f_equal snd). cbn in Hx. subst. apply breaker_flip; [done|done|by left].
  - intros Hx%(f_equal snd). cbn in Hx. subst. apply breaker_flip; [done|done|by right].
  - intros (locked & page & Hp%(f_equal snd) & _). cbn in Hp. subst. apply Hsame, Hu.
  - intros Hx%(f_equal snd). cbn in Hx. subst. apply Hsame. unfold Enforce.
    pose proof (bump_trail (op_Name opts) key (Truncate (clock s) (op_Window opts)) (Truncate (clock s) (op_Window opts) + op_Window opts) s) as Hb.
    by destruct (BumpRateWindow _ _ _ _ s).
  - intros ->. apply Hsame, Hw.
  - intros ->. by apply breaker_upstream.
  - intros ->. by apply breaker_upstream.
  - intros (b & Hstep & ->). apply breaker_rollout; [done|]. by apply (step_keeps json_error).
  - intros (row & _ & ->). apply (breaker_same s); [done|by destruct s|]. destruct s as [b ? ? ? ? ? ? ?]; by destruct b.
  - intros (now & _ & ->). apply Hsame, Hc.
Qed.

End breaker.

(** ** What trips the breaker *)

Lemma failure_streak_all T l : (0 < T)%Z →
  (T <=? failure_streak (take (Z.to_nat T) l))%Z =
  (T <=? Z.of_nat (length l))%Z && forallb (λ s, eqs s "failed") (take (Z.to_nat T) l).
Proof.
  intros HT. replace T with (Z.of_nat (Z.to_nat T)) at 1 3 by lia. generalize (Z.to_nat T). clear. intros n.
  revert l. induction n as [|n IH]; intros l; cbn [take failure_streak forallb].
  { destruct (Z.leb_spec (Z.of_nat 0) (Z.of_nat (length l))); [done|lia]. }
  destruct l as [|x l]; cbn [take failure_streak forallb length]; [done|]. destruct (eqs x "failed"); cbn [andb].
  - specialize (IH l). assert (∀ a, (Z.of_nat (S n) <=? 1 + a)%Z = (Z.of_nat n <=? a)%Z) as Hs.
    { intros a. destruct (Z.leb_spec (Z.of_nat (S n)) (1 + a)), (Z.leb_spec (Z.of_nat n) a); lia. }
    replace (Z.of_nat (S (length l))) with (1 + Z.of_nat (length l))%Z by lia. by rewrite !Hs.
  - rewrite andb_false_r. destruct (Z.leb_spec (Z.of_nat (S n)) 0); [lia|done].
Qed.
Lemma failure_streak_le l : (failure_streak l <= Z.of_nat (length l))%Z.
Proof. induction l as [|x l IH]; cbn [failure_streak length]; [lia|]. destruct (eqs x "failed"); lia. Qed.

(** The breaker of a workflow as one function: with the organisation's setting [org] it
    holds a live active workflow of which the newest [T] terminal runs exist and all failed,
    [T] being its threshold. *)
Definition due (status : string) (T : Z) (newest : list string) : bool :=
  eqs status "active" && (0 <? T)%Z && ((T <=? Z.of_nat (length newest))%Z && forallb (λ s, eqs s "failed") (take (Z.to_nat T) newest)).
Definition must_trip (env orgID workflowID runID : string) (org : float64) (s : Tables) : bool :=
  let T := resolveBreakerThreshold (run_knob (starts s !! runID)) org in
  negb (eqs workflowID "") && IsCircuitBreakerEnabled env &&
  match GetWorkflowBreakerStatus orgID workflowID s with
  | Some status => due status T (map ru_Status (recent_runs orgID workflowID s))
  | None => false
  end.
Definition evaluated (env orgID workflowID runID : string) (org : float64) (s : Tables) : bool * Tables :=
  let T := resolveBreakerThreshold (run_knob (starts s !! runID)) org in
  if must_trip env orgID workflowID runID org s then trip orgID workflowID runID T T s else (false, s).

Lemma status_row orgID id s st : GetWorkflowBreakerStatus orgID id s = Some st →
  existsb (has_status orgID id st) (workflows (base s)) = true.
Proof.
  unfold GetWorkflowBreakerStatus. destruct (filter _ _) as [|w l] eqn:E; [done|]. intros [= <-].
  assert (w ∈ filter (λ w, w_OrgID w = orgID ∧ w_ID w = id ∧ w_Deleted w = false) (workflows (base s))) as
    [(Ho & Hi & Hd) Hw]%list_elem_of_filter by (rewrite E; by left).
  apply existsb_elem. exists w. split; [done|]. unfold has_status, eqs. by rewrite Ho, Hi, Hd, !String.eqb_refl.
Qed.

(** An operation that only reads, without other processes. *)
Lemma alone_read `{UnicodeTables} json_error sha256 {A X} (o : op X) (x0 : X) (k : res fault X → prog A) s a s' :
  (∀ x s1, returns json_error sha256 o s x s1 ↔ s1 = s ∧ x = x0) →
  alone json_error sha256 (Do o k) s a s' ↔ alone json_error sha256 (k (Ok x0)) s a s'.
Proof.
  intros Hr. cbn [alone]. split.
  - intros (x & s1 & [-> ->]%Hr & Hk). done.
  - intros Hk. exists x0, s. split; [by apply Hr|done].
Qed.
(** The knob's threshold in the handler, when it is positive and nobody interferes. *)
Lemma trips_at T status statuses : ShouldTripCircuitBreaker (failure_streak statuses) T status =
  (0 <? T)%Z && eqs status "active" && (T <=? failure_streak statuses)%Z.
Proof.
  unfold ShouldTripCircuitBreaker. destruct (Z.leb_spec T 0), (Z.ltb_spec 0 T); try lia; cbn; try done; by destruct (eqs status "active").
Qed.

Definition trip_if_due (orgID workflowID runID status : string) (T : Z) : prog bool :=
  if (T <=? 0)%Z then Ret false
  else
    do! statuses := RecentStatuses orgID workflowID T or Ret false in
    if negb (ShouldTripCircuitBreaker (failure_streak statuses) T status) then Ret false
    else do! tripped := TripBreaker orgID workflowID runID (failure_streak statuses) T or Ret false in Ret tripped.
Lemma trip_if_due_alone `{UnicodeTables} json_error sha256 orgID workflowID runID status T s tripped s' :
  GetWorkflowBreakerStatus orgID workflowID s = Some status →
  alone json_error sha256 (trip_if_due orgID workflowID runID status T) s tripped s' ↔
  (tripped, s') = if due status T (map ru_Status (recent_runs orgID workflowID s))
                  then trip orgID workflowID runID T T s else (false, s).
Proof.
  intros Hst. unfold trip_if_due, due. destruct (Z.leb_spec T 0) as [HT|HT].
  { assert ((0 <? T)%Z = false) as -> by lia. rewrite andb_false_r. cbn. split; [by intros [-> ->]|by intros [= -> ->]]. }
  rewrite (alone_read _ _ _ (CountRecentWorkflowRunStatuses orgID workflowID T s)) by done. cbn beta iota.
  rewrite trips_at. unfold CountRecentWorkflowRunStatuses. set (newest := map ru_Status (recent_runs orgID workflowID s)).
  rewrite failure_streak_all by done. assert ((0 <? T)%Z = true) as -> by lia.
  destruct (eqs status "active") eqn:Ea; cbn [andb negb]; [|cbn; split; [by intros [-> ->]|by intros [= -> ->]]].
  destruct ((T <=? _)%Z && _) eqn:E; cbn [negb]; [|cbn; split; [by intros [-> ->]|by intros [= -> ->]]].
  assert (failure_streak (take (Z.to_nat T) newest) = T) as ->.
  { pose proof (failure_streak_le (take (Z.to_nat T) newest)) as Hle. rewrite length_take in Hle.
    rewrite <-failure_streak_all in E by done. lia. }
  cbn [alone TriggerProg.returns]. split; [by intros (x & s1 & Hx & -> & ->)|]. intros Hx. by exists tripped, s'.
Qed.

(** The evaluation that follows a terminal failure, without other
    processes, is exactly this: it pauses the workflow when the breaker is on, the workflow
    is live and active, its threshold is positive, and the newest runs that count, as many
    as the threshold, exist and all failed; the trip reports the threshold as the streak.
    Otherwise it changes nothing. It always ends. *)
Theorem breaker_trips_correct `{UnicodeTables} json_error sha256 (env orgID workflowID runID : string) (s : Tables) :
  (∀ tripped s', alone json_error sha256 (maybeTripCircuitBreaker env orgID workflowID runID) s tripped s' ↔
     ∃ org, (tripped, s') = evaluated env orgID workflowID runID org s) ∧
  ∀ org, (evaluated env orgID workflowID runID org s).1 = must_trip env orgID workflowID runID org s.
Proof.
  split; [intros tripped s'|].
  - assert (∀ t s2, t = false ∧ s2 = s ↔ ∃ _ : float64, (t, s2) = (false, s)) as Hstop.
    { intros t s2. split; [intros [-> ->]; by exists (f_of_Z 0)|by intros [_ [= -> ->]]]. }
    unfold maybeTripCircuitBreaker, evaluated, must_trip. destruct (eqs workflowID ""); [apply Hstop|].
    destruct (IsCircuitBreakerEnabled env); [|apply Hstop]. cbn [negb andb orb].
    rewrite (alone_read _ _ _ (GetWorkflowBreakerStatus orgID workflowID s)) by done. cbn beta iota.
    destruct (GetWorkflowBreakerStatus orgID workflowID s) as [status|] eqn:Est; [|apply Hstop].
    rewrite (alone_read _ _ _ (starts s !! runID)) by done. cbn beta iota. cbn [alone TriggerProg.returns].
    pose proof (λ org, trip_if_due_alone json_error sha256 orgID workflowID runID status
      (resolveBreakerThreshold (run_knob (starts s !! runID)) org) s tripped s' Est) as Hdue. unfold trip_if_due in Hdue.
    split; [intros (org & s1 & -> & Hrest); exists org; exact (proj1 (Hdue org) Hrest)|].
    intros [org Hrest]. exists org, s. split; [done|]. exact (proj2 (Hdue org) Hrest).
  - intros org. unfold evaluated. destruct (must_trip _ _ _ _ _ _) eqn:Hm; [|done]. unfold must_trip in Hm. apply andb_true_iff in Hm as [_ Hm].
    destruct (GetWorkflowBreakerStatus orgID workflowID s) as [status|] eqn:Est; [|done].
    unfold due, eqs in Hm. bool_split. subst. unfold trip, announced, TripWorkflowCircuitBreaker, set_status.
    by rewrite (status_row _ _ _ _ Est).
Qed.

(** ** Buffered events *)

Section stranded.
Context `{UnicodeTables} (json_error : string → string) (sha256 : string → list ascii).
Context (Parse : string → option Workflow * list Issue) (Validate : Workflow → option Validate.ValidationResult).
Abbreviation alone := (alone json_error sha256).

Lemma start_spares i runID s e : e ∈ events s → TriggerEventID i ≠ te_ID e → e ∈ events (StartRun i runID s).2.
Proof.
  intros He Hne. destruct (insert_run_fields i runID s) as (Hev & _).
  unfold StartRun. destruct (start_input i) as [[|]|]; [|done..]. destruct (bool_decide _); [done|].
  destruct (if eqs (IdempotencyKey i) "" then None else _); [done|].
  destruct (eqs (TriggerEventID i) ""); [cbn; by rewrite Hev|]. destruct (existsb _ _); [|done].
  unfold ClaimTriggerEventStart, update_events. cbn [snd]. assert (∀ l s2, events (set_events l s2) = l) as -> by by intros ? [].
  rewrite Hev. apply list_elem_of_fmap. exists e. split; [|done].
  destruct (claimable (si_OrgID i) (TriggerEventID i) e) eqn:E; [|done].
  unfold claimable, event_is, eqs in E. bool_split. congruence.
Qed.
Lemma drain_spares orgID userID wf versionID claimed o k e :
  (∀ c, c ∈ claimed → te_ID c ≠ te_ID e) →
  (∀ o s a s', e ∈ events s → alone (k o) s a s' → e ∈ events s') →
  ∀ s a s', e ∈ events s → alone (drain Parse orgID userID wf versionID claimed o k) s a s' → e ∈ events s'.
Proof.
  revert o. induction claimed as [|c claimed IH]; intros o Hids Hk s a s' He; cbn [drain]; [by apply Hk|].
  assert (∀ captured s1 a1 s1', e ∈ events s1 → alone (Do (Start (backfill_start orgID userID c wf versionID captured)) (λ started,
          drain Parse orgID userID wf versionID claimed (count_start started o) k)) s1 a1 s1' → e ∈ events s1') as Hstart.
  { intros captured s1 a1 s1' He1 (x & s2 & [runID Hx%(f_equal snd)] & Hrest). cbn in Hx. subst.
    apply IH in Hrest; try done; [intros; apply Hids; by right|]. apply start_spares; [done|].
    assert (TriggerEventID (backfill_start orgID userID c wf versionID captured) = te_ID c) as ->.
    { unfold backfill_start. by destruct captured, (te_RolloutID c), (te_Variant c). }
    apply Hids. by left. }
  destruct (_ && _); [|by apply Hstart]. intros (x & s1 & [-> _] & Hrest). by eapply Hstart.
Qed.
Lemma backfill_spares orgID workflowID userID e s a s' : tables_ok s → e ∈ events s → is_Some (te_ClaimToken e) →
  alone (backfillBufferedTriggerEvents Parse orgID workflowID userID) s a s' → e ∈ events s'.
Proof.
  intros Hok He Hclaim (token & _ & claimed & s1 & (locked & page & Hpage & Hperm) & Hrest).
  unfold ClaimBufferedTriggerEvents in Hpage. set (pg := take _ _) in Hpage. injection Hpage as -> ->.
  assert (∀ c, c ∈ pg → te_ID c ≠ te_ID e) as Hpg.
  { intros c Hc Hid. unfold pg in Hc. apply elem_of_take in Hc as (j & Hj & _). apply list_elem_of_lookup_2 in Hj.
    apply elem_of_stable_sort, list_elem_of_filter in Hj as [[Hb _]%andb_true_iff Hc]. assert (c = e) as -> by (by apply (same_event s)).
    unfold buffered_for, eqs in Hb. bool_split. destruct Hclaim. congruence. }
  set (s1 := update_events _ _ s) in Hrest. assert (e ∈ events s1) as He1.
  { unfold s1, update_events. assert (∀ l, events (set_events l s) = l) as -> by by intros ?; destruct s.
    apply list_elem_of_fmap. exists e. split; [|done]. destruct (in_list (map te_ID pg) (te_ID e)) eqn:E; [|done].
    apply in_list_spec, list_elem_of_fmap in E as (c & Hid & Hc). by destruct (Hpg c Hc). }
  clearbody s1. destruct Hrest as (latest & s2 & [-> _] & Hrest). destruct latest as [version|]; [|by destruct Hrest as [_ ->]].
  destruct (Parse (DagJson version)).1 as [wf|]; [|by destruct Hrest as [_ ->]].
  eapply drain_spares; [| |exact He1|exact Hrest].
  - intros c. rewrite Hperm, list_elem_of_fmap. intros (c0 & -> & Hc0). assert (te_ID (with_claim token c0) = te_ID c0) as -> by by destruct c0.
    by apply Hpg.
  - intros o s2 a2 s2' He2 (remaining & s3 & [-> _] & [_ ->]). done.
Qed.
Lemma alone_map {A B} (f : A → B) (p : prog A) s b s' : alone (prog_map f p) s b s' → ∃ a, b = f a ∧ alone p s a s'.
Proof.
  revert s. induction p as [a|X o k IH|k IH]; intros s; cbn.
  - intros [-> ->]. by exists a.
  - intros (x & s1 & Ho & (a & -> & Ha)%IH). exists a. split; [done|]. by exists x, s1.
  - intros (id & Hid & (a & -> & Ha)%IH). exists a. split; [done|]. by exists id.
Qed.
Lemma resume_spares orgID workflowID userID e s a s' : tables_ok s → e ∈ events s → is_Some (te_ClaimToken e) →
  alone (ResumeWorkflowCircuitBreaker Parse orgID workflowID userID) s a s' → e ∈ events s'.
Proof.
  intros Hok He Hclaim.
  assert (∀ resumed s1, tables_ok s1 → e ∈ events s1 →
    alone (prog_map (λ o, Ok (o, resumed)) (backfillBufferedTriggerEvents Parse orgID workflowID userID)) s1 a s' → e ∈ events s') as Hdrain.
  { intros resumed s1 Hok1 He1 Ha. apply alone_map in Ha as (o & _ & Ha).
    by eapply backfill_spares. }
  intros (resumed & s1 & Hres & Hrest). destruct (returns_ok _ _ _ s resumed s1 Hok Hres) as [Hok1 _].
  assert (events s1 = events s) as Hev.
  { cbn in Hres. apply (f_equal snd) in Hres. cbn in Hres. subst. unfold resume, announced.
    pose proof (set_status_fields orgID workflowID "paused_circuit_breaker" "active" None s) as (Hf & _).
    unfold ResumeWorkflowCircuitBreaker_flip. destruct (set_status _ _ _ _ _ _) as [[] s2]; cbn in Hf |- *; [|done]. by destruct s2. }
  rewrite <-Hev in He. destruct (resumed : bool); [by eapply Hdrain|].
  destruct Hrest as (status & s2 & [-> _] & Hrest). destruct status as [status|]; [|by destruct Hrest as [_ ->]].
  destruct (eqs status "active"); [by eapply Hdrain|by destruct Hrest as [_ ->]].
Qed.

Lemma redelivery_answer i e s a s' : tables_ok s → e ∈ events s → te_OrgID e = ti_OrgID i →
  te_DedupeKey e = Some (ti_DedupeKey i) → ti_DedupeKey i ≠ "" → received e = false →
  alone (ingestTriggerEventCore Parse Validate i) s a s' → s' = s ∧ (a = Some (duplicateResult e) ∨ a = Some (ti_NoMatch i)).
Proof.
  intros Hok He Ho Hk Hne Hr (owner & s1 & [-> _] & Hrest). destruct owner as [[[orgID status] deleted]|]; [|by destruct Hrest as [-> ->]; auto].
  destruct (negb (eqs orgID (ti_OrgID i)) || deleted); [by destruct Hrest as [-> ->]; auto|].
  apply String.eqb_neq in Hne. fold (eqs (ti_DedupeKey i) "") in Hne.
  assert (FindTriggerEventByDedupe (ti_OrgID i) (ti_DedupeKey i) s = Some e) as Hfind.
  { unfold FindTriggerEventByDedupe. destruct (filter _ _) as [|e' l] eqn:E; cbn [head].
    - assert (e ∈ filter (λ e, te_OrgID e = ti_OrgID i ∧ te_DedupeKey e = Some (ti_DedupeKey i)) (events s)) as Hin by (by apply list_elem_of_filter).
      rewrite E in Hin. by apply not_elem_of_nil in Hin.
    - assert (e' ∈ filter (λ e, te_OrgID e = ti_OrgID i ∧ te_DedupeKey e = Some (ti_DedupeKey i)) (events s)) as [[Ho' Hk'] He']%list_elem_of_filter
        by (rewrite E; by left). f_equal. apply (ok_keys _ Hok e' e (ti_DedupeKey i)); congruence. }
  assert (∀ eventID, alone (if eqs (ti_DedupeKey i) "" then first_delivery Parse i eventID (guard_and_start Validate i status)
          else
            do! existing := FindByDedupe (ti_OrgID i) (ti_DedupeKey i) or fails in
            match existing with
            | None => first_delivery Parse i eventID (guard_and_start Validate i status)
            | Some e =>
                if negb (eqs (te_Status e) "received") then answer (duplicateResult e)
                else adoptExisting Parse i e panics (guard_and_start Validate i status)
            end) s a s' → s' = s ∧ (a = Some (duplicateResult e) ∨ a = Some (ti_NoMatch i))) as Hmain.
  { intros eventID. rewrite Hne. intros (existing & s1 & [-> ->] & Hk2). rewrite Hfind in Hk2. unfold received in Hr. rewrite Hr in Hk2.
    destruct Hk2 as [-> ->]. auto. }
  unfold with_id in Hrest. destruct (eqs (ti_EventID i) ""); [destruct Hrest as (id & _ & Hrest)|]; by eapply Hmain.
Qed.

End stranded.

(** ** The concrete history *)

#[local] Existing Instance TriggerFacts.tables.


(** A drain after which the process dies. *)
Definition demo_claimed : Tables := (ClaimBufferedTriggerEvents "org" "wf" "token" backfillPageLimit [] demo_buffered).2.
Definition demo_stranded : TriggerEvent :=
  with_claim "token" (with_outcome "buffered" (Some "paused_circuit_breaker") (inserted 0 (demo_delivery "e2" "k2"))).
