(* ===== verification/IngestFacts.v ===== *)
(** The ingestion of trigger events under every process at once: an acknowledged delivery is
    settled for good; the names of stored attachments; and the answer that is not one. *)
From S2P Require Import Prelude GoStrings GoFloat GoAny GoInt Base64 Json Regex Calendar Graph Inputs RecoveryContract NodeConfig HttpConfig RecoveryDag Expression Validate WorkflowParse Rollout Qualification Trigger TriggerProg Ingest TriggerFacts.
Local Open Scope string_scope.
Local Open Scope list_scope.

Section facts.
Context `{UnicodeTables} (json_error : string → string) (sha256 : string → list ascii).
Context (Parse : string → option Workflow * list Issue) (Validate : Workflow → option Validate.ValidationResult).
Abbreviation returns := (returns json_error sha256).
Abbreviation exec := (exec json_error sha256).
Abbreviation evolves := (evolves json_error sha256).
Abbreviation finishes := (finishes json_error sha256).
Abbreviation history := (history json_error sha256).
Abbreviation handler := (prog (option opResult)).

(** ** Delivered events *)

Definition named (s : Tables) : Prop := ∀ e, e ∈ events s → te_ID e ≠ "".
Record ingest_ok (s : Tables) : Prop := mkIngestOk { ok_tables : tables_ok s; ok_named : named s }.
(** Every event of [s] is in [s'], later. *)
Definition remembers (s s' : Tables) : Prop := ∀ e, e ∈ events s → ∃ e', e' ∈ events s' ∧ later e e'.
#[local] Instance remembers_refl : Reflexive remembers.
Proof. intros s e He. by exists e. Qed.
#[local] Instance remembers_trans : Transitive remembers.
Proof.
  intros s1 s2 s3 H1 H2 e (e2 & (e3 & He3 & Hl3)%H2 & Hl2)%H1. exists e3. split; [done|by transitivity e2].
Qed.

Lemma exec_ingest {X} (o : op X) s r s' : issued o → ingest_ok s → exec o s r s' → ingest_ok s' ∧ remembers s s'.
Proof.
  intros Hi [Hok Hn] Hex. destruct (exec_ok_grows json_error sha256 o s r s' Hok Hex) as [Hok' Hg]. split.
  - split; [done|]. destruct Hg as (f & fresh & Hev & Hl & Hf). intros e. rewrite Hev, elem_of_app, list_elem_of_fmap.
    intros [(e0 & -> & He0)|He]; [rewrite (later_id _ _ (Hl e0 He0)); by apply Hn|].
    destruct (Hf e He) as (_ & _ & Hnew). destruct o; cbn in Hnew; try (by apply not_elem_of_nil in Hnew).
    apply list_elem_of_singleton in Hnew. by rewrite Hnew.
  - intros e He. by eapply grows_event.
Qed.
Abbreviation stable := (TriggerProg.stable remembers).
Lemma ingest_keeps X (o : op X) s r s' : issued o → ingest_ok s → exec o s r s' → ingest_ok s' ∧ remembers s s'.
Proof. apply exec_ingest. Qed.
Lemma ingest_history s : history s → ingest_ok s.
Proof.
  intros [now Hs]. eapply (evolves_keeps _ _ _ remembers ingest_keeps); [exact Hs|]. split; [apply ok_empty|]. intros e He. by apply not_elem_of_nil in He.
Qed.

(** ** A logic of handlers *)

Definition acknowledges (r : opResult) : bool := (rs_status r =? 200)%Z || (rs_status r =? 202)%Z.
Definition run_of (r : opResult) : option string :=
  match rs_data r with AObj m => as_string (obj_at m "runId") | _ => None end.

Section handlers.
Context (orgID key : string).

Definition delivered (id : string) (s : Tables) : Prop :=
  ∃ e, e ∈ events s ∧ te_ID e = id ∧ te_OrgID e = orgID ∧ te_DedupeKey e = Some key.
(** The delivery has an event that is no longer merely received; a run that was reported is
    the event's. *)
Definition settled (run : option string) (s : Tables) : Prop :=
  ∃ e, e ∈ events s ∧ te_OrgID e = orgID ∧ te_DedupeKey e = Some key ∧ received e = false ∧
    ∀ r, run = Some r → te_RunID e = Some r.

Lemma later_received e e' : later e e' → received e = false → received e' = false.
Proof.
  intros Hl Hr. destruct (later_status _ _ Hl) as [?|[Hs|[_ Hs]]]; [congruence| |]; unfold received in *; by rewrite Hs.
Qed.
Lemma delivered_stable id : stable (delivered id).
Proof.
  intros s s' Hm (e & He & Hid & Ho & Hk). destruct (Hm e He) as (e' & He' & [? ? ? _ _ _]). exists e'. split_and!; congruence.
Qed.
Lemma settled_stable run : stable (settled run).
Proof.
  intros s s' Hm (e & He & Ho & Hk & Hr & Hrun). destruct (Hm e He) as (e' & He' & Hl). exists e'.
  split_and!; [done|by rewrite (later_org _ _ Hl)|by rewrite (later_key _ _ Hl)|by eapply later_received|].
  intros r ->. by apply (later_run _ _ Hl), Hrun.
Qed.

(** From states of [P], an acknowledgement is of a settled delivery. *)
Definition acknowledged (a : option opResult) (s : Tables) : Prop :=
  ∀ r, a = Some r → acknowledges r = true → settled (run_of r) s.
Definition fair (P : Tables → Prop) (p : handler) : Prop := holds json_error sha256 ingest_ok P p acknowledged.

Lemma fair_answer P r : (acknowledges r = true → ∀ s, P s → settled (run_of r) s) → fair P (answer r).
Proof. intros Hr. apply holds_ret. intros s _ HP r' [= <-] Ha. by apply Hr. Qed.
Lemma fair_error P r : acknowledges r = false → fair P (answer r).
Proof. intros Hr. apply fair_answer. by rewrite Hr. Qed.
Lemma fair_fails P : fair P fails.
Proof. by apply fair_error. Qed.
Lemma fair_panics P : fair P panics.
Proof. apply holds_ret. by intros s _ _ r [=]. Qed.
Lemma fair_weaken (P Q : Tables → Prop) p : (∀ s, ingest_ok s → Q s → P s) → fair P p → fair Q p.
Proof. apply holds_weaken. Qed.
Lemma fair_do {X} (P : Tables → Prop) (Q : X → Tables → Prop) (o : op X) (k : res fault X → handler) : stable P → issued o →
  (∀ x s s', ingest_ok s → P s → returns o s x s' → Q x s') →
  (∀ x, fair (λ s, P s ∧ Q x s) (k (Ok x))) → (∀ f, fair P (k (Err f))) → fair P (Do o k).
Proof. apply (holds_do _ _ _ remembers ingest_keeps). Qed.
Lemma fair_read {X} P (o : op X) (k : res fault X → handler) : stable P → issued o →
  (∀ x, fair P (k x)) → fair P (Do o k).
Proof. apply (holds_read _ _ _ remembers ingest_keeps). Qed.
End handlers.

(** ** The pipeline *)

Section pipeline.
Context (i : triggerIngestRequest).
Abbreviation delivered := (delivered (ti_OrgID i) (ti_DedupeKey i)).
Abbreviation settled := (settled (ti_OrgID i) (ti_DedupeKey i)).
Abbreviation fair := (fair (ti_OrgID i) (ti_DedupeKey i)).
Definition done_event (id : string) (s : Tables) : Prop :=
  ∃ e, e ∈ events s ∧ te_ID e = id ∧ te_OrgID e = ti_OrgID i ∧ te_DedupeKey e = Some (ti_DedupeKey i) ∧ received e = false.

Lemma done_stable id : stable (done_event id).
Proof.
  intros s s' Hm (e & He & Hid & Ho & Hk & Hr). destruct (Hm e He) as (e' & He' & Hl). exists e'.
  split_and!; [done|by rewrite (later_id _ _ Hl)|by rewrite (later_org _ _ Hl)|by rewrite (later_key _ _ Hl)|by eapply later_received].
Qed.
Lemma found_dedupe s e : FindTriggerEventByDedupe (ti_OrgID i) (ti_DedupeKey i) s = Some e →
  e ∈ events s ∧ te_OrgID e = ti_OrgID i ∧ te_DedupeKey e = Some (ti_DedupeKey i).
Proof.
  unfold FindTriggerEventByDedupe. destruct (filter _ _) as [|e' l] eqn:E; [done|]. intros [= ->].
  assert (e ∈ filter (λ e, te_OrgID e = ti_OrgID i ∧ te_DedupeKey e = Some (ti_DedupeKey i)) (events s)) as
    [[? ?] ?]%list_elem_of_filter by (rewrite E; by left). done.
Qed.
Lemma run_of_duplicate e : run_of (duplicateResult e) = te_RunID e.
Proof. destruct e as [? ? ? ? ? ? ? [] ? ? ? ? ? ? ? ?]; reflexivity. Qed.
Lemma duplicate_fair e : fair (settled (te_RunID e)) (answer (duplicateResult e)).
Proof. apply fair_answer. by rewrite run_of_duplicate. Qed.

Lemma reread_fair id : fair (done_event id) (reread_duplicate i id).
Proof.
  apply (fair_do _ _ _ (λ x s, ∀ e, x = Some e → settled (te_RunID e) s)); [apply done_stable|done| | |by intros; apply fair_fails].
  - intros x s s' [Hok _] (e & He & Hid & Ho & Hk & Hr) [-> ->] e' Hget. apply find_event in Hget as (He' & Hid' & _).
    assert (e' = e) as -> by (apply (same_event s); congruence). exists e. by split_and!.
  - intros [e|]; [|apply fair_fails]. eapply fair_weaken; [|apply duplicate_fair]. intros s _ [_ Hs]. by apply Hs.
Qed.

Lemma started_settled a runID s x s' : ingest_ok s → delivered (ac_EventID a) s → (x, s') = StartRun (start_of i a) runID s →
  match x with
  | Ok r => settled (Some r) s'
  | Err TriggerConflict => done_event (ac_EventID a) s'
  | Err _ => True
  end.
Proof.
  intros [Hok Hn] (e & He & Hid & Ho & Hk). set (si := start_of i a). assert (TriggerEventID si = te_ID e) as Hsi by by rewrite Hid.
  assert (si_OrgID si = ti_OrgID i ∧ IdempotencyKey si = "") as [Hso Hik] by done. clearbody si.
  unfold StartRun. destruct (start_input si) as [[|]|]; [|by intros [= -> ->]..].
  destruct (bool_decide _); [by intros [= -> ->]|]. rewrite Hik, Hsi. cbn [eqs String.eqb].
  assert (eqs (te_ID e) "" = false) as -> by (apply String.eqb_neq; by apply Hn).
  destruct (existsb (claimable (si_OrgID si) (te_ID e)) (events s)) eqn:Ex; intros [= -> ->].
  - destruct (insert_run_fields si runID s) as (Hev & _). unfold ClaimTriggerEventStart, update_events.
    exists (with_run runID e). assert (∀ l s2, events (set_events l s2) = l) as -> by by intros ? [].
    rewrite Hev. split_and!; [|by destruct e|by destruct e|by destruct e|by destruct e; intros ? [= ->]].
    apply list_elem_of_fmap. exists e. split; [|done]. apply existsb_elem in Ex as (e' & He' & Hc).
    assert (e' = e) as ->; [|by rewrite Hc]. unfold claimable, event_is, eqs in Hc. bool_split. by apply (same_event s).
  - rewrite existsb_false_elem in Ex. specialize (Ex e He). exists e. split_and!; try done.
    unfold claimable, event_is, eqs in Ex. rewrite Hso, Ho, !String.eqb_refl in Ex. cbn in Ex.
    destruct (received e) eqn:Hr; [|done]. unfold owed_a_run in Ex. rewrite (received_no_run s e Hok He Hr) in Ex.
    unfold received, eqs in Hr. apply String.eqb_eq in Hr. by rewrite Hr in Ex.
Qed.
Lemma start_fair a : fair (delivered (ac_EventID a)) (start_event i a).
Proof.
  apply (fair_do _ _ _ (λ x s, match x with
    | Ok r => settled (Some r) s | Err TriggerConflict => done_event (ac_EventID a) s | Err _ => True end));
    [apply delivered_stable|done| | |by intros; apply fair_fails].
  - intros x s s' Hok Hd [runID Hx]. by eapply started_settled.
  - intros [runID|[]]; try apply fair_fails; try apply fair_panics.
    + apply fair_read; [|done|].
      * apply stable_and; [apply delivered_stable|apply settled_stable].
      * intros x. apply fair_answer. by intros _ s [_ Hs].
    + eapply fair_weaken; [|apply reread_fair]. by intros s _ [_ Hs].
Qed.
Lemma marked_settled id outcome reason s : tables_ok s → delivered id s →
  settled None (MarkTriggerEventOutcome (ti_OrgID i) id outcome reason s).
Proof.
  intros Hok (e & He & Hid & Ho & Hk). set (p := event_is (ti_OrgID i) id e && received e).
  exists (if p then with_outcome (outcome_text outcome) reason e else e).
  unfold MarkTriggerEventOutcome, update_events. assert (∀ l s2, events (set_events l s2) = l) as -> by by intros ? [].
  split_and!; [by apply list_elem_of_fmap; exists e|by destruct p, e|by destruct p, e| |done].
  unfold p, event_is, eqs. rewrite Ho, Hid, !String.eqb_refl. cbn [andb]. destruct (received e) eqn:Hr; [|done].
  destruct e; by destruct outcome.
Qed.
Lemma buffer_fair status a : fair (delivered (ac_EventID a)) (buffer_or_start Validate i status a).
Proof.
  unfold buffer_or_start. destruct (negb (eqs status "") && negb (eqs status "active")).
  - apply (fair_do _ _ _ (λ _ s, settled None s)); [apply delivered_stable|done| | |by intros; apply fair_fails].
    + intros x s s' [Hok _] Hd ->. by apply marked_settled.
    + intros _. apply fair_read; [apply stable_and; [apply delivered_stable|apply settled_stable]|done|].
      intros x. apply fair_answer. by intros _ s [_ Hs].
  - destruct (Validate (ac_Workflow a)) as [result|]; [|apply fair_panics]. destruct (Validate.Valid result); [apply start_fair|].
    apply fair_read; [apply delivered_stable|done|]. intros x. by apply fair_error.
Qed.
Lemma guard_fair status a : fair (delivered (ac_EventID a)) (guard_and_start Validate i status a).
Proof.
  apply (fair_do _ _ _ (λ x s, match x with Settled _ => done_event (ac_EventID a) s | _ => True end));
    [apply delivered_stable|done| | |intros []; [apply buffer_fair|apply fair_fails]].
  - intros x s s' [Hok _] (e & He & Hid & Ho & Hk). cbn [TriggerProg.returns]. unfold EnforceTriggerEvent.
    destruct (GetTriggerEvent (ti_OrgID i) (ac_EventID a) s) as [e'|] eqn:Eg; [|by intros [= -> ->]].
    apply find_event in Eg as (He' & Hid' & _). assert (e' = e) as -> by (apply (same_event s); congruence).
    destruct (received e) eqn:Hr; cbn [negb]; [|intros [= -> ->]; exists e; by split_and!].
    destruct (bool_decide _); [by intros [= -> ->]|]. destruct (BumpRateWindow _ _ _ _ s) as [count s1].
    destruct (op_Max _ <? count)%Z; by intros [= -> ->].
  - intros [|retry|status']; cbn beta iota.
    + eapply fair_weaken; [|apply buffer_fair]. by intros s _ [? _].
    + apply fair_read; [apply stable_and; [apply delivered_stable|apply stable_true]|done|]. intros x. by apply fair_error.
    + eapply fair_weaken; [|apply reread_fair]. by intros s _ [_ ?].
Qed.

(** The answers to a caller that has no trigger acknowledge nothing. *)
Hypothesis silent_match : ∀ wf d, acknowledges d = false → acknowledges (ti_MatchNode i wf d).2 = false.
Hypothesis silent_missing : acknowledges (ti_NoMatch i) = false.
Hypothesis keyed : ti_DedupeKey i ≠ "".
(** What follows the acceptance of an event. *)
Definition after_acceptance (k : accepted → handler) : Prop := ∀ a, fair (delivered (ac_EventID a)) (k a).

Lemma adopt_fair e unset k : fair (delivered (te_ID e)) unset → after_acceptance k →
  fair (delivered (te_ID e)) (adoptExisting Parse i e unset k).
Proof.
  intros Hunset Hk. unfold adoptExisting. destruct (_ || _); [by apply fair_error|].
  apply fair_read; [apply delivered_stable|done|]. intros [[v|]|]; try apply fair_fails.
  destruct (negb _); [apply fair_fails|]. destruct (Parse (DagJson v)).1 as [wf|]; [|apply fair_fails].
  pose proof (silent_match wf (opError 409 "trigger_no_matching_node"
                "Persisted workflow version no longer contains the trigger node") eq_refl) as Hs.
  destruct (ti_MatchNode i wf _) as [nodeID result]. destruct (_ || _).
  - destruct (rs_status result =? 0)%Z; [done|by apply fair_error].
  - destruct (raw ← _; _) as [payload|]; [apply (Hk (mkAccepted _ _ _ _ _ _ _))|apply fair_fails].
Qed.
Lemma found_fair missing unset k : fair (λ _, True) missing → (∀ e, fair (delivered (te_ID e)) (unset e)) → after_acceptance k →
  fair (λ _, True)
    (do! existing := FindByDedupe (ti_OrgID i) (ti_DedupeKey i) or fails in
     match existing with
     | None => missing
     | Some e => if negb (eqs (te_Status e) "received") then answer (duplicateResult e) else adoptExisting Parse i e (unset e) k
     end).
Proof.
  intros Hmissing Hunset Hk.
  apply (fair_do _ _ _ (λ x s, ∀ e, x = Some e → if received e then delivered (te_ID e) s else settled (te_RunID e) s));
    [apply stable_true|done| | |by intros; apply fair_fails].
  - intros x s s' _ _ [-> ->] e He. destruct (found_dedupe s e He) as (Hin & Ho & Hkey).
    destruct (received e) eqn:Hr; exists e; by split_and!.
  - intros [e|]; [|eapply fair_weaken; [|exact Hmissing]; done]. fold (received e). destruct (received e) eqn:Hr; cbn [negb].
    + eapply (fair_weaken _ _ (delivered (te_ID e))); [intros s _ [_ Hd]; specialize (Hd e eq_refl); by rewrite Hr in Hd|].
      by apply adopt_fair.
    + eapply fair_weaken; [|apply duplicate_fair]. intros s _ [_ Hd]. specialize (Hd e eq_refl). by rewrite Hr in Hd.
Qed.
Lemma persist_fair a k : ac_EventID a ≠ "" → after_acceptance k → fair (λ _, True) (persist_event Parse i a k).
Proof.
  intros Hid Hk. unfold persist_event. destruct (Marshal _) as [payload|]; [|apply fair_fails].
  apply (fair_do _ _ _ (λ created s, created = true → delivered (ac_EventID a) s)); [apply stable_true|done| | |by intros; apply fair_fails].
  - intros created s s' _ _ Hx ->. cbn [TriggerProg.returns] in Hx. unfold InsertTriggerEvent in Hx.
    destruct (existsb _ _); [done|]. injection Hx as ->. exists (inserted (clock s) (new_event i a payload)). split_and!; [|done|done|].
    + destruct s; cbn. apply elem_of_app. right. by left.
    + cbn. unfold text. apply String.eqb_neq in keyed. unfold eqs. by rewrite keyed.
  - intros [].
    + eapply fair_weaken; [by intros s _ [_ Hd]; exact (Hd eq_refl)|]. apply fair_read; [apply delivered_stable|done|]. intros x. apply Hk.
    + assert (eqs (ti_DedupeKey i) "" = false) as -> by (by apply String.eqb_neq).
      eapply (fair_weaken _ _ (λ _, True)); [done|]. apply (found_fair fails (λ e, k (with_event_id (te_ID e) a))); [apply fair_fails| |done].
      intros e. specialize (Hk (with_event_id (te_ID e) a)). by destruct a.
Qed.
Lemma first_fair id k : id ≠ "" → after_acceptance k → fair (λ _, True) (first_delivery Parse i id k).
Proof.
  intros Hid Hk. unfold first_delivery. apply fair_read; [apply stable_true|done|]. intros [[v|]|]; try apply fair_fails.
  2: { apply fair_error. exact silent_missing. }
  destruct (Parse (DagJson v)).1 as [wf|]; [|by apply fair_error]. pose proof (silent_match wf (ti_NoMatch i) silent_missing) as Hs.
  destruct (ti_MatchNode i wf (ti_NoMatch i)) as [nodeID result]. destruct (eqs nodeID ""); [by apply fair_error|].
  apply fair_read; [apply stable_true|done|]. intros [[[ra|]|]|]; try apply fair_fails; [|by apply persist_fair].
  pose proof (silent_match (ra_Workflow ra) (opError 409 "trigger_no_matching_node"
                  "Assigned workflow version no longer contains the trigger node") eq_refl) as Hs'.
  destruct (ti_MatchNode i (ra_Workflow ra) _) as [exact exactResult]. destruct (_ || _); [by apply fair_error|by apply persist_fair].
Qed.
Lemma core_fair : fair (λ _, True) (ingestTriggerEventCore Parse Validate i).
Proof.
  unfold ingestTriggerEventCore. apply fair_read; [apply stable_true|done|]. intros [[[[orgID status] deleted]|]|]; try apply fair_fails.
  2: { apply fair_error. exact silent_missing. }
  destruct (_ || _); [by apply fair_error|].
  assert (eqs (ti_DedupeKey i) "" = false) as -> by (by apply String.eqb_neq).
  assert (∀ id, id ≠ "" → fair (λ _, True) (
            do! existing := FindByDedupe (ti_OrgID i) (ti_DedupeKey i) or fails in
            match existing with
            | None => first_delivery Parse i id (guard_and_start Validate i status)
            | Some e =>
                if negb (eqs (te_Status e) "received") then answer (duplicateResult e)
                else adoptExisting Parse i e panics (guard_and_start Validate i status)
            end)) as Hmain.
  { intros id Hid. apply (found_fair _ (λ _, panics)); [apply first_fair; [done|]|intros; apply fair_panics|]; intros a; apply guard_fair. }
  unfold with_id. destruct (eqs (ti_EventID i) "") eqn:Eid; [|apply Hmain; by apply String.eqb_neq in Eid].
  by apply holds_fresh.
Qed.
End pipeline.

(** ** Webhooks *)

Context (lower : string → string) (fold : string → string → bool).

Lemma webhook_silent endpointKey wf d : acknowledges d = false → acknowledges (matchWebhookNode fold wf endpointKey d).2 = false.
Proof. intros Hd. unfold matchWebhookNode. by destruct (filter _ _) as [|? [|? ?]]. Qed.
Lemma webhook_invalid b : acknowledges (validateWebhookIngestBody b) = false.
Proof. unfold validateWebhookIngestBody. by repeat case_match. Qed.

(** The key under which the deliveries of a webhook are one event. *)
Definition webhook_key (b : webhookIngestBody) : string :=
  "webhook:" +:+ ToLower lower (TrimSpace (wb_EndpointKey b)) +:+ ":" +:+ TrimSpace (wb_EventID b).

(** C7: In every history, whatever other processes do meanwhile,
    whichever operations fail and whichever commits are lost: when the webhook route
    answers 200 or 202, the event of the delivery is stored and no longer merely received,
    so it was started, buffered, skipped or failed and no retry by the sender is needed;
    a run that the answer reports is the event's run. It stays so for good. *)
Theorem acknowledged_webhook_settled (rc : caller) (workflowID : string) (b : webhookIngestBody) (s s' later_s : Tables) (r : opResult) :
  history s → finishes (webhookIngestBodyCore lower fold Parse Validate rc workflowID b) s (Some r) s' →
  rs_status r = 200%Z ∨ rs_status r = 202%Z → evolves s' later_s →
  ∃ e, e ∈ events later_s ∧ te_OrgID e = rc_OrgID rc ∧ te_DedupeKey e = Some (webhook_key b) ∧ te_Status e ≠ "received" ∧
    ∀ runID, run_of r = Some runID → te_RunID e = Some runID.
Proof.
  intros Hh%ingest_history Hf Hr Hlater. assert (acknowledges r = true) as Ha.
  { unfold acknowledges. destruct Hr as [-> | ->]; reflexivity. }
  set (i := webhook_request lower fold rc workflowID b).
  assert (fair (ti_OrgID i) (ti_DedupeKey i) (λ _, True) (webhookIngestBodyCore lower fold Parse Validate rc workflowID b)) as Hfair.
  { unfold webhookIngestBodyCore. destruct (negb _); [apply fair_error, webhook_invalid|].
    apply core_fair; [intros wf d; apply webhook_silent|done|done]. }
  destruct (Hfair s (Some r) s' Hh I Hf) as [Hok Hs]. specialize (Hs r eq_refl Ha). destruct (evolves_keeps _ _ _ remembers ingest_keeps s' later_s Hlater Hok) as [_ Hm].
  destruct (settled_stable _ _ _ s' later_s Hm Hs) as (e & He & Ho & Hk & Hrec & Hrun). exists e. split_and!; try done.
  unfold received in Hrec. by apply String.eqb_neq in Hrec.
Qed.
End facts.

(** ** A concrete redelivery *)

#[local] Existing Instance TriggerFacts.tables.
Definition demo_caller : caller := mkCaller "org" "user" ("org", "key") "2026-01-01T00:00:00Z".
Definition demo_body : webhookIngestBody := mkWebhookBody "orders" "42" "" [] "".
Definition demo_accepted : Tables :=
  (StartRun demo_start "r1" (InsertTriggerEvent (demo_delivery "e1" "webhook:orders:42") demo_saved).2).2.
Definition no_parse : string → option Workflow * list Issue := λ _, (None, []).
Definition no_validate : Workflow → option Validate.ValidationResult := λ _, None.

Lemma demo_accepted_history : history id no_digest demo_accepted.
Proof.
  eapply (history_op _ _ (Start demo_start) (InsertTriggerEvent (demo_delivery "e1" "webhook:orders:42") demo_saved).2 (Ok "r1"));
    [done| |exists "r1"; vm_compute; reflexivity].
  eapply (history_op _ _ (InsertEvent (demo_delivery "e1" "webhook:orders:42")) demo_saved true); [done| |vm_compute; reflexivity].
  eapply (history_op _ _ RolloutTransaction (empty_tables 0) tt); [done|apply history_empty|].
  exists (saveWorkflowVersionAttempt "org" "wf" "Orders" "v1" "{}" empty_store).2. split; [apply step_save|done].
Qed.

Lemma acknowledged_webhook_settled_witness :
  let r := duplicateResult (with_run "r1" (inserted 0 (demo_delivery "e1" "webhook:orders:42"))) in
  rs_status r = 200%Z ∧
  ∃ e, e ∈ events demo_accepted ∧ te_OrgID e = "org" ∧ te_DedupeKey e = Some "webhook:orders:42" ∧ te_Status e ≠ "received" ∧
    ∀ runID, run_of r = Some runID → te_RunID e = Some runID.
Proof.
  intros r. split; [reflexivity|].
  refine (acknowledged_webhook_settled id no_digest no_parse no_validate id eqs demo_caller "wf" demo_body demo_accepted demo_accepted demo_accepted r
    demo_accepted_history _ (or_introl eq_refl) (rtc_refl _ _)).
  unfold webhookIngestBodyCore. vm_compute validateWebhookIngestBody. cbn -[GetWorkflowIngestState FindTriggerEventByDedupe demo_accepted].
  exists demo_accepted, (Ok (GetWorkflowIngestState "wf" demo_accepted)), demo_accepted.
  split; [constructor|]. split; [by constructor|]. vm_compute GetWorkflowIngestState. cbn -[FindTriggerEventByDedupe demo_accepted].
  exists "e9". split; [done|].
  exists demo_accepted, (Ok (FindTriggerEventByDedupe "org" "webhook:orders:42" demo_accepted)), demo_accepted.
  split; [constructor|]. split; [by constructor|]. vm_compute FindTriggerEventByDedupe. done.
Defined.
