(* ===== verification/ScheduleFacts.v ===== *)
(** The scheduler under every process at once: a tick starts at most one run, and no crash or
    fault loses a tick. *)
From S2P Require Import Prelude GoStrings GoFloat GoAny GoInt Json Regex Calendar Cron Graph Inputs RecoveryContract NodeConfig HttpConfig Waiting RecoveryDag Validate WorkflowParse Rollout Trigger TriggerProg Schedule TriggerFacts WaitingFacts.
Local Open Scope string_scope.
Local Open Scope list_scope.

(** ** Idempotency keys *)

Record keys_ok (s : Tables) : Prop := mkKeysOk
  { ok_base : tables_ok s;
    ok_claimed : ∀ o k r, run_keys s !! (o, k) = Some r → ∃ i, starts s !! r = Some i ∧ si_OrgID i = o ∧ IdempotencyKey i = k;
    ok_keyed : ∀ r i, starts s !! r = Some i → IdempotencyKey i ≠ "" → run_keys s !! (si_OrgID i, IdempotencyKey i) = Some r }.
(** Runs and their keys stay. *)
Definition keeps_starts (s s' : Tables) : Prop := starts s ⊆ starts s' ∧ run_keys s ⊆ run_keys s'.
#[export] Instance keeps_starts_refl : Reflexive keeps_starts.
Proof. by intros s. Qed.
#[export] Instance keeps_starts_trans : Transitive keeps_starts.
Proof. intros s1 s2 s3 [? ?] [? ?]. split; by etransitivity. Qed.

Lemma insert_keys i runID s : run_keys (insert_run i runID s) =
  if eqs (IdempotencyKey i) "" then run_keys s else <[(si_OrgID i, IdempotencyKey i) := runID]> (run_keys s).
Proof. by destruct s as [b ? ? ? ? ? ? ?]; destruct b. Qed.

Section facts.
Context `{UnicodeTables} (json_error : string → string) (sha256 : string → list ascii).
Abbreviation returns := (returns json_error sha256).
Abbreviation exec := (exec json_error sha256).
Abbreviation evolves := (evolves json_error sha256).
Abbreviation finishes := (finishes json_error sha256).
Abbreviation history := (history json_error sha256).

(** The start of a run, as far as the keys go. *)
Lemma start_keys i runID s x s' : tables_ok s → (x, s') = StartRun i runID s →
  (s' = s ∧ (∀ r, x = Err (IdempotencyReplay r) → run_keys s !! (si_OrgID i, IdempotencyKey i) = Some r) ∧ ∀ r, x ≠ Ok r) ∨
  (x = Ok runID ∧ starts s !! runID = None ∧ starts s' = <[runID := i]> (starts s) ∧
   (IdempotencyKey i ≠ "" → run_keys s !! (si_OrgID i, IdempotencyKey i) = None) ∧
   run_keys s' = if eqs (IdempotencyKey i) "" then run_keys s else <[(si_OrgID i, IdempotencyKey i) := runID]> (run_keys s)).
Proof.
  intros Hok. unfold StartRun. destruct (start_input i) as [[|]|]; [|by intros [= -> ->]; left..].
  destruct (bool_decide _) eqn:Htaken; [by intros [= -> ->]; left|]. apply bool_decide_eq_false_1, eq_None_not_Some in Htaken.
  assert (starts s !! runID = None) as Hfree.
  { destruct (starts s !! runID) as [j|] eqn:E; [|done]. destruct (ok_starts _ Hok runID j E) as [[? ?] _]. congruence. }
  destruct (if eqs (IdempotencyKey i) "" then None else _) as [original|] eqn:Ekey.
  { intros [= -> ->]. left. split_and!; [done| |done]. intros r [= ->]. by destruct (eqs (IdempotencyKey i) ""). }
  assert (IdempotencyKey i ≠ "" → run_keys s !! (si_OrgID i, IdempotencyKey i) = None) as Hnone.
  { intros Hne. apply String.eqb_neq in Hne. unfold eqs in Ekey. by rewrite Hne in Ekey. }
  destruct (insert_run_fields i runID s) as (_ & Hst & _). pose proof (insert_keys i runID s) as Hkeys.
  destruct (eqs (TriggerEventID i) ""); [intros [= -> ->]; by right|].
  destruct (existsb _ _); intros [= -> ->]; [|by left]. right. split_and!; [done|done| |done|].
  - rewrite <-Hst. by destruct (insert_run i runID s).
  - rewrite <-Hkeys. by destruct (insert_run i runID s).
Qed.

(** Every operation but a start leaves the runs and the keys alone. *)
Definition is_start {X} (o : op X) : bool := match o with Start _ => true | _ => false end.
Lemma set_events_keys l s : starts (set_events l s) = starts s ∧ run_keys (set_events l s) = run_keys s.
Proof. by destruct s. Qed.
Lemma bump_keys name key start expires s : starts (BumpRateWindow name key start expires s).2 = starts s ∧
  run_keys (BumpRateWindow name key start expires s).2 = run_keys s.
Proof. unfold BumpRateWindow. by destruct (windows s !! (name, key, start)) as [[c x]|]; destruct s. Qed.
Lemma enforce_event_keys key orgID eventID opts s : starts (EnforceTriggerEvent key orgID eventID opts s).2 = starts s ∧
  run_keys (EnforceTriggerEvent key orgID eventID opts s).2 = run_keys s.
Proof.
  unfold EnforceTriggerEvent. destruct (GetTriggerEvent orgID eventID s); [|done]. destruct (negb _); [done|].
  destruct (bool_decide _); [done|]. pose proof (bump_keys (op_Name opts) key (Truncate (clock s) (op_Window opts))
    (Truncate (clock s) (op_Window opts) + op_Window opts) s) as Hb. destruct (BumpRateWindow _ _ _ _ s) as [count s1]. cbn in Hb.
  unfold MarkTriggerEventRateLimited, MarkTriggerEventRateAdmitted, update_events.
  destruct (op_Max opts <? count)%Z; cbn [snd]; destruct Hb as [<- <-]; apply set_events_keys.
Qed.
Lemma announced_keys flip a s : starts (flip s).2 = starts s → run_keys (flip s).2 = run_keys s →
  starts (announced flip a s).2 = starts s ∧ run_keys (announced flip a s).2 = run_keys s.
Proof. unfold announced. destruct (flip s) as [[] s1]; cbn [snd]; [|done]. by destruct s1. Qed.
Lemma set_status_keys orgID id before after reason s :
  starts (set_status orgID id before after reason s).2 = starts s ∧ run_keys (set_status orgID id before after reason s).2 = run_keys s.
Proof. unfold set_status. destruct (existsb _ _); [|done]. by destruct s. Qed.

Lemma returns_keys {X} (o : op X) s x s' : returns o s x s' → is_start o = false →
  starts s' = starts s ∧ run_keys s' = run_keys s.
Proof.
  destruct (on_schedules o) eqn:Eon.
  { intros Hret _. destruct (on_schedules_keeps json_error sha256 o s x s' Eon Hret) as [l ->]. by destruct s. }
  destruct o; cbn [TriggerProg.returns is_start]; try discriminate Eon; try done; try (by intros [-> _]); try (intros -> _; by destruct s).
  - intros Hx%(f_equal snd) _. cbn in Hx. subst. unfold InsertTriggerEvent. destruct (existsb _ _); [done|]. apply set_events_keys.
  - intros Hx%(f_equal snd) _. cbn in Hx. subst. apply enforce_event_keys.
  - intros Hx%(f_equal snd) _. cbn in Hx. subst. apply announced_keys; apply set_status_keys.
  - intros Hx%(f_equal snd) _. cbn in Hx. subst. apply announced_keys; apply set_status_keys.
  - intros (locked & page & Hp%(f_equal snd) & _) _. cbn in Hp. subst. apply set_events_keys.
  - intros Hx%(f_equal snd) _. cbn in Hx. subst. unfold Enforce.
    pose proof (bump_keys (op_Name opts) key (Truncate (clock s) (op_Window opts)) (Truncate (clock s) (op_Window opts) + op_Window opts) s).
    by destruct (BumpRateWindow _ _ _ _ s).
  - intros (b & _ & ->) _. by destruct s.
  - intros (row & _ & ->) _. by destruct s.
  - intros (now & _ & ->) _. by destruct s.
Qed.

Lemma keys_keeps X (o : op X) s r s' : issued o → keys_ok s → exec o s r s' → keys_ok s' ∧ keeps_starts s s'.
Proof.
  intros _ [Hb Hc Hk] Hex. destruct (exec_ok_grows json_error sha256 o s r s' Hb Hex) as [Hb' _].
  assert (keys_ok s' ∧ keeps_starts s s' ∨ ∃ x, returns o s x s') as [?|[x Hret]]; [|done|].
  { inversion Hex; subst; eauto; left; (split; [by split|done]). }
  destruct (is_start o) eqn:Es.
  2: { destruct (returns_keys o s x s' Hret Es) as [Hst Hrk]. split; [split; [done|..]|split]; rewrite ?Hst, ?Hrk; done. }
  destruct o; try discriminate Es. destruct Hret as [runID Hx].
  destruct (start_keys i runID s x s' Hb Hx) as [(-> & _)|(_ & Hfree & Hst & Hnone & Hrk)]; [by split|].
  assert (∀ o k r, run_keys s !! (o, k) = Some r → r ≠ runID) as Hold.
  { intros o k r0 (j & Hj & _)%Hc ->. congruence. }
  destruct (eqs (IdempotencyKey i) "") eqn:Ek.
  - apply String.eqb_eq in Ek. split; [split; [done|..]|split]; rewrite ?Hst, ?Hrk; [| |by apply insert_subseteq|done].
    + intros o k r0 Hr0. destruct (Hc o k r0 Hr0) as (j & Hj & ?). exists j. rewrite lookup_insert_ne; [done|].
      intros <-. by apply (Hold o k runID).
    + intros r0 j. destruct (decide (r0 = runID)) as [->|]; [rewrite lookup_insert_eq; intros [= <-]; by rewrite Ek|].
      rewrite lookup_insert_ne by done. apply Hk.
  - apply String.eqb_neq in Ek. specialize (Hnone Ek). split; [split; [done|..]|split]; rewrite ?Hst, ?Hrk; [| |by apply insert_subseteq..].
    + intros o k r0. destruct (decide ((o, k) = (si_OrgID i, IdempotencyKey i))) as [[= -> ->]|].
      * rewrite lookup_insert_eq. intros [= <-]. exists i. by rewrite lookup_insert_eq.
      * rewrite lookup_insert_ne by done. intros Hr0. destruct (Hc o k r0 Hr0) as (j & Hj & ?). exists j.
        rewrite lookup_insert_ne; [done|]. intros <-. by apply (Hold o k runID).
    + intros r0 j. destruct (decide (r0 = runID)) as [->|]; [rewrite lookup_insert_eq; intros [= <-] _; by rewrite lookup_insert_eq|].
      rewrite lookup_insert_ne by done. intros Hj Hne. rewrite lookup_insert_ne; [by apply Hk|].
      intros Heq. rewrite Heq in Hnone. rewrite (Hk r0 j Hj Hne) in Hnone. done.
Qed.
Lemma keys_history s : history s → keys_ok s.
Proof.
  intros [now Hs]. eapply (evolves_keeps _ _ _ keeps_starts keys_keeps); [exact Hs|]. split; [apply ok_empty|..]; cbn.
  - intros o k r. by rewrite lookup_empty.
  - intros r i. by rewrite lookup_empty.
Qed.

(** ** One tick *)

Section tick.
Context (Parse : string → option Workflow * list Issue).
Abbreviation stable := (TriggerProg.stable keeps_starts).
Abbreviation holds := (holds json_error sha256 keys_ok).

Definition key_run (org key : string) (run : option string) (s : Tables) : Prop := run_keys s !! (org, key) = run.
Definition key_taken (org key : string) (s : Tables) : Prop := is_Some (run_keys s !! (org, key)).
Lemma key_taken_stable org key : stable (key_taken org key).
Proof. intros s s' [_ Hk] [r Hr]. exists r. by eapply lookup_weaken. Qed.
(** The run of a tick is recorded, and it is a start of that tick. *)
Definition tick_started (e : ScheduleEntry) (now : instant) (s : Tables) : Prop :=
  ∃ r wf version rollout variant, let i := tick_start e (due_of now e) wf version rollout variant in
    starts s !! r = Some i ∧ run_keys s !! (se_OrgID e, tick_key (se_ID e) (due_of now e)) = Some r.
Lemma tick_started_stable e now : stable (tick_started e now).
Proof.
  intros s s' [Hs Hk] (r & wf & v & ro & va & Hr & Hkey). exists r, wf, v, ro, va.
  split; by eapply lookup_weaken.
Qed.

Definition quiet (P : Tables → Prop) (p : prog FireOutcome) : Prop := holds P p (λ o _, o ≠ Fired).
Lemma quiet_ret P o : o ≠ Fired → quiet P (Ret o).
Proof. intros Ho. by apply holds_ret. Qed.
Lemma quiet_read {X} P (o : op X) k : stable P → issued o → (∀ x, quiet P (k x)) → quiet P (Do o k).
Proof. apply (holds_read _ _ _ keeps_starts keys_keeps). Qed.
Lemma quiet_advance P e next now runID : stable P → quiet P (advance e next now runID (λ _, Ret NotFired)).
Proof. intros HP. apply quiet_read; [done|done|]. intros [x|f]; by apply quiet_ret. Qed.
Lemma quiet_drop P e next now target metadata : stable P → quiet P (drop e next now target metadata).
Proof.
  intros HP. apply quiet_read; [done|done|]. intros [[]|f]; [|by apply quiet_ret..].
  apply quiet_read; [done|done|]. intros x. by apply quiet_ret.
Qed.
Lemma quiet_forget P e : stable P → quiet P (forget e).
Proof. intros HP. apply quiet_read; [done|done|]. intros x. by apply quiet_ret. Qed.

(** What is said of the tick's start carries over to the whole handler. *)
Definition post (F : Tables → Prop) (o : FireOutcome) (s : Tables) : Prop := o = Fired → F s.
Lemma quiet_post P F p : quiet P p → holds P p (post F).
Proof. apply holds_post. intros o s Ho ->. done. Qed.
Lemma fire_version_holds P F e next now : stable P →
  (∀ wf version rollout variant, holds P (start_tick e next now (tick_start e (due_of now e) wf version rollout variant)) (post F)) →
  holds P (fire_version Parse e next now) (post F).
Proof.
  intros HP Hstart. apply (holds_read _ _ _ keeps_starts keys_keeps); [done|done|]. intros [[v|]|f];
    [|by apply quiet_post, quiet_forget|by apply quiet_post, quiet_ret].
  destruct (Parse (DagJson v)).1 as [wf|]; [|by apply quiet_post, quiet_drop].
  destruct (negb _); [by apply quiet_post, quiet_forget|].
  apply (holds_read _ _ _ keeps_starts keys_keeps); [done|done|]. intros [[[a|]|u]|f];
    [|by apply Hstart|by apply quiet_post, quiet_drop|by apply quiet_post, quiet_ret].
  destruct (negb _); [by apply quiet_post, quiet_drop|by apply Hstart].
Qed.
Lemma fire_holds P F e now : stable P →
  (∀ next, holds P (fire_due Parse e next now) (post F)) → holds P (fireScheduleEntry Parse e now) (post F).
Proof.
  intros HP Hdue. unfold fireScheduleEntry. destruct (Cron.Parse (se_CronExpression e)) as [[schedule|err]|];
    [| |by apply quiet_post, quiet_ret].
  - destruct (Next schedule now) as [[next|err]|]; [apply Hdue| |by apply quiet_post, quiet_ret].
    apply quiet_post, quiet_read; [done|done|]. intros x. by apply quiet_ret.
  - apply quiet_post, quiet_read; [done|done|]. intros x. apply quiet_read; [done|done|]. intros y. by apply quiet_ret.
Qed.

(** A tick that fires has its run. *)
Lemma start_tick_started e next now wf version rollout variant :
  holds (λ _, True) (start_tick e next now (tick_start e (due_of now e) wf version rollout variant)) (post (tick_started e now)).
Proof.
  apply (holds_do _ _ _ keeps_starts keys_keeps (λ x s, ∀ r, x = Ok r → tick_started e now s)); [apply stable_true|done| | |].
  - intros x s s' [Hb _ _] _ [runID Hx] r ->. destruct (start_keys _ runID s _ s' Hb Hx) as [(_ & _ & Hno)|(_ & _ & Hst & _ & Hrk)].
    { by destruct (Hno r). }
    exists runID, wf, version, rollout, variant. rewrite Hst, Hrk. split; [by rewrite lookup_insert_eq|].
    assert (eqs (IdempotencyKey (tick_start e (due_of now e) wf version rollout variant)) "" = false) as -> by done.
    by rewrite lookup_insert_eq.
  - intros [runID|err].
    + apply (holds_weaken _ _ _ (tick_started e now)); [intros s _ [_ Hs]; by eapply Hs|].
      apply (holds_read _ _ _ keeps_starts keys_keeps); [apply tick_started_stable|done|].
      intros x. destruct x; apply holds_ret; [by intros s _ Hs _|by intros s _ _ [=]].
    + apply (holds_weaken _ _ _ (λ _, True)); [done|]. destruct err; try (by apply quiet_post, quiet_ret);
        [apply quiet_post, quiet_drop, stable_true|apply quiet_post, quiet_advance, stable_true].
  - intros f. by apply quiet_post, quiet_ret.
Qed.
Lemma fire_started e now : holds (λ _, True) (fireScheduleEntry Parse e now) (post (tick_started e now)).
Proof.
  apply fire_holds; [apply stable_true|]. intros next. unfold fire_due.
  apply (holds_read _ _ _ keeps_starts keys_keeps); [apply stable_true|done|].
  intros [[[[orgID status] deleted]|]|f]; [|apply quiet_post, quiet_forget, stable_true|by apply quiet_post, quiet_ret].
  destruct (_ || _); [apply quiet_post, quiet_forget, stable_true|].
  apply (holds_read _ _ _ keeps_starts keys_keeps); [apply stable_true|done|].
  intros [[r|]|f]; [apply quiet_post, quiet_advance, stable_true| |by apply quiet_post, quiet_ret].
  destruct (_ && _); [apply quiet_post, quiet_drop, stable_true|].
  apply fire_version_holds; [apply stable_true|]. intros. apply start_tick_started.
Qed.
(** A tick whose key is taken does not fire. *)
Lemma fire_again e now : quiet (key_taken (se_OrgID e) (tick_key (se_ID e) (due_of now e))) (fireScheduleEntry Parse e now).
Proof.
  set (P := key_taken _ _). assert (stable P) as HP by apply key_taken_stable.
  eapply (holds_post _ _ _ _ _ (post (λ _, False))); [by intros o s Ho ->; apply Ho|].
  apply fire_holds; [done|]. intros next. unfold fire_due.
  apply (holds_read _ _ _ keeps_starts keys_keeps); [done|done|].
  intros [[[[orgID status] deleted]|]|f]; [|by apply quiet_post, quiet_forget|by apply quiet_post, quiet_ret].
  destruct (_ || _); [by apply quiet_post, quiet_forget|].
  apply (holds_do _ _ _ keeps_starts keys_keeps (λ x _, is_Some x)); [done|done|by intros x s s' _ Hp [-> ->]| |intros f; by apply quiet_post, quiet_ret].
  intros [r|]; [|by intros s a s' _ [_ [? [=]]]]. apply (holds_weaken _ _ _ P); [by intros s _ [? _]|]. by apply quiet_post, quiet_advance.
Qed.

Lemma advance_issues e next now runID k : (∀ b, issues (k b)) → issues (advance e next now runID k).
Proof. intros Hk. split; [done|]. intros [b|f]; [apply Hk|done]. Qed.
Lemma drop_issues e next now target metadata : issues (drop e next now target metadata).
Proof. apply advance_issues. intros []; by repeat split. Qed.
Lemma start_tick_issues e next now start : issues (start_tick e next now start).
Proof.
  split; [done|]. intros [[r|err]|f]; [by apply advance_issues| |done].
  destruct err; try done; [apply drop_issues|by apply advance_issues].
Qed.
Lemma fire_issues e now : issues (fireScheduleEntry Parse e now).
Proof.
  unfold fireScheduleEntry. destruct (Cron.Parse (se_CronExpression e)) as [[schedule|err]|]; [|by repeat split|done].
  destruct (Next schedule now) as [[next|err]|]; [|by repeat split|done].
  split; [done|]. intros [[[[orgID status] deleted]|]|f]; [|by repeat split|done]. destruct (_ || _); [by repeat split|].
  split; [done|]. intros [[r|]|f]; [by apply advance_issues| |done]. destruct (_ && _); [apply drop_issues|].
  split; [done|]. intros [[v|]|f]; [|by repeat split|done]. destruct (Parse (DagJson v)).1; [|apply drop_issues].
  destruct (negb _); [by repeat split|]. split; [done|]. intros [[[a|]|u]|f]; [|apply start_tick_issues|apply drop_issues|done].
  destruct (negb _); [apply drop_issues|apply start_tick_issues].
Qed.

(** C8: under every process at once, with crashes, lost commits, leases that
    expire and several holders of the same entry, a tick starts at most one run. When the
    firing of a tick reports a start, the run of that tick is recorded; a later firing of
    the same tick, by any holder, does not start another, whatever happened in between; and
    no two runs carry the tick's key. *)
Theorem tick_fires_once (e e2 : ScheduleEntry) (now now2 : instant) (s s1 s2 s3 : Tables) (o : FireOutcome) : history s →
  finishes (fireScheduleEntry Parse e now) s Fired s1 → evolves s1 s2 →
  se_ID e2 = se_ID e → se_OrgID e2 = se_OrgID e → due_of now2 e2 = due_of now e →
  finishes (fireScheduleEntry Parse e2 now2) s2 o s3 →
  o ≠ Fired ∧ tick_started e now s3 ∧
  ∀ r1 r2 i1 i2, starts s3 !! r1 = Some i1 → starts s3 !! r2 = Some i2 → si_OrgID i1 = se_OrgID e → si_OrgID i2 = se_OrgID e →
    IdempotencyKey i1 = tick_key (se_ID e) (due_of now e) → IdempotencyKey i2 = tick_key (se_ID e) (due_of now e) → r1 = r2.
Proof.
  intros Hok%keys_history Hfire Hev Hid Horg Hdue Hagain.
  destruct (fire_started e now s Fired s1 Hok I Hfire) as [Hok1 Hst]. specialize (Hst eq_refl).
  destruct (evolves_keeps _ _ _ keeps_starts keys_keeps s1 s2 Hev Hok1) as [Hok2 Hm].
  pose proof (tick_started_stable e now s1 s2 Hm Hst) as Hst2.
  destruct (finishes_keeps _ _ _ keeps_starts keys_keeps _ s2 o s3 (fire_issues e2 now2) Hok2 Hagain) as [Hok3 Hm3].
  pose proof (tick_started_stable e now s2 s3 Hm3 Hst2) as Hst3.
  assert (key_taken (se_OrgID e2) (tick_key (se_ID e2) (due_of now2 e2)) s2) as Hkey.
  { rewrite Hid, Horg, Hdue. destruct Hst2 as (r & _ & _ & _ & _ & _ & Hk). by exists r. }
  destruct (fire_again e2 now2 s2 o s3 Hok2 Hkey Hagain) as [_ Ho]. split_and!; [done|done|].
  intros r1 r2 i1 i2 H1 H2 Ho1 Ho2 Hk1 Hk2. pose proof (ok_keyed _ Hok3 r1 i1 H1) as Hr1. pose proof (ok_keyed _ Hok3 r2 i2 H2) as Hr2.
  rewrite Ho1, Hk1 in Hr1. rewrite Ho2, Hk2 in Hr2. specialize (Hr1 ltac:(done)). specialize (Hr2 ltac:(done)). congruence.
Qed.

(** ** Crashes *)

(** What a tick needs to be started: nothing about it calls for dropping it. *)
Record runnable (e : ScheduleEntry) (now : instant) (s : Tables) : Prop := mkRunnable
  { rn_next : ∃ schedule next, Cron.Parse (se_CronExpression e) = Some (Ok schedule) ∧ Next schedule now = Some (Ok next);
    rn_owner : ∃ status, GetWorkflowIngestState (se_WorkflowID e) s = Some (se_OrgID e, status, false) ∧ status ∈ [""; "active"];
    rn_version : ∃ v wf, GetWorkflowVersionByID (base s) (se_VersionID e) (se_OrgID e) (se_WorkflowID e) = Some v ∧
      (Parse (DagJson v)).1 = Some wf ∧ hasScheduleNode wf (se_NodeID e) = true ∧
      match ResolveWorkflowRolloutAssignment json_error sha256 (se_OrgID e) (se_WorkflowID e)
              (tick_name (se_ID e) (due_of now e)) (base s) with
      | Err _ => False
      | Ok None => ∃ input, start_input (tick_start e (due_of now e) wf (se_VersionID e) "" "") = Some (Ok input)
      | Ok (Some a) => hasScheduleNode (ra_Workflow a) (se_NodeID e) = true ∧
          ∃ input, start_input (tick_start e (due_of now e) (ra_Workflow a) (ra_VersionID a) (ro_ID (ra_Rollout a)) (ra_Variant a)) = Some (Ok input)
      end }.
Abbreviation reaches := (reaches json_error sha256).
Definition tick_taken (e : ScheduleEntry) (now : instant) : Tables → Prop := key_taken (se_OrgID e) (tick_key (se_ID e) (due_of now e)).

(** A read leaves the tables alone, also when it fails. *)
Lemma reaches_read {A X} (o : op X) (x0 : X) (k : res fault X → prog A) s s' (G : Prop) :
  (∀ x s1, returns o s x s1 → s1 = s ∧ x = x0) → (s' = s → G) → (∀ f, reaches (k (Err f)) s s' → G) → (reaches (k (Ok x0)) s s' → G) →
  reaches (Do o k) s s' → G.
Proof.
  intros Hread Hhere Herr Hok [Hs|(r & s1 & Hex & Hrest)]; [by apply Hhere|]. inversion Hex; subst; try (by eapply Herr).
  - destruct (Hread _ _ ltac:(eassumption)) as [-> ->]. by apply Hok.
  - destruct (Hread _ _ ltac:(eassumption)) as [-> _]. by eapply Herr.
Qed.
Lemma reaches_keeps {A} (p : prog A) s s' : issues p → keys_ok s → reaches p s s' → keys_ok s' ∧ keeps_starts s s'.
Proof.
  revert s. induction p as [b|X o k IH|k IH]; intros s Hp Hs; cbn.
  - by intros [->|[]].
  - destruct Hp as [Hi Hp]. intros [->|(r & s1 & Hex & Hrest)]; [done|]. destruct (keys_keeps X o s r s1 Hi Hs Hex) as [Hs1 Hm1].
    destruct (IH r s1 (Hp r) Hs1 Hrest) as [? ?]. split; [done|by transitivity s1].
  - intros [->|(id & Hid & Hrest)]; [done|]. exact (IH id s (Hp id Hid) Hs Hrest).
Qed.
Lemma reaches_ret {A} (a : A) s s' : reaches (Ret a) s s' → s' = s.
Proof. by intros [?|[]]. Qed.

Lemma start_tick_survives e next now start s s' : keys_ok s → e ∈ schedules s →
  si_OrgID start = se_OrgID e → IdempotencyKey start = tick_key (se_ID e) (due_of now e) → TriggerEventID start = "" →
  (∃ input, start_input start = Some (Ok input)) →
  reaches (start_tick e next now start) s s' → e ∈ schedules s' ∨ tick_taken e now s'.
Proof.
  intros Hok He Ho Hk Htrigger [input Hinput] [->|(r & s1 & Hex & Hrest)]; [by left|].
  destruct (keys_keeps _ (Start start) s r s1 I Hok Hex) as [Hok1 _].
  assert (∀ p : prog FireOutcome, issues p → tick_taken e now s1 → reaches p s1 s' → tick_taken e now s') as Hkept.
  { intros p Hp Ht Hr. destruct (reaches_keeps p s1 s' Hp Hok1 Hr) as [_ Hm]. by eapply key_taken_stable. }
  assert (∀ x, returns (Start start) s x s1 → (s1 = s ∧ ∀ r', x = Err (IdempotencyReplay r') → tick_taken e now s1) ∨ (tick_taken e now s1 ∧ ∃ r', x = Ok r')) as Hcase.
  { intros x [runID Hx]. destruct (start_keys start runID s x s1 (ok_base _ Hok) Hx) as [(-> & Hrep & _)|(-> & _ & _ & _ & Hrk)].
    - left. split; [done|]. intros r' Hr'%Hrep. exists r'. by rewrite <-Ho, <-Hk.
    - right. split; [|by exists runID]. exists runID. rewrite Hrk, Hk, Ho. assert (eqs (tick_key (se_ID e) (due_of now e)) "" = false) as -> by done.
      by rewrite lookup_insert_eq. }
  inversion Hex as [x s2 Hret| | |x s2 Hret]; subst; cbn beta iota in Hrest; try (apply reaches_ret in Hrest as ->).
  - destruct (Hcase x Hret) as [[-> Hrep]|[Ht [r' ->]]].
    2: { right. eapply Hkept; [|exact Ht|exact Hrest]. by apply advance_issues. }
    destruct x as [r'|err]; [destruct Hret as [runID Hx]; destruct (start_keys start runID s _ s (ok_base _ Hok) Hx) as [(_ & _ & Hno)|(_ & Hfree & Hst & _)]; [by destruct (Hno r')|]|].
    { assert (starts s !! runID = Some start) as Hin by (rewrite Hst; by rewrite lookup_insert_eq). congruence. }
    destruct err; try (apply reaches_ret in Hrest as ->; by left).
    + exfalso. destruct Hret as [runID Hx]. unfold StartRun in Hx. rewrite Hinput in Hx. revert Hx. repeat case_match; congruence.
    + right. eapply Hkept; [|by eapply Hrep|exact Hrest]. by apply advance_issues.
  - by left.
  - by left.
  - destruct (Hcase x Hret) as [[-> _]|[Ht _]]; [by left|by right].
Qed.

End tick.
End facts.

(** ** The name of a tick *)

(** The due times are whole minutes. *)
Lemma whole_minute d : (d mod minute_ns = 0)%Z → (d mod second_ns = 0)%Z.
Proof. unfold minute_ns, second_ns. intros Hd. apply Z.mod_divide in Hd as [q ->]; [|lia]. rewrite Z.mul_assoc. by apply Z.mod_mul. Qed.
Lemma nano_whole d : (d mod minute_ns = 0)%Z → FormatRFC3339Nano d = of_bytes (date_time d ++ ["Z"%char]).
Proof. intros Hd%whole_minute. unfold FormatRFC3339Nano. rewrite Hd. done. Qed.
Lemma waiting_whole d : (d mod minute_ns = 0)%Z →
  FormatWaitingInstant d = of_bytes (date_time d ++ ["."; "0"; "0"; "0"; "Z"]%char).
Proof.
  intros Hd%whole_minute. unfold FormatWaitingInstant, date_time, Millisecond. rewrite Hd. f_equal.
  rewrite <-!app_assoc. do 11 f_equal.
Qed.
Lemma length_pad w n : pad_ok w n = true → length (pad w n) = w.
Proof. unfold pad_ok. intros ?. bool_split. by apply Nat.eqb_eq. Qed.
Lemma length_date_time d : printable_year d → length (date_time d) = 19%nat.
Proof.
  intros Hy. destruct (instant_ranges d) as [Hm Hd _ Hh Hmi Hs _]. pose proof (month_days_bounds (is_leap (Year d)) (Month d)).
  assert (∀ n, (0 ≤ n < 100)%Z → length (pad 2 n) = 2%nat) as H2 by (intros n Hn; apply length_pad, pad_ok_all; [by left|done]).
  assert (length (pad 4 (Year d)) = 4%nat) as H4 by (apply length_pad, pad_ok_all; [right; right; by left|unfold printable_year in Hy; lia]).
  unfold date_time. rewrite !length_app, H4, !H2 by lia. done.
Qed.
(** The key of a tick identifies it: two ticks with due times that are
    whole minutes of the years 0 to 9999 have the same idempotency key exactly when they are
    of the same entry and due at the same instant, whatever the identifiers of the entries. *)
Theorem tick_key_injective (id1 id2 : string) (d1 d2 : instant) :
  (d1 mod minute_ns = 0)%Z → (d2 mod minute_ns = 0)%Z → (0 ≤ Year d1 ≤ 9999)%Z → (0 ≤ Year d2 ≤ 9999)%Z →
  tick_key id1 d1 = tick_key id2 d2 ↔ id1 = id2 ∧ d1 = d2.
Proof.
  intros Hm1 Hm2 Hy1 Hy2. split; [|by intros [-> ->]]. intros Hk%(f_equal bytes).
  unfold tick_key, tick_name in Hk. rewrite !nano_whole, !bytes_app, !bytes_of_bytes in Hk by done.
  apply app_inj_1 in Hk as [_ Hk]; [|done]. apply app_inj_2 in Hk as [Hid Hk].
  2: { rewrite !length_app, !length_date_time by done. done. }
  split; [by apply bytes_inj|]. apply app_inj_1 in Hk as [_ Hk]; [|done]. apply app_inj_2 in Hk as [Hdate _]; [|done].
  assert (FormatWaitingInstant d1 = FormatWaitingInstant d2) as Hf by (by rewrite !waiting_whole, Hdate).
  apply (f_equal ParseAbsoluteInstant) in Hf. rewrite !ParseAbsoluteInstant_format in Hf by done. injection Hf as Hf.
  assert (∀ d, (d mod minute_ns = 0)%Z → (d / 1000000 * 1000000 = d)%Z) as Hwhole.
  { intros d Hd. unfold minute_ns, second_ns in Hd. Z.div_mod_to_equations. lia. }
  by rewrite !Hwhole in Hf.
Qed.
Lemma tick_key_injective_witness :
  (60000000000 mod minute_ns = 0)%Z ∧ (tick_key "a" 0 = tick_key "b" 60000000000 ↔ "a" = "b" ∧ (0 = 60000000000)%Z).
Proof.
  split; [reflexivity|]. apply tick_key_injective; [reflexivity|reflexivity|vm_compute; split; discriminate|vm_compute; split; discriminate].
Defined.

(** ** A concrete tick *)

#[local] Existing Instance TriggerFacts.tables.
Definition minutely_document : Workflow :=
  mkWorkflow dslVersion "" "" None None [] "" None None [mkNode "tick" "schedule" "" []] [].
Definition parse_minutely : string → option Workflow * list Issue := λ _, (Some minutely_document, []).
Definition minutely (next : Z) : ScheduleEntry := mkScheduleEntry "s1" "org" "wf" "v1" "tick" "* * * * *" true (Some next) None None None.
Definition minutely_claimed : ScheduleEntry := with_claimed_tick 60000000000 (minutely 0).
Definition demo_scheduled : Tables := set_schedules [minutely 0] demo_saved.
Definition demo_leased : Tables := set_schedules [minutely_claimed] demo_saved.
Lemma demo_leased_history : history id no_digest demo_leased.
Proof.
  eapply (history_op _ _ (ClaimDue 0 60000000000 200) demo_scheduled [minutely_claimed]); [done| |].
  2: { exists [], [minutely_claimed]. split; [vm_compute; reflexivity|done]. }
  eapply (history_op _ _ (ReplaceEntries "org" "wf" [minutely 0]) demo_saved tt); [done| |vm_compute; reflexivity].
  eapply (history_op _ _ RolloutTransaction (empty_tables 0) tt); [done|apply history_empty|].
  exists (saveWorkflowVersionAttempt "org" "wf" "Orders" "v1" "{}" empty_store).2. split; [apply step_save|done].
Qed.
Definition minutely_start : StartInput := tick_start minutely_claimed 0 minutely_document "v1" "" "".
Definition demo_fired : Tables :=
  (AdvanceScheduleEntry "s1" 60000000000 0 "r1" (Some 0%Z) (StartRun minutely_start "r1" demo_leased).2).2.

(** An operation of a run without interference. *)
Lemma finishes_op {A X} json_error sha256 (o : op X) x s s1 (k : res fault X → prog A) a s' :
  returns json_error sha256 o s x s1 → finishes json_error sha256 (k (Ok x)) s1 a s' → finishes json_error sha256 (Do o k) s a s'.
Proof. intros Ho Hk. exists s, (Ok x), s1. split; [constructor|]. split; [by constructor|done]. Qed.
Lemma minutely_next : ∃ schedule, Cron.Parse (se_CronExpression minutely_claimed) = Some (Ok schedule) ∧
  Next schedule 0 = Some (Ok 60000000000%Z).
Proof. eexists. split; [vm_compute; reflexivity|]. vm_compute. reflexivity. Qed.
Lemma minutely_fires : finishes id no_digest (fireScheduleEntry parse_minutely minutely_claimed 0) demo_leased Fired demo_fired.
Proof.
  destruct minutely_next as (schedule & Hp & Hn). unfold fireScheduleEntry. rewrite Hp, Hn. clear.
  eapply (finishes_op _ _ _ (Some ("org", "active", false))); [by split; [|vm_compute]|].
  eapply (finishes_op _ _ _ None); [by split; [|vm_compute]|].
  eapply (finishes_op _ _ _ (head (versions (base demo_leased)))); [by split; [|vm_compute]|].
  eapply (finishes_op _ _ _ (Ok None)); [by split; [|vm_compute]|].
  eapply (finishes_op _ _ _ (Ok "r1") _ (StartRun minutely_start "r1" demo_leased).2); [exists "r1"; vm_compute; reflexivity|].
  eapply (finishes_op _ _ _ true _ demo_fired); [vm_compute; reflexivity|]. done.
Qed.
Lemma tick_fires_once_witness :
  finishes id no_digest (fireScheduleEntry parse_minutely minutely_claimed 0) demo_leased Fired demo_fired ∧
  ∀ o s, finishes id no_digest (fireScheduleEntry parse_minutely minutely_claimed 5) demo_fired o s → o ≠ Fired.
Proof.
  split; [exact minutely_fires|]. intros o s Hf.
  exact (proj1 (tick_fires_once id no_digest parse_minutely minutely_claimed minutely_claimed 0 5 demo_leased demo_fired demo_fired s o
    demo_leased_history minutely_fires (rtc_refl _ _) eq_refl eq_refl eq_refl Hf)).
Defined.
