(* ===== verification/Token.v ===== *)
(** Signed tokens: the keyed envelope (tokenhmac/), the purpose-bound tokens of sessions and
    of SSO state (signedtoken/, browsersession/, ssostate/), the resume tokens of forms
    (resumetoken/) and the signatures of inbound webhooks (webhooksig/ and its callers). *)
From S2P Require Import Prelude GoStrings GoInt GoFloat GoAny Json JsonTree JsonPrint Base64 Sha256.
Local Open Scope string_scope.
Local Open Scope list_scope.
Local Open Scope Z_scope.

Inductive token_error := ErrInvalid | SecretRequired | InvalidTTL.
#[export] Instance token_error_eq_dec : EqDecision token_error.
Proof. solve_decision. Defined.

(** ** tokenhmac: the envelope *)

Definition version : string := "v1".
Definition devSecret : string := "janusly-dev-resume-token-secret".

Section tokens.
(** The environment of the process, and Unicode's folding tables. *)
Context (getenv : string → string) (fold : string → string → bool).
Abbreviation result A := (res token_error A).

Definition IsProduction : bool := EqualFold fold (TrimSpace (getenv "JANUSLY_ENV")) "production".
Definition secret : result string :=
  let configured := getenv "JANUSLY_RESUME_TOKEN_SECRET" in
  if negb (String.eqb configured "") then Ok configured
  else if IsProduction then Err SecretRequired else Ok devSecret.
Definition signPayload (encodedPayload : string) : result string :=
  let? key := secret in
  Ok (RawURLEncode (of_bytes (HMAC (bytes key) (bytes (version +:+ "." +:+ encodedPayload))))).
(** The payload is the tree of what is serialised. *)
Definition SignJSON (payload : json) : result string :=
  let encoded := RawURLEncode (of_bytes (print_tree payload)) in
  let? signature := signPayload encoded in
  Ok (version +:+ "." +:+ encoded +:+ "." +:+ signature).
Definition VerifyJSON {A} (read : reader A) (out : A) (token : string) : result A :=
  match Split token "." with
  | [v; encoded; signature] =>
      guard String.eqb v version else ErrInvalid in
      let? expectedSignature := signPayload encoded in
      guard String.eqb signature expectedSignature else ErrInvalid in
      match RawURLDecode encoded with
      | None => Err ErrInvalid
      | Some decoded =>
          match ReadTree decoded with
          | None => Err ErrInvalid
          | Some tree => match read tree out with Some x => Ok x | None => Err ErrInvalid end
          end
      end
  | _ => Err ErrInvalid
  end.
Definition Digest (purpose : string) (data : list ascii) : result string :=
  let? key := secret in
  Ok (RawURLEncode (of_bytes (HMAC (bytes key) (bytes purpose ++ chr 0 :: data)))).

(** ** signedtoken: purpose and lifetime *)

Record Envelope (T : Type) := MkEnvelope { env_Purpose : string; env_Payload : T; env_IssuedAt : Z; env_ExpiresAt : Z }.
Arguments MkEnvelope {T}.
Arguments env_Purpose {T}.
Arguments env_Payload {T}.
Arguments env_IssuedAt {T}.
Arguments env_ExpiresAt {T}.

(** What [signAt] serialises. *)
Definition envelope_tree (purpose : string) (payload : json) (issuedAt expiresAt : Z) : json :=
  JObj [("purpose", JStr purpose); ("payload", payload);
        ("issuedAt", JNum (bytes (Itoa issuedAt))); ("expiresAt", JNum (bytes (Itoa expiresAt)))].
(** What [verifyAt] reads; the payload is empty when the member is absent. *)
Definition raw_envelope : Type := Envelope (option json).
Definition envelope_set (field : string) (v : json) (e : raw_envelope) : option raw_envelope :=
  if String.eqb field "purpose" then x ← read_string v (env_Purpose e); Some (MkEnvelope x (env_Payload e) (env_IssuedAt e) (env_ExpiresAt e))
  else if String.eqb field "payload" then x ← read_raw v (env_Payload e); Some (MkEnvelope (env_Purpose e) x (env_IssuedAt e) (env_ExpiresAt e))
  else if String.eqb field "issuedAt" then x ← read_int v (env_IssuedAt e); Some (MkEnvelope (env_Purpose e) (env_Payload e) x (env_ExpiresAt e))
  else x ← read_int v (env_ExpiresAt e); Some (MkEnvelope (env_Purpose e) (env_Payload e) (env_IssuedAt e) x).
Definition read_envelope : reader raw_envelope := read_struct ["purpose"; "payload"; "issuedAt"; "expiresAt"] envelope_set.

(** [now] is in Unix seconds. *)
Definition signAt {T} (write : T → json) (purpose : string) (payload : T) (ttlSeconds now : Z) : result (string * Envelope T) :=
  let issuedAt := now in
  if String.eqb purpose "" || (ttlSeconds <=? 0) || (wrap64 (max_int64 - issuedAt) <? ttlSeconds) then Err ErrInvalid
  else
    let envelope := MkEnvelope purpose payload issuedAt (wrap64 (issuedAt + ttlSeconds)) in
    let? token := SignJSON (envelope_tree purpose (write payload) issuedAt (env_ExpiresAt envelope)) in
    Ok (token, envelope).
Definition verifyAt {T} (read : reader T) (zero : T) (token expectedPurpose : string) (now : Z) : result (Envelope T) :=
  let? raw := VerifyJSON read_envelope (MkEnvelope "" None 0 0) token in
  if String.eqb expectedPurpose "" || negb (String.eqb (env_Purpose raw) expectedPurpose) || (env_IssuedAt raw <=? 0) ||
     (env_ExpiresAt raw <=? env_IssuedAt raw) || (env_ExpiresAt raw <=? now)
  then Err ErrInvalid
  else
    match env_Payload raw with
    | None => Err ErrInvalid
    | Some tree =>
        match read tree zero with
        | None => Err ErrInvalid
        | Some payload => Ok (MkEnvelope (env_Purpose raw) payload (env_IssuedAt raw) (env_ExpiresAt raw))
        end
    end.

(** ** browsersession: the session cookie *)

Definition session_purpose : string := "sso_session".
Record Token := MkToken { tok_Value : string; tok_ExpiresAt : Z }.
(** The payload is the session's id alone. *)
Definition session_tree (sessionID : string) : json := JObj [("sessionId", JStr sessionID)].
Definition read_session : reader string := read_struct ["sessionId"] (λ _ v id, read_string v id).

Definition CreateToken (sessionID : string) (ttlSeconds now : Z) : result Token :=
  if String.eqb sessionID "" then Err ErrInvalid
  else
    let? signed := signAt session_tree session_purpose sessionID ttlSeconds now in
    Ok (MkToken signed.1 (env_ExpiresAt signed.2)).
(** The argument is the value of the request's cookie, when there is one. *)
Definition ReadSessionID (cookie : option string) (now : Z) : string :=
  match cookie with
  | None => ""
  | Some value =>
      if String.eqb value "" then ""
      else
        match verifyAt read_session "" value session_purpose now with
        | Ok envelope => env_Payload envelope
        | Err _ => ""
        end
  end.
(** [header] is the value of a request header, empty when it is absent. *)
Definition RequireCSRF (header : string → string) (originAllowed : option (string → bool)) : bool :=
  match originAllowed with
  | None => false
  | Some allowed => String.eqb (header "x-janusly-csrf") "1" && allowed (header "Origin")
  end.

(** ** ssostate: the state of one login *)

Definition state_purpose : string := "sso_state".
Definition TTLSeconds : Z := 600.
Record StatePayload := MkState { sta_OrgID : string; sta_Nonce : string; sta_CallbackURL : string }.
Definition state_tree (p : StatePayload) : json :=
  JObj [("orgId", JStr (sta_OrgID p)); ("nonce", JStr (sta_Nonce p)); ("callbackUrl", JStr (sta_CallbackURL p))].
Definition state_set (field : string) (v : json) (p : StatePayload) : option StatePayload :=
  if String.eqb field "orgId" then x ← read_string v (sta_OrgID p); Some (MkState x (sta_Nonce p) (sta_CallbackURL p))
  else if String.eqb field "nonce" then x ← read_string v (sta_Nonce p); Some (MkState (sta_OrgID p) x (sta_CallbackURL p))
  else x ← read_string v (sta_CallbackURL p); Some (MkState (sta_OrgID p) (sta_Nonce p) x).
Definition read_state : reader StatePayload := read_struct ["orgId"; "nonce"; "callbackUrl"] state_set.

Definition BrowserBindingMatches (cookieNonce stateNonce : string) : bool :=
  if String.eqb cookieNonce "" || String.eqb stateNonce "" then false else String.eqb cookieNonce stateNonce.
Definition Create (orgID nonce callbackURL : string) (now : Z) : result Token :=
  if String.eqb orgID "" || String.eqb nonce "" || String.eqb callbackURL "" then Err ErrInvalid
  else
    let? signed := signAt state_tree state_purpose (MkState orgID nonce callbackURL) TTLSeconds now in
    Ok (MkToken signed.1 (env_ExpiresAt signed.2)).
Definition VerifyState (value : string) (now : Z) : result (Envelope StatePayload) :=
  let? envelope := verifyAt read_state (MkState "" "" "") value state_purpose now in
  let p := env_Payload envelope in
  if String.eqb (sta_OrgID p) "" || String.eqb (sta_Nonce p) "" || String.eqb (sta_CallbackURL p) "" then Err ErrInvalid
  else Ok envelope.

(** ** resumetoken: the link of a waiting node *)

Definition MinTTLSeconds : Z := 5 * 60.
Definition DefaultTTLSeconds : Z := 7 * 24 * 60 * 60.
Record Binding := MkBinding { bin_OrgID : string; bin_RunID : string; bin_NodeID : string; bin_Purpose : string }.
#[export] Instance Binding_eq_dec : EqDecision Binding.
Proof. solve_decision. Defined.
(** The payload is a binding and its times; a zero expiry is not written. *)
Record Payload := MkPayload { pay_binding : Binding; pay_IssuedAt : Z; pay_ExpiresAt : Z }.
Definition payload_tree (p : Payload) : json :=
  let b := pay_binding p in
  JObj ([("orgId", JStr (bin_OrgID b)); ("runId", JStr (bin_RunID b)); ("nodeId", JStr (bin_NodeID b));
         ("purpose", JStr (bin_Purpose b)); ("issuedAt", JNum (bytes (Itoa (pay_IssuedAt p))))] ++
        (if pay_ExpiresAt p =? 0 then [] else [("expiresAt", JNum (bytes (Itoa (pay_ExpiresAt p))))])).
Definition payload_set (field : string) (v : json) (p : Payload) : option Payload :=
  let b := pay_binding p in
  let with_b b := MkPayload b (pay_IssuedAt p) (pay_ExpiresAt p) in
  if String.eqb field "orgId" then x ← read_string v (bin_OrgID b); Some (with_b (MkBinding x (bin_RunID b) (bin_NodeID b) (bin_Purpose b)))
  else if String.eqb field "runId" then x ← read_string v (bin_RunID b); Some (with_b (MkBinding (bin_OrgID b) x (bin_NodeID b) (bin_Purpose b)))
  else if String.eqb field "nodeId" then x ← read_string v (bin_NodeID b); Some (with_b (MkBinding (bin_OrgID b) (bin_RunID b) x (bin_Purpose b)))
  else if String.eqb field "purpose" then x ← read_string v (bin_Purpose b); Some (with_b (MkBinding (bin_OrgID b) (bin_RunID b) (bin_NodeID b) x))
  else if String.eqb field "issuedAt" then x ← read_int v (pay_IssuedAt p); Some (MkPayload b x (pay_ExpiresAt p))
  else x ← read_int v (pay_ExpiresAt p); Some (MkPayload b (pay_IssuedAt p) x).
Definition read_payload : reader Payload :=
  read_struct ["orgId"; "runId"; "nodeId"; "purpose"; "issuedAt"; "expiresAt"] payload_set.

Definition SignResume (binding : Binding) (ttlSeconds now : Z) : result string :=
  if (ttlSeconds <? MinTTLSeconds) || (DefaultTTLSeconds <? ttlSeconds) then Err InvalidTTL
  else SignJSON (payload_tree (MkPayload binding now (wrap64 (now + ttlSeconds)))).
Definition VerifyResume (token : string) (expected : Binding) (now : Z) : result Payload :=
  let? payload := VerifyJSON read_payload (MkPayload (MkBinding "" "" "" "") 0 0) token in
  if negb (bool_decide (pay_binding payload = expected)) || (pay_IssuedAt payload =? 0) then Err ErrInvalid
  else if pay_ExpiresAt payload =? 0 then
    if DefaultTTLSeconds <? wrap64 (now - pay_IssuedAt payload) then Err ErrInvalid else Ok payload
  else if (pay_ExpiresAt payload <=? pay_IssuedAt payload) ||
          (DefaultTTLSeconds <? wrap64 (pay_ExpiresAt payload - pay_IssuedAt payload)) || (pay_ExpiresAt payload <=? now)
  then Err ErrInvalid
  else Ok payload.
End tokens.
Arguments MkEnvelope {T}.
Arguments env_Purpose {T}.
Arguments env_Payload {T}.
Arguments env_IssuedAt {T}.
Arguments env_ExpiresAt {T}.

(** ** webhooksig: the signatures of inbound webhooks *)

Section webhooks.
(** Unicode's table of lower-case letters. *)
Context (lower : string → string).
Fixpoint header_parts (timestampKey sigKey : string) (parts : list string) (timestampRaw : string) (candidates : list string) :
    string * list string :=
  match parts with
  | [] => (timestampRaw, candidates)
  | part :: parts =>
      let '(key, value, found) := Cut (TrimSpace part) "=" in
      if negb found then header_parts timestampKey sigKey parts timestampRaw candidates
      else if String.eqb key timestampKey then header_parts timestampKey sigKey parts value candidates
      else if String.eqb key sigKey then header_parts timestampKey sigKey parts timestampRaw (candidates ++ [ToLower lower value])
      else header_parts timestampKey sigKey parts timestampRaw candidates
  end.
Definition ParseHeader (header timestampKey sigKey : string) : string * list string :=
  header_parts timestampKey sigKey (Split header ",") "" [].

Record Posture := MkPosture {
  pos_Compose : string → string → string; pos_ToleranceSeconds : Z; pos_TimestampMillis : bool; pos_AsymmetricSkewReasons : bool }.

(** The loop over the candidates: whether one of them could be a signature, and whether one is. *)
Fixpoint try_candidates (expected : list ascii) (candidates : list string) (sawCandidate : bool) : bool * bool :=
  match candidates with
  | [] => (sawCandidate, false)
  | candidate :: candidates =>
      if Nat.odd (len candidate) then try_candidates expected candidates sawCandidate
      else
        match HexDecode candidate with
        | None => try_candidates expected candidates sawCandidate
        | Some decoded =>
            if negb (Nat.eqb (length decoded) (length expected)) then try_candidates expected candidates sawCandidate
            else if bool_decide (decoded = expected) then (true, true)
            else try_candidates expected candidates true
        end
  end.
(** The seconds of the timestamp, or why it is refused. *)
Definition check_timestamp (timestampRaw : string) (now : Z) (posture : Posture) : res string Z :=
  if 0 <? pos_ToleranceSeconds posture then
    match Atoi timestampRaw with
    | None => Err "malformed_header"
    | Some value =>
        if value <=? 0 then Err "malformed_header"
        else
          let seconds := if pos_TimestampMillis posture then Z.quot value 1000 else value in
          let skew := wrap64 (now - seconds) in
          if pos_ToleranceSeconds posture <? skew then Err (if pos_AsymmetricSkewReasons posture then "expired" else "timestamp_skew")
          else if skew <? wrap64 (- pos_ToleranceSeconds posture) then
            Err (if pos_AsymmetricSkewReasons posture then "future_timestamp" else "timestamp_skew")
          else Ok seconds
    end
  else Ok 0.
Definition Verify (timestampRaw : string) (candidates : list string) (body secret : string) (now : Z) (posture : Posture) : Z * string :=
  if String.eqb secret "" then (0, "missing_secret")
  else
    match check_timestamp timestampRaw now posture with
    | Err reason => (0, reason)
    | Ok seconds =>
        let expected := HMAC (bytes secret) (bytes (pos_Compose posture timestampRaw body)) in
        let '(sawCandidate, valid) := try_candidates expected candidates false in
        if valid then (seconds, "") else if negb sawCandidate then (0, "malformed_header") else (0, "signature_mismatch")
    end.

(** The callers: PagerDuty, WorkOS, external runtimes and Slack. *)
Definition verifyPagerDutySignature (rawBody signatureHeader secret : string) : bool :=
  if String.eqb rawBody "" || String.eqb signatureHeader "" then false
  else
    let candidates := (ParseHeader signatureHeader "" "v1").2 in
    String.eqb (Verify "" candidates rawBody secret 0 (MkPosture (λ _ body, body) 0 false false)).2 "".
Definition timestamp_dot_body (t body : string) : string := t +:+ "." +:+ body.
Definition verifyWorkOsSignature (header rawBody secret : string) (now : Z) : bool * string :=
  if String.eqb secret "" then (false, "missing_secret")
  else if String.eqb header "" then (false, "missing_header")
  else
    let '(timestampRaw, candidates) := ParseHeader header "t" "v1" in
    if String.eqb timestampRaw "" || bool_decide (candidates = []) then (false, "malformed_header")
    else
      let reason := (Verify timestampRaw candidates rawBody secret now (MkPosture timestamp_dot_body 300 true true)).2 in
      if negb (String.eqb reason "") then (false, reason) else (true, "").
(** [^[0-9a-f]{64}$]. *)
Definition hex_signature (s : string) : bool :=
  Nat.eqb (len s) 64 && forallb (λ c, in_range 48 57 c || in_range 97 102 c) (bytes s).
Definition verifyExternalRuntimeSignature (signatureHeader rawBody secret : string) (now : Z) : bool :=
  let '(timestampRaw, candidates) := ParseHeader signatureHeader "t" "v1" in
  if existsb (λ c, negb (hex_signature c)) candidates then false
  else String.eqb (Verify timestampRaw candidates rawBody secret now (MkPosture timestamp_dot_body 300 false false)).2 "".
Definition verifySlackSignature (timestampHeader signatureHeader rawBody secret : string) (now : Z) : Z * string :=
  if String.eqb secret "" then (0, "missing_secret")
  else if negb ((1 <=? len timestampHeader)%nat && (len timestampHeader <=? 12)%nat && forallb is_digit (bytes timestampHeader)) then
    (0, "malformed_timestamp")
  else if negb (HasPrefix signatureHeader "v0=" && hex_signature (TrimPrefix signatureHeader "v0=")) then (0, "malformed_signature")
  else
    Verify timestampHeader [TrimPrefix signatureHeader "v0="] rawBody secret now
      (MkPosture (λ t body, "v0:" +:+ t +:+ ":" +:+ body) 300 false false).
End webhooks.
