(* ===== verification/TokenFacts.v ===== *)
(** What a signed token proves: the envelope authenticates its payload, a token is accepted
    for its purpose and its binding until it expires, and a webhook is accepted exactly when
    one of its signatures is the keyed digest of the body. *)
From S2P Require Import Prelude GoStrings GoInt GoFloat GoAny Json JsonTree JsonPrint Base64 Sha256 Token.
Local Open Scope string_scope.
Local Open Scope list_scope.
Local Open Scope Z_scope.

(** ** Splitting at the dots *)

Definition free (sep : ascii) (l : list ascii) : Prop := Forall (λ c, Ascii.eqb c sep = false) l.
Lemma split_free sep l cur : free sep l → split_bytes sep l cur = [rev cur ++ l].
Proof.
  intros H. revert cur. induction H as [|c l Hc _ IH]; intros cur; cbn [split_bytes]; [by rewrite app_nil_r|].
  rewrite Hc, IH. cbn [rev]. by rewrite <-app_assoc.
Qed.
Lemma split_at sep a l cur : free sep a → split_bytes sep (a ++ sep :: l) cur = (rev cur ++ a) :: split_bytes sep l [].
Proof.
  intros H. revert cur. induction H as [|c a Hc _ IH]; intros cur; cbn [split_bytes app]; [by rewrite Ascii.eqb_refl, app_nil_r|].
  rewrite Hc, IH. cbn [rev]. by rewrite <-app_assoc.
Qed.
Lemma split_inv sep l cur p ps : split_bytes sep l cur = p :: ps →
  (ps = [] ∧ p = rev cur ++ l ∧ free sep l) ∨
  (∃ a l', l = a ++ sep :: l' ∧ free sep a ∧ p = rev cur ++ a ∧ ps = split_bytes sep l' []).
Proof.
  revert cur. induction l as [|c l IH]; intros cur; cbn [split_bytes].
  - intros [= <- <-]. left. rewrite app_nil_r. split_and!; [done|done|constructor].
  - destruct (Ascii.eqb c sep) eqn:Hc.
    + intros [= <- <-]. right. apply Ascii.eqb_eq in Hc as ->. exists [], l. rewrite app_nil_r. split_and!; [done|constructor|done|done].
    + intros [(-> & -> & Hf)|(a & l' & -> & Hf & -> & ->)]%IH; cbn [rev]; rewrite <-app_assoc.
      * left. split_and!; [done..|]. by constructor.
      * right. exists (c :: a), l'. split_and!; [done| |done|done]. by constructor.
Qed.
Lemma split_three sep l p q r : split_bytes sep l [] = [p; q; r] →
  l = p ++ sep :: q ++ sep :: r ∧ free sep q.
Proof.
  intros [(? & _)|(a & l1 & -> & Ha & -> & Hl1)]%split_inv; [done|]. cbn [rev app].
  symmetry in Hl1. apply split_inv in Hl1 as [(? & _)|(b & l2 & -> & Hb & -> & Hl2)]; [done|]. cbn [rev app].
  symmetry in Hl2. apply split_inv in Hl2 as [(_ & -> & _)|(c & l3 & -> & Hc & -> & Hl3)]; [done|].
  exfalso. by eapply split_nonempty.
Qed.

(** ** Decimal numerals *)

Lemma numeral_app l k : digits_val (l ++ k) = fold_left (λ a c, 10 * a + digit_val c) k (digits_val l).
Proof. unfold digits_val. by rewrite fold_left_app. Qed.
Lemma digit_val_chr d : 0 ≤ d < 10 → digit_val (chr (48 + Z.to_nat d)) = d.
Proof.
  intros Hd. rewrite <-(Z2Nat.id d) at 2 by lia. assert (Z.to_nat d < 10)%nat as Hlt by lia. revert Hlt. generalize (Z.to_nat d). intros k Hk.
  do 10 (destruct k as [|k]; [reflexivity|]). lia.
Qed.
Lemma digits_rev_val f n : 0 ≤ n → Z.log2 n < Z.of_nat f → digits_val (rev (digits_rev f n)) = n.
Proof.
  revert n. induction f as [|f IH]; intros n Hn Hf; [pose proof (Z.log2_nonneg n); lia|]. cbn [digits_rev].
  pose proof (Z.mod_pos_bound n 10 ltac:(lia)) as Hm. destruct (Z.ltb_spec n 10); cbn [rev].
  - rewrite numeral_app. change (digits_val []) with 0. cbn [fold_left]. rewrite digit_val_chr by done. rewrite Z.mod_small by lia. lia.
  - rewrite numeral_app. rewrite IH; [|by apply Z.div_pos|].
    + cbn [fold_left]. rewrite digit_val_chr by done. pose proof (Z.div_mod n 10). lia.
    + assert (Z.log2 (n / 10) < Z.log2 n)%Z; [|lia]. apply Z.log2_lt_pow2; [apply Z.div_str_pos; lia|].
      pose proof (Z.log2_spec n ltac:(lia)) as [_ Hs]. rewrite Z.pow_succ_r in Hs by apply Z.log2_nonneg.
      apply Z.div_lt_upper_bound; lia.
Qed.
Lemma read_numeral n : 0 ≤ n ≤ max_int64 → num_int (bytes (Itoa n)) = Some n.
Proof.
  intros Hn. unfold num_int, Itoa, Atoi. rewrite !(proj2 (Z.ltb_ge n 0)) by lia. rewrite !bytes_of_bytes.
  destruct (digits_shape n ltac:(lia)) as [Hall (c & l & Heq & _)].
  assert (digits_val (digits n) = n) as Hv by (apply digits_rev_val; [lia|pose proof (Z.log2_nonneg n); lia]).
  rewrite Heq in *. cbn [forallb] in Hall. pose proof Hall as [Hc _]%andb_true_iff.
  assert (Ascii.eqb c "-" = false ∧ Ascii.eqb c "+" = false) as [-> ->].
  { split; (destruct (Ascii.eqb_spec c "-") as [->|] || destruct (Ascii.eqb_spec c "+") as [->|]); try done; try (by vm_compute in Hc).
    destruct (Ascii.eqb_spec c "+") as [->|]; [by vm_compute in Hc|done]. }
  cbn [forallb]. rewrite Hall, Hv. rewrite bool_decide_eq_false_2 by done. cbn [negb andb].
  unfold min_int64. rewrite !(proj2 (Z.leb_le _ _)) by (unfold max_int64 in *; lia). done.
Qed.

(** ** The envelope *)

Section envelope.
Context (getenv : string → string) (fold : string → string → bool) (key : string).
Hypothesis Hkey : secret getenv fold = Ok key.

Definition mac_of (encoded : string) : string :=
  RawURLEncode (of_bytes (HMAC (bytes key) (bytes (version +:+ "." +:+ encoded)))).
Definition token_of (encoded : string) : string := version +:+ "." +:+ encoded +:+ "." +:+ mac_of encoded.
Lemma signPayload_ok encoded : signPayload getenv fold encoded = Ok (mac_of encoded).
Proof. unfold signPayload. by rewrite Hkey. Qed.
Lemma bytes_token encoded : bytes (token_of encoded) = bytes "v1" ++ "."%char :: bytes encoded ++ "."%char :: bytes (mac_of encoded).
Proof. unfold token_of. by rewrite !bytes_app. Qed.
Lemma split_token encoded : free "." (bytes encoded) → Split (token_of encoded) "." = ["v1"; encoded; mac_of encoded].
Proof.
  intros Hf. unfold Split. rewrite bytes_token. rewrite split_at by (repeat constructor). rewrite split_at by done.
  rewrite split_free by apply raw_url_no_dot. cbn [rev app map]. by rewrite !of_bytes_bytes.
Qed.
Lemma sign_token payload : SignJSON getenv fold payload = Ok (token_of (RawURLEncode (of_bytes (print_tree payload)))).
Proof. unfold SignJSON. by rewrite signPayload_ok. Qed.

(** What was signed reads back, and nothing else is accepted. *)
Lemma verify_token {A} (read : reader A) out encoded : free "." (bytes encoded) →
  VerifyJSON getenv fold read out (token_of encoded) =
  match (decoded ← RawURLDecode encoded; tree ← ReadTree decoded; read tree out) with Some x => Ok x | None => Err ErrInvalid end.
Proof.
  intros Hf. unfold VerifyJSON. rewrite split_token by done. rewrite signPayload_ok, String.eqb_refl. cbn [res_bind].
  rewrite (String.eqb_refl (mac_of encoded)).
  destruct (RawURLDecode encoded) as [decoded|]; cbn [mbind option_bind]; [|done]. by destruct (ReadTree decoded).
Qed.
Lemma verify_signed {A} (read : reader A) out payload token : good_tree 1 payload → SignJSON getenv fold payload = Ok token →
  VerifyJSON getenv fold read out token = match read payload out with Some x => Ok x | None => Err ErrInvalid end.
Proof.
  intros Hp Hs. rewrite sign_token in Hs. injection Hs as <-. rewrite verify_token by apply raw_url_no_dot.
  rewrite raw_url_roundtrip. cbn [mbind option_bind]. by rewrite tree_roundtrip.
Qed.
Lemma verify_only {A} (read : reader A) out token x : VerifyJSON getenv fold read out token = Ok x →
  ∃ encoded, token = token_of encoded ∧ free "." (bytes encoded).
Proof.
  unfold VerifyJSON. destruct (Split token ".") as [|v [|encoded [|signature [|? ?]]]] eqn:Hs; try done.
  destruct (String.eqb_spec v version) as [->|]; [|done]. rewrite signPayload_ok. cbn [res_bind].
  destruct (String.eqb_spec signature (mac_of encoded)) as [->|]; [|done]. intros _. exists encoded.
  assert (map bytes (Split token ".") = [bytes version; bytes encoded; bytes (mac_of encoded)]) as Hb by by rewrite Hs.
  unfold Split in Hb. rewrite map_map in Hb. rewrite (map_ext _ id) in Hb by apply bytes_of_bytes. rewrite map_id in Hb.
  apply split_three in Hb as [Hb Hf]. split; [|done]. apply bytes_inj. by rewrite bytes_token.
Qed.
End envelope.

(** A token is read exactly when it is the version, a payload and
    the keyed digest of the two, and the payload decodes: nothing that the holder of the secret
    did not sign is ever accepted, under any reading of the payload. *)
Theorem signed_envelope_authentic getenv fold {A} (read : reader A) out token x :
  VerifyJSON getenv fold read out token = Ok x ↔
  ∃ key encoded decoded tree, secret getenv fold = Ok key ∧ token = token_of key encoded ∧ free "." (bytes encoded) ∧
    RawURLDecode encoded = Some decoded ∧ ReadTree decoded = Some tree ∧ read tree out = Some x.
Proof.
  split.
  - intros H. destruct (secret getenv fold) as [key|e] eqn:Hkey.
    + destruct (verify_only getenv fold key Hkey _ _ _ _ H) as (encoded & -> & Hf). rewrite (verify_token _ _ key) in H by done.
      destruct (RawURLDecode encoded) as [decoded|] eqn:Hd; [|done]. cbn [mbind option_bind] in H.
      destruct (ReadTree decoded) as [tree|] eqn:Ht; [|done]. cbn [mbind option_bind] in H.
      destruct (read tree out) as [y|] eqn:Hr; [|done]. injection H as ->. by exists key, encoded, decoded, tree.
    + exfalso. unfold VerifyJSON, signPayload in H. rewrite Hkey in H. destruct (Split token ".") as [|? [|? [|? [|]]]]; try done. by destruct (String.eqb _ _).
  - intros (key & encoded & decoded & tree & Hkey & -> & Hf & Hd & Ht & Hr). rewrite (verify_token _ _ key) by done.
    rewrite Hd. cbn [mbind option_bind]. rewrite Ht. cbn [mbind option_bind]. by rewrite Hr.
Qed.

(** ** Purpose and lifetime *)

(** The field that a known member sets. *)
Ltac known_fields := repeat match goal with |- context [field_of ?l ?k] => let v := eval vm_compute in (field_of l k) in change (field_of l k) with v end; cbn beta iota.
Lemma envelope_fields purpose payload iat exp : 0 ≤ iat ≤ max_int64 → 0 ≤ exp ≤ max_int64 →
  read_envelope (envelope_tree purpose payload iat exp) (MkEnvelope "" None 0 0) = Some (MkEnvelope purpose (Some payload) iat exp).
Proof.
  intros Hi He. unfold read_envelope, read_struct, envelope_tree. cbn [read_fields].
  known_fields.
  unfold envelope_set. cbn -[num_int bytes Itoa]. rewrite !read_numeral by done. reflexivity.
Qed.
Lemma numeral_good depth n : 0 ≤ n → good_tree depth (JNum (bytes (Itoa n))).
Proof. intros Hn. exists n. split; [done|]. unfold Itoa. rewrite (proj2 (Z.ltb_ge n 0)) by done. by rewrite bytes_of_bytes. Qed.
Lemma envelope_good purpose payload iat exp : ascii_text purpose = true → good_tree 2 payload → 0 ≤ iat → 0 ≤ exp →
  good_tree 1 (envelope_tree purpose payload iat exp).
Proof.
  intros Hp Hg Hi He. split; [by vm_compute; lia|]. repeat apply Forall_cons_2; [..|constructor]; split; try reflexivity; try done; by apply numeral_good.
Qed.

Section signed.
Context (getenv : string → string) (fold : string → string → bool) {T : Type} (write : T → json).
Context (purpose : string) (payload : T) (ttl now : Z).
Hypothesis Hascii : ascii_text purpose = true.
Hypothesis Hgood : good_tree 2 (write payload).
Hypothesis Hnow : 0 < now ≤ max_int64.

Lemma signAt_times token e : signAt getenv fold write purpose payload ttl now = Ok (token, e) →
  e = MkEnvelope purpose payload now (now + ttl) ∧ purpose ≠ "" ∧ 0 < ttl ∧ now + ttl ≤ max_int64 ∧
  SignJSON getenv fold (envelope_tree purpose (write payload) now (now + ttl)) = Ok token.
Proof.
  unfold signAt. destruct (_ || _) eqn:Hc; [done|]. bool_split. cbn [env_ExpiresAt].
  rewrite wrap64_id in * by (unfold min_int64, max_int64 in *; lia).
  destruct (String.eqb_spec purpose ""); [done|]. rewrite wrap64_id by (unfold min_int64, max_int64 in *; lia).
  destruct (SignJSON _ _ _) eqn:Hs; [|done]. cbn [res_bind]. intros [= <- <-]. split_and!; [done|done|lia|lia|done].
Qed.
(** A signed token under any expected purpose, at any time and under any reading. *)
Lemma verify_signedAt token e {U} (read : reader U) zero q later : signAt getenv fold write purpose payload ttl now = Ok (token, e) →
  verifyAt getenv fold read zero token q later =
  if String.eqb purpose q && (later <? now + ttl) then
    match read (write payload) zero with Some y => Ok (MkEnvelope purpose y now (now + ttl)) | None => Err ErrInvalid end
  else Err ErrInvalid.
Proof.
  intros (_ & Hne & Httl & Hmax & Hs)%signAt_times.
  destruct (secret getenv fold) as [key|err] eqn:Hkey; [|by unfold SignJSON, signPayload in Hs; rewrite Hkey in Hs].
  unfold verifyAt. rewrite (verify_signed getenv fold key Hkey _ _ (envelope_tree purpose (write payload) now (now + ttl))) by (done || apply envelope_good; done || lia).
  rewrite envelope_fields by lia. cbn [res_bind env_Purpose env_IssuedAt env_ExpiresAt env_Payload].
  rewrite (proj2 (Z.leb_gt now 0)) by lia. rewrite (proj2 (Z.leb_gt (now + ttl) now)) by lia. rewrite !orb_false_r.
  rewrite (Z.leb_antisym later (now + ttl)). destruct (String.eqb_spec purpose q) as [->|Hq].
  - rewrite (proj2 (String.eqb_neq q "") Hne). cbn [negb orb andb]. by destruct (later <? now + ttl).
  - cbn [negb andb]. by rewrite orb_true_r.
Qed.
End signed.

Lemma signAt_issues getenv fold key {T} (write : T → json) purpose payload ttl now :
  secret getenv fold = Ok key → purpose ≠ "" → 0 < ttl → 0 < now → now + ttl ≤ max_int64 →
  ∃ token e, signAt getenv fold write purpose payload ttl now = Ok (token, e) ∧ token ≠ "".
Proof.
  intros Hkey Hp Httl Hnow Hmax. unfold signAt. rewrite !wrap64_id by (unfold min_int64, max_int64 in *; lia).
  rewrite (proj2 (Z.leb_gt ttl 0)), (proj2 (Z.ltb_ge (max_int64 - now) ttl)), (proj2 (String.eqb_neq purpose "") Hp) by lia.
  cbn [orb]. rewrite (sign_token _ _ key) by done. do 2 eexists. split; [reflexivity|].
  intros Hv. apply (f_equal bytes) in Hv. rewrite bytes_token in Hv. done.
Qed.

Lemma signed_not_empty getenv fold tree token : SignJSON getenv fold tree = Ok token → token ≠ "".
Proof.
  unfold SignJSON. destruct (signPayload _ _ _) as [sig|] eqn:He; [|done]. cbn. intros [= <-] Hv. apply (f_equal bytes) in Hv. done.
Qed.
(** ** Sessions *)

Lemma session_fields id : read_session (session_tree id) "" = Some id.
Proof.
  unfold read_session, read_struct, session_tree. cbn [read_fields].
  by known_fields.
Qed.
Lemma session_good id : ascii_text id = true → good_tree 2 (session_tree id).
Proof. intros Hid. split; [by vm_compute; lia|]. constructor; [|constructor]. by split. Qed.

(** A cookie that was issued, at every moment. *)
Lemma created_cookie_reads getenv fold id ttl now token : ascii_text id = true → 0 < now ≤ max_int64 → CreateToken getenv fold id ttl now = Ok token →
  tok_ExpiresAt token = now + ttl ∧ ∀ later, ReadSessionID getenv fold (Some (tok_Value token)) later = if later <? now + ttl then id else "".
Proof.
  intros Hid Hnow. unfold CreateToken. case_match; [done|]. destruct (signAt _ _ _ _ _ _ _) as [[value e]|] eqn:Hsign; [|done]. cbn [res_bind].
  intros [= <-]. cbn [tok_ExpiresAt tok_Value fst snd].
  pose proof (signAt_times getenv fold session_tree session_purpose id ttl now Hnow _ _ Hsign) as (-> & _ & _ & _ & Hs). split; [done|].
  intros later. unfold ReadSessionID. rewrite (proj2 (String.eqb_neq value "") (signed_not_empty _ _ _ _ Hs)).
  rewrite (verify_signedAt _ _ session_tree session_purpose id ttl now ltac:(reflexivity) (session_good _ Hid) Hnow _ _ _ _ _ _ Hsign).
  rewrite session_fields. cbn [andb String.eqb Ascii.eqb session_purpose]. by destruct (later <? now + ttl).
Qed.

(** C32: for a session id and a positive lifetime, a process with a secret
    issues a session cookie; the cookie gives back that id at every moment before the
    signed expiry and nothing from the expiry on. *)
Theorem session_cookie_roundtrip getenv fold key id ttl now :
  secret getenv fold = Ok key → ascii_text id = true → id ≠ "" → 0 < now → 0 < ttl → now + ttl ≤ max_int64 →
  ∃ token, CreateToken getenv fold id ttl now = Ok token ∧ tok_ExpiresAt token = now + ttl ∧
    ∀ later, ReadSessionID getenv fold (Some (tok_Value token)) later = if later <? now + ttl then id else "".
Proof.
  intros Hkey Hid Hne Hnow Httl Hmax.
  destruct (signAt_issues getenv fold key session_tree session_purpose id ttl now Hkey ltac:(done) Httl Hnow Hmax) as (value & e & Hsign & Hvalue).
  assert (CreateToken getenv fold id ttl now = Ok (MkToken value (env_ExpiresAt e))) as Hc
    by (unfold CreateToken; by rewrite (proj2 (String.eqb_neq id "") Hne), Hsign).
  eexists. split; [exact Hc|]. by eapply created_cookie_reads; [|unfold max_int64 in *; lia|].
Qed.
Lemma session_cookie_roundtrip_witness :
  ∃ token, CreateToken (λ _, "") (λ _ _, false) "session-7" 60 1000 = Ok token ∧ tok_ExpiresAt token = 1060 ∧
    ReadSessionID (λ _, "") (λ _ _, false) (Some (tok_Value token)) 1059 = "session-7" ∧
    ReadSessionID (λ _, "") (λ _ _, false) (Some (tok_Value token)) 1060 = "".
Proof.
  destruct (session_cookie_roundtrip (λ _, "") (λ _ _, false) devSecret "session-7" 60 1000) as (token & Hc & He & Hr); try reflexivity; try done.
  exists token. split; [exact Hc|]. split; [exact He|]. split; [exact (Hr 1059)|exact (Hr 1060)].
Defined.

(** ** Resume tokens *)

Definition ascii_binding (b : Binding) : Prop :=
  ascii_text (bin_OrgID b) = true ∧ ascii_text (bin_RunID b) = true ∧ ascii_text (bin_NodeID b) = true ∧ ascii_text (bin_Purpose b) = true.
Lemma payload_good b iat exp : ascii_binding b → 0 ≤ iat → 0 < exp → good_tree 1 (payload_tree (MkPayload b iat exp)).
Proof.
  intros (Ho & Hr & Hn & Hp) Hi He. unfold payload_tree. cbn [pay_binding pay_IssuedAt pay_ExpiresAt].
  rewrite (proj2 (Z.eqb_neq exp 0)) by lia. split; [by vm_compute; lia|].
  repeat apply Forall_cons_2; [..|constructor]; split; try reflexivity; try done; apply numeral_good; lia.
Qed.
Lemma payload_fields b iat exp : 0 ≤ iat ≤ max_int64 → 0 < exp ≤ max_int64 →
  read_payload (payload_tree (MkPayload b iat exp)) (MkPayload (MkBinding "" "" "" "") 0 0) = Some (MkPayload b iat exp).
Proof.
  intros Hi He. unfold payload_tree. cbn [pay_binding pay_IssuedAt pay_ExpiresAt]. rewrite (proj2 (Z.eqb_neq exp 0)) by lia.
  unfold read_payload, read_struct. cbn [read_fields app]. known_fields. unfold payload_set. cbn -[num_int bytes Itoa].
  rewrite !read_numeral by lia. destruct b. reflexivity.
Qed.
Lemma signResume_ok getenv fold b ttl now token : 0 < now → now + DefaultTTLSeconds ≤ max_int64 → SignResume getenv fold b ttl now = Ok token →
  MinTTLSeconds ≤ ttl ≤ DefaultTTLSeconds ∧ SignJSON getenv fold (payload_tree (MkPayload b now (now + ttl))) = Ok token.
Proof.
  intros Hnow Hmax. unfold SignResume. destruct (_ || _) eqn:Hc; [done|]. bool_split. intros Hs. split; [lia|].
  by rewrite wrap64_id in Hs by (unfold min_int64, max_int64, MinTTLSeconds, DefaultTTLSeconds in *; lia).
Qed.
Lemma signed_secret getenv fold payload token : SignJSON getenv fold payload = Ok token → ∃ key, secret getenv fold = Ok key.
Proof. unfold SignJSON, signPayload. destruct (secret _ _); [eauto|done]. Qed.

Lemma signResume_issues getenv fold key b ttl now : secret getenv fold = Ok key → MinTTLSeconds ≤ ttl ≤ DefaultTTLSeconds →
  ∃ token, SignResume getenv fold b ttl now = Ok token.
Proof.
  intros Hkey Httl. unfold SignResume. rewrite (proj2 (Z.ltb_ge ttl MinTTLSeconds)), (proj2 (Z.ltb_ge DefaultTTLSeconds ttl)) by lia.
  rewrite (sign_token _ _ key) by done. by eexists.
Qed.

(** A resume token is issued only for a lifetime between five minutes and
    seven days, and is then accepted exactly for its own organisation, run, node and purpose and
    exactly until its signed expiry; every refusal is the same error. *)
Theorem resume_token_binds getenv fold b ttl now token :
  ascii_binding b → 0 < now → now + DefaultTTLSeconds ≤ max_int64 → SignResume getenv fold b ttl now = Ok token →
  MinTTLSeconds ≤ ttl ≤ DefaultTTLSeconds ∧
  ∀ expected later, VerifyResume getenv fold token expected later =
    if bool_decide (b = expected) && (later <? now + ttl) then Ok (MkPayload b now (now + ttl)) else Err ErrInvalid.
Proof.
  intros Hb Hnow Hmax (Httl & Hs)%signResume_ok; [|done..]. split; [done|]. intros expected later.
  destruct (signed_secret _ _ _ _ Hs) as [key Hkey]. unfold MinTTLSeconds, DefaultTTLSeconds in *. unfold VerifyResume.
  rewrite (verify_signed getenv fold key Hkey _ _ (payload_tree (MkPayload b now (now + ttl)))) by (done || apply payload_good; done || lia).
  rewrite payload_fields by (unfold max_int64 in *; lia). cbn [res_bind pay_binding pay_IssuedAt pay_ExpiresAt].
  rewrite (proj2 (Z.eqb_neq now 0)) by lia. rewrite orb_false_r. destruct (bool_decide (b = expected)); [|done]. cbn [negb andb].
  rewrite (proj2 (Z.eqb_neq (now + ttl) 0)) by lia. rewrite (proj2 (Z.leb_gt (now + ttl) now)) by lia.
  rewrite wrap64_id by (unfold min_int64, max_int64 in *; lia). rewrite (proj2 (Z.ltb_ge _ (now + ttl - now))) by (unfold DefaultTTLSeconds; lia).
  cbn [orb]. rewrite (Z.leb_antisym later (now + ttl)). by destruct (later <? now + ttl).
Qed.
Lemma resume_token_binds_witness :
  ∃ token, SignResume (λ _, "") (λ _ _, false) (MkBinding "org" "run" "ask" "form") 600 1000 = Ok token ∧
    VerifyResume (λ _, "") (λ _ _, false) token (MkBinding "org" "run" "ask" "form") 1599 = Ok (MkPayload (MkBinding "org" "run" "ask" "form") 1000 1600) ∧
    VerifyResume (λ _, "") (λ _ _, false) token (MkBinding "org" "other" "ask" "form") 1599 = Err ErrInvalid.
Proof.
  destruct (signResume_issues (λ _, "") (λ _ _, false) devSecret (MkBinding "org" "run" "ask" "form") 600 1000) as [token Hs]; [reflexivity|by vm_compute|].
  destruct (resume_token_binds (λ _, "") (λ _ _, false) (MkBinding "org" "run" "ask" "form") 600 1000 token) as [_ Hv];
    [by repeat split|lia|vm_compute; discriminate|exact Hs|].
  exists token. split; [exact Hs|]. split; [exact (Hv (MkBinding "org" "run" "ask" "form") 1599)|exact (Hv (MkBinding "org" "other" "ask" "form") 1599)].
Defined.

(** ** Tokens of one kind are of no use for another *)

Lemma envelope_as_payload purpose payload iat exp : 0 ≤ iat ≤ max_int64 → 0 ≤ exp ≤ max_int64 →
  read_payload (envelope_tree purpose payload iat exp) (MkPayload (MkBinding "" "" "" "") 0 0) = Some (MkPayload (MkBinding "" "" "" purpose) iat exp).
Proof.
  intros Hi He. unfold envelope_tree, read_payload, read_struct. cbn [read_fields app]. known_fields. unfold payload_set. cbn -[num_int bytes Itoa].
  rewrite !read_numeral by lia. reflexivity.
Qed.
Lemma payload_as_envelope b iat exp : 0 ≤ iat ≤ max_int64 → 0 < exp ≤ max_int64 →
  read_envelope (payload_tree (MkPayload b iat exp)) (MkEnvelope "" None 0 0) = Some (MkEnvelope (bin_Purpose b) None iat exp).
Proof.
  intros Hi He. unfold payload_tree. cbn [pay_binding pay_IssuedAt pay_ExpiresAt]. rewrite (proj2 (Z.eqb_neq exp 0)) by lia.
  unfold read_envelope, read_struct. cbn [read_fields app]. known_fields. unfold envelope_set. cbn -[num_int bytes Itoa].
  rewrite !read_numeral by lia. reflexivity.
Qed.

(** C31: a token signed for one purpose is refused under every other purpose, a
    resume token is refused as a session, as a login state and under any purpose at all, and a
    purpose-bound token is refused as a resume token of any organisation, at every time. *)
Theorem tokens_do_not_cross getenv fold {T} (write : T → json) purpose payload ttl now token e b rttl rtoken :
  ascii_text purpose = true → good_tree 2 (write payload) → ascii_binding b → 0 < now → now + DefaultTTLSeconds ≤ max_int64 →
  signAt getenv fold write purpose payload ttl now = Ok (token, e) → SignResume getenv fold b rttl now = Ok rtoken →
  (∀ {U} (read : reader U) zero q later, q ≠ purpose → verifyAt getenv fold read zero token q later = Err ErrInvalid) ∧
  (∀ {U} (read : reader U) zero q later, verifyAt getenv fold read zero rtoken q later = Err ErrInvalid) ∧
  (∀ expected later, bin_OrgID expected ≠ "" → VerifyResume getenv fold token expected later = Err ErrInvalid).
Proof.
  intros Hp Hg Hb Hnow Hmax Hsign Hresume. unfold DefaultTTLSeconds in Hmax. split_and!.
  - intros U read zero q later Hq. rewrite (verify_signedAt _ _ write purpose payload ttl now Hp Hg ltac:(lia) _ _ _ _ _ _ Hsign).
    by rewrite (proj2 (String.eqb_neq purpose q)) by congruence.
  - intros U read zero q later. apply signResume_ok in Hresume as (Httl & Hs); [|done|done].
    destruct (signed_secret _ _ _ _ Hs) as [key Hkey]. unfold MinTTLSeconds, DefaultTTLSeconds in *. unfold verifyAt.
    rewrite (verify_signed getenv fold key Hkey _ _ (payload_tree (MkPayload b now (now + rttl)))) by (done || apply payload_good; done || lia).
    rewrite payload_as_envelope by lia. cbn [res_bind]. by destruct (_ || _).
  - intros expected later Horg. pose proof (signAt_times getenv fold write purpose payload ttl now ltac:(lia) _ _ Hsign) as (_ & Hne & Httl & Hle & Hs).
    destruct (signed_secret _ _ _ _ Hs) as [key Hkey]. unfold VerifyResume.
    rewrite (verify_signed getenv fold key Hkey _ _ (envelope_tree purpose (write payload) now (now + ttl))) by (done || apply envelope_good; done || lia).
    rewrite envelope_as_payload by lia. cbn [res_bind pay_binding]. rewrite bool_decide_eq_false_2; [done|]. by intros <-.
Qed.
Lemma tokens_do_not_cross_witness :
  ∃ token e rtoken,
    signAt (λ _, "") (λ _ _, false) session_tree session_purpose "session-7" 60 1000 = Ok (token, e) ∧
    SignResume (λ _, "") (λ _ _, false) (MkBinding "org" "run" "ask" "sso_session") 600 1000 = Ok rtoken ∧
    VerifyState (λ _, "") (λ _ _, false) token 1001 = Err ErrInvalid ∧
    ReadSessionID (λ _, "") (λ _ _, false) (Some rtoken) 1001 = "".
Proof.
  destruct (signAt_issues (λ _, "") (λ _ _, false) devSecret session_tree session_purpose "session-7" 60 1000) as (token & e & Hs & _); [reflexivity|done|lia|lia|by vm_compute|].
  destruct (signResume_issues (λ _, "") (λ _ _, false) devSecret (MkBinding "org" "run" "ask" "sso_session") 600 1000) as [rtoken Hr]; [reflexivity|by vm_compute|].
  destruct (tokens_do_not_cross (λ _, "") (λ _ _, false) session_tree session_purpose "session-7" 60 1000 token e (MkBinding "org" "run" "ask" "sso_session") 600 rtoken)
    as (H1 & H2 & _); [reflexivity|by apply session_good|by repeat split|lia|vm_compute; discriminate|exact Hs|exact Hr|].
  exists token, e, rtoken. split_and!; [exact Hs|exact Hr| |].
  - unfold VerifyState. rewrite H1; [reflexivity|]. discriminate.
  - unfold ReadSessionID. rewrite H2. by destruct (String.eqb rtoken "").
Defined.

(** ** Webhook signatures *)

Lemma hex_decode_even l out : hex_decode l = Some out → Nat.odd (length l) = false.
Proof.
  revert out. assert (∀ n l out, (length l < n)%nat → hex_decode l = Some out → Nat.odd (length l) = false) as H; [|intros out; apply (H (S (length l))); lia].
  clear l. induction n as [|n IH]; intros l out Hn Hd; [lia|]. destruct l as [|a [|b l]]; [done|done|]. cbn [hex_decode length] in *.
  destruct (hex_value a), (hex_value b), (hex_decode l) eqn:Hl; try discriminate Hd. cbn [Nat.odd Nat.even] in *.
  unfold Nat.odd in *. cbn [Nat.even]. eapply IH; [|done]. lia.
Qed.
Lemma try_candidates_spec expected cands saw :
  (try_candidates expected cands saw).2 = true ↔ ∃ c, c ∈ cands ∧ HexDecode c = Some expected.
Proof.
  revert saw. induction cands as [|c cands IH]; intros saw; cbn [try_candidates].
  { split; [done|]. by intros (c & Hc%not_elem_of_nil & _). }
  assert (HexDecode c ≠ Some expected → (∃ d, d ∈ cands ∧ HexDecode d = Some expected) ↔ (∃ d, d ∈ c :: cands ∧ HexDecode d = Some expected)) as Hskip.
  { intros Hne. split; intros (d & Hd & Hx); exists d; (split; [|done]); [by right|]. apply elem_of_cons in Hd as [->|]; done. }
  destruct (Nat.odd (len c)) eqn:Hodd.
  { rewrite IH. apply Hskip. intros Hx. apply hex_decode_even in Hx. unfold len in Hodd. congruence. }
  destruct (HexDecode c) as [decoded|] eqn:Hd; [|rewrite IH; by apply Hskip].
  destruct (Nat.eqb_spec (length decoded) (length expected)) as [|Hlen]; cbn [negb].
  - destruct (bool_decide_reflect (decoded = expected)) as [->|Hne]; [|rewrite IH; apply Hskip; congruence].
    split; [|done]. intros _. exists c. split; [by left|done].
  - rewrite IH. apply Hskip. congruence.
Qed.
(** The seconds of a timestamp, and whether it is close enough to the clock. *)
Definition seconds_of (posture : Posture) (value : Z) : Z := if pos_TimestampMillis posture then Z.quot value 1000 else value.
Definition fresh (timestampRaw : string) (now : Z) (posture : Posture) : Prop :=
  pos_ToleranceSeconds posture ≤ 0 ∨
  ∃ value, Atoi timestampRaw = Some value ∧ 0 < value ∧ Z.abs (now - seconds_of posture value) ≤ pos_ToleranceSeconds posture.
Lemma seconds_range posture value : 0 < value ≤ max_int64 → 0 ≤ seconds_of posture value ≤ max_int64.
Proof.
  intros Hv. unfold seconds_of. destruct (pos_TimestampMillis posture); [|lia]. rewrite Z.quot_div_nonneg by lia.
  split; [by apply Z.div_pos; lia|]. transitivity value; [|lia]. apply Z.div_le_upper_bound; lia.
Qed.
Lemma check_fresh t now posture : 0 ≤ now ≤ max_int64 → pos_ToleranceSeconds posture ≤ max_int64 →
  (∃ seconds, check_timestamp t now posture = Ok seconds) ↔ fresh t now posture.
Proof.
  intros Hnow Htol. unfold check_timestamp, fresh. destruct (Z.ltb_spec 0 (pos_ToleranceSeconds posture)) as [Hpos|]; [|split; [by left|eauto]].
  destruct (Atoi t) as [value|] eqn:Ht.
  2: { split; [by intros (? & ?)|]. intros [?|(? & ? & _)]; [lia|done]. }
  destruct (Z.leb_spec value 0).
  { split; [by intros (? & ?)|]. intros [?|(? & [= ->] & ? & _)]; lia. }
  apply Atoi_range in Ht as Hr. pose proof (seconds_range posture value ltac:(lia)) as Hsec. cbv zeta. fold (seconds_of posture value).
  rewrite !wrap64_id by (unfold min_int64, max_int64 in *; lia).
  destruct (Z.ltb_spec (pos_ToleranceSeconds posture) (now - seconds_of posture value)).
  { split; [by intros (? & ?)|]. intros [?|(? & [= ->] & ? & ?)]; lia. }
  destruct (Z.ltb_spec (now - seconds_of posture value) (- pos_ToleranceSeconds posture)).
  { split; [by intros (? & ?)|]. intros [?|(? & [= ->] & ? & ?)]; lia. }
  split; [|eauto]. intros _. right. exists value. split_and!; [done|lia|lia].
Qed.
Lemma check_reason t now posture reason : check_timestamp t now posture = Err reason → reason ≠ "".
Proof. unfold check_timestamp. repeat case_match; intros [= <-]; by repeat case_match. Qed.

Lemma verify_accepts timestampRaw candidates body secret now posture :
  0 ≤ now ≤ max_int64 → pos_ToleranceSeconds posture ≤ max_int64 →
  (Verify timestampRaw candidates body secret now posture).2 = "" ↔
  secret ≠ "" ∧ fresh timestampRaw now posture ∧
  ∃ c, c ∈ candidates ∧ HexDecode c = Some (HMAC (bytes secret) (bytes (pos_Compose posture timestampRaw body))).
Proof.
  intros Hnow Htol. unfold Verify. destruct (String.eqb_spec secret "") as [->|Hs]; [by split; [|intros (? & _)]|].
  rewrite <-check_fresh, <-(try_candidates_spec _ _ false) by done.
  destruct (check_timestamp _ _ _) as [seconds|reason] eqn:Hc.
  - destruct (try_candidates _ _ _) as [saw valid]. cbn [snd]. destruct valid; cbn [negb].
    + split; [|done]. intros _. by split_and!; [|exists seconds|].
    + split; [by destruct saw|]. by intros (_ & _ & ?).
  - apply check_reason in Hc. cbn [snd]. split; [done|]. by intros (_ & (? & ?) & _).
Qed.

(** C33: a webhook is accepted exactly when a secret is configured, its
    timestamp (where the provider has one) is positive and within the tolerance on both sides
    of the clock, and one of its candidates is the hexadecimal text of the keyed digest of what
    the provider signs: malformed candidates are skipped and never decide. So PagerDuty's
    route accepts only a digest of the body, and Slack's only a digest of the time and the
    body, at most five minutes old or ahead. *)
Theorem webhook_signature_accepts lower timestampRaw candidates header body secret now posture :
  0 ≤ now ≤ max_int64 → pos_ToleranceSeconds posture ≤ max_int64 →
  ((Verify timestampRaw candidates body secret now posture).2 = "" ↔
   secret ≠ "" ∧ fresh timestampRaw now posture ∧
   ∃ c, c ∈ candidates ∧ HexDecode c = Some (HMAC (bytes secret) (bytes (pos_Compose posture timestampRaw body)))) ∧
  (verifyPagerDutySignature lower body header secret = true →
   secret ≠ "" ∧ ∃ c, c ∈ (ParseHeader lower header "" "v1").2 ∧ HexDecode c = Some (HMAC (bytes secret) (bytes body))) ∧
  ((verifySlackSignature timestampRaw header body secret now).2 = "" →
   secret ≠ "" ∧ (∃ value, Atoi timestampRaw = Some value ∧ 0 < value ∧ Z.abs (now - value) ≤ 300) ∧
   HexDecode (TrimPrefix header "v0=") = Some (HMAC (bytes secret) (bytes ("v0:" +:+ timestampRaw +:+ ":" +:+ body)))).
Proof.
  intros Hnow Htol. split_and!; [by apply verify_accepts| |].
  - unfold verifyPagerDutySignature. destruct (_ || _); [done|]. intros (? & _ & ?)%String.eqb_eq%verify_accepts; done.
  - unfold verifySlackSignature. destruct (String.eqb_spec secret ""); [done|]. destruct (negb _); [done|]. destruct (negb _); [done|].
    intros (_ & Hf & c & Hc & Hd)%verify_accepts; [|done|by vm_compute]. apply list_elem_of_singleton in Hc as ->.
    split_and!; [done| |done]. destruct Hf as [Hf|Hf]; [cbn in Hf; lia|done].
Qed.
Lemma webhook_signature_accepts_witness :
  (Verify "1000" ["xy"; HexEncode (HMAC (bytes "key") (bytes "1000.body"))] "body" "key" 1300 (MkPosture timestamp_dot_body 300 false false)).2 = "" ∧
  (Verify "1000" ["xy"; HexEncode (HMAC (bytes "key") (bytes "1000.body"))] "body" "key" 1301 (MkPosture timestamp_dot_body 300 false false)).2 ≠ "".
Proof.
  split.
  - apply (webhook_signature_accepts id "1000" ["xy"; HexEncode (HMAC (bytes "key") (bytes "1000.body"))] "" "body" "key" 1300 (MkPosture timestamp_dot_body 300 false false));
      [by vm_compute|by vm_compute|]. split; [discriminate|]. split.
    + right. exists 1000. by vm_compute.
    + eexists. split; [right; left|]. vm_compute. reflexivity.
  - intros H. apply (webhook_signature_accepts id "1000" ["xy"; HexEncode (HMAC (bytes "key") (bytes "1000.body"))] "" "body" "key" 1301 (MkPosture timestamp_dot_body 300 false false)) in H;
      [|by vm_compute|by vm_compute]. destruct H as (_ & [Hf|(value & Ha & Hv & Hd)] & _); [by vm_compute in Hf|].
    vm_compute in Ha. injection Ha as <-. by vm_compute in Hd.
Defined.
