(* ===== verification/Process.v ===== *)
(** Processes over shared tables, whatever the tables are: handlers as sequences of
    statements and transactions that may fail, and other processes between them. *)
From S2P Require Import Prelude.
Local Open Scope list_scope.

Section process.
Context {S : Type}.

(** A statement or a transaction: its answer and the tables it leaves, or nothing when the
    database refuses it and rolls it back. *)
Definition op (X : Type) : Type := S → option (X * S).

(** What becomes of an operation: it is served, it fails before it takes effect, or it takes
    effect and its answer is lost. *)
Inductive fate := Served | Dropped | Lost.
Definition serve {X} (f : fate) (o : op X) (s : S) : option X * S :=
  match f with
  | Dropped => (None, s)
  | Served => match o s with Some (x, s') => (Some x, s') | None => (None, s) end
  | Lost => match o s with Some (_, s') => (None, s') | None => (None, s) end
  end.

(** A handler. [Do] goes on with the answer, or with [None] when it has none; [Fresh] draws a
    new identifier, which is not empty. *)
Inductive prog (A : Type) : Type :=
| Ret (a : A)
| Do {X : Type} (o : op X) (k : option X → prog A)
| Fresh (k : string → prog A).
Arguments Ret {A} _.
Arguments Do {A X} _ _.
Arguments Fresh {A} _.

Fixpoint bind {A B} (p : prog A) (f : A → prog B) : prog B :=
  match p with
  | Ret a => f a
  | Do o k => Do o (λ r, bind (k r) f)
  | Fresh k => Fresh (λ id, bind (k id) f)
  end.

(** The handler without others, given the fates of its operations (served when the list ends)
    and its identifiers. *)
Fixpoint run {A} (p : prog A) (fates : list fate) (ids : list string) (s : S) : A * S :=
  match p with
  | Ret a => (a, s)
  | Do o k => let '(r, s') := serve (default Served (head fates)) o s in run (k r) (tail fates) ids s'
  | Fresh k => run (k (default "id"%string (head ids))) fates (tail ids) s
  end.

(** ** Histories *)

(** What one operation of the program does to the tables. *)
Context (step : S → S → Prop).
Fixpoint finishes {A} (p : prog A) (s : S) (a : A) (s' : S) : Prop :=
  match p with
  | Ret b => a = b ∧ s' = s
  | Do o k => ∃ s1 f r s2, rtc step s s1 ∧ serve f o s1 = (r, s2) ∧ finishes (k r) s2 a s'
  | Fresh k => ∃ id, id ≠ EmptyString ∧ finishes (k id) s a s'
  end.
(** A handler that only does what operations of the program do. *)
Fixpoint lawful {A} (p : prog A) : Prop :=
  match p with
  | Ret _ => True
  | Do o k => (∀ s x s', o s = Some (x, s') → rtc step s s') ∧ ∀ r, lawful (k r)
  | Fresh k => ∀ id, id ≠ EmptyString → lawful (k id)
  end.

Lemma serve_lawful {X} (o : op X) f s r s' : (∀ s x s', o s = Some (x, s') → rtc step s s') → serve f o s = (r, s') → rtc step s s'.
Proof. intros Ho. destruct f; cbn; [|by intros [= _ ->]|]; destruct (o s) as [[x s1]|] eqn:He; intros [= _ <-]; try done; by eapply Ho. Qed.
Lemma finishes_rtc {A} (p : prog A) s a s' : lawful p → finishes p s a s' → rtc step s s'.
Proof.
  revert s. induction p as [b|X o k IH|k IH]; intros s Hp; cbn.
  - by intros [_ ->].
  - destruct Hp as [Ho Hk]. intros (s1 & f & r & s2 & Hs & Hr & Hf). etransitivity; [exact Hs|].
    etransitivity; [by eapply serve_lawful|]. by eapply IH.
  - intros (id & Hid & Hf). eapply IH; [by apply Hp|done].
Qed.
(** Sequencing, and the operations that change nothing. *)
Lemma finishes_bind {A B} (p : prog A) (f : A → prog B) s b s' :
  finishes (bind p f) s b s' ↔ ∃ a s1, finishes p s a s1 ∧ finishes (f a) s1 b s'.
Proof.
  revert s. induction p as [a|X o k IH|k IH]; intros s; cbn.
  - split; [by eauto|]. by intros (? & ? & [-> ->] & ?).
  - split.
    + intros (s1 & fa & r & s2 & Hs & Hr & Hf). apply IH in Hf as (a & s3 & Hf & Hb). exists a, s3. split; [|done]. by exists s1, fa, r, s2.
    + intros (a & s3 & (s1 & fa & r & s2 & Hs & Hr & Hf) & Hb). exists s1, fa, r, s2. do 2 (split; [done|]). apply IH. eauto.
  - split.
    + intros (id & Hid & Hf). apply IH in Hf as (a & s3 & Hf & Hb). exists a, s3. split; [|done]. by exists id.
    + intros (a & s3 & (id & Hid & Hf) & Hb). exists id. split; [done|]. apply IH. eauto.
Qed.
Lemma lawful_bind {A B} (p : prog A) (f : A → prog B) : lawful p → (∀ a, lawful (f a)) → lawful (bind p f).
Proof.
  induction p as [a|X o k IH|k IH]; cbn; intros Hp Hf; [done| |].
  - destruct Hp as [Ho Hk]. split; [done|]. intros r. by apply IH.
  - intros id Hid. apply IH; auto.
Qed.
(** A run without others is one of them. *)
Lemma run_finishes {A} (p : prog A) fates ids s : Forall (λ id, id ≠ EmptyString) ids →
  finishes p s (run p fates ids s).1 (run p fates ids s).2.
Proof.
  revert fates ids s. induction p as [b|X o k IH|k IH]; intros fates ids s Hids; cbn; [done| |].
  - destruct (serve (default Served (head fates)) o s) as [r s'] eqn:Hr. exists s, (default Served (head fates)), r, s'.
    split; [done|]. split; [done|]. by apply IH.
  - exists (default "id"%string (head ids)). split; [|by apply IH; destruct Hids]. by destruct Hids.
Qed.

(** ** What every history keeps *)

Context (Inv : S → Prop).
Hypothesis step_keeps : ∀ s s', Inv s → step s s' → Inv s'.
Lemma rtc_keeps s s' : rtc step s s' → Inv s → Inv s'.
Proof. induction 1; [done|]. intros ?. eauto. Qed.
End process.
Arguments op : clear implicits.
Arguments prog : clear implicits.
Arguments Ret {S A} _.
Arguments Do {S A X} _ _.
Arguments Fresh {S A} _.

(** [do! x := o or k in rest]: the answer of [o], or [k] when it has none. *)
Notation "'do!' x ':=' o 'or' e 'in' k" := (Do o (λ r, match r with Some x => k | None => e end))
  (at level 10, x pattern, o at level 200, e at level 200, k at level 200) : go_scope.
(** An operation whose failure the program ignores. *)
Notation "'try!' o 'in' k" := (Do o (λ _, k)) (at level 10, o at level 200, k at level 200) : go_scope.
Notation "'call!' x ':=' p 'in' k" := (bind p (λ x, k)) (at level 10, x pattern, p at level 200, k at level 200) : go_scope.

(** ** Inside a transaction *)

(** A transaction refuses with an error of the handler and rolls back; a statement that the
    database refuses ends it without an answer. *)
Section transactions.
Context {S E : Type}.
Definition tx (A : Type) : Type := S → option (res E (A * S)).
Definition tx_ret {A} (a : A) : tx A := λ s, Some (Ok (a, s)).
Definition tx_refuse {A} (e : E) : tx A := λ _, Some (Err e).
Definition tx_bind {A B} (m : tx A) (k : A → tx B) : tx B := λ s,
  match m s with
  | Some (Ok (a, s')) => k a s'
  | Some (Err e) => Some (Err e)
  | None => None
  end.
Definition tx_do {A} (o : op S A) : tx A := λ s, match o s with Some r => Some (Ok r) | None => None end.
Definition tx_read {A} (f : S → A) : tx A := λ s, Some (Ok (f s, s)).
(** The transaction as an operation. *)
Definition transact {A} (m : tx A) : op S (res E A) := λ s,
  match m s with
  | Some (Ok (a, s')) => Some (Ok a, s')
  | Some (Err e) => Some (Err e, s)
  | None => None
  end.
End transactions.
Arguments tx : clear implicits.
Definition query {S A} (f : S → A) : op S A := λ s, Some (f s, s).
(** A query that answers saw some state of the history. *)
Lemma finishes_query {S A B} (step : S → S → Prop) (f : S → B) (k : option B → prog S A) s a s' :
  finishes step (Do (query f) k) s a s' → ∃ s1 r, rtc step s s1 ∧ (r = None ∨ r = Some (f s1)) ∧ finishes step (k r) s1 a s'.
Proof. intros (s1 & [| |] & r & s2 & Hs & Hr & Hf); cbn in Hr; simplify_eq; eauto 10. Qed.
Lemma lawful_query {S A B} (step : S → S → Prop) (f : S → B) (k : option B → prog S A) :
  (∀ r, lawful step (k r)) → lawful step (Do (query f) k).
Proof. intros Hk. split; [|done]. by intros s x s' [= _ ->]. Qed.
(** The answer of an operation that is served, in a state of the history. *)
Lemma finishes_do {S A X} (step : S → S → Prop) (o : op S X) (k : option X → prog S A) s a s' : finishes step (Do o k) s a s' →
  ∃ s1 s2, rtc step s s1 ∧ ((finishes step (k None) s2 a s' ∧ (s2 = s1 ∨ ∃ x, o s1 = Some (x, s2))) ∨
    ∃ x, o s1 = Some (x, s2) ∧ finishes step (k (Some x)) s2 a s').
Proof.
  intros (s1 & f & r & s2 & Hs & Hr & Hf). destruct r as [x|].
  - destruct f; cbn in Hr; [|done|]; destruct (o s1) as [[y s3]|] eqn:Ho; simplify_eq. exists s1, s2. eauto 6.
  - exists s1, s2. split; [done|]. left. split; [done|].
    destruct f; cbn in Hr; [| |]; try (destruct (o s1) as [[y s3]|] eqn:Ho); simplify_eq; eauto.
Qed.
Notation "'tx!' x ':=' m 'in' k" := (tx_bind m (λ x, k)) (at level 10, x pattern, m at level 200, k at level 200) : go_scope.

(** ** What a transaction that commits did *)

Section committed.
Context {S E : Type}.
Lemma tx_bind_ok {A B} (m : tx S E A) (k : A → tx S E B) s r :
  tx_bind m k s = Some (Ok r) ↔ ∃ a s1, m s = Some (Ok (a, s1)) ∧ k a s1 = Some (Ok r).
Proof.
  unfold tx_bind. split; [|by intros (a & s1 & -> & Hk)].
  destruct (m s) as [[[a s1]|e]|]; try done. eauto.
Qed.
Lemma tx_do_ok {A} (o : op S A) s (r : A * S) : tx_do (E := E) o s = Some (Ok r) ↔ o s = Some r.
Proof. unfold tx_do. destruct (o s); split; congruence. Qed.
Lemma transact_ok {A} (m : tx S E A) s r s' : transact m s = Some (r, s') →
  (∃ a, r = Ok a ∧ m s = Some (Ok (a, s'))) ∨ (∃ e, r = Err e ∧ m s = Some (Err e) ∧ s' = s).
Proof. unfold transact. destruct (m s) as [[[a s1]|e]|]; intros [= <- <-]; eauto. Qed.
End committed.
