(* ===== verification/Permissions.v ===== *)
(** Roles and permissions: the built-in ranks, the closed catalog of permissions, the floor
    under the administrators' override, and the permissions of a role (auth/catalog.go,
    roles.go, parsePermissions of httpapi/roles.go). *)
From S2P Require Import Prelude GoStrings GoFloat GoAny Json JsonTree.
Local Open Scope string_scope.
Local Open Scope list_scope.

(** ** Ranks *)

Definition RoleViewer : string := "viewer".
Definition RoleEditor : string := "editor".
Definition RoleAdmin : string := "admin".
(** A role that is not built in has the rank of a missing entry. *)
Definition Rank (role : string) : nat :=
  if String.eqb role RoleViewer then 1 else if String.eqb role RoleEditor then 2 else if String.eqb role RoleAdmin then 3 else 0.
Definition IsBuiltinRole (name : string) : bool := in_list [RoleViewer; RoleEditor; RoleAdmin] name.

(** ** The catalog *)

Record PermissionEntry := mkPermission { pe_Key : string; pe_Category : string; pe_Description : string; pe_DefaultRoles : list string }.
Definition PermissionCatalog : list PermissionEntry :=
  [mkPermission "workflows.read" "workflows" "View workflows + versions + health" [RoleViewer; RoleEditor; RoleAdmin];
   mkPermission "workflows.write" "workflows" "Save / validate / rollback workflows" [RoleEditor; RoleAdmin];
   mkPermission "runs.read" "runs" "View runs and run history" [RoleViewer; RoleEditor; RoleAdmin];
   mkPermission "runs.start" "runs" "Start runs via /start" [RoleEditor; RoleAdmin];
   mkPermission "runs.cancel" "runs" "Cancel an in-flight run" [RoleEditor; RoleAdmin];
   mkPermission "dlq.read" "dlq" "View DLQ entries + clusters" [RoleViewer; RoleEditor; RoleAdmin];
   mkPermission "dlq.replay" "dlq" "Replay a dead-lettered run/node" [RoleEditor; RoleAdmin];
   mkPermission "recovery.read" "recovery" "View recovery metrics + delta" [RoleViewer; RoleEditor; RoleAdmin];
   mkPermission "recovery.write" "recovery" "Submit recovery feedback, manage recovery items (acknowledge / resolve / comment / escalate)" [RoleEditor; RoleAdmin];
   mkPermission "reports.read" "reports" "Download run and value reports" [RoleViewer; RoleEditor; RoleAdmin];
   mkPermission "reports.deliver" "reports" "Deliver run-explain via Slack / GitHub / webhook" [RoleEditor; RoleAdmin];
   mkPermission "ai.write" "ai" "Use AI generate / patch / suggest / explain" [RoleEditor; RoleAdmin];
   mkPermission "members.read" "members" "View members + invitations" [RoleViewer; RoleEditor; RoleAdmin];
   mkPermission "members.write" "members" "Invite, remove, and change member roles" [RoleAdmin];
   mkPermission "members.role_set" "members" "Change a member's role specifically" [RoleAdmin];
   mkPermission "org.config.write" "org" "Edit org-level configuration (budget, auth policies, …)" [RoleAdmin];
   mkPermission "org.permissions.write" "org" "Manage permission catalog overrides + custom roles" [RoleAdmin];
   mkPermission "mcp.connections.read" "mcp" "View external MCP server connections + cached tool descriptors" [RoleViewer; RoleEditor; RoleAdmin];
   mkPermission "mcp.connections.write" "mcp" "Register / edit / delete external MCP server connections + enable per-tool descriptors" [RoleAdmin];
   mkPermission "autohealing.read" "auto-healing" "View pending supervised auto-healing decisions" [RoleViewer; RoleEditor; RoleAdmin];
   mkPermission "autohealing.decide" "auto-healing" "Apply or decline a pending auto-healing decision; trigger ad-hoc scans (admin only)" [RoleEditor; RoleAdmin];
   mkPermission "prompts.read" "prompts" "View prompts + versions in the PromptOps registry" [RoleViewer; RoleEditor; RoleAdmin];
   mkPermission "prompts.write" "prompts" "Create prompts, append new versions, pin active version" [RoleEditor; RoleAdmin];
   mkPermission "credentials.read" "credentials" "View credentials + credential / MCP connection health" [RoleViewer; RoleEditor; RoleAdmin];
   mkPermission "credentials.write" "credentials" "Register / edit / delete credentials" [RoleAdmin];
   mkPermission "alerts.read" "alerts" "View alert policies and recently fired alerts" [RoleViewer; RoleEditor; RoleAdmin];
   mkPermission "alerts.write" "alerts" "Create / edit / delete recovery alerting policies" [RoleAdmin];
   mkPermission "upstream.read" "upstream" "View upstream health sources + derived status" [RoleViewer; RoleEditor; RoleAdmin];
   mkPermission "upstream.write" "upstream" "Register / edit / delete upstream health sources" [RoleAdmin];
   mkPermission "snippets.read" "snippets" "View built-in + org-private workflow snippets" [RoleViewer; RoleEditor; RoleAdmin];
   mkPermission "snippets.write" "snippets" "Create / edit / delete org-private workflow snippets" [RoleAdmin];
   mkPermission "evals.read" "evals" "View + export eval datasets built from recovery decisions" [RoleViewer; RoleEditor; RoleAdmin];
   mkPermission "evals.write" "evals" "Create / delete eval datasets from opted-in recovery feedback" [RoleAdmin];
   mkPermission "external-runtimes.read" "external-runtimes" "View external runtime connections and read-only lifecycle projections" [RoleViewer; RoleEditor; RoleAdmin];
   mkPermission "external-runtimes.write" "external-runtimes" "Register / edit / delete signed external runtime observers" [RoleAdmin];
   mkPermission "triggers.read" "triggers" "View structured inbound-trigger events + replay history" [RoleViewer; RoleEditor; RoleAdmin];
   mkPermission "triggers.ingest" "triggers" "Submit a normalized inbound trigger event (relay / forwarder)" [RoleEditor; RoleAdmin];
   mkPermission "packs.read" "packs" "View the solution-pack catalog + per-org dependency hints" [RoleViewer; RoleEditor; RoleAdmin];
   mkPermission "packs.install" "packs" "Install a pack as a draft workflow, run a sandbox sample, or start a recovery drill" [RoleEditor; RoleAdmin];
   mkPermission "onboarding.read" "onboarding" "View own onboarding checklist progress" [RoleViewer; RoleEditor; RoleAdmin];
   mkPermission "onboarding.write" "onboarding" "Skip or resume own onboarding checklist" [RoleViewer; RoleEditor; RoleAdmin]].
Definition IsPermission (key : string) : bool := in_list (map pe_Key PermissionCatalog) key.
Definition default_keys (role : string) : list string :=
  map pe_Key (List.filter (λ e, in_list (pe_DefaultRoles e) role) PermissionCatalog).
Definition DefaultPermissionsForRole (role : string) : list string := stable_sort string_less (default_keys role).

Definition MandatoryAdminPermissions : list string := ["org.permissions.write"; "members.write"].
(** The permissions with the floor, and the keys that were added. A nil list is [None]. *)
Definition CoerceAdminFloor (roleName : string) (permissions : option (list string)) : option (list string) * list string :=
  if negb (String.eqb roleName RoleAdmin) then (permissions, [])
  else
    let merged := default [] permissions in
    let coerced := List.filter (λ k, negb (in_list merged k)) MandatoryAdminPermissions in
    (Some (merged ++ coerced), coerced).

(** The requested grants: nil, or keys of the catalog, or why they are refused. *)
Fixpoint permission_keys (l : list any) : option (list string) :=
  match l with
  | [] => Some []
  | AStr key :: l => if IsPermission key then keys ← permission_keys l; Some (key :: keys) else None
  | _ :: _ => None
  end.
Definition parsePermissions (raw : any) : res string (option (list string)) :=
  match raw with
  | ANil => Ok None
  | AArr l => match permission_keys l with Some keys => Ok (Some keys) | None => Err "unknown permission key" end
  | _ => Err "grantedPermissions must be an array"
  end.

(** ** The permissions of a role *)

Record OrgRole := mkOrgRole
  { ro_ID : string; ro_OrgID : string; ro_Name : string; ro_InheritsFrom : string; ro_Description : option string;
    ro_IsBuiltin : bool; ro_Granted : option json }.
Record ResolvedRole := mkResolvedRole { rr_Name : string; rr_InheritsFrom : string }.

(** The column holds SQL's null, or JSON. *)
Definition granted (row : OrgRole) : option json :=
  match ro_Granted row with Some JNull => None | g => g end.
(** [row] is what org_roles holds for the role's name. *)
Definition EffectivePermissions (row : option OrgRole) (role : option ResolvedRole) : list string :=
  match role with
  | None => []
  | Some role =>
      match row ≫= granted with
      | Some tree =>
          match read_slice read_string "" tree [] with
          | None => []
          | Some keys => List.filter IsPermission keys
          end
      | None => if IsBuiltinRole (rr_Name role) then default_keys (rr_InheritsFrom role) else []
      end
  end.
(** Whether a role satisfies a route's annotation: the rank first, then the permission; either
    may be absent. *)
Record routeGate := mkGate { gate_role : string; gate_permission : string }.
Definition rank_ok (gate : routeGate) (role : option ResolvedRole) : bool :=
  String.eqb (gate_role gate) "" ||
  match role with Some r => Nat.leb (Rank (gate_role gate)) (Rank (rr_InheritsFrom r)) | None => false end.
Definition permission_ok (gate : routeGate) (role : option ResolvedRole) (effective : list string) : bool :=
  String.eqb (gate_permission gate) "" ||
  match role with Some _ => in_list effective (gate_permission gate) | None => false end.
