(* ===== verification/OrgTables.v ===== *)
(** The tables of organisations: members, roles, owners, invitations, profiles, browser sessions,
    single sign-on and the audit log, with their statements (store/queries/members.sql,
    auth_sessions.sql, sso.sql and the membership statements of scim.sql) and the trigger that
    protects an owner's membership (schema.sql). *)
From S2P Require Import Prelude GoStrings GoFloat GoAny Json JsonTree Process Permissions.
Local Open Scope string_scope.
Local Open Scope list_scope.

Record Member := mkMember
  { mb_ID : string; mb_OrgID : string; mb_UserID : string; mb_Email : option string; mb_Role : string; mb_InvitedBy : option string }.
Record Invitation := mkInvitation
  { iv_ID : string; iv_OrgID : string; iv_Email : string; iv_Role : string; iv_InvitedBy : option string; iv_Status : string }.
Record AuthSession := mkSession
  { as_ID : string; as_UserID : string; as_Email : string; as_OrgID : string; as_ExpiresAt : Z; as_Revoked : bool }.
Record SsoConnection := mkConnection
  { so_ID : string; so_OrgID : string; so_Provider : string; so_ProviderConnectionID : string; so_Status : string; so_EnforcedSso : bool }.
Record SsoNonce := mkNonce { no_OrgID : string; no_Nonce : string; no_ExpiresAt : Z }.
Record AuditEntry := mkAudit
  { au_OrgID : string; au_UserID : string; au_Action : string; au_TargetType : string; au_TargetID : string; au_Metadata : obj }.

(** [organizations] holds the owner and the name; [configs] the values of org_configs. *)
Record Org := mkOrg
  { org_members : list Member; org_roles : gmap (string * string) OrgRole; organizations : gmap string (string * string);
    invitations : list Invitation; profiles : gmap string (option string * option string); sessions : gmap string AuthSession;
    connections : list SsoConnection; nonces : list SsoNonce; configs : gmap (string * string) json;
    audit_log : list AuditEntry; now : Z }.
Definition empty_org (t : Z) : Org := mkOrg [] ∅ ∅ [] ∅ ∅ [] [] ∅ [] t.
Definition set_members l s := let 'mkOrg _ r o i p e c n f a t := s in mkOrg l r o i p e c n f a t.
Definition set_org_roles r s := let 'mkOrg m _ o i p e c n f a t := s in mkOrg m r o i p e c n f a t.
Definition set_organizations o s := let 'mkOrg m r _ i p e c n f a t := s in mkOrg m r o i p e c n f a t.
Definition set_invitations i s := let 'mkOrg m r o _ p e c n f a t := s in mkOrg m r o i p e c n f a t.
Definition set_profiles p s := let 'mkOrg m r o i _ e c n f a t := s in mkOrg m r o i p e c n f a t.
Definition set_sessions e s := let 'mkOrg m r o i p _ c n f a t := s in mkOrg m r o i p e c n f a t.
Definition set_connections c s := let 'mkOrg m r o i p e _ n f a t := s in mkOrg m r o i p e c n f a t.
Definition set_nonces n s := let 'mkOrg m r o i p e c _ f a t := s in mkOrg m r o i p e c n f a t.
Definition set_configs f s := let 'mkOrg m r o i p e c n _ a t := s in mkOrg m r o i p e c n f a t.
Definition add_audit a s := let 'mkOrg m r o i p e c n f l t := s in mkOrg m r o i p e c n f (l ++ [a]) t.
Definition set_now t s := let 'mkOrg m r o i p e c n f a _ := s in mkOrg m r o i p e c n f a t.

(** ** Members *)

Definition member_key (m : Member) : string * string := (mb_OrgID m, mb_UserID m).
Definition is_member (orgID userID : string) (m : Member) : bool := String.eqb (mb_OrgID m) orgID && String.eqb (mb_UserID m) userID.
(** The owner of an organisation, empty when it has no row. *)
Definition owner_of (s : Org) (orgID : string) : string := default "" (fst <$> organizations s !! orgID).
Definition owns (s : Org) (m : Member) : bool :=
  match organizations s !! mb_OrgID m with Some (owner, _) => String.eqb owner (mb_UserID m) | None => false end.

(** The trigger: the owner's row is not deleted and keeps its user and its role. *)
Definition protected_update (s : Org) (old new : Member) : bool :=
  owns s old && negb (String.eqb (mb_UserID new) (mb_UserID old) && String.eqb (mb_Role new) (mb_Role old)).
(** The rows have distinct identifiers and distinct pairs of organisation and user. *)
Definition members_unique (l : list Member) : bool :=
  bool_decide (NoDup (map member_key l)) && bool_decide (NoDup (map mb_ID l)).
(** [triggers] says whether the statement sets the user or the role. *)
Definition update_members (triggers : bool) (where_ : Member → bool) (set : Member → Member) : op Org Z := λ s,
  let l := map (λ m, if where_ m then set m else m) (org_members s) in
  if triggers && existsb (λ m, where_ m && protected_update s m (set m)) (org_members s) then None
  else if negb (members_unique l) then None
  else Some (Z.of_nat (length (List.filter where_ (org_members s))), set_members l s).
Definition delete_members (where_ : Member → bool) : op Org Z := λ s,
  if existsb (λ m, where_ m && owns s m) (org_members s) then None
  else Some (Z.of_nat (length (List.filter where_ (org_members s))), set_members (List.filter (λ m, negb (where_ m)) (org_members s)) s).
Definition insert_member (m : Member) : op Org unit := λ s,
  if members_unique (org_members s ++ [m]) then Some (tt, set_members (org_members s ++ [m]) s) else None.
Definition with_role (role : string) (m : Member) : Member :=
  mkMember (mb_ID m) (mb_OrgID m) (mb_UserID m) (mb_Email m) role (mb_InvitedBy m).
Definition with_user (userID : string) (m : Member) : Member :=
  mkMember (mb_ID m) (mb_OrgID m) userID (mb_Email m) (mb_Role m) (mb_InvitedBy m).

Definition GetOrgMembership (orgID userID : string) (s : Org) : option Member := head (List.filter (is_member orgID userID) (org_members s)).
Definition ListOrgMembershipsForUser (userID : string) (s : Org) : list Member :=
  List.filter (λ m, String.eqb (mb_UserID m) userID) (org_members s).
Definition FindOrgMemberByEmail (sqlLower : string → string) (orgID email : string) (s : Org) : option Member :=
  head (List.filter (λ m, String.eqb (mb_OrgID m) orgID &&
    match mb_Email m with Some e => String.eqb (sqlLower e) (sqlLower email) | None => false end) (org_members s)).
Definition FindOrgMemberRowByEmail (orgID email : string) (s : Org) : option Member :=
  head (List.filter (λ m, String.eqb (mb_OrgID m) orgID && bool_decide (mb_Email m = Some email)) (org_members s)).
Definition MigrateOrgMemberUserID (id orgID userID : string) : op Org Z :=
  update_members true (λ m, String.eqb (mb_ID m) id && String.eqb (mb_OrgID m) orgID) (with_user userID).
(** The statements repeat the owner's protection: the owner's row does not match. *)
Definition UpdateOrgMemberRole (orgID userID role : string) : op Org Z := λ s,
  update_members true (λ m, is_member orgID userID m && negb (String.eqb (mb_UserID m) (owner_of s orgID))) (with_role role) s.
Definition DeleteOrgMember (orgID userID : string) : op Org Z := λ s,
  delete_members (λ m, is_member orgID userID m && negb (String.eqb (mb_UserID m) (owner_of s orgID))) s.
Definition InsertFounderMembership (id orgID userID : string) (email : option string) : op Org unit :=
  insert_member (mkMember id orgID userID email "admin" None).
(** An upsert: the row of the pair is updated, or the row is inserted. *)
Definition upsert_member (triggers : bool) (m : Member) (set : Member → Member) : op Org unit := λ s,
  match GetOrgMembership (mb_OrgID m) (mb_UserID m) s with
  | Some _ => match update_members triggers (is_member (mb_OrgID m) (mb_UserID m)) set s with Some (_, s') => Some (tt, s') | None => None end
  | None => insert_member m s
  end.
Definition UpsertInvitedIdentityMembership (id orgID userID : string) (email : option string) (role : string) (invitedBy : option string) : op Org unit :=
  upsert_member true (mkMember id orgID userID email role invitedBy)
    (λ m, mkMember (mb_ID m) (mb_OrgID m) (mb_UserID m) email role invitedBy).
Definition UpsertSsoMembership (id orgID userID : string) (email : option string) : op Org unit :=
  upsert_member false (mkMember id orgID userID email "viewer" None)
    (λ m, mkMember (mb_ID m) (mb_OrgID m) (mb_UserID m) email (mb_Role m) (mb_InvitedBy m)).

(** The directory synchronisation writes by email. *)
Definition FindScimMemberByEmail (sqlLower : string → string) (orgID email : string) (s : Org) : option Member :=
  head (List.filter (λ m, String.eqb (mb_OrgID m) orgID &&
    (bool_decide (mb_Email m = Some email) || String.eqb (sqlLower (mb_UserID m)) email)) (org_members s)).
Definition UpdateScimMembershipByEmail (id orgID email role : string) (invitedBy : option string) : op Org Z :=
  update_members true (λ m, String.eqb (mb_ID m) id && String.eqb (mb_OrgID m) orgID)
    (λ m, mkMember (mb_ID m) (mb_OrgID m) (mb_UserID m) (Some email) role
            (match invitedBy with Some i => Some i | None => mb_InvitedBy m end)).
Definition InsertScimMembership (id orgID email role : string) (invitedBy : option string) : op Org unit :=
  insert_member (mkMember id orgID email (Some email) role invitedBy).
Definition DeleteScimMembershipByEmail (orgID email invitedBy : string) : op Org Z :=
  delete_members (λ m, String.eqb (mb_OrgID m) orgID && bool_decide (mb_Email m = Some email) && bool_decide (mb_InvitedBy m = Some invitedBy)).

(** ** Organisations and their owners *)

Definition LockOrganizationOwner (orgID : string) (s : Org) : string := owner_of s orgID.
Definition TransferOrganizationOwner (orgID current new : string) : op Org Z := λ s,
  match organizations s !! orgID with
  | Some (owner, name) =>
      if String.eqb owner current then Some (1%Z, set_organizations (<[orgID := (new, name)]> (organizations s)) s) else Some (0%Z, s)
  | None => Some (0%Z, s)
  end.
Definition InsertIdentityOrganization (id owner name : string) : op Org unit := λ s,
  match organizations s !! id with
  | Some _ => None
  | None => Some (tt, set_organizations (<[id := (owner, name)]> (organizations s)) s)
  end.

(** ** Roles *)

Definition GetOrgRole (orgID name : string) (s : Org) : option OrgRole := org_roles s !! (orgID, name).
Definition InsertOrgRole (r : OrgRole) : op Org unit := λ s,
  match org_roles s !! (ro_OrgID r, ro_Name r) with
  | Some _ => None
  | None => Some (tt, set_org_roles (<[(ro_OrgID r, ro_Name r) := r]> (org_roles s)) s)
  end.
(** A null argument keeps the column; no row is an error of the caller. *)
Definition or_keep {A} (x y : option A) : option A := match x with Some _ => x | None => y end.
Definition UpdateOrgRole (orgID name : string) (grants : option json) (description inherits : option string) : op Org OrgRole := λ s,
  match org_roles s !! (orgID, name) with
  | None => None
  | Some r =>
      let r' := mkOrgRole (ro_ID r) (ro_OrgID r) (ro_Name r) (default (ro_InheritsFrom r) inherits)
                  (or_keep description (ro_Description r)) (ro_IsBuiltin r) (or_keep grants (ro_Granted r)) in
      Some (r', set_org_roles (<[(orgID, name) := r']> (org_roles s)) s)
  end.
Definition DeleteOrgRole (orgID name : string) : op Org unit := λ s, Some (tt, set_org_roles (delete (orgID, name) (org_roles s)) s).
Definition CountMembersInRole (orgID role : string) (s : Org) : Z :=
  Z.of_nat (length (List.filter (λ m, String.eqb (mb_OrgID m) orgID && String.eqb (mb_Role m) role) (org_members s))).

(** ** Invitations and profiles *)

(** One row per organisation and email; a pending one stays. *)
Definition CreateOrReactivateInvitation (id orgID email role invitedBy : string) : op Org Z := λ s,
  let new := mkInvitation id orgID email role (Some invitedBy) "pending" in
  let at_ i := String.eqb (iv_OrgID i) orgID && String.eqb (iv_Email i) email in
  match List.filter at_ (invitations s) with
  | [] => Some (1%Z, set_invitations (invitations s ++ [new]) s)
  | i :: _ =>
      if String.eqb (iv_Status i) "pending" then Some (0%Z, s)
      else Some (1%Z, set_invitations (map (λ j, if at_ j then new else j) (invitations s)) s)
  end.
Definition with_status (status : string) (i : Invitation) : Invitation :=
  mkInvitation (iv_ID i) (iv_OrgID i) (iv_Email i) (iv_Role i) (iv_InvitedBy i) status.
Definition settle_invitation (where_ : Invitation → bool) (status : string) : op Org Z := λ s,
  let hit i := where_ i && String.eqb (iv_Status i) "pending" in
  Some (Z.of_nat (length (List.filter hit (invitations s))),
        set_invitations (map (λ i, if hit i then with_status status i else i) (invitations s)) s).
Definition RevokePendingInvitation (id orgID : string) : op Org Z :=
  settle_invitation (λ i, String.eqb (iv_ID i) id && String.eqb (iv_OrgID i) orgID) "revoked".
Definition MarkIdentityInvitationAccepted (id : string) : op Org Z := settle_invitation (λ i, String.eqb (iv_ID i) id) "accepted".
Definition GetOrgInvitationLockTarget (id orgID : string) (s : Org) : option Invitation :=
  head (List.filter (λ i, String.eqb (iv_ID i) id && String.eqb (iv_OrgID i) orgID) (invitations s)).
Definition GetIdentityInvitationLockTarget (sqlLower : string → string) (id email : string) (s : Org) : option Invitation :=
  head (List.filter (λ i, String.eqb (iv_ID i) id && String.eqb (sqlLower (iv_Email i)) (sqlLower email)) (invitations s)).
Definition LockPendingIdentityInvitation (sqlLower : string → string) (id email : string) (s : Org) : option Invitation :=
  head (List.filter (λ i, String.eqb (iv_ID i) id && String.eqb (sqlLower (iv_Email i)) (sqlLower email) && String.eqb (iv_Status i) "pending") (invitations s)).
Definition UpsertIdentityProfile (id : string) (name email : option string) : op Org unit := λ s,
  let old := default (None, None) (profiles s !! id) in
  Some (tt, set_profiles (<[id := (or_keep name old.1, or_keep email old.2)]> (profiles s)) s).

(** ** Browser sessions and single sign-on *)

Definition live_session (s : Org) (e : AuthSession) : bool := negb (as_Revoked e) && (now s <? as_ExpiresAt e)%Z.
Definition GetActiveAuthSession (id : string) (s : Org) : option AuthSession :=
  match sessions s !! id with Some e => if live_session s e then Some e else None | None => None end.
(** [btrim]: spaces at both ends. *)
Fixpoint trim_spaces (l : list ascii) : list ascii := match l with c :: r => if Ascii.eqb c " " then trim_spaces r else l | [] => [] end.
Definition btrim (t : string) : string := of_bytes (rev (trim_spaces (rev (trim_spaces (bytes t))))).
Definition CreateAuthSession (sqlLower : string → string) (id userID email orgID : string) (expiresAt : Z) : op Org AuthSession := λ s,
  let e := mkSession id userID (sqlLower (btrim email)) orgID expiresAt false in
  match sessions s !! id with Some _ => None | None => Some (e, set_sessions (<[id := e]> (sessions s)) s) end.
Definition RevokeAuthSession (id : string) : op Org unit := λ s,
  Some (tt, set_sessions (alter (λ e, mkSession (as_ID e) (as_UserID e) (as_Email e) (as_OrgID e) (as_ExpiresAt e) true) id (sessions s)) s).
Definition UpdateAuthSessionOrganization (id userID orgID : string) : op Org (option AuthSession) := λ s,
  match sessions s !! id with
  | Some e =>
      if String.eqb (as_UserID e) userID && live_session s e then
        let e' := mkSession (as_ID e) (as_UserID e) (as_Email e) orgID (as_ExpiresAt e) (as_Revoked e) in
        Some (Some e', set_sessions (<[id := e']> (sessions s)) s)
      else Some (None, s)
  | None => Some (None, s)
  end.
Definition FindSsoConnectionForOrg (orgID : string) (s : Org) : option SsoConnection :=
  head (List.filter (λ c, String.eqb (so_OrgID c) orgID && String.eqb (so_Provider c) "workos") (connections s)).
Definition GetSsoConnectionByID (id orgID : string) (s : Org) : option SsoConnection :=
  head (List.filter (λ c, String.eqb (so_ID c) id && String.eqb (so_OrgID c) orgID) (connections s)).
(** One connection per organisation and provider. *)
Definition CreateSsoConnection (id orgID provider connectionID : string) (enforced : bool) : op Org SsoConnection := λ s,
  let c := mkConnection id orgID provider connectionID "active" enforced in
  if existsb (λ d, String.eqb (so_OrgID d) orgID && String.eqb (so_Provider d) provider || String.eqb (so_ID d) id) (connections s) then None
  else Some (c, set_connections (connections s ++ [c]) s).
(** No row is [None]. *)
Definition change_connection (id orgID : string) (set : SsoConnection → SsoConnection) : op Org (option SsoConnection) := λ s,
  match GetSsoConnectionByID id orgID s with
  | None => Some (None, s)
  | Some c => Some (Some (set c), set_connections (map (λ d, if String.eqb (so_ID d) id && String.eqb (so_OrgID d) orgID then set d else d) (connections s)) s)
  end.
Definition UpdateSsoConnection (id orgID : string) (status connectionID : option string) (enforced : option bool) : op Org (option SsoConnection) :=
  change_connection id orgID (λ c, mkConnection (so_ID c) (so_OrgID c) (so_Provider c) (default (so_ProviderConnectionID c) connectionID)
    (default (so_Status c) status) (default (so_EnforcedSso c) enforced)).
Definition RevokeSsoConnection (id orgID : string) : op Org (option SsoConnection) :=
  change_connection id orgID (λ c, mkConnection (so_ID c) (so_OrgID c) (so_Provider c) (so_ProviderConnectionID c) "revoked" (so_EnforcedSso c)).
Definition RecordSsoNonce (orgID nonce : string) (expiresAt : Z) : op Org unit := λ s,
  if existsb (λ n, String.eqb (no_OrgID n) orgID && String.eqb (no_Nonce n) nonce) (nonces s) then None
  else Some (tt, set_nonces (nonces s ++ [mkNonce orgID nonce expiresAt]) s).
(** The live nonce is deleted: at most one caller gets it. *)
Definition ConsumeSsoNonce (orgID nonce : string) : op Org bool := λ s,
  let hit n := String.eqb (no_OrgID n) orgID && String.eqb (no_Nonce n) nonce && (now s <? no_ExpiresAt n)%Z in
  Some (existsb hit (nonces s), set_nonces (List.filter (λ n, negb (hit n)) (nonces s)) s).
Definition CleanupExpiredSsoNonces : op Org unit := λ s, Some (tt, set_nonces (List.filter (λ n, (now s <? no_ExpiresAt n)%Z) (nonces s)) s).
Definition ListAuthPolicyConfigRows (orgID : string) (s : Org) : list (string * json) :=
  omap (λ key, (λ v, (key, v)) <$> configs s !! (orgID, key)) ["auth.allowedEmailDomains"; "auth.mfaRequired"; "auth.sessionTtlSeconds"].
