(* ===== verification/Authz.v ===== *)
(** Who a request is and what it may do: the chain of identity providers and the resolution of
    the tenant (auth/auth.go), the role and permissions of a member (auth/roles.go), the login
    policy of an organisation (authpolicy/policy.go) and the gate in front of every route
    (httpapi/authz.go, v1.go). *)
From S2P Require Import Prelude GoStrings GoFloat GoAny GoInt Json JsonTree Token Process Permissions OrgTables.
Local Open Scope string_scope.
Local Open Scope list_scope.

Inductive Mode := ModeJanuslySession | ModeSupabase | ModeServiceToken | ModeDevHeaders.
#[export] Instance Mode_eq_dec : EqDecision Mode.
Proof. solve_decision. Defined.
Definition mode_text (m : Mode) : string :=
  match m with
  | ModeJanuslySession => "janusly-session" | ModeSupabase => "supabase" | ModeServiceToken => "service-token" | ModeDevHeaders => "dev-headers"
  end.
Definition mode_is (m n : Mode) : bool := bool_decide (m = n).
Inductive Source := SourceWeb | SourceMcp | SourceService | SourceDev | SourceSSO.

Record AuthContext := mkContext
  { cx_OrgID : string; cx_UserID : string; cx_Mode : Mode; cx_Source : Source; cx_ServiceTokenSuffix : string;
    cx_BrowserSessionID : string; cx_MembershipRole : string; cx_Email : string }.
Record Identity := mkIdentity
  { id_UserID : string; id_Email : string; id_Mode : Mode; id_Source : Source; id_OrgHint : string;
    id_ServiceTokenSuffix : string; id_BrowserSessionID : string }.
(** What a provider claims. *)
Record principal := mkPrincipal
  { pr_Mode : Mode; pr_UserID : string; pr_Email : string; pr_OrgHint : string; pr_Source : Source; pr_Suffix : string; pr_SessionID : string }.

(** The headers of a request, empty when absent, and the value of its session cookie. *)
Record Request := mkRequest { rq_Header : string → string; rq_Cookie : option string }.

(** The boot configuration. *)
Record AuthConfig := mkAuthConfig
  { cf_SupabaseURL : string; cf_SupabaseKey : string; cf_ServiceToken : string; cf_Production : bool; cf_AllowDevHeaders : bool }.
Inductive boot_error := ProductionAuth | ProductionDevHeaders.
Definition BootError (c : AuthConfig) : option boot_error :=
  if String.eqb (cf_SupabaseURL c) "" && cf_Production c && negb (cf_AllowDevHeaders c) then Some ProductionAuth
  else if cf_Production c && cf_AllowDevHeaders c && negb (String.eqb (cf_SupabaseURL c) "") then Some ProductionDevHeaders
  else None.
Definition allow_dev (c : AuthConfig) : bool := cf_AllowDevHeaders c || (String.eqb (cf_SupabaseURL c) "" && negb (cf_Production c)).

Definition constantTimeBearerMatch (header expected : string) : bool :=
  if String.eqb header "" || String.eqb expected "" then false
  else
    let want := "Bearer " +:+ expected in
    if negb (Nat.eqb (len header) (len want)) then false else String.eqb header want.

(** A failure of the database. *)
Inductive db_error := DbError.
Abbreviation answer A := (res db_error A).

Section authorisation.
(** The environment, Unicode's tables (Go's and the database's) and the verifier of Supabase's
    tokens, which answers the user and the email. *)
Context (getenv : string → string) (fold : string → string → bool) (lower sqlLower : string → string).
Context (cfg : AuthConfig) (verifySupabase : string → option (string * string)).

(** ** The chain of providers *)

Definition declaredSource (r : Request) (fallback : Source) : Source :=
  if EqualFold fold (rq_Header r "x-janusly-source") "mcp" then SourceMcp else fallback.
(** The last four bytes of the token. *)
Definition token_suffix : string := slice_from (cf_ServiceToken cfg) (len (cf_ServiceToken cfg) - 4).

Definition service_principal (r : Request) : principal :=
  let userID := TrimSpace (rq_Header r "x-user-id") in
  mkPrincipal ModeServiceToken (if String.eqb userID "" then "service" else userID) "" (TrimSpace (rq_Header r "x-org-id"))
    (declaredSource r SourceService) token_suffix "".
(** The providers after the session: Supabase, the service token, the development headers. *)
Definition extract_headers (r : Request) : option principal :=
  let header := rq_Header r "Authorization" in
  if negb (String.eqb (cf_SupabaseURL cfg) "") && HasPrefix header "Bearer " && negb (constantTimeBearerMatch header (cf_ServiceToken cfg)) then
    match verifySupabase (TrimPrefix header "Bearer ") with
    | Some (userID, email) => Some (mkPrincipal ModeSupabase userID email (TrimSpace (rq_Header r "x-org-id")) SourceWeb "" "")
    | None => None
    end
  else if negb (String.eqb (cf_ServiceToken cfg) "") && constantTimeBearerMatch header (cf_ServiceToken cfg) then Some (service_principal r)
  else if allow_dev cfg then
    let orgID := TrimSpace (rq_Header r "x-org-id") in
    let userID := TrimSpace (rq_Header r "x-user-id") in
    if negb (String.eqb orgID "") && negb (String.eqb userID "") then
      Some (mkPrincipal ModeDevHeaders userID "" orgID (declaredSource r SourceDev) "" "")
    else None
  else None.
(** A session that is not live falls through to the headers. The time of the request is [t]. *)
Definition extract (r : Request) (t : Z) : prog Org (answer (option principal)) :=
  let sessionID := ReadSessionID getenv fold (rq_Cookie r) t in
  if String.eqb sessionID "" then Ret (Ok (extract_headers r))
  else
    do! session := query (GetActiveAuthSession sessionID) or Ret (Err DbError) in
    match session with
    | Some e => Ret (Ok (Some (mkPrincipal ModeJanuslySession (as_UserID e) (as_Email e) (as_OrgID e) SourceSSO "" (as_ID e))))
    | None => Ret (Ok (extract_headers r))
    end.
Definition ResolveIdentity (r : Request) (t : Z) : prog Org (answer (option Identity)) :=
  call! p := extract r t in
  Ret (match p with
       | Err e => Err e
       | Ok None => Ok None
       | Ok (Some p) =>
           Ok (Some (mkIdentity (pr_UserID p) (ToLower lower (pr_Email p)) (pr_Mode p) (pr_Source p) (pr_OrgHint p) (pr_Suffix p) (pr_SessionID p)))
       end).

(** ** The login policy of an organisation *)

Record PolicyConfig := mkPolicy { po_AllowedEmailDomains : list string; po_MFARequired : bool; po_SessionTTLSeconds : Z }.
Record Decision := mkDecision { de_Allowed : bool; de_Reason : string; de_PolicyKey : string; de_SessionTTLSeconds : Z }.
Definition PolicyEnforcedSSO : string := "sso_connections.enforced_sso".
Definition PolicyAllowedDomain : string := "auth.allowedEmailDomains".
Definition PolicyMFARequired : string := "auth.mfaRequired".
Definition PolicyUnavailable : string := "auth.policyUnavailable".
Definition defaultConfig : PolicyConfig := mkPolicy [] false 28800.
Definition parseDomains (raw : string) : list string :=
  List.filter (λ d, negb (String.eqb d "")) (map (λ entry, ToLower lower (TrimSpace entry)) (Split raw ",")).
Definition domainAllowed (email : string) (domains : list string) : bool :=
  let '(_, domain, found) := Cut (ToLower lower email) "@" in
  if negb found || String.eqb domain "" then false else in_list domains domain.
Definition apply_row (config : PolicyConfig) (row : string * json) : PolicyConfig :=
  let '(key, value) := row in
  if String.eqb key PolicyAllowedDomain then
    match read_string value "" with
    | Some raw => mkPolicy (parseDomains raw) (po_MFARequired config) (po_SessionTTLSeconds config) | None => config end
  else if String.eqb key PolicyMFARequired then
    match read_bool value false with
    | Some b => mkPolicy (po_AllowedEmailDomains config) b (po_SessionTTLSeconds config) | None => config end
  else if String.eqb key "auth.sessionTtlSeconds" then
    match read_float value (f_of_Z 0) with
    | Some v =>
        if f_leb (f_of_Z 300) v && f_leb v (f_of_Z 86400) then mkPolicy (po_AllowedEmailDomains config) (po_MFARequired config) (trunc_Z v) else config
    | None => config
    end
  else config.
Definition policy_of (rows : list (string * json)) : PolicyConfig := fold_left apply_row rows defaultConfig.
Definition devSSOBypassEnabled : bool := String.eqb (getenv "ALLOW_DEV_SSO_BYPASS") "true" && negb (IsProduction getenv fold).

(** [Decide], on the mode and the email of the caller. *)
Definition Decide (mode : Mode) (email : string) (config : PolicyConfig) (connection : option SsoConnection) (bypass : bool) : Decision :=
  let allowed := mkDecision true "" "" (po_SessionTTLSeconds config) in
  if mode_is mode ModeServiceToken then allowed
  else if (mode_is mode ModeSupabase || mode_is mode ModeDevHeaders) &&
          match connection with Some c => String.eqb (so_Status c) "active" && so_EnforcedSso c && negb bypass | None => false end
  then mkDecision false "org requires SSO login" PolicyEnforcedSSO (po_SessionTTLSeconds config)
  else if negb (bool_decide (po_AllowedEmailDomains config = [])) && (mode_is mode ModeSupabase || mode_is mode ModeJanuslySession) &&
          negb (domainAllowed email (po_AllowedEmailDomains config))
  then mkDecision false "email domain not in allowed list" PolicyAllowedDomain (po_SessionTTLSeconds config)
  else allowed.
(** The answers of the two reads of the policy store. A service token passes whatever they are. *)
Definition evaluate (mode : Mode) (email : string) (config : option PolicyConfig) (connection : option (option SsoConnection)) : Decision :=
  let config' := default defaultConfig config in
  if mode_is mode ModeServiceToken then Decide mode email config' (default None connection) devSSOBypassEnabled
  else
    match config, connection with
    | Some c, Some k => Decide mode email c k devSSOBypassEnabled
    | _, _ => mkDecision false "auth policy store unavailable" PolicyUnavailable (po_SessionTTLSeconds config')
    end.
(** [provided] is the connection that the caller has read already. *)
Definition Evaluate (orgID userID email : string) (mode : Mode) (provided : option (option SsoConnection)) : prog Org Decision :=
  Do (query (ListAuthPolicyConfigRows orgID)) (λ rows,
    let decide_with connection :=
      let d := evaluate mode email (policy_of <$> rows) connection in
      if de_Allowed d then Ret d
      else
        try! (λ s, Some (tt, add_audit (mkAudit orgID userID "auth.policy.rejected" "user" userID
            [("policyKey", AStr (de_PolicyKey d)); ("reason", AStr (de_Reason d)); ("mode", AStr (mode_text mode));
             ("email", if String.eqb email "" then ANil else AStr email)]) s)) in
        Ret d in
    if mode_is mode ModeSupabase || mode_is mode ModeDevHeaders then
      match provided with
      | Some connection => decide_with (Some connection)
      | None => Do (query (FindSsoConnectionForOrg orgID)) (λ c, decide_with c)
      end
    else decide_with (Some None)).

(** ** The tenant of a request *)

Definition context_of (p : principal) (orgID role email sessionID : string) : AuthContext :=
  mkContext orgID (pr_UserID p) (pr_Mode p) (pr_Source p) (pr_Suffix p) sessionID role email.
Definition human_context (p : principal) (orgID role : string) : AuthContext :=
  context_of p orgID role (ToLower lower (pr_Email p)) (pr_SessionID p).
(** The hint selects the tenant; the grant is the member's row. *)
Definition resolveHumanMembership (p : principal) : prog Org (answer (option AuthContext)) :=
  if negb (String.eqb (pr_OrgHint p) "") then
    do! membership := query (GetOrgMembership (pr_OrgHint p) (pr_UserID p)) or Ret (Err DbError) in
    match membership with
    | Some m => Ret (Ok (Some (human_context p (pr_OrgHint p) (mb_Role m))))
    | None =>
        if String.eqb (pr_Email p) "" then Ret (Ok None)
        else
          do! byEmail := query (FindOrgMemberByEmail sqlLower (pr_OrgHint p) (pr_Email p)) or Ret (Err DbError) in
          match byEmail with
          | Some m =>
              if negb (String.eqb (mb_UserID m) (pr_UserID p)) && Contains (mb_UserID m) "@" then
                do! _ := MigrateOrgMemberUserID (mb_ID m) (pr_OrgHint p) (pr_UserID p) or Ret (Err DbError) in
                Ret (Ok (Some (human_context p (pr_OrgHint p) (mb_Role m))))
              else Ret (Ok None)
          | None => Ret (Ok None)
          end
    end
  else
    do! memberships := query (ListOrgMembershipsForUser (pr_UserID p)) or Ret (Err DbError) in
    match memberships with
    | [m] => Ret (Ok (Some (human_context p (mb_OrgID m) (mb_Role m))))
    | _ => Ret (Ok None)
    end.
(** A machine or a development caller: its role is that of its row, empty without one. *)
Definition resolve_direct (p : principal) (orgID : string) : prog Org (answer (option AuthContext)) :=
  do! membership := query (GetOrgMembership orgID (pr_UserID p)) or Ret (Err DbError) in
  Ret (Ok (Some (context_of p orgID (match membership with Some m => mb_Role m | None => "" end)
    (if mode_is (pr_Mode p) ModeServiceToken then "" else pr_Email p) ""))).
Definition resolve_principal (p : principal) : prog Org (answer (option AuthContext)) :=
  match pr_Mode p with
  | ModeSupabase | ModeJanuslySession => resolveHumanMembership p
  | ModeServiceToken => resolve_direct p (if String.eqb (pr_OrgHint p) "" then "default" else pr_OrgHint p)
  | ModeDevHeaders => resolve_direct p (pr_OrgHint p)
  end.
Definition Resolve (r : Request) (t : Z) : prog Org (answer (option AuthContext)) :=
  call! p := extract r t in
  match p with
  | Err e => Ret (Err e)
  | Ok None => Ret (Ok None)
  | Ok (Some p) =>
      call! resolved := resolve_principal p in
      match resolved with
      | Ok (Some c) =>
          call! d := Evaluate (cx_OrgID c) (cx_UserID c) (cx_Email c) (cx_Mode c) None in
          Ret (Ok (if de_Allowed d then Some c else None))
      | other => Ret other
      end
  end.

(** ** Roles and the gate *)

Definition ResolveRoleFromMembership (orgID membershipRole : string) (mode : Mode) : prog Org (answer (option ResolvedRole)) :=
  if String.eqb membershipRole "" then
    Ret (Ok (if mode_is mode ModeDevHeaders then Some (mkResolvedRole RoleAdmin RoleAdmin) else None))
  else if IsBuiltinRole membershipRole then Ret (Ok (Some (mkResolvedRole membershipRole membershipRole)))
  else
    do! row := query (GetOrgRole orgID membershipRole) or Ret (Err DbError) in
    Ret (Ok (match row with
             | Some r => if IsBuiltinRole (ro_InheritsFrom r) then Some (mkResolvedRole (ro_Name r) (ro_InheritsFrom r)) else None
             | None => None
             end)).
Definition ResolveMemberRole (orgID userID : string) (mode : Mode) : prog Org (answer (option ResolvedRole)) :=
  do! membership := query (GetOrgMembership orgID userID) or Ret (Err DbError) in
  ResolveRoleFromMembership orgID (match membership with Some m => mb_Role m | None => "" end) mode.
Definition permissionsForResolvedRole (orgID : string) (role : option ResolvedRole) : prog Org (answer (list string)) :=
  match role with
  | None => Ret (Ok [])
  | Some r =>
      do! row := query (GetOrgRole orgID (rr_Name r)) or Ret (Err DbError) in
      Ret (Ok (EffectivePermissions row (Some r)))
  end.

(** Why a request is turned away. *)
Inductive rejection := Internal | RequiresRole (role : string) | RequiresPermission (permission : string) | InvalidOrigin | NotRegistered | Unauthorized.
Definition checkGate (c : AuthContext) (gate : routeGate) : prog Org (option rejection) :=
  call! role := ResolveRoleFromMembership (cx_OrgID c) (cx_MembershipRole c) (cx_Mode c) in
  match role with
  | Err _ => Ret (Some Internal)
  | Ok role =>
      if negb (rank_ok gate role) then Ret (Some (RequiresRole (gate_role gate)))
      else if String.eqb (gate_permission gate) "" then Ret None
      else
        call! effective := permissionsForResolvedRole (cx_OrgID c) role in
        match effective with
        | Err _ => Ret (Some Internal)
        | Ok effective => Ret (if permission_ok gate role effective then None else Some (RequiresPermission (gate_permission gate)))
        end
  end.

(** A route: its method, its annotation in the registry, and whether it needs none. *)
Record Route := mkRoute { rt_Method : string; rt_Gate : option routeGate; rt_AuthOnly : bool }.
Definition unsafeMethod (method : string) : bool := negb (String.eqb method "GET") && negb (String.eqb method "HEAD").
Definition requireSessionCSRF (isAllowedRequestOrigin : string → bool) (r : Request) (method : string) (mode : Mode) : bool :=
  negb (mode_is mode ModeJanuslySession) || negb (unsafeMethod method) || RequireCSRF (rq_Header r) (Some isAllowedRequestOrigin).
(** The middleware: the context handed to the handler, or why there is none. *)
Definition authenticate (isAllowedRequestOrigin : string → bool) (r : Request) (route : Route) (t : Z) : prog Org (res rejection AuthContext) :=
  call! resolved := Resolve r t in
  match resolved with
  | Err _ => Ret (Err Internal)
  | Ok None => Ret (Err Unauthorized)
  | Ok (Some c) =>
      let csrf := if requireSessionCSRF isAllowedRequestOrigin r (rt_Method route) (cx_Mode c) then Ret (Ok c) else Ret (Err InvalidOrigin) in
      match rt_Gate route with
      | Some gate => call! rejected := checkGate c gate in match rejected with Some why => Ret (Err why) | None => csrf end
      | None => if rt_AuthOnly route then csrf else Ret (Err NotRegistered)
      end
  end.
End authorisation.
