(* ===== verification/OrgRoutes.v ===== *)
(** The routes that change an organisation: members and invitations (httpapi/members.go), roles
    and overrides (httpapi/roles.go), the creation of organisations and the acceptance of
    invitations (httpapi/identity.go), from the decoded body on. *)
From S2P Require Import Prelude GoStrings GoFloat GoAny GoInt Regex Json JsonTree Token Process Permissions OrgTables Authz.
Local Open Scope string_scope.
Local Open Scope list_scope.

(** ** Audit rows (audit/audit.go) *)

Definition source_text (s : Source) : string :=
  match s with SourceWeb => "web" | SourceMcp => "mcp" | SourceService => "service" | SourceDev => "dev" | SourceSSO => "sso" end.
(** The metadata with the caller; redaction and the size cap come after ([SafePersist]). *)
Definition enrich (c : option AuthContext) (metadata : obj) : obj :=
  match c with
  | None => metadata
  | Some c =>
      obj_set (obj_set metadata "source" (AStr (source_text (cx_Source c)))) "actor"
        (AObj ([("userId", AStr (cx_UserID c)); ("mode", AStr (mode_text (cx_Mode c)))] ++
               (if String.eqb (cx_ServiceTokenSuffix c) "" then [] else [("serviceTokenSuffix", AStr (cx_ServiceTokenSuffix c))])))
  end.
Definition write_audit (a : AuditEntry) : op Org unit := λ s, Some (tt, add_audit a s).
Definition audit_row (c : AuthContext) (action targetType targetID : string) (metadata : obj) : AuditEntry :=
  mkAudit (cx_OrgID c) (cx_UserID c) action targetType targetID (enrich (Some c) metadata).
(** The rows of the identity routes name the organisation that the transaction proved. *)
Definition identity_context (i : Identity) (orgID : string) : AuthContext :=
  mkContext orgID (id_UserID i) (id_Mode i) (id_Source i) (id_ServiceTokenSuffix i) (id_BrowserSessionID i) "" (id_Email i).
Definition identity_row (i : Identity) (orgID action targetType targetID : string) (metadata : obj) : AuditEntry :=
  audit_row (identity_context i orgID) action targetType targetID metadata.

Definition ok_true : opResult := opOK (AObj [("ok", ABool true)]).
Definition text (t : string) : option string := if String.eqb t "" then None else Some t.
Definition strings (l : list string) : any := AArr (map AStr l).

(** Bytes that the database accepts as text: UTF-8 without NUL. *)
Fixpoint valid_bytes (fuel : nat) (l : list ascii) : bool :=
  match fuel with
  | O => true
  | S f =>
      match l with
      | [] => true
      | c :: r =>
          if (code c =? 0)%nat then false
          else if (code c <? 128)%nat then valid_bytes f r
          else let r' := (decode_rune c r).2 in negb (length r' =? length r)%nat && valid_bytes f r'
      end
  end.
Definition valid_text (t : string) : bool := valid_bytes (len t) (bytes t).
Definition storable (t : option string) : bool := match t with Some t => valid_text t | None => true end.

Section routes.
Context (lower sqlLower : string → string).

(** ** Members (httpapi/members.go) *)

(** [^[^\s@]+@[^\s@]+\.[^\s@]+$]. *)
Definition email_char : re := Plus (Cls (λ c, negb (one_of (of_bytes [chr 9; chr 10; chr 12; chr 13; " "%char; "@"%char]) c))).
Definition emailPattern : re := Cat email_char (Cat (Chr "@") (Cat email_char (Cat (Chr ".") email_char))).

Inductive member_error :=
| OwnerProtected | OwnerRequired | OwnerSame | TargetNotFound | PendingExists | MemberExists | InvitationUnavailable.

Definition roleDefinedForOrg (orgID roleName : string) : prog Org (answer bool) :=
  if IsBuiltinRole roleName then Ret (Ok true)
  else do! row := query (GetOrgRole orgID roleName) or Ret (Err DbError) in Ret (Ok (bool_decide (is_Some row))).
Definition role_not_defined : opResult := opError 400 "members_role_not_defined" ("role " +:+ quoted "{{role}}" +:+ " is not defined for this org").

(** The body is the email and the role. *)
Definition invite_tx (c : AuthContext) (inviteID email roleName : string) : tx Org member_error unit :=
  tx! existing := tx_read (FindOrgMemberRowByEmail (cx_OrgID c) email) in
  match existing with
  | Some _ => tx_refuse MemberExists
  | None =>
      tx! rows := tx_do (CreateOrReactivateInvitation inviteID (cx_OrgID c) email roleName (cx_UserID c)) in
      if negb (rows =? 1)%Z then tx_refuse PendingExists
      else tx_do (write_audit (audit_row c "invitation.created" "invitation" inviteID [("email", AStr email); ("role", AStr roleName)]))
  end.
Definition inviteMemberCore (c : AuthContext) (body : option (string * string)) : prog Org opResult :=
  match body with
  | None => Ret (opError 400 "email_required" "email is required")
  | Some (rawEmail, rawRole) =>
      let email := ToLower lower (TrimSpace rawEmail) in
      let roleName := if String.eqb (TrimSpace rawRole) "" then "viewer" else TrimSpace rawRole in
      call! defined := roleDefinedForOrg (cx_OrgID c) roleName in
      match defined with
      | Err _ => Ret internal
      | Ok false => Ret role_not_defined
      | Ok true =>
          if String.eqb email "" then Ret (opError 400 "email_required" "email is required")
          else if negb (MatchString emailPattern email) || (254 <? len email)%nat then Ret (opError 400 "email_invalid" "email format is invalid")
          else
            Fresh (λ inviteID,
              do! r := transact (invite_tx c inviteID email roleName) or Ret internal in
              Ret (match r with
                   | Ok _ => opOK (AObj [("id", AStr inviteID); ("status", AStr "pending")])
                   | Err PendingExists => opError 409 "invitation_pending_exists" "Invitation already pending for this email"
                   | Err MemberExists => opError 409 "member_exists" "Member already exists for this org"
                   | Err _ => internal
                   end))
      end
  end.

Definition revoke_tx (c : AuthContext) (id : string) : tx Org member_error unit :=
  tx! target := tx_read (GetOrgInvitationLockTarget id (cx_OrgID c)) in
  match target with
  | None => tx_refuse InvitationUnavailable
  | Some _ =>
      tx! rows := tx_do (RevokePendingInvitation id (cx_OrgID c)) in
      if (rows =? 0)%Z then tx_refuse InvitationUnavailable
      else tx_do (write_audit (audit_row c "invitation.revoked" "invitation" id []))
  end.
Definition revokeInvitationCore (c : AuthContext) (id : string) : prog Org opResult :=
  if String.eqb id "" then Ret (opError 400 "members_invitation_id_required" "invitation id is required")
  else
    do! r := transact (revoke_tx c id) or Ret internal in
    Ret (match r with
         | Ok _ => ok_true
         | Err InvitationUnavailable => opError 404 "members_invitation_not_found" "invitation not found or not pending"
         | Err _ => internal
         end).

Definition is_owner (owner userID : string) : bool := negb (String.eqb owner "") && String.eqb owner userID.
Definition set_role_tx (c : AuthContext) (userID roleName : string) : tx Org member_error Z :=
  tx! owner := tx_read (LockOrganizationOwner (cx_OrgID c)) in
  if is_owner owner userID then tx_refuse OwnerProtected
  else
    tx! rows := tx_do (UpdateOrgMemberRole (cx_OrgID c) userID roleName) in
    if (rows =? 0)%Z then tx_ret 0%Z
    else
      tx! _ := tx_do (write_audit (audit_row c "member.role.updated" "member" userID [("role", AStr roleName)])) in
      tx_ret rows.
Definition self_modification (c : AuthContext) (userID : string) (metadata : obj) : prog Org opResult :=
  try! write_audit (audit_row c "member.self_modification_blocked" "member" userID metadata) in
  Ret (opError 400 "self_membership_modification" "Cannot modify your own membership").
Definition user_id_required : opResult := opError 400 "members_user_id_required" "userId is required".
Definition setMemberRoleCore (c : AuthContext) (body : option (string * string)) : prog Org opResult :=
  match body with
  | None => Ret user_id_required
  | Some (userID, role) =>
      let roleName := TrimSpace role in
      if String.eqb userID "" then Ret user_id_required
      else if String.eqb userID (cx_UserID c) then self_modification c userID [("action", AStr "role_set"); ("attemptedRole", AStr role)]
      else
        call! defined := roleDefinedForOrg (cx_OrgID c) roleName in
        match defined with
        | Err _ => Ret internal
        | Ok false => Ret role_not_defined
        | Ok true =>
            do! r := transact (set_role_tx c userID roleName) or Ret internal in
            Ret (match r with
                 | Err OwnerProtected => opError 409 "organization_owner_protected" "The organization owner cannot be demoted"
                 | Err _ => internal
                 | Ok updated => if (updated =? 0)%Z then opError 404 "member_not_found" "member not found" else ok_true
                 end)
        end
  end.

Definition remove_tx (c : AuthContext) (userID : string) : tx Org member_error Z :=
  tx! owner := tx_read (LockOrganizationOwner (cx_OrgID c)) in
  if is_owner owner userID then tx_refuse OwnerProtected
  else
    tx! rows := tx_do (DeleteOrgMember (cx_OrgID c) userID) in
    if (rows =? 0)%Z then tx_ret 0%Z
    else
      tx! _ := tx_do (write_audit (audit_row c "member.removed" "member" userID [])) in
      tx_ret rows.
Definition removeMemberCore (c : AuthContext) (userID : string) : prog Org opResult :=
  if String.eqb userID "" then Ret user_id_required
  else if String.eqb userID (cx_UserID c) then self_modification c userID [("action", AStr "remove")]
  else
    do! r := transact (remove_tx c userID) or Ret internal in
    Ret (match r with
         | Err OwnerProtected => opError 409 "organization_owner_protected" "The organization owner cannot be removed"
         | Err _ => internal
         | Ok removed => if (removed =? 0)%Z then opError 404 "member_not_found" "Member not found" else ok_true
         end).

Definition transfer_tx (c : AuthContext) (userID : string) : tx Org member_error unit :=
  tx! currentOwner := tx_read (LockOrganizationOwner (cx_OrgID c)) in
  if String.eqb currentOwner "" || negb (String.eqb currentOwner (cx_UserID c)) then tx_refuse OwnerRequired
  else if String.eqb userID currentOwner then tx_refuse OwnerSame
  else
    tx! target := tx_read (GetOrgMembership (cx_OrgID c) userID) in
    match target with
    | None => tx_refuse TargetNotFound
    | Some _ =>
        tx! rows := tx_do (UpdateOrgMemberRole (cx_OrgID c) userID "admin") in
        if negb (rows =? 1)%Z then tx_refuse TargetNotFound
        else
          tx! moved := tx_do (TransferOrganizationOwner (cx_OrgID c) currentOwner userID) in
          if negb (moved =? 1)%Z then tx_refuse OwnerRequired
          else tx_do (write_audit (audit_row c "organization.owner.transferred" "organization" (cx_OrgID c)
                 [("previousOwnerUserId", AStr currentOwner); ("newOwnerUserId", AStr userID)]))
    end.
Definition transferOrganizationOwnerCore (c : AuthContext) (body : option string) : prog Org opResult :=
  let userID := TrimSpace (default "" body) in
  if String.eqb userID "" then Ret user_id_required
  else
    do! r := transact (transfer_tx c userID) or Ret internal in
    Ret (match r with
         | Ok _ => opOK (AObj [("ok", ABool true); ("ownerUserId", AStr userID)])
         | Err OwnerRequired => opError 403 "organization_owner_required" "Only the organization owner can transfer ownership"
         | Err OwnerSame => opError 400 "organization_owner_same" "This member already owns the organization"
         | Err TargetNotFound => opError 404 "member_not_found" "Member not found"
         | Err _ => internal
         end).

(** ** Roles (httpapi/roles.go) *)

Definition roleNamePattern (name : string) : bool :=
  (1 <=? len name)%nat && (len name <=? 32)%nat && forallb (λ c, is_lower c || is_digit c || one_of "_-" c) (bytes name).
Definition grants_json (permissions : option (list string)) : option json := (λ l, JArr (map JStr l)) <$> permissions.
(** A list of strings as encoding/json leaves it when an element has another type. *)
Definition loose_strings (v : json) : option (list string) :=
  match v with JArr l => Some (map (λ x, match x with JStr s => s | _ => "" end) l) | _ => None end.
Definition roleViewFrom (r : OrgRole) : any :=
  let grants :=
    match granted r with
    | Some tree => match loose_strings tree with Some keys => strings keys | None => ANil end
    | None => if ro_IsBuiltin r && IsBuiltinRole (ro_Name r) then strings (DefaultPermissionsForRole (ro_Name r)) else ANil
    end in
  AObj [("id", AStr (ro_ID r)); ("orgId", AStr (ro_OrgID r)); ("name", AStr (ro_Name r)); ("inheritsFrom", AStr (ro_InheritsFrom r));
        ("description", textOrNull (ro_Description r)); ("isBuiltin", ABool (ro_IsBuiltin r)); ("grantedPermissions", grants)].
(** The statements, which refuse a description that is not text. *)
Definition insert_role (r : OrgRole) : op Org unit := λ s, if storable (ro_Description r) then InsertOrgRole r s else None.
Definition update_role (orgID name : string) (grants : option json) (description inherits : option string) : op Org OrgRole := λ s,
  if storable description then UpdateOrgRole orgID name grants description inherits s else None.
(** At most 240 bytes of a description. *)
Definition cut_description (d : string) : string := slice d 0 240.
Definition role_view (orgID name : string) : prog Org opResult :=
  do! row := query (GetOrgRole orgID name) or Ret internal in
  Ret (match row with Some r => opOK (roleViewFrom r) | None => internal end).

Record createRoleBody := mkCreateRole { cr_Name : string; cr_InheritsFrom : string; cr_Description : string; cr_GrantedPermissions : any }.
Definition create_role_tx (c : AuthContext) (r : OrgRole) (permissions : option (list string)) : tx Org member_error unit :=
  tx! _ := tx_do (insert_role r) in
  tx_do (write_audit (audit_row c "org.role.created" "org_role" (ro_ID r)
    [("name", AStr (ro_Name r)); ("inheritsFrom", AStr (ro_InheritsFrom r));
     ("grantedPermissions", match permissions with Some l => strings l | None => ANil end)])).
Definition createRoleCore (c : AuthContext) (body : option createRoleBody) : prog Org opResult :=
  let invalid := opError 400 "roles_name_invalid" "name must match /^[a-z0-9_-]{1,32}$/" in
  match body with
  | None => Ret invalid
  | Some body =>
      let name := ToLower lower (TrimSpace (cr_Name body)) in
      if negb (roleNamePattern name) then Ret invalid
      else if IsBuiltinRole name then
        Ret (opError 400 "roles_builtin_name" "cannot create a custom role with a built-in name; use POST /org/roles/:name to override a built-in")
      else
        let inheritsFrom := if IsBuiltinRole (cr_InheritsFrom body) then cr_InheritsFrom body else "viewer" in
        match parsePermissions (cr_GrantedPermissions body) with
        | Err bad => Ret (opError 400 "roles_permissions_invalid" bad)
        | Ok permissions =>
            do! existing := query (GetOrgRole (cx_OrgID c) name) or Ret internal in
            match existing with
            | Some _ => Ret (opError 409 "role_already_exists" "role with this name already exists")
            | None =>
                Fresh (λ roleID,
                  let row := mkOrgRole roleID (cx_OrgID c) name inheritsFrom (text (cut_description (cr_Description body))) false (grants_json permissions) in
                  do! r := transact (create_role_tx c row permissions) or Ret internal in
                  match r with Ok _ => role_view (cx_OrgID c) name | Err _ => Ret internal end)
            end
        end
  end.

(** The members of the body that are present. *)
Definition text_field (body : members) (key : string) : option string :=
  (λ v, match v with JStr s => s | _ => "" end) <$> jget body key.
Definition update_metadata (name : string) (permissions : option (list string)) (inherits : option string) (previous : option OrgRole)
    (coerced : list string) : obj :=
  [("name", AStr name)] ++
  (match permissions with Some l => [("grantedPermissions", strings l)] | None => [] end) ++
  (match inherits with
   | Some i =>
       [("inheritsFrom", AStr i)] ++
       match previous with Some r => if String.eqb (ro_InheritsFrom r) i then [] else [("previousInheritsFrom", AStr (ro_InheritsFrom r))] | None => [] end
   | None => []
   end) ++
  (if bool_decide (coerced = []) then [] else [("coerced", strings coerced)]).
(** [existing] is the row that the handler read before the transaction. *)
Definition update_role_tx (c : AuthContext) (name newID : string) (existing : option OrgRole) (permissions : option (list string))
    (description inherits : option string) (coerced : list string) : tx Org member_error unit :=
  tx! savedID :=
    match existing with
    | None =>
        tx! _ := tx_do (insert_role (mkOrgRole newID (cx_OrgID c) name name (text (cut_description (default "" description))) true (grants_json permissions))) in
        tx_ret newID
    | Some _ =>
        tx! updated := tx_do (update_role (cx_OrgID c) name (grants_json permissions) (cut_description <$> description) inherits) in
        tx_ret (ro_ID updated)
    end in
  tx_do (write_audit (audit_row c (if IsBuiltinRole name then "org.permissions.override_set" else "org.role.updated") "org_role" savedID
    (update_metadata name permissions inherits existing coerced))).
Definition updateRoleCore (c : AuthContext) (rawName : string) (body : option members) : prog Org opResult :=
  let name := ToLower lower (TrimSpace rawName) in
  let nothing := opError 400 "roles_no_updatable_fields" "no updatable fields provided" in
  if String.eqb name "" then Ret (opError 400 "roles_name_required" "role name is required")
  else
    match body with
    | None => Ret nothing
    | Some body =>
        let inherits := text_field body "inheritsFrom" in
        let description := text_field body "description" in
        let grants := as_any ANil <$> jget body "grantedPermissions" in
        do! existing := query (GetOrgRole (cx_OrgID c) name) or Ret internal in
        if negb (IsBuiltinRole name) && negb (bool_decide (is_Some existing)) then Ret (opError 404 "role_not_found" "role not found")
        else if bool_decide (is_Some inherits) && IsBuiltinRole name then
          Ret (opError 400 "roles_inherits_immutable" "inheritsFrom is immutable on built-in roles")
        else if match inherits with Some i => negb (IsBuiltinRole i) | None => false end then
          Ret (opError 400 "roles_inherits_invalid" "inheritsFrom must be one of viewer | editor | admin")
        else
          let parsed := match grants with Some raw => let? p := parsePermissions raw in Ok (CoerceAdminFloor name p) | None => Ok (None, []) end in
          match parsed with
          | Err bad => Ret (opError 400 "roles_permissions_invalid" bad)
          | Ok (permissions, coerced) =>
              if negb (bool_decide (is_Some grants)) && negb (bool_decide (is_Some inherits)) && negb (bool_decide (is_Some description)) then Ret nothing
              else
                Fresh (λ newID,
                  do! r := transact (update_role_tx c name newID existing permissions description inherits coerced) or Ret internal in
                  match r with Ok _ => role_view (cx_OrgID c) name | Err _ => Ret internal end)
          end
    end.

Definition delete_role_tx (c : AuthContext) (name action : string) (existing : OrgRole) (metadata : obj) : tx Org member_error unit :=
  tx! _ := tx_do (DeleteOrgRole (cx_OrgID c) name) in
  tx_do (write_audit (audit_row c action "org_role" (ro_ID existing) metadata)).
Definition deleteRoleCore (c : AuthContext) (rawName : string) : prog Org opResult :=
  let name := ToLower lower (TrimSpace rawName) in
  if String.eqb name "" then Ret (opError 400 "roles_name_required" "role name is required")
  else
    do! row := query (GetOrgRole (cx_OrgID c) name) or Ret internal in
    match row with
    | None =>
        Ret (if IsBuiltinRole name then opError 404 "roles_override_not_found" "no override exists for this built-in role"
             else opError 404 "role_not_found" "role not found")
    | Some existing =>
        if IsBuiltinRole name then
          do! r := transact (delete_role_tx c name "org.permissions.override_cleared" existing [("name", AStr name)]) or Ret internal in
          Ret (match r with Ok _ => opOK (AObj [("ok", ABool true); ("reverted", ABool true)]) | Err _ => internal end)
        else
          do! membersAffected := query (CountMembersInRole (cx_OrgID c) name) or Ret internal in
          if (0 <? membersAffected)%Z then
            Ret (mkResult 409 "role_in_use" "cannot delete a role with active members"
              (AObj [("error", AStr "cannot delete a role with active members"); ("code", AStr "role_in_use");
                     ("params", AObj [("membersAffected", AInt KInt32 membersAffected)]); ("membersAffected", AInt KInt32 membersAffected)]))
          else
            do! r := transact (delete_role_tx c name "org.role.deleted" existing [("name", AStr name); ("inheritsFrom", AStr (ro_InheritsFrom existing))])
              or Ret internal in
            Ret (match r with Ok _ => ok_true | Err _ => internal end)
    end.

(** ** Organisations and invitations of a person (httpapi/identity.go) *)

(** Trimmed, with single spaces, of 2 to [maxLength] UTF-16 units; otherwise empty. *)
Definition normalizedIdentityName (value : string) (maxLength : nat) : string :=
  let normalized := Join (Fields (TrimSpace value)) " " in
  let n := length (utf16_encode (runes normalized)) in
  if (n <? 2)%nat || (maxLength <? n)%nat then "" else normalized.
Definition profile_name_invalid : opResult := opError 400 "profile_name_invalid" "Profile name must contain 2 to 100 characters".
Definition create_org_tx (i : Identity) (orgID memberID profileName organizationName : string) : tx Org member_error unit :=
  tx! _ := tx_do (UpsertIdentityProfile (id_UserID i) (text profileName) (text (id_Email i))) in
  tx! _ := tx_do (InsertIdentityOrganization orgID (id_UserID i) organizationName) in
  tx! _ := tx_do (InsertFounderMembership memberID orgID (id_UserID i) (text (id_Email i))) in
  tx_do (write_audit (identity_row i orgID "org.created" "organization" orgID
    [("name", AStr organizationName); ("plan", AStr "free"); ("founderRole", AStr "admin"); ("ownerUserId", AStr (id_UserID i))])).
(** The handler up to the bootstrap projection, which it answers with: the organisation it created. *)
Definition organizationCreateCore (i : Identity) (body : obj) : prog Org (res opResult string) :=
  if mode_is (id_Mode i) ModeServiceToken || mode_is (id_Mode i) ModeJanuslySession then
    Ret (Err (opError 403 "identity_human_required" "Use a personal account to create an organization"))
  else
    let organizationName := normalizedIdentityName (match obj_get body "name" with Some (AStr n) => n | _ => "" end) 80 in
    if String.eqb organizationName "" then Ret (Err (opError 400 "organization_name_invalid" "Organization name must contain 2 to 80 characters"))
    else
      let profile :=
        match obj_get body "profileName" with
        | None | Some ANil | Some (AStr "") => Some ""
        | Some (AStr v) => let n := normalizedIdentityName v 100 in if String.eqb n "" then None else Some n
        | Some _ => None
        end in
      match profile with
      | None => Ret (Err profile_name_invalid)
      | Some profileName =>
          Fresh (λ raw, Fresh (λ memberID,
            let orgID := "org_" +:+ raw in
            do! r := transact (create_org_tx i orgID memberID profileName organizationName)
              or Ret (Err (opError 500 "organization_create_failed" "Organization could not be created")) in
            Ret (match r with Ok _ => Ok orgID | Err _ => Err (opError 500 "organization_create_failed" "Organization could not be created") end)))
      end.

Definition accept_tx (i : Identity) (invitationID normalizedEmail memberID : string) : tx Org member_error string :=
  tx! target := tx_read (GetIdentityInvitationLockTarget sqlLower invitationID normalizedEmail) in
  match target with
  | None => tx_refuse InvitationUnavailable
  | Some _ =>
      tx! invitation := tx_read (LockPendingIdentityInvitation sqlLower invitationID normalizedEmail) in
      match invitation with
      | None => tx_refuse InvitationUnavailable
      | Some v =>
          tx! updated := tx_do (MarkIdentityInvitationAccepted (iv_ID v)) in
          if negb (updated =? 1)%Z then tx_refuse InvitationUnavailable
          else
            tx! _ := tx_do (UpsertIdentityProfile (id_UserID i) None (text normalizedEmail)) in
            tx! _ := tx_do (UpsertInvitedIdentityMembership memberID (iv_OrgID v) (id_UserID i) (text normalizedEmail) (iv_Role v) (iv_InvitedBy v)) in
            tx! _ := tx_do (write_audit (identity_row i (iv_OrgID v) "member.joined" "member" (id_UserID i)
              [("via", AStr "invitation"); ("invitationId", AStr (iv_ID v)); ("role", AStr (iv_Role v))])) in
            tx_ret (iv_OrgID v)
      end
  end.
(** Up to the bootstrap projection: the organisation that the person joined. *)
Definition invitationAcceptCore (i : Identity) (body : obj) : prog Org (res opResult string) :=
  if String.eqb (id_Email i) "" || negb (mode_is (id_Mode i) ModeSupabase || mode_is (id_Mode i) ModeJanuslySession) then
    Ret (Err (opError 403 "identity_email_required" "A verified account email is required"))
  else
    let invitationID := TrimSpace (match obj_get body "invitationId" with Some (AStr v) => v | _ => "" end) in
    if String.eqb invitationID "" then Ret (Err (opError 400 "invitation_id_required" "Invitation id is required"))
    else
      let failed := opError 500 "identity_invitation_accept_failed" "Invitation could not be accepted" in
      Fresh (λ memberID,
        do! r := transact (accept_tx i invitationID (ToLower lower (TrimSpace (id_Email i))) memberID) or Ret (Err failed) in
        Ret (match r with
             | Ok orgID => Ok orgID
             | Err InvitationUnavailable => Err (opError 404 "identity_invitation_not_found" "Invitation is no longer available")
             | Err _ => Err failed
             end)).
End routes.
