(* ===== verification/SsoRoutes.v ===== *)
(** Single sign-on and browser sessions: the start and the callback of a login, the
    connections of an organisation (httpapi/sso.go) and the routes of a browser session
    (httpapi/sessionroutes.go). Times are in seconds. *)
From S2P Require Import Prelude GoStrings GoFloat GoAny GoInt Json JsonTree Token Process Permissions OrgTables Authz OrgRoutes.
Local Open Scope string_scope.
Local Open Scope list_scope.

(** What the identity provider says of a person. *)
Record SsoProfile := mkProfile { sp_ID : string; sp_Email : string; sp_ConnectionID : string }.
(** The client of the identity provider; an error of the exchange is the status it carried,
    when there is one. *)
Record WorkOS := mkWorkOS
  { BuildAuthorizeURL : string → string → string → option string; ExchangeCode : string → string → res (option Z) SsoProfile }.

Inductive sso_answer :=
| Answered (r : opResult)
| StartRedirect (location bindingNonce : string)
| LoggedIn (location : string) (token : Token) (ttl : Z).

Section sso.
Context (getenv : string → string) (fold : string → string → bool) (lower sqlLower : string → string).
Context (workos : option WorkOS).

Definition refused (status : Z) (code message : string) : prog Org sso_answer := Ret (Answered (opError status code message)).
Definition invalid_state : prog Org sso_answer := refused 400 "sso_invalid_state" "invalid state".
Definition no_active_connection : prog Org sso_answer := refused 404 "sso_no_active_connection" "no active SSO connection for this org".
Definition db_failed : prog Org sso_answer := Ret (Answered internal).
(** The best-effort rows of the flow. *)
Definition invalidSsoState (orgID reason : string) : op Org unit :=
  write_audit (mkAudit orgID "sso" "auth.sso.state_invalid" "sso_state" "" [("reason", AStr reason)]).
Definition failedSsoCallback (orgID userID connectionID reason : string) (metadata : obj) : op Org unit :=
  write_audit (mkAudit orgID userID "auth.sso.callback_failed" "sso_connection" connectionID (obj_set metadata "reason" (AStr reason))).
Definition usable (connection : option SsoConnection) : option SsoConnection :=
  match connection with Some c => if String.eqb (so_Status c) "active" then Some c else None | None => None end.

(** [limited] is the answer of the rate limiter when it refuses the caller. *)
Definition startSso (limited : option opResult) (orgID : string) (t : Z) : prog Org sso_answer :=
  match limited with
  | Some r => Ret (Answered r)
  | None =>
      if String.eqb orgID "" then refused 400 "sso_org_id_required" "orgId is required"
      else
        let callbackURL := getenv "JANUSLY_SSO_CALLBACK_URL" in
        if String.eqb callbackURL "" then refused 500 "sso_callback_not_configured" "SSO is not configured (missing JANUSLY_SSO_CALLBACK_URL)"
        else
          do! row := query (FindSsoConnectionForOrg orgID) or db_failed in
          match usable row with
          | None => no_active_connection
          | Some connection =>
              Fresh (λ nonce,
                match Create getenv fold orgID nonce callbackURL t with
                | Err _ => db_failed
                | Ok state =>
                    do! _ := RecordSsoNonce orgID nonce (tok_ExpiresAt state) or db_failed in
                    match workos with
                    | None => db_failed
                    | Some w =>
                        match BuildAuthorizeURL w (so_ProviderConnectionID connection) callbackURL (tok_Value state) with
                        | None => db_failed
                        | Some authorizeURL =>
                            try! write_audit (mkAudit orgID "sso" "auth.sso.start" "sso_connection" (so_ID connection)
                              [("provider", AStr (so_Provider connection)); ("connectionId", AStr (so_ProviderConnectionID connection))]) in
                            Ret (StartRedirect authorizeURL nonce)
                        end
                    end
                end)
          end
  end.

(** The login: the member's row, the audit row and the session in one transaction. *)
Definition login_tx (orgID memberID sessionID : string) (connection : SsoConnection) (p : SsoProfile) (expiresAt : Z) : tx Org unit AuthSession :=
  let identity := mkIdentity (sp_ID p) (sp_Email p) ModeJanuslySession SourceSSO orgID "" "" in
  tx! _ := tx_do (UpsertSsoMembership memberID orgID (sp_ID p) (text (sp_Email p))) in
  tx! _ := tx_do (write_audit (identity_row identity orgID "auth.sso.login" "sso_connection" (so_ID connection)
    [("via", AStr "workos"); ("connectionId", AStr (so_ProviderConnectionID connection)); ("email", AStr (sp_Email p))])) in
  tx_do (CreateAuthSession sqlLower sessionID (sp_ID p) (sp_Email p) orgID expiresAt).
(** From the exchanged profile on. *)
Definition admit_profile (orgID : string) (connection : SsoConnection) (p : SsoProfile) (webBaseURL : string) (t : Z) : prog Org sso_answer :=
  if negb (String.eqb (sp_ConnectionID p) (so_ProviderConnectionID connection)) then
    try! failedSsoCallback orgID "sso" (so_ID connection) "connection_id_mismatch"
      [("expectedConnectionId", AStr (so_ProviderConnectionID connection)); ("profileConnectionId", AStr (sp_ConnectionID p))] in
    refused 400 "sso_connection_mismatch" "SSO connection mismatch"
  else
    call! decision := Evaluate getenv fold lower orgID (sp_ID p) (sp_Email p) ModeJanuslySession (Some (Some connection)) in
    if negb (de_Allowed decision) then
      try! failedSsoCallback orgID (sp_ID p) (so_ID connection) "policy_rejected" [("policyKey", AStr (de_PolicyKey decision))] in
      refused 403 "sso_policy_violation" ("SSO login blocked by org policy (" +:+ de_PolicyKey decision +:+ ")")
    else
      Fresh (λ memberID, Fresh (λ sessionID,
        do! r := transact (login_tx orgID memberID sessionID connection p (t + de_SessionTTLSeconds decision)) or
          (try! failedSsoCallback orgID (sp_ID p) (so_ID connection) "membership_persist_failed" [] in
           refused 500 "sso_membership_persist_failed" "membership_persist_failed") in
        match r with
        | Err _ => db_failed
        | Ok session =>
            match CreateToken getenv fold (as_ID session) (de_SessionTTLSeconds decision) t with
            | Err _ => db_failed
            | Ok token => Ret (LoggedIn (webBaseURL +:+ "/auth/sso/complete") token (de_SessionTTLSeconds decision))
            end
        end)).
(** [strings.TrimSuffix(webBaseURL, "/")]. *)
Definition without_slash (url : string) : string := if HasSuffix url "/" then slice url 0 (len url - 1) else url.
(** [binding] is the value of the cookie that the start handed to the browser. *)
Definition callbackSso (code stateToken : string) (binding : option string) (t : Z) : prog Org sso_answer :=
  let callbackURL := getenv "JANUSLY_SSO_CALLBACK_URL" in
  let webBaseURL := getenv "JANUSLY_WEB_BASE_URL" in
  if String.eqb callbackURL "" || String.eqb webBaseURL "" then refused 500 "sso_not_configured" "SSO is not configured"
  else if String.eqb code "" || String.eqb stateToken "" then refused 400 "sso_code_and_state_required" "code and state are required"
  else
    match VerifyState getenv fold stateToken t with
    | Err _ => try! invalidSsoState "default" "invalid_signature_or_expiry" in invalid_state
    | Ok envelope =>
        let state := env_Payload envelope in
        if negb (String.eqb (sta_CallbackURL state) callbackURL) then
          try! invalidSsoState (sta_OrgID state) "callback_url_mismatch" in invalid_state
        else if negb (match binding with Some b => BrowserBindingMatches b (sta_Nonce state) | None => false end) then
          try! invalidSsoState (sta_OrgID state) (match binding with Some _ => "browser_binding_mismatch" | None => "browser_binding_missing" end) in
          invalid_state
        else
          do! consumed := ConsumeSsoNonce (sta_OrgID state) (sta_Nonce state) or db_failed in
          if negb consumed then try! invalidSsoState (sta_OrgID state) "nonce_replayed_or_expired" in invalid_state
          else
            do! row := query (FindSsoConnectionForOrg (sta_OrgID state)) or db_failed in
            match usable row with
            | None => try! failedSsoCallback (sta_OrgID state) "sso" "" "connection_missing" [] in no_active_connection
            | Some connection =>
                let exchange_failed reason :=
                  try! failedSsoCallback (sta_OrgID state) "sso" (so_ID connection) reason [] in
                  refused 400 "sso_exchange_failed" "SSO exchange failed" in
                match workos with
                | None => exchange_failed "exchange_failed"
                | Some w =>
                    match ExchangeCode w code callbackURL with
                    | Err status => exchange_failed (match status with Some n => "workos_" +:+ Itoa n | None => "exchange_failed" end)
                    | Ok p => admit_profile (sta_OrgID state) connection p (without_slash webBaseURL) t
                    end
                end
            end
    end.

(** ** The connections of an organisation *)

Definition ssoConnectionView (c : SsoConnection) : any :=
  AObj [("id", AStr (so_ID c)); ("orgId", AStr (so_OrgID c)); ("provider", AStr (so_Provider c));
        ("providerConnectionId", AStr (so_ProviderConnectionID c)); ("status", AStr (so_Status c)); ("enforcedSso", ABool (so_EnforcedSso c))].
Definition str_at (body : obj) (key : string) : option string := match obj_get body key with Some (AStr v) => Some v | _ => None end.
Definition bool_at (body : obj) (key : string) : option bool := match obj_get body key with Some (ABool v) => Some v | _ => None end.
Definition connection_exists : opResult := opError 409 "sso_connection_exists" "SSO connection already exists for this org and provider".
(** A failed insertion is the unique index, or a failure of the database: [unique] says which. *)
Definition createSsoConnection (c : AuthContext) (body : obj) (unique : bool) : prog Org opResult :=
  if negb (String.eqb (default "" (str_at body "provider")) "workos") then Ret (opError 400 "sso_provider_invalid" "provider must be 'workos'")
  else
    let connectionID := TrimSpace (default "" (str_at body "providerConnectionId")) in
    if String.eqb connectionID "" then
      Ret (opError 400 "sso_provider_connection_id_required" ("providerConnectionId is required (e.g. conn_" +:+ of_bytes [chr 226; chr 128; chr 166] +:+ ")"))
    else
      do! existing := query (FindSsoConnectionForOrg (cx_OrgID c)) or Ret internal in
      match existing with
      | Some _ => Ret connection_exists
      | None =>
          Fresh (λ id,
            do! row := CreateSsoConnection id (cx_OrgID c) "workos" connectionID (default false (bool_at body "enforcedSso"))
              or Ret (if unique then connection_exists else internal) in
            try! write_audit (audit_row c "org.sso.connection_added" "sso_connection" (so_ID row)
              [("provider", AStr (so_Provider row)); ("providerConnectionId", AStr (so_ProviderConnectionID row)); ("enforcedSso", ABool (so_EnforcedSso row))]) in
            Ret (opOK (ssoConnectionView row)))
      end.
Definition connection_not_found : opResult := opError 404 "sso_connection_not_found" "SSO connection not found".
Definition updateSsoConnection (c : AuthContext) (id : string) (body : obj) : prog Org opResult :=
  let status := match str_at body "status" with Some s => if in_list ["active"; "revoked"] s then Some s else None | None => None end in
  let enforced := bool_at body "enforcedSso" in
  let connectionID := (λ v, TrimSpace (match v with AStr s => s | _ => "" end)) <$> obj_get body "providerConnectionId" in
  if match connectionID with Some v => String.eqb v "" | None => false end then
    Ret (opError 400 "sso_provider_connection_id_invalid" "providerConnectionId must be a non-empty string")
  else
    let metadata :=
      (match status with Some v => [("status", AStr v)] | None => [] end) ++
      (match enforced with Some v => [("enforcedSso", ABool v)] | None => [] end) ++
      (match connectionID with Some v => [("providerConnectionId", AStr v)] | None => [] end) in
    if bool_decide (metadata = []) then Ret (opError 400 "sso_no_updatable_fields" "no updatable fields provided")
    else
      do! existing := query (GetSsoConnectionByID id (cx_OrgID c)) or Ret internal in
      match existing with
      | None => Ret connection_not_found
      | Some _ =>
          do! updated := UpdateSsoConnection id (cx_OrgID c) status connectionID enforced or Ret internal in
          match updated with
          | None => Ret connection_not_found
          | Some row =>
              try! write_audit (audit_row c "org.sso.connection_updated" "sso_connection" id metadata) in
              Ret (opOK (ssoConnectionView row))
          end
      end.
Definition revokeSsoConnection (c : AuthContext) (id : string) : prog Org opResult :=
  do! existing := query (GetSsoConnectionByID id (cx_OrgID c)) or Ret internal in
  match existing with
  | None => Ret connection_not_found
  | Some _ =>
      do! revoked := RevokeSsoConnection id (cx_OrgID c) or Ret internal in
      match revoked with
      | None => Ret connection_not_found
      | Some _ =>
          try! write_audit (audit_row c "org.sso.connection_revoked" "sso_connection" id []) in
          Ret ok_true
      end
  end.

(** ** Browser sessions (httpapi/sessionroutes.go) *)

Definition browserSessionLogout (isAllowedRequestOrigin : string → bool) (r : Request) (t : Z) : prog Org opResult :=
  if negb (RequireCSRF (rq_Header r) (Some isAllowedRequestOrigin)) then
    Ret (opError 403 "server_request_failed" "Forbidden: invalid browser session origin")
  else
    let sessionID := ReadSessionID getenv fold (rq_Cookie r) t in
    let signed_out := Ret (opOK (AObj [("signedOut", ABool true)])) in
    if String.eqb sessionID "" then signed_out else do! _ := RevokeAuthSession sessionID or Ret internal in signed_out.
Definition session_refused (status : Z) (code message : string) : prog Org (opResult * option Token) := Ret (opError status code message, None).
(** The answer and the new token of the cookie. *)
Definition browserSessionOrganization (i : Identity) (body : option string) (t : Z) : prog Org (opResult * option Token) :=
  if negb (mode_is (id_Mode i) ModeJanuslySession) || String.eqb (id_BrowserSessionID i) "" then
    session_refused 401 "browser_session_required" "No active browser session"
  else
    match body with
    | None => session_refused 400 "invalid_input" "Invalid request body"
    | Some raw =>
        let orgID := TrimSpace raw in
        if String.eqb orgID "" then session_refused 400 "organization_id_required" "Organization id is required"
        else
          do! membership := query (GetOrgMembership orgID (id_UserID i)) or Ret (internal, None) in
          match membership with
          | None => session_refused 403 "organization_access_denied" "You do not belong to this organization"
          | Some _ =>
              do! updated := UpdateAuthSessionOrganization (id_BrowserSessionID i) (id_UserID i) orgID or Ret (internal, None) in
              match updated with
              | None => session_refused 409 "browser_session_update_failed" "Browser session could not be updated"
              | Some e =>
                  match CreateToken getenv fold (as_ID e) (Z.max 1 (as_ExpiresAt e - t)) t with
                  | Err _ => Ret (internal, None)
                  | Ok token => Ret (opOK (AObj [("organizationId", AStr orgID)]), Some token)
                  end
              end
          end
    end.
End sso.
