(* ===== verification/OrgFacts.v ===== *)
(** Histories of the organisations' tables, and what holds in all of them: the owner of an
    organisation keeps an administrator's row, and administrators keep the floor of their
    permissions. *)
From S2P Require Import Prelude GoStrings GoFloat GoAny GoInt Json JsonTree Token Process Permissions OrgTables Authz OrgRoutes SsoRoutes.
Local Open Scope string_scope.
Local Open Scope list_scope.

(** ** Histories *)

Section histories.
Context (sqlLower : string → string).

(** The statements and transactions of the program. The configuration of an organisation is
    written elsewhere; time passes. *)
Inductive org_op : ∀ X, op Org X → Prop :=
| op_audit a : org_op unit (write_audit a)
| op_invite c id email role : org_op _ (transact (invite_tx c id email role))
| op_revoke c id : org_op _ (transact (revoke_tx c id))
| op_set_role c userID role : org_op _ (transact (set_role_tx c userID role))
| op_remove c userID : org_op _ (transact (remove_tx c userID))
| op_transfer c userID : org_op _ (transact (transfer_tx c userID))
| op_create_role c row permissions : IsBuiltinRole (ro_Name row) = false → org_op _ (transact (create_role_tx c row permissions))
| op_update_role c name newID existing permissions description inherits coerced :
    permissions = None ∨ (∃ requested, permissions = (CoerceAdminFloor name requested).1) →
    org_op _ (transact (update_role_tx c name newID existing permissions description inherits coerced))
| op_delete_role c name action row metadata : org_op _ (transact (delete_role_tx c name action row metadata))
| op_create_org i orgID memberID person name : org_op _ (transact (create_org_tx i orgID memberID person name))
| op_accept i id email memberID : org_op _ (transact (accept_tx sqlLower i id email memberID))
| op_migrate id orgID userID : org_op _ (MigrateOrgMemberUserID id orgID userID)
| op_login orgID memberID sessionID connection p expiresAt :
    org_op _ (transact (login_tx sqlLower orgID memberID sessionID connection p expiresAt))
| op_scim_update id orgID email role by_ : org_op _ (UpdateScimMembershipByEmail id orgID email role by_)
| op_scim_insert id orgID email role by_ : org_op _ (InsertScimMembership id orgID email role by_)
| op_scim_delete orgID email by_ : org_op _ (DeleteScimMembershipByEmail orgID email by_)
| op_revoke_session id : org_op _ (RevokeAuthSession id)
| op_session_org id userID orgID : org_op _ (UpdateAuthSessionOrganization id userID orgID)
| op_add_connection id orgID provider connectionID enforced : org_op _ (CreateSsoConnection id orgID provider connectionID enforced)
| op_change_connection id orgID status connectionID enforced : org_op _ (UpdateSsoConnection id orgID status connectionID enforced)
| op_revoke_connection id orgID : org_op _ (RevokeSsoConnection id orgID)
| op_record_nonce orgID nonce expiresAt : org_op _ (RecordSsoNonce orgID nonce expiresAt)
| op_consume_nonce orgID nonce : org_op _ (ConsumeSsoNonce orgID nonce)
| op_cleanup : org_op _ CleanupExpiredSsoNonces
| op_configs f : org_op unit (λ s, Some (tt, set_configs f s))
| op_tick (d : nat) : org_op unit (λ s, Some (tt, set_now (now s + Z.of_nat d)%Z s)).
Definition org_step (s s' : Org) : Prop := ∃ X (o : op Org X) x, org_op X o ∧ o s = Some (x, s').
(** From a database without organisations. *)
Definition org_history (t : Z) (s : Org) : Prop := rtc org_step (empty_org t) s.

Lemma org_op_lawful {X} (o : op Org X) : org_op X o → ∀ s x s', o s = Some (x, s') → rtc org_step s s'.
Proof. intros Ho s x s' He. apply rtc_once. by exists X, o, x. Qed.
Lemma lawful_do {A X} (o : op Org X) (k : option X → prog Org A) :
  org_op X o → (∀ r, lawful org_step (k r)) → lawful org_step (Do o k).
Proof. intros Ho Hk. split; [by apply org_op_lawful|done]. Qed.
End histories.

#[export] Hint Constructors org_op : org.
Create HintDb lawful.
(** A handler does nothing but operations of [org_op]. *)
Ltac lawful_tac :=
  repeat first
    [ done
    | solve [eauto with lawful]
    | progress cbv zeta
    | lazymatch goal with
      | |- lawful _ (Do (query _) _) => apply lawful_query; intros ?
      | |- lawful _ (Do _ _) => apply lawful_do; [by eauto with org|intros ?]
      | |- lawful _ (Fresh _) => intros ? ?
      | |- lawful _ (bind _ _) => apply lawful_bind; [solve [eauto with lawful]|intros ?]
      end
    | case_match ].

Section handlers.
Context (getenv : string → string) (fold : string → string → bool) (lower sqlLower : string → string).
Context (cfg : AuthConfig) (verifySupabase : string → option (string * string)) (workos : option WorkOS).
Abbreviation law := (lawful (org_step sqlLower)).

Lemma Evaluate_lawful orgID userID email mode provided : law (Evaluate getenv fold lower orgID userID email mode provided).
Proof.
  unfold Evaluate. apply lawful_query. intros rows. case_match; [destruct provided|]; try (apply lawful_query; intros ?);
    (case_match; [done|]; apply (lawful_do _ (write_audit _)); [constructor|done]).
Qed.
Lemma extract_lawful r t : law (extract getenv fold cfg verifySupabase r t).
Proof. unfold extract. lawful_tac. Qed.
Lemma resolveHumanMembership_lawful p : law (resolveHumanMembership lower sqlLower p).
Proof. unfold resolveHumanMembership. lawful_tac. Qed.
Hint Resolve Evaluate_lawful extract_lawful resolveHumanMembership_lawful : lawful.
Lemma resolve_principal_lawful p : law (resolve_principal lower sqlLower p).
Proof. unfold resolve_principal, resolve_direct. lawful_tac. Qed.
Hint Resolve resolve_principal_lawful : lawful.
Lemma Resolve_lawful r t : law (Resolve getenv fold lower sqlLower cfg verifySupabase r t).
Proof. unfold Resolve. lawful_tac. Qed.
Lemma ResolveRoleFromMembership_lawful orgID role mode : law (ResolveRoleFromMembership orgID role mode).
Proof. unfold ResolveRoleFromMembership. lawful_tac. Qed.
Lemma permissionsForResolvedRole_lawful orgID role : law (permissionsForResolvedRole orgID role).
Proof. unfold permissionsForResolvedRole. lawful_tac. Qed.
Hint Resolve Resolve_lawful ResolveRoleFromMembership_lawful permissionsForResolvedRole_lawful : lawful.
Lemma checkGate_lawful c gate : law (checkGate c gate).
Proof. unfold checkGate. lawful_tac. Qed.
Hint Resolve checkGate_lawful : lawful.
Lemma authenticate_lawful isAllowed r route t : law (authenticate getenv fold lower sqlLower cfg verifySupabase isAllowed r route t).
Proof. unfold authenticate. lawful_tac. Qed.

Lemma roleDefinedForOrg_lawful orgID role : law (roleDefinedForOrg orgID role).
Proof. unfold roleDefinedForOrg. lawful_tac. Qed.
Hint Resolve roleDefinedForOrg_lawful : lawful.
Lemma inviteMemberCore_lawful c body : law (inviteMemberCore lower c body).
Proof. unfold inviteMemberCore. lawful_tac. Qed.
Lemma revokeInvitationCore_lawful c id : law (revokeInvitationCore c id).
Proof. unfold revokeInvitationCore. lawful_tac. Qed.
Lemma self_modification_lawful c userID metadata : law (self_modification c userID metadata).
Proof. unfold self_modification. lawful_tac. Qed.
Hint Resolve self_modification_lawful : lawful.
Lemma setMemberRoleCore_lawful c body : law (setMemberRoleCore c body).
Proof. unfold setMemberRoleCore, user_id_required. lawful_tac; apply self_modification_lawful. Qed.
Lemma removeMemberCore_lawful c userID : law (removeMemberCore c userID).
Proof. unfold removeMemberCore. lawful_tac; apply self_modification_lawful. Qed.
Lemma transferOrganizationOwnerCore_lawful c body : law (transferOrganizationOwnerCore c body).
Proof. unfold transferOrganizationOwnerCore. lawful_tac. Qed.
Lemma createRoleCore_lawful c body : law (createRoleCore lower c body).
Proof. unfold createRoleCore, role_view. lawful_tac. Qed.
(** The permissions that an update writes come from the floor. *)
Lemma parsed_floor name raw permissions coerced :
  (let? p := parsePermissions raw in Ok (E := string) (CoerceAdminFloor name p)) = Ok (permissions, coerced) →
  ∃ requested, permissions = (CoerceAdminFloor name requested).1.
Proof. destruct (parsePermissions raw) as [p|e]; [|done]. cbn. intros [= He]. exists p. by rewrite He. Qed.
Hint Extern 1 (org_op _ _ (transact (update_role_tx _ _ _ _ _ _ _ _))) =>
  simplify_eq; apply op_update_role; first [by left | right; by eapply parsed_floor] : org.
Lemma updateRoleCore_lawful c rawName body : law (updateRoleCore lower c rawName body).
Proof. unfold updateRoleCore, role_view. lawful_tac. Qed.
Lemma deleteRoleCore_lawful c rawName : law (deleteRoleCore lower c rawName).
Proof. unfold deleteRoleCore. lawful_tac. Qed.
Lemma organizationCreateCore_lawful i body : law (organizationCreateCore i body).
Proof. unfold organizationCreateCore. lawful_tac. Qed.
Lemma invitationAcceptCore_lawful i body : law (invitationAcceptCore lower sqlLower i body).
Proof. unfold invitationAcceptCore. lawful_tac. Qed.
Lemma startSso_lawful limited orgID t : law (startSso getenv fold workos limited orgID t).
Proof. unfold startSso, db_failed, refused, no_active_connection. lawful_tac. Qed.
Lemma admit_profile_lawful orgID connection p base t : law (admit_profile getenv fold lower sqlLower orgID connection p base t).
Proof. unfold admit_profile, db_failed, refused, failedSsoCallback. lawful_tac. Qed.
Lemma callbackSso_lawful code state binding t : law (callbackSso getenv fold lower sqlLower workos code state binding t).
Proof. unfold callbackSso, db_failed, refused, invalid_state, invalidSsoState, failedSsoCallback, no_active_connection. lawful_tac; apply admit_profile_lawful. Qed.
Lemma createSsoConnection_lawful c body unique : law (createSsoConnection c body unique).
Proof. unfold createSsoConnection. lawful_tac. Qed.
Lemma updateSsoConnection_lawful c id body : law (updateSsoConnection c id body).
Proof. unfold updateSsoConnection. lawful_tac. Qed.
Lemma revokeSsoConnection_lawful c id : law (revokeSsoConnection c id).
Proof. unfold revokeSsoConnection. lawful_tac. Qed.
Lemma browserSessionLogout_lawful isAllowed r t : law (browserSessionLogout getenv fold isAllowed r t).
Proof. unfold browserSessionLogout. lawful_tac. Qed.
Lemma browserSessionOrganization_lawful i body t : law (browserSessionOrganization getenv fold i body t).
Proof. unfold browserSessionOrganization, session_refused. lawful_tac. Qed.
End handlers.

(** * What holds in every history *)

(** Grants under which the floor is effective. *)
Definition floor_kept (grants : option json) : Prop :=
  match grants with
  | None | Some JNull => True
  | Some tree => ∃ keys, tree = JArr (map JStr keys) ∧ ∀ p, p ∈ MandatoryAdminPermissions → p ∈ keys
  end.
Definition owner_is_admin (s : Org) (orgID owner : string) : Prop :=
  ∃ m, m ∈ org_members s ∧ member_key m = (orgID, owner) ∧ mb_Role m = RoleAdmin.
Record org_inv (s : Org) : Prop := mkInv
  { members_distinct : members_unique (org_members s) = true;
    owners_admin : ∀ orgID owner name, organizations s !! orgID = Some (owner, name) → owner_is_admin s orgID owner;
    admins_floor : ∀ orgID r, org_roles s !! (orgID, RoleAdmin) = Some r → floor_kept (ro_Granted r) }.

Lemma org_inv_empty t : org_inv (empty_org t).
Proof. split; [done|by intros ???; cbn; rewrite lookup_empty|by intros ??; cbn; rewrite lookup_empty]. Qed.
(** Only these three tables matter. *)
Lemma org_inv_same s s' : org_members s' = org_members s → organizations s' = organizations s → org_roles s' = org_roles s →
  org_inv s → org_inv s'.
Proof.
  intros Hm Ho Hr [H1 H2 H3]. split.
  - by rewrite Hm.
  - intros orgID owner name. rewrite Ho. intros (m & Hin & Hk)%H2. exists m. by rewrite Hm.
  - intros orgID r. rewrite Hr. apply H3.
Qed.
Lemma owns_spec s m : owns s m = true ↔ ∃ name, organizations s !! mb_OrgID m = Some (mb_UserID m, name).
Proof.
  unfold owns. destruct (organizations s !! mb_OrgID m) as [[owner name]|] eqn:He; [|split; [done|by intros [? ?]]].
  rewrite String.eqb_eq. split; [intros ->; eauto|by intros [? [= -> _]]].
Qed.
Lemma existsb_out {A} (f : A → bool) l x : existsb f l = false → x ∈ l → f x = false.
Proof. intros He Hx%list_elem_of_In. apply not_true_iff_false. intros Hf. apply not_true_iff_false in He. apply He, existsb_exists. eauto. Qed.
Lemma NoDup_map_filter {A B} (f : A → B) (p : A → bool) l : NoDup (map f l) → NoDup (map f (List.filter p l)).
Proof.
  induction l as [|x l IH]; cbn; [done|]. intros [Hx Hl]%NoDup_cons. destruct (p x); cbn; [|by apply IH].
  apply NoDup_cons. split; [|by apply IH]. intros (y & Heq & [Hy _]%list_elem_of_In%filter_In)%list_elem_of_fmap. destruct Hx. rewrite Heq.
  apply list_elem_of_fmap. exists y. split; [done|]. by apply list_elem_of_In.
Qed.

(** ** Statements *)

Lemma update_members_keeps triggers where_ set s n s' : (∀ m, mb_OrgID (set m) = mb_OrgID m) →
  (triggers = false → ∀ m, mb_UserID (set m) = mb_UserID m ∧ mb_Role (set m) = mb_Role m) →
  update_members triggers where_ set s = Some (n, s') → org_inv s → org_inv s'.
Proof.
  intros Horg Hfree. unfold update_members. case_match eqn:Htr; [done|]. case_match eqn:Hu; [done|]. intros [= _ <-] [H1 H2 H3].
  destruct s as [l roles orgs inv pro ses con non conf aud clock]; cbn in *. split; cbn; [by apply negb_false_iff in Hu| |done].
  intros orgID owner name Ho. destruct (H2 _ _ _ Ho) as (m & Hin & Hk & Hrole). exists (if where_ m then set m else m). cbn in *.
  split; [apply list_elem_of_fmap; by exists m|]. destruct (where_ m) eqn:Hw; [|done]. unfold member_key in *. rewrite Horg.
  destruct triggers; cbn in Htr; [|by destruct (Hfree eq_refl m) as [-> ->]].
  apply (existsb_out _ _ _ Htr) in Hin. rewrite Hw in Hin. cbn in Hin. unfold protected_update, owns in Hin. cbn in Hin. simplify_eq.
  rewrite Ho in Hin. rewrite String.eqb_refl in Hin. cbn in Hin. apply negb_false_iff, andb_true_iff in Hin as [?%String.eqb_eq ?%String.eqb_eq]. by split; congruence.
Qed.
Lemma delete_members_keeps where_ s n s' : delete_members where_ s = Some (n, s') → org_inv s → org_inv s'.
Proof.
  unfold delete_members. case_match eqn:Htr; [done|]. intros [= _ <-] [H1 H2 H3].
  destruct s as [l roles orgs inv pro ses con non conf aud clock]; cbn in *. split; cbn; [| |done].
  - unfold members_unique in *. apply andb_true_iff in H1 as [Hk%bool_decide_eq_true Hi%bool_decide_eq_true].
    apply andb_true_iff. split; apply bool_decide_eq_true; by apply NoDup_map_filter.
  - intros orgID owner name Ho. destruct (H2 _ _ _ Ho) as (m & Hin & Hk & Hrole). exists m. cbn. split; [|done].
    apply (existsb_out _ _ _ Htr) in Hin as Hout. unfold owns in Hout. cbn in Hout. unfold member_key in Hk. simplify_eq.
    rewrite Ho, String.eqb_refl, andb_true_r in Hout. apply list_elem_of_In, filter_In. rewrite Hout. split; [by apply list_elem_of_In|done].
Qed.
Lemma insert_member_spec m s u s' : insert_member m s = Some (u, s') →
  s' = set_members (org_members s ++ [m]) s ∧ members_unique (org_members s ++ [m]) = true.
Proof. unfold insert_member. case_match; [|done]. by intros [= _ <-]. Qed.
Lemma insert_member_keeps m s u s' : insert_member m s = Some (u, s') → org_inv s → org_inv s'.
Proof.
  intros [-> Hu]%insert_member_spec [H1 H2 H3]. destruct s as [l roles orgs inv pro ses con non conf aud clock]; cbn in *.
  split; cbn; [done| |done]. intros orgID owner name (m' & Hin & Hk)%H2. exists m'. split; [|done]. cbn in *. by apply elem_of_app; left.
Qed.
Lemma upsert_member_keeps triggers m set s u s' : (∀ m, mb_OrgID (set m) = mb_OrgID m) →
  (triggers = false → ∀ m, mb_UserID (set m) = mb_UserID m ∧ mb_Role (set m) = mb_Role m) →
  upsert_member triggers m set s = Some (u, s') → org_inv s → org_inv s'.
Proof.
  intros Horg Hfree. unfold upsert_member. case_match; [|by apply insert_member_keeps].
  destruct (update_members _ _ _ s) as [[n s1]|] eqn:He; [|done]. intros [= _ <-]. by eapply update_members_keeps.
Qed.
Lemma UpdateOrgMemberRole_keeps orgID userID role s n s' : UpdateOrgMemberRole orgID userID role s = Some (n, s') → org_inv s → org_inv s'.
Proof. by apply update_members_keeps. Qed.
Lemma DeleteOrgMember_keeps orgID userID s n s' : DeleteOrgMember orgID userID s = Some (n, s') → org_inv s → org_inv s'.
Proof. by apply delete_members_keeps. Qed.
(** A role of the organisation: any row that is not the administrators', or keeps the floor. *)
Lemma set_org_roles_keeps key r s : (key.2 = RoleAdmin → floor_kept (ro_Granted r)) → org_inv s →
  org_inv (set_org_roles (<[key := r]> (org_roles s)) s).
Proof.
  intros Hr [H1 H2 H3]. destruct s as [l roles orgs inv pro ses con non conf aud clock]; cbn in *. split; cbn; [done|exact H2|].
  intros orgID r'. rewrite lookup_insert_Some. intros [[-> <-]|[_ Hl]]; [by apply Hr|by eapply H3].
Qed.
(** A statement that leaves the three tables alone. *)
Definition frame {X} (o : op Org X) : Prop := ∀ s x s', o s = Some (x, s') →
  org_members s' = org_members s ∧ organizations s' = organizations s ∧ org_roles s' = org_roles s.
Lemma frame_keeps {X} (o : op Org X) s x s' : frame o → o s = Some (x, s') → org_inv s → org_inv s'.
Proof. intros Ho He. destruct (Ho _ _ _ He) as (? & ? & ?). by apply org_inv_same. Qed.
Ltac frame_tac := intros [] ? ? He; cbn in He; revert He; repeat case_match; intros; simplify_eq; cbn; by auto.
Lemma write_audit_frame a : frame (write_audit a).
Proof. unfold write_audit. frame_tac. Qed.
Lemma CreateOrReactivateInvitation_frame id orgID email role by_ : frame (CreateOrReactivateInvitation id orgID email role by_).
Proof. unfold CreateOrReactivateInvitation. frame_tac. Qed.
Lemma settle_invitation_frame where_ status : frame (settle_invitation where_ status).
Proof. unfold settle_invitation. frame_tac. Qed.
Lemma UpsertIdentityProfile_frame id name email : frame (UpsertIdentityProfile id name email).
Proof. unfold UpsertIdentityProfile. frame_tac. Qed.
Lemma CreateAuthSession_frame sqlLower id userID email orgID expiresAt : frame (CreateAuthSession sqlLower id userID email orgID expiresAt).
Proof. unfold CreateAuthSession. frame_tac. Qed.
Lemma change_connection_frame id orgID set : frame (change_connection id orgID set).
Proof. unfold change_connection. frame_tac. Qed.
#[export] Hint Resolve write_audit_frame CreateOrReactivateInvitation_frame settle_invitation_frame UpsertIdentityProfile_frame
  CreateAuthSession_frame change_connection_frame : org.

(** ** Transactions *)

(** The statements of a transaction that committed. *)
Ltac tx_inv := repeat match goal with
  | H : tx_bind _ _ _ = Some (Ok _) |- _ => apply tx_bind_ok in H as (? & ? & ? & ?)
  | H : tx_do _ _ = Some (Ok _) |- _ => apply tx_do_ok in H
  | H : tx_ret _ _ = Some (Ok _) |- _ => injection H as; subst
  | H : tx_read _ _ = Some (Ok _) |- _ => injection H as; subst
  | H : tx_refuse _ _ = Some (Ok _) |- _ => discriminate H
  | H : context [match ?x with _ => _ end] |- _ =>
      lazymatch type of H with _ = Some (Ok _) => destruct x eqn:?; try discriminate H end
  end.
Section transactions.
Context {E A : Type}.
Lemma transact_keeps (m : tx Org E A) : (∀ s a s', m s = Some (Ok (a, s')) → org_inv s → org_inv s') →
  ∀ s x s', transact m s = Some (x, s') → org_inv s → org_inv s'.
Proof. intros Hm s x s' [(a & -> & He)|(e & -> & _ & ->)]%transact_ok; [by eapply Hm|done]. Qed.
End transactions.
Ltac kept := lazymatch goal with
  | |- org_inv ?s' => match goal with H : ?o ?s = Some (_, s') |- _ => eapply (frame_keeps o); [by eauto with org|exact H|] end end.
Lemma invite_tx_keeps c id email role s x s' : transact (invite_tx c id email role) s = Some (x, s') → org_inv s → org_inv s'.
Proof. apply transact_keeps. clear. unfold invite_tx. intros s a s' He Hi. tx_inv. repeat kept. done. Qed.
Lemma revoke_tx_keeps c id s x s' : transact (revoke_tx c id) s = Some (x, s') → org_inv s → org_inv s'.
Proof. apply transact_keeps. clear. unfold revoke_tx, RevokePendingInvitation. intros s a s' He Hi. tx_inv. repeat kept. done. Qed.
Lemma set_role_tx_keeps c userID role s x s' : transact (set_role_tx c userID role) s = Some (x, s') → org_inv s → org_inv s'.
Proof. apply transact_keeps. clear. unfold set_role_tx. intros s a s' He Hi. tx_inv; repeat kept; by eapply UpdateOrgMemberRole_keeps. Qed.
Lemma remove_tx_keeps c userID s x s' : transact (remove_tx c userID) s = Some (x, s') → org_inv s → org_inv s'.
Proof. apply transact_keeps. clear. unfold remove_tx. intros s a s' He Hi. tx_inv; repeat kept; by eapply DeleteOrgMember_keeps. Qed.

(** The new owner is an administrator by the time it owns. *)
Lemma UpdateOrgMemberRole_sets orgID userID role s n s' : UpdateOrgMemberRole orgID userID role s = Some (n, s') → (n =? 1)%Z = true →
  ∃ m, m ∈ org_members s' ∧ member_key m = (orgID, userID) ∧ mb_Role m = role.
Proof.
  unfold UpdateOrgMemberRole, update_members. case_match; [done|]. case_match; [done|]. intros [= <- <-] Hn%Z.eqb_eq.
  destruct (List.filter _ (org_members s)) as [|m l] eqn:Hf; [done|].
  assert (In m (List.filter (λ m, is_member orgID userID m && negb (String.eqb (mb_UserID m) (owner_of s orgID))) (org_members s)))
    as [Hin Hm]%filter_In by (rewrite Hf; by left).
  exists (with_role role m). destruct s as [ms roles orgs inv pro ses con non conf aud clock]; cbn in *. split; [|split; [|done]].
  - apply list_elem_of_fmap. exists m. rewrite Hm. split; [done|]. by apply list_elem_of_In.
  - unfold is_member in Hm. apply andb_true_iff in Hm as [[Ho%String.eqb_eq Hu%String.eqb_eq]%andb_true_iff _]. unfold member_key. cbn. congruence.
Qed.
Lemma TransferOrganizationOwner_keeps orgID current new s n s' : owner_is_admin s orgID new →
  TransferOrganizationOwner orgID current new s = Some (n, s') → org_inv s → org_inv s'.
Proof.
  unfold TransferOrganizationOwner. intros Hnew He [H1 H2 H3].
  destruct (organizations s !! orgID) as [[owner name]|] eqn:Ho; [case_match|]; simplify_eq; try by split.
  destruct s as [ms roles orgs inv pro ses con non conf aud clock]; cbn in *. split; cbn; [done| |done].
  intros orgID' owner' name'. rewrite lookup_insert_Some. intros [[<- [= <- <-]]|[_ Hl]]; [exact Hnew|by eapply H2].
Qed.
Lemma transfer_tx_keeps c userID s x s' : transact (transfer_tx c userID) s = Some (x, s') → org_inv s → org_inv s'.
Proof.
  apply transact_keeps. clear. unfold transfer_tx. intros s a s' He Hi. tx_inv. kept.
  eapply TransferOrganizationOwner_keeps; [|done|by eapply UpdateOrgMemberRole_keeps].
  eapply UpdateOrgMemberRole_sets; [done|]. by apply negb_false_iff.
Qed.

Lemma insert_role_keeps r s u s' : (ro_Name r = RoleAdmin → floor_kept (ro_Granted r)) → insert_role r s = Some (u, s') → org_inv s → org_inv s'.
Proof. unfold insert_role, InsertOrgRole. intros Hr He Hi. repeat case_match; simplify_eq. by apply set_org_roles_keeps. Qed.
Lemma create_role_tx_keeps c r permissions s x s' : IsBuiltinRole (ro_Name r) = false →
  transact (create_role_tx c r permissions) s = Some (x, s') → org_inv s → org_inv s'.
Proof.
  intros Hb. apply transact_keeps. clear -Hb. unfold create_role_tx. intros s a s' He Hi. tx_inv. kept.
  eapply insert_role_keeps; [|done|done]. intros Heq. by rewrite Heq in Hb.
Qed.
Lemma elem_in_list key l : in_list l key = true ↔ key ∈ l.
Proof. apply in_list_spec. Qed.
(** What the floor leaves for the administrators keeps it. *)
Lemma CoerceAdminFloor_floor requested : floor_kept (grants_json (CoerceAdminFloor RoleAdmin requested).1).
Proof.
  unfold CoerceAdminFloor. cbn -[MandatoryAdminPermissions]. eexists. split; [done|]. intros p Hp. apply elem_of_app.
  destruct (in_list (default [] requested) p) eqn:Hin; [left; by apply elem_in_list|right].
  apply list_elem_of_In, filter_In. rewrite Hin. split; [|done]. by apply list_elem_of_In.
Qed.
Lemma floor_written name permissions : permissions = None ∨ (∃ requested, permissions = (CoerceAdminFloor name requested).1) →
  name = RoleAdmin → floor_kept (grants_json permissions).
Proof. intros [->|[requested ->]] ->; [done|apply CoerceAdminFloor_floor]. Qed.
Lemma update_role_keeps orgID name grants description inherits s r s' : (name = RoleAdmin → floor_kept grants) →
  update_role orgID name grants description inherits s = Some (r, s') → org_inv s → org_inv s'.
Proof.
  unfold update_role, UpdateOrgRole. intros Hg He Hi. repeat case_match; simplify_eq. apply set_org_roles_keeps; [|done].
  cbn. intros ->. destruct grants; [by apply Hg|]. by eapply admins_floor.
Qed.
Lemma update_role_tx_keeps c name newID existing permissions description inherits coerced s x s' :
  permissions = None ∨ (∃ requested, permissions = (CoerceAdminFloor name requested).1) →
  transact (update_role_tx c name newID existing permissions description inherits coerced) s = Some (x, s') → org_inv s → org_inv s'.
Proof.
  intros Hp. apply transact_keeps. clear -Hp. unfold update_role_tx. intros s a s' He Hi. tx_inv; kept.
  - eapply update_role_keeps; [|done|done]. by apply floor_written.
  - eapply insert_role_keeps; [|done|done]. by apply floor_written.
Qed.
Lemma delete_role_tx_keeps c name action row metadata s x s' :
  transact (delete_role_tx c name action row metadata) s = Some (x, s') → org_inv s → org_inv s'.
Proof.
  apply transact_keeps. clear. unfold delete_role_tx, DeleteOrgRole. intros s a s' He [H1 H2 H3]. tx_inv. kept. simplify_eq.
  destruct s as [ms roles orgs inv pro ses con non conf aud clock]; cbn in *. split; cbn; [done|exact H2|].
  intros orgID r [_ Hl]%lookup_delete_Some. by eapply H3.
Qed.

(** The founder's row is inserted with the organisation. *)
Lemma create_org_tx_keeps i orgID memberID person name s x s' :
  transact (create_org_tx i orgID memberID person name) s = Some (x, s') → org_inv s → org_inv s'.
Proof.
  apply transact_keeps. clear. unfold create_org_tx, InsertFounderMembership. intros s a s' He Hi. tx_inv. kept.
  match goal with H : UpsertIdentityProfile _ _ _ _ = Some (_, ?s1), H' : InsertIdentityOrganization _ _ _ ?s1 = _, Hm : insert_member _ _ = _ |- _ =>
    assert (org_inv s1) as [I1 I2 I3] by (kept; done); rename H' into Ho; clear H; apply insert_member_spec in Hm as [-> Hu] end.
  unfold InsertIdentityOrganization in Ho. case_match; [done|]. simplify_eq.
  match goal with H : organizations ?s1 !! _ = None |- _ => destruct s1 as [ms roles orgs inv pro ses con non conf aud clock] end.
  cbn in *. split; cbn; [done| |exact I3]. intros orgID' owner name'. rewrite lookup_insert_Some. unfold owner_is_admin. cbn.
  intros [[<- [= <- <-]]|[_ (m & Hin & Hk)%I2]].
  - eexists. split; [apply elem_of_app; right; by left|done].
  - exists m. split; [by apply elem_of_app; left|done].
Qed.
Lemma accept_tx_keeps sqlLower i id email memberID s x s' :
  transact (accept_tx sqlLower i id email memberID) s = Some (x, s') → org_inv s → org_inv s'.
Proof.
  apply transact_keeps. clear. unfold accept_tx, MarkIdentityInvitationAccepted. intros s a s' He Hi. tx_inv. kept.
  eapply upsert_member_keeps; [| |done|repeat kept; done]; [by intros []|done].
Qed.
Lemma login_tx_keeps sqlLower orgID memberID sessionID connection p expiresAt s x s' :
  transact (login_tx sqlLower orgID memberID sessionID connection p expiresAt) s = Some (x, s') → org_inv s → org_inv s'.
Proof.
  apply transact_keeps. clear. unfold login_tx. intros s a s' He Hi. tx_inv. repeat kept.
  eapply upsert_member_keeps; [| |done|done]; done.
Qed.

(** ** Histories *)

Ltac frame_solve :=
  first [apply change_connection_frame
        | unfold RevokeAuthSession, UpdateAuthSessionOrganization, CreateSsoConnection, RecordSsoNonce, ConsumeSsoNonce, CleanupExpiredSsoNonces,
            write_audit; frame_tac].
Ltac frame_op := eapply frame_keeps; [|eassumption|eassumption]; clear; frame_solve.
Lemma org_op_keeps sqlLower X (o : op Org X) : org_op sqlLower X o → ∀ s x s', o s = Some (x, s') → org_inv s → org_inv s'.
Proof.
  intros Ho s x s' He Hi. revert x He. destruct Ho; intros x He;
    eauto using invite_tx_keeps, revoke_tx_keeps, set_role_tx_keeps, remove_tx_keeps, transfer_tx_keeps, create_role_tx_keeps,
      update_role_tx_keeps, delete_role_tx_keeps, create_org_tx_keeps, accept_tx_keeps, login_tx_keeps, delete_members_keeps,
      insert_member_keeps.
  all: try (eapply update_members_keeps; [| |exact He|exact Hi]; done).
  all: first [frame_op|injection He as _ <-; eapply org_inv_same; [..|exact Hi]; by destruct s].
Qed.
Lemma org_step_keeps sqlLower s s' : org_inv s → org_step sqlLower s s' → org_inv s'.
Proof. intros Hi (X & o & x & Ho & He). by eapply org_op_keeps. Qed.
Lemma org_history_inv sqlLower t s : org_history sqlLower t s → org_inv s.
Proof. intros Hs. eapply (rtc_keeps (org_step sqlLower)); [apply org_step_keeps|exact Hs|apply org_inv_empty]. Qed.

(** ** The floor is effective *)

Lemma read_strings keys prev : read_elements read_string "" (map JStr keys) prev = Some keys.
Proof. revert prev. induction keys as [|k keys IH]; intros prev; [done|]. cbn. by rewrite IH. Qed.
Lemma floor_effective row p : (∀ r, row = Some r → floor_kept (ro_Granted r)) → p ∈ MandatoryAdminPermissions →
  in_list (EffectivePermissions row (Some (mkResolvedRole RoleAdmin RoleAdmin))) p = true.
Proof.
  intros Hrow Hp. assert (in_list (default_keys RoleAdmin) p = true ∧ IsPermission p = true) as [Hd Hcat].
  { apply elem_of_cons in Hp as [->|Hp]; [|apply list_elem_of_singleton in Hp as ->]; split; vm_compute; reflexivity. }
  unfold EffectivePermissions. destruct row as [r|]; [|exact Hd]. specialize (Hrow r eq_refl). cbn -[IsPermission default_keys in_list RoleAdmin].
  unfold granted, floor_kept in *. destruct (ro_Granted r) as [[]|].
  1, 7: exact Hd.
  all: destruct Hrow as (keys & He & Hk); try discriminate He; injection He as ->.
  cbn -[IsPermission in_list RoleAdmin]. rewrite read_strings. apply elem_in_list, list_elem_of_In, filter_In. split; [|done]. by apply list_elem_of_In, Hk.
Qed.
Lemma rank_admin gate : rank_ok gate (Some (mkResolvedRole RoleAdmin RoleAdmin)) = true.
Proof. unfold rank_ok. apply orb_true_iff. right. apply Nat.leb_le. unfold Rank. cbn. repeat case_match; lia. Qed.
(** An administrator passes a gate that asks at most for the floor, unless a read fails. *)
Lemma admin_passes sqlLower c gate : cx_MembershipRole c = RoleAdmin → gate_permission gate ∈ "" :: MandatoryAdminPermissions →
  ∀ s, org_inv s → (∀ a s', finishes (org_step sqlLower) (checkGate c gate) s a s' → a = None ∨ a = Some Internal) ∧
    run (checkGate c gate) [] [] s = (None, s).
Proof.
  intros Hrole Hp s Hi. unfold checkGate. rewrite Hrole.
  change (ResolveRoleFromMembership _ RoleAdmin _) with (Ret (S := Org) (Ok (E := db_error) (Some (mkResolvedRole RoleAdmin RoleAdmin)))).
  cbn -[rank_ok permission_ok MandatoryAdminPermissions EffectivePermissions RoleAdmin].
  rewrite rank_admin. cbn -[permission_ok MandatoryAdminPermissions EffectivePermissions RoleAdmin]. destruct (String.eqb (gate_permission gate) "") eqn:He.
  { split; [|done]. intros a s' [-> _]. by left. }
  apply String.eqb_neq in He. apply elem_of_cons in Hp as [Hp|Hp]; [done|].
  assert (∀ s1, org_inv s1 → permission_ok gate (Some (mkResolvedRole RoleAdmin RoleAdmin))
      (EffectivePermissions (GetOrgRole (cx_OrgID c) RoleAdmin s1) (Some (mkResolvedRole RoleAdmin RoleAdmin))) = true) as Hok.
  { intros s1 Hi1. unfold permission_ok. apply orb_true_iff. right. apply floor_effective; [|done].
    intros r. by apply admins_floor. }
  split.
  - intros a s' (s1 & r & Hs & [->| ->] & Hf)%finishes_query; cbn -[permission_ok EffectivePermissions RoleAdmin] in Hf; [destruct Hf as [-> _]; by right|].
    rewrite Hok in Hf; [destruct Hf as [-> _]; by left|]. by eapply rtc_keeps; [apply org_step_keeps|exact Hs|].
  - cbn -[permission_ok EffectivePermissions RoleAdmin]. by rewrite Hok.
Qed.

(** ** Ownership *)

(** The statements that leave organisations alone. *)
Definition same_orgs {X} (o : op Org X) : Prop := ∀ s x s', o s = Some (x, s') → organizations s' = organizations s.
Lemma frame_same_orgs {X} (o : op Org X) : frame o → same_orgs o.
Proof. intros Ho s x s' He. by destruct (Ho _ _ _ He) as (_ & ? & _). Qed.
Ltac same_tac := intros [] ? ? He; cbn in He; revert He; repeat case_match; intros; simplify_eq; cbn; by auto.
Lemma update_members_same triggers where_ set : same_orgs (update_members triggers where_ set).
Proof. unfold update_members. same_tac. Qed.
Lemma delete_members_same where_ : same_orgs (delete_members where_).
Proof. unfold delete_members. same_tac. Qed.
Lemma insert_member_same m : same_orgs (insert_member m).
Proof. unfold insert_member. same_tac. Qed.
Lemma upsert_member_same triggers m set : same_orgs (upsert_member triggers m set).
Proof.
  intros s x s'. unfold upsert_member. case_match; [|apply insert_member_same].
  destruct (update_members _ _ _ s) as [[n s1]|] eqn:He; [|done]. intros [= _ <-]. by eapply update_members_same.
Qed.
Lemma UpdateOrgMemberRole_same orgID userID role : same_orgs (UpdateOrgMemberRole orgID userID role).
Proof. intros s x s'. apply update_members_same. Qed.
Lemma DeleteOrgMember_same orgID userID : same_orgs (DeleteOrgMember orgID userID).
Proof. intros s x s'. apply delete_members_same. Qed.
Lemma UpsertInvitedIdentityMembership_same id orgID userID email role by_ : same_orgs (UpsertInvitedIdentityMembership id orgID userID email role by_).
Proof. apply upsert_member_same. Qed.
Lemma UpsertSsoMembership_same id orgID userID email : same_orgs (UpsertSsoMembership id orgID userID email).
Proof. apply upsert_member_same. Qed.
Lemma insert_role_same r : same_orgs (insert_role r).
Proof. unfold insert_role, InsertOrgRole. same_tac. Qed.
Lemma update_role_same orgID name grants description inherits : same_orgs (update_role orgID name grants description inherits).
Proof. unfold update_role, UpdateOrgRole. same_tac. Qed.
Lemma DeleteOrgRole_same orgID name : same_orgs (DeleteOrgRole orgID name).
Proof. unfold DeleteOrgRole. same_tac. Qed.
Lemma RevokePendingInvitation_frame id orgID : frame (RevokePendingInvitation id orgID).
Proof. apply settle_invitation_frame. Qed.
Lemma MarkIdentityInvitationAccepted_frame id : frame (MarkIdentityInvitationAccepted id).
Proof. apply settle_invitation_frame. Qed.
#[export] Hint Resolve frame_same_orgs UpdateOrgMemberRole_same DeleteOrgMember_same UpsertInvitedIdentityMembership_same UpsertSsoMembership_same
  insert_role_same update_role_same DeleteOrgRole_same RevokePendingInvitation_frame MarkIdentityInvitationAccepted_frame
  insert_member_same update_members_same delete_members_same : org.
Lemma transact_same {E A} (m : tx Org E A) : (∀ s a s', m s = Some (Ok (a, s')) → organizations s' = organizations s) → same_orgs (transact m).
Proof. intros Hm s x s' [(a & -> & He)|(e & -> & _ & ->)]%transact_ok; [by eapply Hm|done]. Qed.
Ltac stays := match goal with
  | H : ?o ?s = Some (_, ?s') |- context [organizations ?s'] =>
      assert (same_orgs o) as Hsame by eauto with org; rewrite (Hsame _ _ _ H); clear Hsame
  end.
Ltac tx_same := apply transact_same; clear; intros s a s' He; tx_inv; repeat first [done|stays].
#[export] Hint Extern 2 (same_orgs (transact _)) =>
  unfold invite_tx, revoke_tx, set_role_tx, remove_tx, create_role_tx, update_role_tx, delete_role_tx, accept_tx, login_tx; solve [tx_same] : org.
Lemma create_org_tx_owner i orgID' memberID person name' s x s' orgID v : transact (create_org_tx i orgID' memberID person name') s = Some (x, s') →
  organizations s !! orgID = Some v → organizations s' !! orgID = Some v.
Proof.
  intros [(a & -> & He)|(e & -> & _ & ->)]%transact_ok Hv; [|done]. unfold create_org_tx, InsertFounderMembership in He. tx_inv.
  stays. stays. match goal with H : InsertIdentityOrganization _ _ _ _ = _ |- _ => rename H into Ho end.
  match goal with H : UpsertIdentityProfile _ _ _ _ = _ |- _ => apply UpsertIdentityProfile_frame in H as (_ & Hsame & _) end.
  unfold InsertIdentityOrganization in Ho. case_match; [done|]. simplify_eq.
  match goal with H : organizations ?s1 !! _ = None |- _ => destruct s1 end. cbn in *. subst.
  rewrite lookup_insert_ne; [done|]. by intros <-; simplify_eq.
Qed.
Lemma TransferOrganizationOwner_spec orgID current new s n s' : TransferOrganizationOwner orgID current new s = Some (n, s') → (n =? 1)%Z = true →
  ∃ name, organizations s !! orgID = Some (current, name) ∧ organizations s' = <[orgID := (new, name)]> (organizations s).
Proof.
  unfold TransferOrganizationOwner. intros He Hn. destruct (organizations s !! orgID) as [[owner name]|]; [|by simplify_eq].
  destruct (String.eqb owner current) eqn:Ho; simplify_eq. apply String.eqb_eq in Ho as ->. exists name. by destruct s.
Qed.
Lemma transfer_tx_owner c new s x s' orgID owner name : transact (transfer_tx c new) s = Some (x, s') → organizations s !! orgID = Some (owner, name) →
  organizations s' !! orgID = Some (owner, name) ∨
  (cx_OrgID c = orgID ∧ cx_UserID c = owner ∧ x = Ok tt ∧ organizations s' !! orgID = Some (new, name)).
Proof.
  intros [([] & -> & He)|(e & -> & _ & ->)]%transact_ok Ho; [|by left]. unfold transfer_tx in He. tx_inv. stays.
  match goal with H : TransferOrganizationOwner _ _ _ _ = _ |- _ => destruct (TransferOrganizationOwner_spec _ _ _ _ _ _ H) as (name' & Hn & ->); [by apply negb_false_iff|] end.
  match goal with H : UpdateOrgMemberRole _ _ _ _ = _ |- _ => apply UpdateOrgMemberRole_same in H; rewrite H in Hn |- * end.
  match goal with H : (_ || negb (String.eqb _ _)) = false |- _ => apply orb_false_iff in H as [_ Hc%negb_false_iff%String.eqb_eq] end.
  destruct (decide (cx_OrgID c = orgID)) as [<-|Hne]; [right|left; by rewrite lookup_insert_ne].
  rewrite Ho in Hn. simplify_eq. rewrite lookup_insert_eq. by split_and!.
Qed.
(** An operation leaves the owner, or is a transfer by the owner. *)
Lemma org_step_owner sqlLower s s' orgID owner name : org_step sqlLower s s' → organizations s !! orgID = Some (owner, name) →
  organizations s' !! orgID = Some (owner, name) ∨
  ∃ c new, cx_OrgID c = orgID ∧ cx_UserID c = owner ∧ transact (transfer_tx c new) s = Some (Ok tt, s') ∧ organizations s' !! orgID = Some (new, name).
Proof.
  intros (X & o & x & Ho & He) Hv. revert x He.
  assert (same_orgs o → ∀ x, o s = Some (x, s') → organizations s' !! orgID = Some (owner, name)) as Hsame by (by intros Hs x ->%Hs).
  destruct Ho; intros x He;
    try (left; eapply Hsame; [|exact He]; solve [eauto with org|apply update_members_same|apply delete_members_same|apply insert_member_same]).
  1: destruct (transfer_tx_owner _ _ _ _ _ _ _ _ He Hv) as [?|(? & ? & -> & ?)]; [by left|right; eauto 6].
  1: left; by eapply create_org_tx_owner.
  all: left; eapply Hsame; [|exact He]; apply frame_same_orgs; clear; frame_solve.
Qed.

(** ** The owner *)

Lemma GetOrgMembership_of s m : members_unique (org_members s) = true → m ∈ org_members s →
  GetOrgMembership (mb_OrgID m) (mb_UserID m) s = Some m.
Proof.
  unfold members_unique, GetOrgMembership. intros [Hk%bool_decide_eq_true _]%andb_true_iff Hm.
  destruct (List.filter (is_member (mb_OrgID m) (mb_UserID m)) (org_members s)) as [|m' l] eqn:Hf.
  - assert (m ∈ List.filter (is_member (mb_OrgID m) (mb_UserID m)) (org_members s)) as Hin; [|rewrite Hf in Hin; by apply elem_of_nil in Hin].
    apply list_elem_of_In, filter_In. unfold is_member. rewrite !String.eqb_refl. split; [by apply list_elem_of_In|done].
  - assert (In m' (List.filter (is_member (mb_OrgID m) (mb_UserID m)) (org_members s))) as [Hin He]%filter_In by (rewrite Hf; by left).
    cbn. f_equal. apply list_elem_of_In in Hin. unfold is_member in He. apply andb_true_iff in He as [Ho%String.eqb_eq Hu%String.eqb_eq].
    apply list_elem_of_lookup in Hin as [i Hi]. apply list_elem_of_lookup in Hm as [j Hj].
    assert (i = j) as ->; [|congruence]. eapply (NoDup_lookup _ _ _ (member_key m) Hk); rewrite list_lookup_fmap; [rewrite Hi|rewrite Hj]; cbn; [|done].
    unfold member_key. by rewrite Ho, Hu.
Qed.
(** C11: In every history of invitations, role changes, removals, transfers,
    role overrides, directory events and logins, by any callers and with any failures, the owner
    of an organisation has an administrator's row of it; with that row it passes every gate that
    asks for at most the two permissions of the floor, unless a read of the database fails, in
    which case the request is answered with an internal error and not with a refusal; and the
    owner changes only by a transfer that the owner itself makes. *)
Theorem owner_never_locked_out sqlLower t s orgID owner name :
  org_history sqlLower t s → organizations s !! orgID = Some (owner, name) →
  (∃ m, GetOrgMembership orgID owner s = Some m ∧ mb_Role m = RoleAdmin ∧
     ∀ c gate, cx_OrgID c = orgID → cx_MembershipRole c = mb_Role m → gate_permission gate ∈ "" :: MandatoryAdminPermissions →
       (∀ a s', finishes (org_step sqlLower) (checkGate c gate) s a s' → a = None ∨ a = Some Internal) ∧
       run (checkGate c gate) [] [] s = (None, s)) ∧
  (∀ s', org_step sqlLower s s' →
     organizations s' !! orgID = Some (owner, name) ∨
     ∃ c new, cx_OrgID c = orgID ∧ cx_UserID c = owner ∧ transact (transfer_tx c new) s = Some (Ok tt, s') ∧
       organizations s' !! orgID = Some (new, name)).
Proof.
  intros Hs%org_history_inv Ho. split; [|intros s' Hstep; by eapply org_step_owner].
  destruct (owners_admin s Hs _ _ _ Ho) as (m & Hin & [= Horg Huser] & Hrole). exists m.
  split; [|split; [done|intros c gate _ Hc Hp; apply admin_passes; congruence]].
  rewrite <-Horg, <-Huser. apply GetOrgMembership_of; [by apply members_distinct|done].
Qed.
(** The tables after an operation, for concrete histories. *)
Definition after {X} (o : op Org X) (s : Org) : Org := match o s with Some (_, s') => s' | None => s end.
Lemma after_history {X} sqlLower t (o : op Org X) s : org_op sqlLower X o → org_history sqlLower t s → org_history sqlLower t (after o s).
Proof.
  intros Ho Hs. unfold after. destruct (o s) as [[x s']|] eqn:He; [|done]. eapply rtc_r; [exact Hs|]. by exists X, o, x.
Qed.
(** Alice creates an organisation, clears the administrators' override, and Bob, who joined as
    an administrator from the directory, tries to demote her. *)
Definition acme : Org :=
  let alice := mkIdentity "alice" "alice@acme.io" ModeSupabase SourceWeb "" "" "" in
  let c := identity_context alice "org_1" in
  let bob := mkContext "org_1" "bob" ModeSupabase SourceWeb "" "" RoleAdmin "bob@acme.io" in
  after (transact (set_role_tx bob "alice" RoleViewer))
    (after (InsertScimMembership "m2" "org_1" "bob" RoleAdmin (Some "scim"))
      (after (transact (update_role_tx c RoleAdmin "r1" None (CoerceAdminFloor RoleAdmin (Some [])).1 None None []))
        (after (transact (create_org_tx alice "org_1" "m1" "Alice" "Acme")) (empty_org 0)))).
Lemma acme_history sqlLower : org_history sqlLower 0 acme.
Proof. unfold acme. repeat (apply after_history; [by eauto with org|]). apply rtc_refl. Qed.
Lemma owner_never_locked_out_witness :
  length (org_members acme) = 2 ∧ bool_decide (is_Some (org_roles acme !! ("org_1", RoleAdmin))) = true ∧
  ∃ m, GetOrgMembership "org_1" "alice" acme = Some m ∧ mb_Role m = RoleAdmin.
Proof.
  split; [reflexivity|]. split; [reflexivity|].
  destruct (owner_never_locked_out (λ t, t) 0 acme "org_1" "alice" "Acme" (acme_history _) eq_refl) as [(m & Hm & Hr & _) _].
  by exists m.
Defined.
