(* ===== verification/AccessFacts.v ===== *)
(** Who gets past the middleware: whoever a request is admitted as has proved it, belongs to the
    tenant with the role of its row, satisfies the tenant's login policy and the route's gate. And what a single sign-on that ends in a
    session went through. *)
From S2P Require Import Prelude GoStrings GoFloat GoAny GoInt Json JsonTree JsonPrint Token TokenFacts Process Permissions OrgTables Authz OrgRoutes SsoRoutes OrgFacts.
Local Open Scope string_scope.
Local Open Scope list_scope.

Section access.
Context (getenv : string → string) (fold : string → string → bool) (lower sqlLower : string → string).
Context (cfg : AuthConfig) (verifySupabase : string → option (string * string)) (isAllowed : string → bool).
Abbreviation step := (org_step sqlLower).
Abbreviation ends := (finishes (org_step sqlLower)).

(** A moment between two others. *)
Definition between (s s1 s' : Org) : Prop := rtc step s s1 ∧ rtc step s1 s'.
Lemma between_weaken s0 s s1 s' s2 : rtc step s0 s → rtc step s' s2 → between s s1 s' → between s0 s1 s2.
Proof. intros ? ? [? ?]. split; by etransitivity. Qed.

(** ** What a caller has proved *)

(** A principal is what the request proves: the signed cookie of a live session, a token that
    the identity provider vouches for, the service token, or headers that the configuration
    trusts. *)
Definition proves (r : Request) (t : Z) (p : principal) (s s' : Org) : Prop :=
  match pr_Mode p with
  | ModeJanuslySession => ∃ s1 e, between s s1 s' ∧ ReadSessionID getenv fold (rq_Cookie r) t ≠ "" ∧
      sessions s1 !! ReadSessionID getenv fold (rq_Cookie r) t = Some e ∧ live_session s1 e = true ∧
      pr_UserID p = as_UserID e ∧ pr_Email p = as_Email e ∧ pr_OrgHint p = as_OrgID e
  | ModeSupabase => cf_SupabaseURL cfg ≠ "" ∧ HasPrefix (rq_Header r "Authorization") "Bearer " = true ∧
      verifySupabase (TrimPrefix (rq_Header r "Authorization") "Bearer ") = Some (pr_UserID p, pr_Email p) ∧
      pr_OrgHint p = TrimSpace (rq_Header r "x-org-id")
  | ModeServiceToken => cf_ServiceToken cfg ≠ "" ∧ rq_Header r "Authorization" = "Bearer " +:+ cf_ServiceToken cfg ∧
      pr_OrgHint p = TrimSpace (rq_Header r "x-org-id")
  | ModeDevHeaders => allow_dev cfg = true ∧ pr_UserID p = TrimSpace (rq_Header r "x-user-id") ∧ pr_UserID p ≠ "" ∧
      pr_OrgHint p = TrimSpace (rq_Header r "x-org-id") ∧ pr_OrgHint p ≠ ""
  end.
(** The row of a person in the tenant: its own, or the pending row of its email address. *)
Definition belongs (p : principal) (orgID role : string) (s : Org) : Prop :=
  ∃ m, m ∈ org_members s ∧ mb_OrgID m = orgID ∧ mb_Role m = role ∧
    (mb_UserID m = pr_UserID p ∨
     Contains (mb_UserID m) "@" = true ∧ pr_Email p ≠ "" ∧ ∃ e, mb_Email m = Some e ∧ sqlLower e = sqlLower (pr_Email p)).
Definition human (mode : Mode) : bool := mode_is mode ModeSupabase || mode_is mode ModeJanuslySession.

Lemma bearer_spec header expected : constantTimeBearerMatch header expected = true → expected ≠ "" ∧ header = "Bearer " +:+ expected.
Proof.
  unfold constantTimeBearerMatch. destruct (_ || _) eqn:He; [done|]. apply orb_false_iff in He as [_ He%String.eqb_neq].
  case_match; [done|]. intros ->%String.eqb_eq. done.
Qed.
Lemma extract_headers_sound r t p s s' : extract_headers fold cfg verifySupabase r = Some p → proves r t p s s'.
Proof.
  unfold extract_headers. case_match eqn:Hs; [|case_match eqn:Ht; [|case_match eqn:Hd; [|done]]].
  - apply andb_true_iff in Hs as [[Hurl%negb_true_iff%String.eqb_neq Hpre]%andb_true_iff _].
    destruct (verifySupabase _) as [[userID email]|] eqn:Hv; [|done]. by intros [= <-].
  - apply andb_true_iff in Ht as [_ [Hb Hh]%bearer_spec]. by intros [= <-].
  - case_match eqn:Hne; [|done]. apply andb_true_iff in Hne as [?%negb_true_iff%String.eqb_neq ?%negb_true_iff%String.eqb_neq]. by intros [= <-].
Qed.
Lemma extract_sound r t p s s' : ends (extract getenv fold cfg verifySupabase r t) s (Ok (Some p)) s' → rtc step s s' ∧ proves r t p s s'.
Proof.
  intros Hf. assert (rtc step s s') as Hs by (eapply finishes_rtc; [|exact Hf]; apply extract_lawful). split; [done|].
  unfold extract in Hf. case_match eqn:Hid; [destruct Hf as [[= Hp] _]; by eapply extract_headers_sound|]. apply String.eqb_neq in Hid.
  apply finishes_query in Hf as (s1 & x & Hs1 & [->| ->] & Hf); [by destruct Hf|].
  destruct (GetActiveAuthSession _ s1) as [e|] eqn:He; destruct Hf as [[= Hp] ->]; [|by eapply extract_headers_sound].
  subst p. unfold GetActiveAuthSession in He. repeat case_match; simplify_eq. exists s1, e. repeat split; done.
Qed.

(** ** The row in the tenant *)

Lemma GetOrgMembership_in orgID userID s m : GetOrgMembership orgID userID s = Some m → m ∈ org_members s ∧ mb_OrgID m = orgID ∧ mb_UserID m = userID.
Proof.
  unfold GetOrgMembership. intros Hm. assert (In m (List.filter (is_member orgID userID) (org_members s))) as [Hin He]%filter_In.
  { destruct (List.filter _ _); simplify_eq/=. by left. }
  unfold is_member in He. apply andb_true_iff in He as [?%String.eqb_eq ?%String.eqb_eq]. by rewrite list_elem_of_In.
Qed.
Lemma head_filter {A} (f : A → bool) l x : head (List.filter f l) = Some x → x ∈ l ∧ f x = true.
Proof. intros Hx. rewrite list_elem_of_In, <-filter_In. destruct (List.filter f l); simplify_eq/=. by left. Qed.
Lemma belongs_row p orgID s m : GetOrgMembership orgID (pr_UserID p) s = Some m → belongs p orgID (mb_Role m) s.
Proof. intros (? & ? & ?)%GetOrgMembership_in. exists m. auto. Qed.
Lemma resolveHumanMembership_sound p s c s' : ends (resolveHumanMembership lower sqlLower p) s (Ok (Some c)) s' →
  ∃ orgID role s1, between s s1 s' ∧ belongs p orgID role s1 ∧ c = human_context lower p orgID role.
Proof.
  intros Hf. assert (rtc step s s') as Hs by (eapply finishes_rtc; [|exact Hf]; apply resolveHumanMembership_lawful).
  unfold resolveHumanMembership in Hf. destruct (negb _).
  - apply finishes_query in Hf as (s1 & x & Hs1 & [->| ->] & Hf); [by destruct Hf|].
    destruct (GetOrgMembership _ _ s1) as [m|] eqn:Hm.
    { destruct Hf as [[= ->] ->]. eexists _, _, s1. split; [done|]. split; [by apply belongs_row|done]. }
    case_match eqn:Hem; [by destruct Hf|]. apply String.eqb_neq in Hem.
    apply finishes_query in Hf as (s2 & x & Hs2 & [->| ->] & Hf); [by destruct Hf|].
    destruct (FindOrgMemberByEmail _ _ _ s2) as [m|] eqn:Hby; [|by destruct Hf].
    case_match eqn:Hmig; [|by destruct Hf]. apply andb_true_iff in Hmig as [_ Hat].
    apply head_filter in Hby as [Hin [Horg%String.eqb_eq He]%andb_true_iff]. destruct (mb_Email m) as [e|] eqn:Hme; [|done]. apply String.eqb_eq in He.
    apply finishes_do in Hf as (s3 & s4 & Hs3 & [[Hf _]|(n & Hn & [[= ->] ->])]); [by destruct Hf|].
    eexists _, _, s2. split; [|split; [|done]].
    + split; [by transitivity s1|]. etransitivity; [exact Hs3|]. eapply org_op_lawful; [constructor|exact Hn].
    + exists m. do 3 (split; [done|]). right. eauto.
  - apply finishes_query in Hf as (s1 & x & Hs1 & [->| ->] & Hf); [by destruct Hf|].
    destruct (ListOrgMembershipsForUser _ s1) as [|m [|? ?]] eqn:Hl; destruct Hf as [[= ->] ->].
    eexists _, _, s1. split; [done|]. split; [|done].
    assert (In m (ListOrgMembershipsForUser (pr_UserID p) s1)) as [Hin Hu%String.eqb_eq]%filter_In by (rewrite Hl; by left).
    exists m. rewrite list_elem_of_In. auto.
Qed.
(** The context handed to the handler speaks for the principal. A machine or a development
    caller may have no row, and then no role. *)
Definition speaks_for (p : principal) (c : AuthContext) (s s' : Org) : Prop :=
  cx_Mode c = pr_Mode p ∧ cx_UserID c = pr_UserID p ∧
  (pr_OrgHint p ≠ "" → cx_OrgID c = pr_OrgHint p) ∧ (human (cx_Mode c) = true → cx_Email c = ToLower lower (pr_Email p)) ∧
  (human (cx_Mode c) = false ∧ cx_MembershipRole c = "" ∨ ∃ s1, between s s1 s' ∧ belongs p (cx_OrgID c) (cx_MembershipRole c) s1).
Lemma resolveHumanMembership_org p s c s' : ends (resolveHumanMembership lower sqlLower p) s (Ok (Some c)) s' → pr_OrgHint p ≠ "" → cx_OrgID c = pr_OrgHint p.
Proof.
  intros Hf Hne%String.eqb_neq. unfold resolveHumanMembership in Hf. rewrite Hne in Hf. cbn [negb] in Hf.
  apply finishes_query in Hf as (s1 & x & _ & [->| ->] & Hf); [by destruct Hf|].
  destruct (GetOrgMembership _ _ s1) as [m|]; [by destruct Hf as [[= ->] _]|]. case_match; [by destruct Hf|].
  apply finishes_query in Hf as (s2 & x & _ & [->| ->] & Hf); [by destruct Hf|].
  destruct (FindOrgMemberByEmail _ _ _ s2) as [m|]; [|by destruct Hf]. case_match; [|by destruct Hf].
  by apply finishes_do in Hf as (s3 & s4 & _ & [[Hf _]|(n & _ & [[= ->] _])]); [destruct Hf|].
Qed.
Lemma resolve_direct_sound p orgID s c s' : human (pr_Mode p) = false → ends (resolve_direct p orgID) s (Ok (Some c)) s' →
  (pr_OrgHint p ≠ "" → orgID = pr_OrgHint p) → speaks_for p c s s'.
Proof.
  intros Hm Hf Horg. unfold resolve_direct in Hf. apply finishes_query in Hf as (s1 & x & Hs1 & [->| ->] & Hf); [by destruct Hf|].
  destruct Hf as [[= ->] ->]. unfold speaks_for. cbn. rewrite Hm. split_and!; try done.
  destruct (GetOrgMembership _ _ s1) as [m|] eqn:Hrow; [right|by left]. exists s1. split; [done|]. by apply belongs_row.
Qed.
Lemma resolve_principal_sound p s c s' : ends (resolve_principal lower sqlLower p) s (Ok (Some c)) s' → speaks_for p c s s'.
Proof.
  unfold resolve_principal. destruct (pr_Mode p) eqn:Hm.
  1, 2: intros Hf; pose proof (resolveHumanMembership_org _ _ _ _ Hf) as Horg; apply resolveHumanMembership_sound in Hf as (orgID & role & s1 & Hb & Hin & ->);
    unfold speaks_for; cbn; rewrite Hm; split_and!; try done; right; by exists s1.
  - intros Hf. eapply resolve_direct_sound; [by rewrite Hm|exact Hf|]. intros Hne%String.eqb_neq. by rewrite Hne.
  - intros Hf. eapply resolve_direct_sound; [by rewrite Hm|exact Hf|done].
Qed.

(** ** The policy and the gate *)

(** The tenant's login policy allows the caller, on what was stored meanwhile; a service token
    is not subject to it. *)
Definition allowed_by_policy (c : AuthContext) (s s' : Org) : Prop :=
  cx_Mode c = ModeServiceToken ∨ ∃ s1 s2, between s s1 s' ∧ between s s2 s' ∧
    de_Allowed (Decide lower (cx_Mode c) (cx_Email c) (policy_of lower (ListAuthPolicyConfigRows (cx_OrgID c) s1))
      (if mode_is (cx_Mode c) ModeSupabase || mode_is (cx_Mode c) ModeDevHeaders then FindSsoConnectionForOrg (cx_OrgID c) s2 else None)
      (devSSOBypassEnabled getenv fold)) = true.
Lemma mode_is_spec m n : mode_is m n = true ↔ m = n.
Proof. apply bool_decide_eq_true. Qed.
Lemma evaluate_allows mode email config connection : de_Allowed (evaluate getenv fold lower mode email config connection) = true →
  mode = ModeServiceToken ∨ ∃ c k, config = Some c ∧ connection = Some k ∧ de_Allowed (Decide lower mode email c k (devSSOBypassEnabled getenv fold)) = true.
Proof.
  unfold evaluate. destruct (mode_is mode ModeServiceToken) eqn:Hm; [intros _; left; by apply mode_is_spec|]. intros Hd. right.
  destruct config as [config|]; [|done]. destruct connection as [k|]; [|done]. eauto.
Qed.
(** Refused or not, the verdict is that of [evaluate]. *)
Lemma Evaluate_sound c s d s' : ends (Evaluate getenv fold lower (cx_OrgID c) (cx_UserID c) (cx_Email c) (cx_Mode c) None) s d s' →
  de_Allowed d = true → allowed_by_policy c s s'.
Proof.
  intros Hf Hd. assert (rtc step s s') as Hs by (eapply finishes_rtc; [|exact Hf]; apply Evaluate_lawful).
  unfold Evaluate in Hf. apply finishes_query in Hf as (s1 & rows & Hs1 & Hrows & Hf).
  assert (∀ connection s2, rtc step s1 s2 → ends
      (let d := evaluate getenv fold lower (cx_Mode c) (cx_Email c) (policy_of lower <$> rows) connection in
       if de_Allowed d then Ret d else try! (λ s, Some (tt, add_audit (mkAudit (cx_OrgID c) (cx_UserID c) "auth.policy.rejected" "user" (cx_UserID c)
            [("policyKey", AStr (de_PolicyKey d)); ("reason", AStr (de_Reason d)); ("mode", AStr (mode_text (cx_Mode c)));
             ("email", if String.eqb (cx_Email c) "" then ANil else AStr (cx_Email c))]) s)) in Ret d) s2 d s' →
    cx_Mode c = ModeServiceToken ∨ rtc step s1 s' ∧ ∃ k, connection = Some k ∧
      de_Allowed (Decide lower (cx_Mode c) (cx_Email c) (policy_of lower (ListAuthPolicyConfigRows (cx_OrgID c) s1)) k (devSSOBypassEnabled getenv fold)) = true) as Hdec.
  { intros connection s2 Hs2. cbv zeta. destruct (de_Allowed (evaluate _ _ _ _ _ _ connection)) eqn:He; intros Hg.
    - destruct Hg as [-> ->]. apply evaluate_allows in He as [?|(config & k & Hc & -> & Hk)]; [by left|right]. split; [done|]. exists k. split; [done|].
      destruct Hrows as [->| ->]; simplify_eq/=. done.
    - apply finishes_do in Hg as (? & ? & _ & [[[-> _] _]|(? & _ & [-> _])]); congruence. }
  unfold allowed_by_policy. destruct (_ || _) eqn:Hm.
  - apply finishes_query in Hf as (s2 & k & Hs2 & Hk & Hf).
    destruct (Hdec _ _ Hs2 Hf) as [?|(Hs1' & k' & -> & Hd')]; [by left|right]. destruct Hk as [|[= ->]]; [done|].
    exists s1, s2. split; [done|]. split; [|done]. split; [by transitivity s1|].
    eapply finishes_rtc; [|exact Hf]. cbv zeta. destruct (de_Allowed (evaluate _ _ _ _ _ _ _)); [done|]. apply (lawful_do _ (write_audit _)); [constructor|done].
  - destruct (Hdec _ _ (rtc_refl _ _) Hf) as [?|(Hs1' & k' & [= <-] & Hd')]; [by left|right]. by exists s1, s1.
Qed.
Definition resolves_to (c : AuthContext) (role : option ResolvedRole) (s : Org) : Prop :=
  (run (ResolveRoleFromMembership (cx_OrgID c) (cx_MembershipRole c) (cx_Mode c)) [] [] s).1 = Ok role.
(** The caller's role has the rank, and its effective permissions the permission, of the gate. *)
Definition passes (c : AuthContext) (gate : routeGate) (s s' : Org) : Prop :=
  ∃ s1 role, between s s1 s' ∧ resolves_to c role s1 ∧ rank_ok gate role = true ∧
    (gate_permission gate = "" ∨ ∃ s2 r, between s s2 s' ∧ role = Some r ∧
       in_list (EffectivePermissions (GetOrgRole (cx_OrgID c) (rr_Name r) s2) role) (gate_permission gate) = true).
Lemma ResolveRoleFromMembership_sound c s role s' : ends (ResolveRoleFromMembership (cx_OrgID c) (cx_MembershipRole c) (cx_Mode c)) s (Ok role) s' →
  rtc step s s' ∧ resolves_to c role s'.
Proof.
  unfold resolves_to, ResolveRoleFromMembership. do 2 (case_match; [by intros [-> ->]|]).
  intros (s1 & x & Hs1 & [->| ->] & Hf)%finishes_query; [by destruct Hf|]. by destruct Hf as [-> ->].
Qed.
Lemma checkGate_sound c gate s s' : ends (checkGate c gate) s None s' → rtc step s s' ∧ passes c gate s s'.
Proof.
  intros Hf. assert (rtc step s s') as Hs by (eapply finishes_rtc; [|exact Hf]; apply checkGate_lawful). split; [done|].
  unfold checkGate in Hf. apply finishes_bind in Hf as ([role|] & s1 & Hr & Hf); [|by destruct Hf].
  apply ResolveRoleFromMembership_sound in Hr as [Hs1 Hr]. destruct (rank_ok gate role) eqn:Hrank; cbn [negb] in Hf; [|by destruct Hf].
  exists s1, role. case_match eqn:Hp.
  { destruct Hf as [_ ->]. split; [done|]. split; [done|]. split; [done|]. left. by apply String.eqb_eq. }
  apply finishes_bind in Hf as (eff & s2 & Heff & Hf). assert (rtc step s2 s' ∧ rtc step s1 s2) as [Hs2' Hs2].
  { split; [by destruct eff, Hf as [_ ->]|]. eapply finishes_rtc; [|exact Heff]. apply permissionsForResolvedRole_lawful. }
  split; [split; [done|by transitivity s2]|]. split; [done|]. split; [done|]. right.
  destruct eff as [eff|]; [|by destruct Hf]. destruct (permission_ok gate role eff) eqn:Hok; [|by destruct Hf].
  unfold permission_ok in Hok. rewrite Hp in Hok. cbn [orb] in Hok. destruct role as [r|]; [|discriminate Hok].
  apply finishes_query in Heff as (s3 & x & Hs3 & [->| ->] & He); [by destruct He|]. destruct He as [[= ->] ->].
  exists s3, r. split; [|done]. split; [by transitivity s1|done].
Qed.
(** What held between two moments holds between moments around them. *)
Lemma proves_later r t p s0 s s' s2 : proves r t p s s' → rtc step s0 s → rtc step s' s2 → proves r t p s0 s2.
Proof.
  unfold proves. destruct (pr_Mode p); try done. intros (s1 & e & Hb & H) ? ?. exists s1, e. split; [by eapply between_weaken|done].
Qed.
Lemma speaks_later p c s0 s s' s2 : speaks_for p c s s' → rtc step s0 s → rtc step s' s2 → speaks_for p c s0 s2.
Proof.
  intros (? & ? & ? & ? & Hb) ? ?. do 4 (split; [done|]). destruct Hb as [?|(s1 & Hb & ?)]; [by left|right].
  exists s1. split; [by eapply between_weaken|done].
Qed.
Lemma allowed_later c s0 s s' s2 : allowed_by_policy c s s' → rtc step s0 s → rtc step s' s2 → allowed_by_policy c s0 s2.
Proof.
  intros [?|(s1 & s3 & Hb1 & Hb3 & ?)] ? ?; [by left|right]. exists s1, s3. split; [by eapply between_weaken|]. split; [by eapply between_weaken|done].
Qed.
Lemma passes_later c gate s0 s s' s2 : passes c gate s s' → rtc step s0 s → rtc step s' s2 → passes c gate s0 s2.
Proof.
  intros (s1 & role & Hb & Hr & Hrank & Hp) ? ?. exists s1, role. split; [by eapply between_weaken|]. split; [done|]. split; [done|].
  destruct Hp as [?|(s3 & r & Hb3 & ?)]; [by left|right]. exists s3, r. split; [by eapply between_weaken|done].
Qed.
(** Only the development headers give a role to a caller without a row. *)
Lemma no_role_no_gate c gate s s' : cx_MembershipRole c = "" → cx_Mode c ≠ ModeDevHeaders → passes c gate s s' → gate = mkGate "" "".
Proof.
  intros Hrole Hmode (s1 & role & _ & Hr & Hrank & Hp). unfold resolves_to, ResolveRoleFromMembership in Hr. rewrite Hrole in Hr. cbn in Hr.
  destruct (mode_is _ _) eqn:Hd; [by apply mode_is_spec in Hd|]. injection Hr as <-. unfold rank_ok in Hrank. rewrite orb_false_r in Hrank.
  apply String.eqb_eq in Hrank. destruct gate as [g q]; cbn in *. subst g. by destruct Hp as [->|(? & ? & _ & [=] & _)].
Qed.
Lemma Resolve_sound r t s c s' : ends (Resolve getenv fold lower sqlLower cfg verifySupabase r t) s (Ok (Some c)) s' →
  rtc step s s' ∧ ∃ p, proves r t p s s' ∧ speaks_for p c s s' ∧ allowed_by_policy c s s'.
Proof.
  intros Hf. assert (rtc step s s') as Hs by (eapply finishes_rtc; [|exact Hf]; apply Resolve_lawful). split; [done|].
  unfold Resolve in Hf. apply finishes_bind in Hf as ([[p|]|] & s1 & Hp & Hf); [|by destruct Hf..].
  apply extract_sound in Hp as [Hs1 Hp]. apply finishes_bind in Hf as (resolved & s2 & Hr & Hf).
  assert (rtc step s1 s2) as Hs2 by (eapply finishes_rtc; [|exact Hr]; apply resolve_principal_lawful).
  destruct resolved as [[c'|]|]; [|by destruct Hf..]. apply finishes_bind in Hf as (d & s3 & Hd & Hf).
  assert (rtc step s2 s3) as Hs3 by (eapply finishes_rtc; [|exact Hd]; apply Evaluate_lawful).
  destruct (de_Allowed d) eqn:Hallow; destruct Hf as [[= ->] ->]. exists p.
  split; [|split].
  - eapply proves_later; [exact Hp|..]; [done|by transitivity s2].
  - eapply speaks_later; [by apply resolve_principal_sound|done..].
  - eapply allowed_later; [by eapply Evaluate_sound|by transitivity s1|done].
Qed.

(** C12: Whatever else happens meanwhile and whatever the requests, a caller
    that the middleware hands to a handler has proved who it is (by the signed cookie of a
    session that was live, by a token of the identity provider, by the service token, or by the
    headers of a development configuration); a person is a member of the tenant, by its own row
    or the pending row of its verified email address, with exactly the role of that row; the
    tenant's login policy allows it; the role has the rank and the effective permissions have
    the permission of the route, and a route without annotation is one that needs none; an
    unsafe request of a browser session carries the mark against forgery; and a machine without
    a row passes no annotated route. *)
Theorem tenant_access_sound r route t s c s' :
  ends (authenticate getenv fold lower sqlLower cfg verifySupabase isAllowed r route t) s (Ok c) s' →
  (∃ p, proves r t p s s' ∧ speaks_for p c s s') ∧ allowed_by_policy c s s' ∧
  match rt_Gate route with Some gate => passes c gate s s' | None => rt_AuthOnly route = true end ∧
  (cx_Mode c = ModeJanuslySession → unsafeMethod (rt_Method route) = true → RequireCSRF (rq_Header r) (Some isAllowed) = true) ∧
  (cx_MembershipRole c = "" → cx_Mode c ≠ ModeDevHeaders → rt_Gate route = None ∨ rt_Gate route = Some (mkGate "" "")).
Proof.
  intros Hf. unfold authenticate in Hf. apply finishes_bind in Hf as ([[c'|]|] & s1 & Hr & Hf); [|by destruct Hf..].
  apply Resolve_sound in Hr as (Hs1 & p & Hp & Hc & Ha). cbv zeta in Hf.
  assert (c' = c ∧ rtc step s1 s' ∧ requireSessionCSRF isAllowed r (rt_Method route) (cx_Mode c) = true ∧
    match rt_Gate route with Some gate => passes c gate s1 s' | None => rt_AuthOnly route = true end) as (-> & Hs' & Hcsrf & Hg).
  { destruct (rt_Gate route) as [gate|].
    - apply finishes_bind in Hf as ([why|] & s2 & Hgate & Hf); [by destruct Hf|]. apply checkGate_sound in Hgate as [Hs2 Hgate].
      destruct (requireSessionCSRF _ _ _ _) eqn:Hcsrf; destruct Hf as [[= ->] ->]. auto.
    - destruct (rt_AuthOnly route); [|by destruct Hf]. destruct (requireSessionCSRF _ _ _ _) eqn:Hcsrf; destruct Hf as [[= ->] ->]. auto using rtc_refl. }
  split; [exists p; split; [by eapply proves_later|by eapply speaks_later]|]. split; [by eapply allowed_later|].
  split; [destruct (rt_Gate route); [by eapply passes_later|done]|]. split.
  - intros Hm Hu. unfold requireSessionCSRF in Hcsrf. rewrite Hm, Hu in Hcsrf. exact Hcsrf.
  - intros Hrole Hm. destruct (rt_Gate route) as [gate|]; [right|by left]. f_equal. by eapply no_role_no_gate.
Qed.
End access.

(** Alice asks for the members' route of her organisation with a token of her identity provider. *)
Definition members_request : Request :=
  mkRequest (λ h, if String.eqb h "Authorization" then "Bearer tok" else if String.eqb h "x-org-id" then " org_1" else "") None.
Definition members_route : Route := mkRoute "POST" (Some (mkGate RoleAdmin "members.write")) false.
Definition provider (token : string) : option (string * string) := if String.eqb token "tok" then Some ("alice", "alice@acme.io") else None.
Definition admitted : AuthContext := mkContext "org_1" "alice" ModeSupabase SourceWeb "" "" RoleAdmin "alice@acme.io".
Lemma admitted_run :
  run (authenticate (λ _, "") String.eqb (λ t, t) (λ t, t) (mkAuthConfig "https://id" "key" "" false false) provider (λ _, false)
    members_request members_route 0) [] [] acme = (Ok admitted, acme).
Proof. vm_compute. reflexivity. Qed.
Lemma tenant_access_sound_witness : passes (λ t, t) admitted (mkGate RoleAdmin "members.write") acme acme.
Proof.
  refine (proj1 (proj2 (proj2 (tenant_access_sound (λ _, "") String.eqb (λ t, t) (λ t, t) (mkAuthConfig "https://id" "key" "" false false) provider
    (λ _, false) members_request members_route 0 acme admitted acme _)))).
  pose proof (run_finishes (org_step (λ t, t)) (authenticate (λ _, "") String.eqb (λ t, t) (λ t, t) (mkAuthConfig "https://id" "key" "" false false)
    provider (λ _, false) members_request members_route 0) [] [] acme (Forall_nil_2 _)) as Hf.
  rewrite admitted_run in Hf. exact Hf.
Defined.

(** ** An owner who has not signed in yet *)

(** The row that a sign-in would take over is the owner's, and is protected. *)
Lemma migrate_owner_refused s m name orgID userID : members_unique (org_members s) = true → m ∈ org_members s →
  organizations s !! orgID = Some (mb_UserID m, name) → mb_OrgID m = orgID → userID ≠ mb_UserID m → MigrateOrgMemberUserID (mb_ID m) orgID userID s = None.
Proof.
  intros _ Hin Ho Horg Hne. unfold MigrateOrgMemberUserID, update_members. rewrite andb_true_l.
  assert (existsb (λ m0, (String.eqb (mb_ID m0) (mb_ID m) && String.eqb (mb_OrgID m0) orgID) && protected_update s m0 (with_user userID m0)) (org_members s) = true) as ->; [|done].
  apply existsb_exists. exists m. split; [by apply list_elem_of_In|]. unfold protected_update, owns. cbn.
  rewrite Horg, Ho, !String.eqb_refl. cbn. rewrite (proj2 (String.eqb_neq userID (mb_UserID m)) Hne). done.
Qed.
(** Alice hands her organisation to Bob, whom the directory has added. *)
Definition bob_row : Member := mkMember "m2" "org_1" "bob@acme.io" (Some "bob@acme.io") RoleAdmin (Some "scim").
Definition handed_over : Org :=
  let alice := mkIdentity "alice" "alice@acme.io" ModeSupabase SourceWeb "" "" "" in
  after (transact (transfer_tx (identity_context alice "org_1") "bob@acme.io"))
    (after (InsertScimMembership "m2" "org_1" "bob@acme.io" RoleViewer (Some "scim"))
      (after (transact (create_org_tx alice "org_1" "m1" "Alice" "Acme")) (empty_org 0))).
Lemma handed_over_history sqlLower : org_history sqlLower 0 handed_over.
Proof. unfold handed_over. repeat (apply after_history; [by eauto with org|]). apply rtc_refl. Qed.

(** * What a login went through *)

Section login.
Context (getenv : string → string) (fold : string → string → bool) (lower sqlLower : string → string).
Context (workos : option WorkOS).
Abbreviation step := (org_step sqlLower).
Abbreviation ends := (finishes (org_step sqlLower)).
Abbreviation during := (between sqlLower).

(** ** The stages of the callback *)

(** The state is one that the deployment signed, not expired, for its callback and for the
    browser that started the login. *)
Definition own_state (stateToken : string) (binding : option string) (t : Z) (state : StatePayload) : Prop :=
  (∃ envelope key encoded, VerifyState getenv fold stateToken t = Ok envelope ∧ env_Payload envelope = state ∧ (t < env_ExpiresAt envelope)%Z ∧
     secret getenv fold = Ok key ∧ stateToken = token_of key encoded) ∧
  sta_CallbackURL state = getenv "JANUSLY_SSO_CALLBACK_URL" ∧ sta_Nonce state ≠ "" ∧ binding = Some (sta_Nonce state).
(** The nonce was stored and live, and is gone. *)
Definition spends_nonce (state : StatePayload) (s s' : Org) : Prop :=
  ∃ s1 s2, rtc step s s1 ∧ rtc step s2 s' ∧
    (∃ n, n ∈ nonces s1 ∧ no_OrgID n = sta_OrgID state ∧ no_Nonce n = sta_Nonce state ∧ (now s1 < no_ExpiresAt n)%Z) ∧
    ConsumeSsoNonce (sta_OrgID state) (sta_Nonce state) s1 = Some (true, s2) ∧
    ConsumeSsoNonce (sta_OrgID state) (sta_Nonce state) s2 = Some (false, s2).
(** The connection of the tenant, active, is the one that the provider's profile comes from. *)
Definition over_connection (code : string) (state : StatePayload) (connection : SsoConnection) (p : SsoProfile) (s s' : Org) : Prop :=
  (∃ s1, during s s1 s' ∧ FindSsoConnectionForOrg (sta_OrgID state) s1 = Some connection) ∧ so_Status connection = "active" ∧
  (∃ w, workos = Some w ∧ ExchangeCode w code (getenv "JANUSLY_SSO_CALLBACK_URL") = Ok p) ∧ sp_ConnectionID p = so_ProviderConnectionID connection.
(** The session is stored, new, for the person of the profile, who has a row in the tenant. *)
Definition opens_session (orgID : string) (p : SsoProfile) (t ttl : Z) (token : Token) (s s' : Org) : Prop :=
  ∃ s1 s2 e, rtc step s s1 ∧ rtc step s2 s' ∧ sessions s1 !! as_ID e = None ∧ sessions s2 !! as_ID e = Some e ∧
    as_UserID e = sp_ID p ∧ as_OrgID e = orgID ∧ as_ExpiresAt e = (t + ttl)%Z ∧ as_Revoked e = false ∧
    (∃ m, GetOrgMembership orgID (sp_ID p) s2 = Some m) ∧
    CreateToken getenv fold (as_ID e) ttl t = Ok token ∧
    (ascii_text (as_ID e) = true → ∀ later, ReadSessionID getenv fold (Some (tok_Value token)) later = if (later <? t + ttl)%Z then as_ID e else "").

Lemma VerifyState_authentic token t envelope : VerifyState getenv fold token t = Ok envelope →
  (t < env_ExpiresAt envelope)%Z ∧ ∃ key encoded, secret getenv fold = Ok key ∧ token = token_of key encoded.
Proof.
  unfold VerifyState, verifyAt. destruct (VerifyJSON _ _ _ _ _) as [raw|] eqn:Hv; [|done]. cbn [res_bind].
  apply signed_envelope_authentic in Hv as (key & encoded & _ & _ & Hkey & -> & _).
  destruct (_ || _) eqn:Hc; [done|]. bool_split. destruct (env_Payload raw) as [tree|]; [|done]. destruct (read_state _ _) as [y|]; [|done]. cbn.
  case_match; [done|]. intros [= <-]. cbn. split; [lia|]. eauto.
Qed.
Lemma ConsumeSsoNonce_spec orgID nonce s s' : ConsumeSsoNonce orgID nonce s = Some (true, s') →
  (∃ n, n ∈ nonces s ∧ no_OrgID n = orgID ∧ no_Nonce n = nonce ∧ (now s < no_ExpiresAt n)%Z) ∧ ConsumeSsoNonce orgID nonce s' = Some (false, s').
Proof.
  destruct s as [ms roles orgs inv pro ses con non conf aud clock]. unfold ConsumeSsoNonce. cbn. intros [= He <-]. cbn. split.
  - apply existsb_exists in He as (n & Hin & Hn). bool_split. exists n. rewrite list_elem_of_In. split_and!; try done; lia.
  - clear He. do 2 f_equal.
    + apply not_true_iff_false. intros (n & [_ Hn]%filter_In & Hn')%existsb_exists. by rewrite Hn' in Hn.
    + f_equal. induction non as [|n non IH]; cbn; [done|]. destruct (negb _) eqn:Hn; cbn; [rewrite Hn; by f_equal|done].
Qed.

(** The policy of the tenant, as stored meanwhile, admits the address, and sets the lifetime. *)
Definition policy_admits (orgID : string) (p : SsoProfile) (ttl : Z) (s s' : Org) : Prop :=
  ∃ s1, during s s1 s' ∧ ttl = po_SessionTTLSeconds (policy_of lower (ListAuthPolicyConfigRows orgID s1)) ∧
    (po_AllowedEmailDomains (policy_of lower (ListAuthPolicyConfigRows orgID s1)) = [] ∨
     domainAllowed lower (sp_Email p) (po_AllowedEmailDomains (policy_of lower (ListAuthPolicyConfigRows orgID s1))) = true).
Lemma Decide_session email config bypass : de_Allowed (Decide lower ModeJanuslySession email config None bypass) = true →
  de_SessionTTLSeconds (Decide lower ModeJanuslySession email config None bypass) = po_SessionTTLSeconds config ∧
  (po_AllowedEmailDomains config = [] ∨ domainAllowed lower email (po_AllowedEmailDomains config) = true).
Proof.
  unfold Decide, mode_is. repeat (rewrite bool_decide_true by done || rewrite bool_decide_false by done). cbn [orb andb].
  rewrite andb_true_r. destruct (bool_decide (po_AllowedEmailDomains config = [])) eqn:Hb; cbn [negb andb].
  - apply bool_decide_eq_true in Hb. auto.
  - destruct (domainAllowed _ _ _) eqn:Hd; cbn [negb]; [auto|done].
Qed.
Lemma Evaluate_session orgID userID email provided s d s' : ends (Evaluate getenv fold lower orgID userID email ModeJanuslySession provided) s d s' →
  de_Allowed d = true → ∃ s1, during s s1 s' ∧
    d = Decide lower ModeJanuslySession email (policy_of lower (ListAuthPolicyConfigRows orgID s1)) None (devSSOBypassEnabled getenv fold).
Proof.
  intros Hf Hd. unfold Evaluate in Hf. apply finishes_query in Hf as (s1 & rows & Hs1 & Hrows & Hf). cbv zeta in Hf. cbn [mode_is orb] in Hf.
  unfold mode_is in Hf. rewrite !bool_decide_false in Hf by done. cbn [orb] in Hf.
  destruct (de_Allowed (evaluate _ _ _ _ _ _ _)) eqn:He.
  - destruct Hf as [-> ->]. exists s1. split; [done|]. destruct Hrows as [->| ->]; [done|]. done.
  - apply finishes_do in Hf as (? & ? & _ & [[[-> _] _]|(? & _ & [-> _])]); congruence.
Qed.

Lemma upsert_member_row triggers m set s u s' : (∀ m, member_key (set m) = member_key m) → upsert_member triggers m set s = Some (u, s') →
  (∃ m', GetOrgMembership (mb_OrgID m) (mb_UserID m) s' = Some m') ∧ sessions s' = sessions s.
Proof.
  intros Hset He. destruct s as [ms roles orgs inv pro ses con non conf aud clock].
  assert (∃ l, s' = mkOrg l roles orgs inv pro ses con non conf aud clock ∧ ∃ m', m' ∈ l ∧ member_key m' = member_key m) as (l & -> & m' & Hin & Hk).
  { unfold upsert_member in He. destruct (GetOrgMembership _ _ _) as [row|] eqn:Hrow.
    - destruct (update_members _ _ _ _) as [[n s1]|] eqn:Hu; [|done]. injection He as _ <-. unfold update_members in Hu. cbn in Hu. repeat case_match; simplify_eq.
      eexists. split; [done|]. apply GetOrgMembership_in in Hrow as (Hin & Ho & Hus). cbn in Hin.
      eexists. split; [apply list_elem_of_fmap; by exists row|]. cbn. case_match; rewrite ?Hset; unfold member_key; congruence.
    - apply insert_member_spec in He as [-> _]. eexists. split; [done|]. exists m. split; [apply elem_of_app; right; by left|done]. }
  split; [|done]. unfold GetOrgMembership. cbn. unfold member_key in Hk. injection Hk as Ho Hus.
  assert (In m' (List.filter (is_member (mb_OrgID m) (mb_UserID m)) l)) as Hf.
  { apply filter_In. rewrite <-list_elem_of_In. split; [done|]. unfold is_member. by rewrite Ho, Hus, !String.eqb_refl. }
  destruct (List.filter _ l); [done|]. cbn. eauto.
Qed.
Lemma login_tx_spec orgID memberID sessionID connection p expiresAt s r s' :
  transact (login_tx sqlLower orgID memberID sessionID connection p expiresAt) s = Some (r, s') →
  ∃ e, r = Ok e ∧ as_ID e = sessionID ∧ sessions s !! sessionID = None ∧ sessions s' !! sessionID = Some e ∧ as_UserID e = sp_ID p ∧ as_OrgID e = orgID ∧
    as_ExpiresAt e = expiresAt ∧ as_Revoked e = false ∧ ∃ m, GetOrgMembership orgID (sp_ID p) s' = Some m.
Proof.
  intros [(e & -> & He)|(e & _ & He & _)]%transact_ok; [|unfold login_tx, tx_bind, tx_do in He; repeat case_match; done].
  exists e. split; [done|]. unfold login_tx in He. tx_inv. unfold UpsertSsoMembership in *.
  match goal with H : upsert_member _ _ _ _ = Some (_, ?s1), Hc : CreateAuthSession _ _ _ _ _ _ _ = _, Hw : write_audit _ _ = _ |- _ =>
    apply upsert_member_row in H as [(m & Hm) Hses]; [|done]; unfold write_audit in Hw; injection Hw as _ <-;
    unfold CreateAuthSession in Hc; cbn [mb_OrgID mb_UserID] in Hm; destruct s1 as [ms roles orgs inv pro ses con non conf aud clock] end.
  cbn in *. case_match eqn:Hnone; [done|]. simplify_eq. cbn. rewrite lookup_insert_eq. split_and!; try done. by exists m.
Qed.

Lemma admit_profile_sound orgID connection p base t s location token ttl s' : (0 < t ≤ max_int64)%Z →
  ends (admit_profile getenv fold lower sqlLower orgID connection p base t) s (LoggedIn location token ttl) s' →
  sp_ConnectionID p = so_ProviderConnectionID connection ∧ policy_admits orgID p ttl s s' ∧ opens_session orgID p t ttl token s s'.
Proof.
  intros Ht Hf. unfold admit_profile in Hf. destruct (String.eqb (sp_ConnectionID p) _) eqn:Hc; cbn [negb] in Hf;
    [|by apply finishes_do in Hf as (? & ? & _ & [[Hf _]|(? & _ & Hf)]); destruct Hf]. apply String.eqb_eq in Hc. split; [done|].
  apply finishes_bind in Hf as (d & s1 & Hd & Hf). assert (rtc step s s1) as Hs1 by (eapply finishes_rtc; [|exact Hd]; apply Evaluate_lawful).
  destruct (de_Allowed d) eqn:Hallow; cbn [negb] in Hf; [|by apply finishes_do in Hf as (? & ? & _ & [[Hf _]|(? & _ & Hf)]); destruct Hf].
  destruct Hf as (memberID & _ & sessionID & _ & Hf).
  apply finishes_do in Hf as (s2 & s3 & Hs2 & [[Hf _]|(r & Hr & Hf)]); [by apply finishes_do in Hf as (? & ? & _ & [[Hf _]|(? & _ & Hf)]); destruct Hf|].
  apply login_tx_spec in Hr as Hl. destruct Hl as (e & -> & Hid & Hnone & Hsome & Hu & Ho & Hexp & Hrev & Hm).
  destruct (CreateToken _ _ _ _ _) as [tok|] eqn:Htok; [|by destruct Hf]. destruct Hf as [[= -> -> ->] ->].
  assert (rtc step s2 s3) as Hs3 by (eapply org_op_lawful; [|exact Hr]; constructor). split.
  - eapply Evaluate_session in Hd as (s4 & [Hs4 Hs4'] & Hd); [|done]. exists s4. split; [split; [done|by transitivity s1; [|transitivity s2]]|].
    rewrite Hd in Hallow. rewrite Hd. by apply Decide_session.
  - exists s2, s3, e. subst sessionID. split; [by transitivity s1|]. do 8 (split; [done|]). split; [done|]. intros Ha. by eapply created_cookie_reads.
Qed.
Lemma policy_later orgID p ttl s0 s s' : policy_admits orgID p ttl s s' → rtc step s0 s → policy_admits orgID p ttl s0 s'.
Proof. intros (s1 & Hb & H) Hs. exists s1. split; [by eapply between_weaken|done]. Qed.
Lemma opens_later orgID p t ttl token s0 s s' : opens_session orgID p t ttl token s s' → rtc step s0 s → opens_session orgID p t ttl token s0 s'.
Proof. intros (s1 & s2 & e & Hs1 & H) Hs. exists s1, s2, e. split; [by transitivity s|done]. Qed.
(** What the failing branches answer is not a login. *)
Ltac no_login Hf := by repeat first [apply finishes_do in Hf as (? & ? & _ & [[Hf _]|(? & _ & Hf)])|destruct Hf].

(** C13: Whatever else happens meanwhile, a callback that answers with a session
    has checked the whole chain. Its state is one that the deployment signed and that has not
    expired, for the configured callback address and for the browser that holds the nonce of the
    start; the nonce was stored, not expired, and is spent, so that the same state is refused
    from then on; the tenant has an active connection, and the provider exchanged the code for a
    person of that very connection; the tenant's policy admits the person's address and sets the
    lifetime; and a new session of that person in that tenant is stored with that expiry,
    together with a row of the person, under the cookie that the browser gets, which gives back
    the session's identifier until the expiry and nothing after it. *)
Theorem sso_login_sound code stateToken binding t s location token ttl s' : (0 < t ≤ max_int64)%Z →
  ends (callbackSso getenv fold lower sqlLower workos code stateToken binding t) s (LoggedIn location token ttl) s' →
  ∃ state connection p, own_state stateToken binding t state ∧ spends_nonce state s s' ∧ over_connection code state connection p s s' ∧
    policy_admits (sta_OrgID state) p ttl s s' ∧ opens_session (sta_OrgID state) p t ttl token s s'.
Proof.
  intros Ht Hf. unfold callbackSso in Hf. cbv zeta in Hf. destruct (_ || _); [by destruct Hf|]. destruct (_ || _); [by destruct Hf|].
  destruct (VerifyState _ _ _ _) as [envelope|] eqn:Hv; [|no_login Hf].
  destruct (String.eqb (sta_CallbackURL _) _) eqn:Hcb; cbn [negb] in Hf; [|no_login Hf]. apply String.eqb_eq in Hcb.
  destruct binding as [b|]; [|no_login Hf]. destruct (BrowserBindingMatches _ _) eqn:Hb; cbn [negb] in Hf; [|no_login Hf].
  apply finishes_do in Hf as (s1 & s2 & Hs1 & [[Hf _]|([] & Hn & Hf)]); cbn [negb] in Hf; [no_login Hf| |no_login Hf].
  apply finishes_query in Hf as (s3 & row & Hs3 & [->| ->] & Hf); [no_login Hf|].
  destruct (FindSsoConnectionForOrg _ s3) as [connection|] eqn:Hconn; cbn [usable] in Hf; [|no_login Hf].
  destruct (String.eqb (so_Status connection) _) eqn:Hst; [|no_login Hf]. apply String.eqb_eq in Hst.
  destruct workos as [w|] eqn:Hw; [|no_login Hf]. destruct (ExchangeCode _ _ _) as [p|] eqn:Hx; [|no_login Hf].
  assert (rtc step s3 s') as Hs' by (eapply finishes_rtc; [|exact Hf]; apply admit_profile_lawful).
  assert (rtc step s1 s2) as Hs2 by (eapply org_op_lawful; [|exact Hn]; constructor).
  assert (rtc step s s3) as Hs by (transitivity s1; [done|by transitivity s2]).
  apply admit_profile_sound in Hf as (Hid & Hp & Ho); [|done]. exists (env_Payload envelope), connection, p.
  apply VerifyState_authentic in Hv as Hva. destruct Hva as (Hexp & key & encoded & Hkey & ->).
  unfold BrowserBindingMatches in Hb. destruct (_ || _) eqn:Hbe; [done|]. bool_split. subst b.
  apply ConsumeSsoNonce_spec in Hn as Hspent. destruct Hspent as [Hlive Hgone].
  split; [split; [exists envelope, key, encoded; auto|done]|].
  split; [exists s1, s2; split_and!; try done; by transitivity s3|].
  split; [|split; [by eapply policy_later|by eapply opens_later]].
  split; [exists s3; done|]. split; [done|]. split; [by exists w|done].
Qed.
End login.

(** Alice logs in to her organisation over its connection. *)
Definition sso_env (key : string) : string :=
  if String.eqb key "JANUSLY_SSO_CALLBACK_URL" then "https://app/cb" else if String.eqb key "JANUSLY_WEB_BASE_URL" then "https://app/" else "".
Definition sso_client : WorkOS :=
  mkWorkOS (λ connection callback state, Some (callback +:+ state)) (λ code _, if String.eqb code "code" then Ok (mkProfile "alice" "alice@acme.io" "conn_1") else Err None).
Definition sso_state : string := match Create sso_env String.eqb "org_1" "nonce" "https://app/cb" 1000 with Ok token => tok_Value token | Err _ => "" end.
Definition sso_tables : Org := after (CreateSsoConnection "c1" "org_1" "workos" "conn_1" true) (after (RecordSsoNonce "org_1" "nonce" 1600) acme).
Definition sso_end : sso_answer * Org :=
  run (callbackSso sso_env String.eqb (λ t, t) (λ t, t) (Some sso_client) "code" sso_state (Some "nonce") 1000) [] ["m9"; "s9"] sso_tables.
Definition token_in (a : sso_answer) : Token := match a with LoggedIn _ token _ => token | _ => MkToken "" 0 end.
Definition sso_token : Token := token_in sso_end.1.
Lemma sso_run : sso_end.1 = LoggedIn "https://app/auth/sso/complete" sso_token 28800.
Proof. vm_compute. reflexivity. Qed.
Lemma sso_ends : finishes (org_step (λ t, t)) (callbackSso sso_env String.eqb (λ t, t) (λ t, t) (Some sso_client) "code" sso_state (Some "nonce") 1000)
  sso_tables (LoggedIn "https://app/auth/sso/complete" sso_token 28800) sso_end.2.
Proof. rewrite <-sso_run. unfold sso_end. apply run_finishes. repeat constructor; done. Qed.
Lemma sso_login_sound_witness : ∃ state connection p, own_state sso_env String.eqb sso_state (Some "nonce") 1000 state ∧
  over_connection sso_env (λ t, t) (Some sso_client) "code" state connection p sso_tables sso_end.2 ∧
  opens_session sso_env String.eqb (λ t, t) (sta_OrgID state) p 1000 28800 sso_token sso_tables sso_end.2.
Proof.
  assert (0 < 1000 ≤ max_int64)%Z as Ht by (by split).
  destruct (sso_login_sound sso_env String.eqb (λ t, t) (λ t, t) (Some sso_client) "code" sso_state (Some "nonce") 1000 sso_tables
    "https://app/auth/sso/complete" sso_token 28800 sso_end.2 Ht sso_ends) as (state & connection & p & Hown & _ & Hover & _ & Hopen).
  exists state, connection, p. exact (conj Hown (conj Hover Hopen)).
Defined.
