(* ===== verification/OrgConfig.v ===== *)
(** The configuration of organisations (orgconfig/catalog.go, resolve.go, load.go, http.go and
    httpapi/orgconfig.go): the closed catalog, the normalisation of a value, the layers tenant,
    environment and default, and the route that writes a value; with the vocabulary of memories
    (memorypolicy/) and the detectors of secrets that the validators use (aiguidance/,
    signature/). *)
From S2P Require Import Prelude GoStrings GoFloat FloatFacts GoAny GoInt Regex JsValue Json JsonTree Redact Graph Inputs RecoveryContract ParseFacts Token Process Permissions OrgTables Authz OrgRoutes.
Local Open Scope string_scope.
Local Open Scope list_scope.

(** ** Patterns *)

Definition AnyByte : re := Cls (λ _, true).
Definition Prefixed (r : re) : re := Cat r (Star AnyByte).
Definition Contained (r : re) : re := Cat (Star AnyByte) (Prefixed r).
Fixpoint times (n : nat) (r : re) : re := match n with O => Eps | S n => Cat r (times n r) end.
Definition at_least (n : nat) (r : re) : re := Cat (times n r) (Star r).
(** [\s]. *)
Definition re_space (c : ascii) : bool := existsb (Nat.eqb (code c)) [9; 10; 12; 13; 32].
(** U+017F and U+212A, which fold with [s] and [k]. *)
Definition long_s : re := Lit_bytes [chr 197; chr 191].
Definition kelvin : re := Lit_bytes [chr 226; chr 132; chr 170].
(** A class under [(?i)]. *)
Definition ci_class (p : ascii → bool) : re :=
  any_of [Cls (λ c, p c || p (upper_byte c) || p (lower_byte c));
          (if p "s"%char || p "S"%char then long_s else Void); (if p "k"%char || p "K"%char then kelvin else Void)].

Definition ForbiddenValuePattern : re :=
  any_of
    [Prefixed (any_of [ci "sk-"; ci "sk-ant-"; Cat (ci "xox") (Cat (ci_class (one_of "baprs")) (ci "-")); ci "ghp_"; ci "github_pat_";
                       ci "ya29."; ci "akia"; Cat (ci "bearer") (Plus (Cls re_space))]);
     (let word := Plus (ci_class (λ c, is_alnum c || one_of "_-" c)) in
      Prefixed (Cat (ci "eyj") (Cat word (Cat (Chr ".") (Cat word (Chr "."))))));
     Contained (Cat (ci "-----begin ") (Cat (Plus (ci_class (λ c, is_upper c || one_of " " c))) (ci "private key-----")));
     Contained (Cat (ci "postgres") (Cat (Opt (ci "ql")) (ci "://")));
     Contained (ci "redis://")].

(** ** Secrets in prose (signature.ScrubSecretShapes, aiguidance.ScrubGuidanceSecrets)

    The scrubbers replace every match by a marker in brackets. The text changes exactly when one
    of the patterns occurs in it: no match begins with a bracket, so the first place that is
    replaced stays different. *)
Definition word_byte (c : ascii) : bool := is_alnum c || one_of "_-" c.
Definition identifier_byte (c : ascii) : bool := is_alnum c || one_of "_" c.
Definition outside (p : ascii → bool) : re := Cls (λ c, negb (p c)).
(** [(^|[^p])r] and [(^|[^p])r($|[^q])] somewhere in the text. *)
Definition after_boundary (p : ascii → bool) (r : re) : re := Cat (Alt Eps (Cat (Star AnyByte) (outside p))) r.
Definition bounded_left (p : ascii → bool) (r : re) : re := after_boundary p (Prefixed r).
Definition bounded (p q : ascii → bool) (r : re) : re := after_boundary p (Cat r (Alt Eps (Prefixed (outside q)))).
Definition sk_key (prefix owner body : re) : re := Cat prefix (Cat (Opt owner) (at_least 20 body)).
(** [[^A-Za-z0-9]] under [(?i)] before the place: not U+017F nor U+212A either. *)
Definition ci_boundary : re :=
  let not_after c r := Cat (Alt Eps (Cat (Star AnyByte) (Cls (λ d, negb (code d =? c)%nat)))) r in
  any_of
    [Eps; Cat (Star AnyByte) (Cls (λ c, negb (is_alnum c) && negb (code c =? 191)%nat && negb (code c =? 170)%nat));
     not_after 197 (Chr (chr 191)); not_after 132 (Chr (chr 170)); not_after 226 (Lit_bytes [chr 132; chr 170])].
Definition secretShapes : list re :=
  [bounded identifier_byte word_byte (sk_key (Lit "sk-") (Cat (any_of [Lit "ant"; Lit "proj"]) (Lit "-")) (Cls word_byte));
   bounded_left is_alnum (Cat (Lit "ghp_") (at_least 20 (Cls is_alnum)));
   bounded_left is_alnum (Cat (Lit "github_pat_") (at_least 20 (Cls identifier_byte)));
   bounded_left is_alnum (Cat (Lit "gh") (Cat (Cls (one_of "ousr")) (Cat (Lit "_") (at_least 20 (Cls is_alnum)))));
   bounded_left is_alnum (Cat (Lit "xox") (Cat (Cls (one_of "baprs")) (Cat (Lit "-") (at_least 10 (Cls (λ c, is_alnum c || one_of "-" c))))));
   bounded is_alnum is_alnum (Cat (Lit "AKIA") (times 16 (Cls (λ c, is_digit c || is_upper c))));
   bounded is_alnum is_alnum (Cat (Lit "AIza") (times 35 (Cls word_byte)));
   Cat ci_boundary (Prefixed (Cat (ci "bearer") (Cat (Plus (Cls re_space)) (at_least 16 (ci_class (λ c, word_byte c || one_of "." c))))));
   bounded_left is_alnum (Cat (Lit "eyJ") (Cat (at_least 10 (Cls word_byte)) (Cat (Chr ".") (Cat (at_least 10 (Cls word_byte))
     (Cat (Chr ".") (at_least 10 (Cls word_byte)))))))].
Definition quote_or_angle (c : ascii) : bool := one_of "'<>" c || (code c =? 34)%nat.
Definition guidanceSecretPatterns : list re :=
  let text more := Plus (outside (λ c, re_space c || quote_or_angle c || one_of more c)) in
  [Contained (sk_key (ci "sk-") (Cat (any_of [ci "ant"; ci "proj"]) (Lit "-")) (ci_class word_byte));
   Contained (Cat (ci "ya29.") (at_least 20 (ci_class (λ c, word_byte c || one_of "." c))));
   Contained (Cat (any_of [Cat (ci "postgres") (Opt (ci "ql")); ci "mysql"; ci "mariadb"; Cat (ci "redis") (Opt (ci "s"))]) (Cat (Lit "://") (text "")));
   Contained (Cat (ci "http") (Cat (Opt (ci "s")) (Cat (Lit "://") (Cat (text ":/@") (Cat (Lit ":") (Cat (text "@/") (Cat (Lit "@") (text ""))))))));
   Contained (Cat (ci "-----begin ") (Cat (Star (ci_class (λ c, is_upper c || is_digit c || one_of " " c))) (ci "private key-----")))].
Definition ContainsGuidanceSecret (value : string) : bool :=
  existsb (λ r, MatchString r value) (secretShapes ++ guidanceSecretPatterns).

(** ** [strconv.ParseFloat] *)

Definition lower_text (l : list ascii) : list ascii := map lower_byte l.
(** Underscores separate digits, or a base prefix and a digit. *)
Inductive seen := SeenStart | SeenDigit | SeenUnderscore | SeenOther.
Fixpoint underscores_ok (hex : bool) (l : list ascii) (previous : seen) : bool :=
  match l with
  | [] => match previous with SeenUnderscore => false | _ => true end
  | c :: l =>
      if is_digit c || hex && in_range 97 102 (lower_byte c) then underscores_ok hex l SeenDigit
      else if Ascii.eqb c "_" then match previous with SeenDigit => underscores_ok hex l SeenUnderscore | _ => false end
      else match previous with SeenUnderscore => false | _ => underscores_ok hex l SeenOther end
  end.
Definition underscoreOK (l : list ascii) : bool :=
  match (sign_of l).2 with
  | z :: b :: l' =>
      let b := lower_byte b in
      if Ascii.eqb z "0" && one_of "box" b then underscores_ok (Ascii.eqb b "x") l' SeenDigit
      else underscores_ok false (sign_of l).2 SeenStart
  | l => underscores_ok false l SeenStart
  end.
Definition HexDigit : re := Cls (λ c, is_digit c || in_range 97 102 (lower_byte c)).
Definition mantissa (d : re) : re := Alt (Cat (Plus d) (Opt (Cat (Chr ".") (Star d)))) (Cat (Chr ".") (Plus d)).
Definition exponent (mark : string) : re := Cat (Cls (one_of mark)) (Cat (Opt (Cls (one_of "+-"))) (Plus Digit)).
Definition sign_re : re := Opt (Cls (one_of "+-")).
Definition decimal_number : re := Cat sign_re (Cat (mantissa Digit) (Opt (exponent "eE"))).
Definition hex_number : re := Cat sign_re (Cat (Chr "0") (Cat (Cls (one_of "xX")) (Cat (mantissa HexDigit) (exponent "pP")))).
(** The exponent stops growing at five digits. *)
Definition exponent_value (l : list ascii) : Z :=
  let '(neg, l) := sign_of l in
  let v := fold_left (λ e c, if (e <? 10000)%Z then (e * 10 + digit_val c)%Z else e) l 0%Z in
  if neg then (- v)%Z else v.
(** The digits of the integer part and of the fraction, and the exponent. *)
Definition number_parts (digit : ascii → bool) (l : list ascii) : list ascii * list ascii * Z :=
  let '(ip, l) := span digit l in
  let '(fp, l) := match l with c :: l' => if Ascii.eqb c "." then span digit l' else ([], l) | [] => ([], []) end in
  (ip, fp, match l with _ :: l => exponent_value l | [] => 0%Z end).
Definition hex_float (neg : bool) (m e : Z) : float64 :=
  if (m =? 0)%Z then S754_zero neg else binary_normalize prec emax (if neg then - m else m)%Z e neg.
Definition in_float_range (f : float64) : option float64 := if is_inf f then None else Some f.
Definition ParseFloat (s : string) : option float64 :=
  let plain := List.filter (λ c, negb (Ascii.eqb c "_")) (bytes s) in
  let '(neg, l) := sign_of plain in
  let word := of_bytes (lower_text (bytes s)) in
  if in_list ["inf"; "+inf"; "-inf"; "infinity"; "+infinity"; "-infinity"] word then Some (S754_infinity (HasPrefix word "-"))
  else if String.eqb word "nan" then Some S754_nan
  else if negb (underscoreOK (bytes s)) then None
  else if re_match decimal_number plain then
    let '(ip, fp, e) := number_parts is_digit l in
    in_float_range (f_of_decimal neg (digits_val (ip ++ fp)) (e - Z.of_nat (length fp)))
  else if re_match hex_number plain then
    let '(ip, fp, e) := number_parts (λ c, is_digit c || in_range 97 102 (lower_byte c)) (drop 2 l) in
    in_float_range (hex_float neg (fold_left (λ m c, m * 16 + default 0 (radix_digit c))%Z (ip ++ fp) 0%Z) (e - 4 * Z.of_nat (length fp)))
  else None.

Example parse_float_reads : map ParseFloat ["1.5"; "-0x1.8p1"; "1_0"; "1__0"; "0x_1p-2"; " 1"; "1e400"; "+Infinity"; "0x1"] =
  [Some (f_of_decimal false 15 (-1)); Some (f_of_Z (-3)); Some (f_of_Z 10); None; Some (f_of_decimal false 25 (-2)); None; None;
   Some (S754_infinity false); None].
Proof. vm_compute. reflexivity. Qed.
(** ** The catalog (without the descriptions) *)

Record ConfigDef := mkDef
  { cd_Key : string; cd_Category : string; cd_ValueType : string; cd_Default : any; cd_EnvKeys : list string;
    cd_AllowedValues : list string; cd_Min : option Z; cd_Max : option Z; cd_AllowEmpty : bool; cd_Fractional : bool;
    cd_RejectFractional : bool; cd_Validate : option (any → res string unit) }.

(** memorypolicy *)
Definition Kinds : list string :=
  ["recovery_rationale"; "run_summary"; "runbook_fragment"; "patch_rationale"; "generated_workflow"; "workflow_vector"; "agent_episode"].
Definition IsKind (kind : string) : bool := in_list Kinds kind.
Definition MaximumRetentionDays (kind : string) : option Z :=
  if String.eqb kind "run_summary" then Some 365%Z else if String.eqb kind "runbook_fragment" then Some 36500%Z
  else if IsKind kind then Some 730%Z else None.

(** ai *)
Definition anthropicModelIDPattern : re :=
  let word := Plus (Cls (λ c, is_lower c || is_digit c)) in Cat word (Star (Cat (Chr "-") word)).
Definition NormalizeModelID (value : string) : string * bool :=
  let value := TrimSpace value in
  (value, negb (String.eqb value "") && (len value <=? 128)%nat && MatchString anthropicModelIDPattern value).

(** A parsed URL as far as the code reads it, of net/url. *)
Record BaseURL := mkBaseURL { bu_Scheme : string; bu_Host : string; bu_HasUser : bool; bu_RawQuery : string; bu_Fragment : string }.

Section validators.
Context `{UnicodeTables} (ParseURL : string → option BaseURL).

Definition must_be_string (key : string) : res string unit := Err (key +:+ " must be a string").
Definition validateAIOperatorGuidance (value : any) : res string unit :=
  match value with
  | AStr text =>
      if (8 * 1024 <? Z.of_nat (len text))%Z then Err "ai.operatorGuidance exceeds 8 KiB cap"
      else if ContainsGuidanceSecret text then Err "ai.operatorGuidance must not contain secret-like values"
      else Ok tt
  | _ => must_be_string "ai.operatorGuidance"
  end.
Definition validateAnthropicModelID (value : any) : res string unit :=
  match value with
  | AStr text =>
      if negb (NormalizeModelID text).2 then Err "ai.anthropic.model must be a lowercase Anthropic model id of at most 128 bytes" else Ok tt
  | _ => must_be_string "ai.anthropic.model"
  end.
Definition embeddingModelPattern : re := Cat (Cls is_alnum) (Star (Cls (λ c, is_alnum c || one_of "._:/-" c))).
Definition validateEmbeddingModel (value : any) : res string unit :=
  match value with
  | AStr text =>
      if String.eqb text "" then Ok tt
      else if (256 <? len text)%nat || negb (MatchString embeddingModelPattern text) then Err "memory.embeddingModel must be a model id of at most 256 bytes"
      else Ok tt
  | _ => must_be_string "memory.embeddingModel"
  end.
Definition validateEmbeddingBaseURL (value : any) : res string unit :=
  match value with
  | AStr text =>
      if String.eqb text "" then Ok tt
      else if (2048 <? len text)%nat then Err "memory.embeddingBaseUrl must be at most 2048 bytes"
      else
        let ok :=
          match ParseURL text with
          | None => false
          | Some u =>
              negb (String.eqb (bu_Scheme u) "") && negb (String.eqb (bu_Host u) "") && negb (bu_HasUser u) &&
              in_list ["http"; "https"] (bu_Scheme u) && String.eqb (bu_RawQuery u) "" && String.eqb (bu_Fragment u) ""
          end in
        if ok then Ok tt
        else Err "memory.embeddingBaseUrl must be an absolute HTTP(S) base URL without credentials, query, or fragment"
  | _ => must_be_string "memory.embeddingBaseUrl"
  end.
Fixpoint first_error {A} (f : A → res string unit) (l : list A) : res string unit :=
  match l with
  | [] => Ok tt
  | x :: l => match f x with Err e => Err e | Ok _ => first_error f l end
  end.
Definition not_a_kind (subject kind : string) : res string unit :=
  Err (subject +:+ " " +:+ Quote kind +:+ " is not one of: " +:+ Join Kinds ", ").
Definition validateMemoryAllowedKinds (value : any) : res string unit :=
  match value with
  | AStr text =>
      first_error (λ entry, let kind := TrimSpace entry in
        if negb (String.eqb kind "") && negb (IsKind kind) then not_a_kind "memory.allowedKinds entry" kind else Ok tt) (Split text ",")
  | _ => must_be_string "memory.allowedKinds"
  end.
(** A text that is empty or a JSON object whose bindings pass. *)
Definition validate_bindings (key : string) (binding : string * any → res string unit) (value : any) : res string unit :=
  match value with
  | AStr text =>
      if String.eqb text "" then Ok tt
      else
        match Unmarshal text with
        | None => Err (key +:+ " must be valid JSON")
        | Some (AObj entries) => first_error binding entries
        | Some _ => Err (key +:+ " must be a JSON object")
        end
  | _ => must_be_string key
  end.
Definition retention_binding (b : string * any) : res string unit :=
  let '(kind, rawDays) := b in
  let item := "memory.retentionDaysByKind[" +:+ Quote kind +:+ "]" in
  if negb (IsKind kind) then not_a_kind "memory.retentionDaysByKind key" kind
  else
    match rawDays with
    | AF64 days =>
        if negb (f_eqb (Trunc days) days) || f_leb days (f_of_Z 0) then Err (item +:+ " must be a positive integer")
        else
          let maximum := default 0%Z (MaximumRetentionDays kind) in
          if f_ltb (f_of_Z maximum) days then Err (item +:+ " must be <= " +:+ Itoa maximum) else Ok tt
    | _ => Err (item +:+ " must be a positive integer")
    end.
Definition validateMemoryRetentionDaysByKind : any → res string unit := validate_bindings "memory.retentionDaysByKind" retention_binding.
Definition sla_binding (b : string * any) : res string unit :=
  let '(severity, rawMinutes) := b in
  let item := "recovery.slaPolicies[" +:+ Quote severity +:+ "]" in
  if negb (in_list ["p1"; "p2"; "p3"; "p4"] severity) then
    Err ("recovery.slaPolicies key " +:+ Quote severity +:+ " is not one of: p1, p2, p3, p4")
  else
    match rawMinutes with
    | AF64 minutes =>
        if negb (f_eqb (Trunc minutes) minutes) then Err (item +:+ " must be an integer number of minutes")
        else if f_ltb minutes (f_of_Z 1) || f_ltb (f_of_Z 43200) minutes then Err (item +:+ " must be between 1 and 43200 minutes")
        else Ok tt
    | _ => Err (item +:+ " must be an integer number of minutes")
    end.
Definition validateRecoverySLAPolicies : any → res string unit := validate_bindings "recovery.slaPolicies" sla_binding.
Definition ToolApprovalPolicyKey : string := "tools.approvalRequired".
Definition toolNamePattern : re :=
  let tail := Cls (λ c, is_lower c || is_digit c || one_of "_" c) in
  Cat (Cls is_lower) (Cat (Star tail) (Star (Cat (Chr ".") (Plus tail)))).
(** The set of the names, in the order of their first occurrence. *)
Fixpoint tool_names (entries : list string) (names : list string) : res string (list string) :=
  match entries with
  | [] =>
      if (64 <? length names)%nat then Err (ToolApprovalPolicyKey +:+ " lists more than 64 tools") else Ok names
  | entry :: entries =>
      let name := TrimSpace entry in
      if String.eqb name "" then tool_names entries names
      else if (80 <? len name)%nat || negb (MatchString toolNamePattern name) then
        Err (ToolApprovalPolicyKey +:+ " entry " +:+ Quote name +:+ " is not a tool name")
      else tool_names entries (if in_list names name then names else names ++ [name])
  end.
Definition ParseToolApprovalPolicy (text : string) : res string (list string) := tool_names (Split text ",") [].
Definition validateToolApprovalPolicy (value : any) : res string unit :=
  match value with
  | AStr text => match ParseToolApprovalPolicy text with Ok _ => Ok tt | Err e => Err e end
  | _ => must_be_string ToolApprovalPolicyKey
  end.

Definition num (n : Z) : any := AF64 (f_of_Z n).
Definition Definitions : list ConfigDef :=
  [
   mkDef "ai.generationCandidates" "ai" "number" (num 1%Z) ["JANUSLY_AI_GENERATION_CANDIDATES"] [] (Some 1%Z) (Some 5%Z) false false false None;
   mkDef "ai.anthropic.model" "ai" "string" (AStr "claude-haiku-5-5") ["ANTHROPIC_MODEL"] [] None None false false false (Some validateAnthropicModelID);
   mkDef "ai.operatorGuidance" "ai" "string" (AStr EmptyString) [] [] None None true false false (Some validateAIOperatorGuidance);
   mkDef "ai.authoringExperienceEnabled" "ai" "boolean" (ABool false) [] [] None None false false false None;
   mkDef "ai.agentWriteConsent" "ai" "boolean" (ABool false) [] [] None None false false false None;
   mkDef "ai.timeoutMs" "ai" "number" (num 30000%Z) ["JANUSLY_LLM_TIMEOUT_MS"] [] (Some 1%Z) (Some 600000%Z) false false false None;
   mkDef "ai.maxRetries" "ai" "number" (num 2%Z) ["JANUSLY_LLM_MAX_RETRIES"] [] (Some 0%Z) (Some 10%Z) false false false None;
   mkDef "ai.maxOutputUnits" "ai" "number" (num 4096%Z) ["JANUSLY_LLM_MAX_OUTPUT_UNITS"] [] (Some 256%Z) (Some 16384%Z) false false false None;
   mkDef "ai.promptMaxChars" "ai" "number" (num 4000%Z) ["AI_PROMPT_MAX_CHARS"] [] (Some 1%Z) (Some 65536%Z) false false false None;
   mkDef "ai.rateLimitPerMin" "ai" "number" (num 30%Z) ["AI_RATE_LIMIT_PER_MIN"] [] (Some 1%Z) (Some 10000%Z) false false false None;
   mkDef "ai.budgetMonthlyUsd" "ai" "number" (num 0%Z) ["JANUSLY_AI_BUDGET_MONTHLY_USD"] [] (Some 0%Z) None false true false None;
   mkDef "ai.budgetWarnPercent" "ai" "number" (num 80%Z) ["JANUSLY_AI_BUDGET_WARN_PERCENT"] [] (Some 0%Z) (Some 100%Z) false false false None;
   mkDef "ai.budgetExceededPolicy" "ai" "string" (AStr "warn") ["JANUSLY_AI_BUDGET_EXCEEDED_POLICY"] ["warn"; "block"] None None false false false None;
   mkDef "ai.confidenceCalibrationEnabled" "ai" "boolean" (ABool true) [] [] None None false false false None;
   mkDef "http.timeoutMs" "http" "number" (num 30000%Z) ["JANUSLY_HTTP_TIMEOUT_MS"] [] (Some 1%Z) (Some 600000%Z) false false true None;
   mkDef "http.maxResponseBytes" "http" "number" (num 1000000%Z) ["JANUSLY_HTTP_MAX_RESPONSE_BYTES"] [] (Some 1%Z) (Some 67108864%Z) false false true None;
   mkDef "http.maxRedirects" "http" "number" (num 5%Z) ["JANUSLY_HTTP_MAX_REDIRECTS"] [] (Some 0%Z) (Some 20%Z) false false true None;
   mkDef "http.streamPreviewBytes" "http" "number" (num 65536%Z) ["JANUSLY_HTTP_STREAM_PREVIEW_BYTES"] [] (Some 1024%Z) (Some 1048576%Z) false false true None;
   mkDef "email.provider" "email" "string" (AStr "noop") ["JANUSLY_MAILER_PROVIDER"] ["resend"; "sendgrid"; "simulator"; "noop"] None None false false false None;
   mkDef "email.from" "email" "string" (AStr "onboarding@resend.dev") ["JANUSLY_MAILER_FROM"] [] None None false false false None;
   mkDef "email.rateLimitPerMin" "email" "number" (num 100%Z) ["JANUSLY_EMAIL_RATE_LIMIT_PER_MIN"] [] (Some 1%Z) None false false false None;
   mkDef "digest.weeklyEnabled" "email" "boolean" (ABool false) [] [] None None false false false None;
   mkDef "runs.requireSavedWorkflow" "runs" "boolean" (ABool false) ["JANUSLY_REQUIRE_SAVED_WORKFLOW"] [] None None false false false None;
   mkDef "subworkflow.maxDepth" "runs" "number" (num 5%Z) ["JANUSLY_MAX_SUBWORKFLOW_DEPTH"] [] (Some 1%Z) None false false false None;
   mkDef "runs.streamMaxSubscriptions" "runs" "number" (num 50%Z) ["JANUSLY_STREAM_MAX_SUBSCRIPTIONS"] [] (Some 1%Z) (Some 1000%Z) false false false None;
   mkDef "runs.circuitBreakerThreshold" "runs" "number" (num 5%Z) [] [] (Some 2%Z) (Some 100%Z) false false false None;
   mkDef "runs.humanFormResumeTtlSeconds" "runs" "number" (num 604800%Z) [] [] (Some 300%Z) (Some 604800%Z) false false false None;
   mkDef "mcp.writeConsent" "mcp" "boolean" (ABool false) [] [] None None false false false None;
   mkDef "mcp.clientWriteConsent" "mcp" "boolean" (ABool false) [] [] None None false false false None;
   mkDef "mcp.clientRateLimitPerMin" "mcp" "number" (num 60%Z) ["JANUSLY_MCP_CLIENT_RATE_LIMIT_PER_MIN"] [] (Some 1%Z) None false false false None;
   mkDef "mcp.clientCommandAllowlist" "mcp" "string" (AStr EmptyString) ["JANUSLY_MCP_ALLOWED_COMMANDS"] [] None None true false false None;
   mkDef "mcp.stdioMaxLifetimeMs" "mcp" "number" (num 600000%Z) ["JANUSLY_MCP_STDIO_MAX_LIFETIME_MS"] [] (Some 60000%Z) (Some 3600000%Z) false false false None;
   mkDef "mcp.stdioMaxStderrBytes" "mcp" "number" (num 65536%Z) ["JANUSLY_MCP_STDIO_MAX_STDERR_BYTES"] [] (Some 1024%Z) (Some 1048576%Z) false false false None;
   mkDef "mcp.stdioMaxVmKb" "mcp" "number" (num 524288%Z) ["JANUSLY_MCP_STDIO_MAX_VM_KB"] [] (Some 131072%Z) (Some 4194304%Z) false false false None;
   mkDef "slack.rateLimitPerMin" "integrations" "number" (num 60%Z) ["JANUSLY_SLACK_RATE_LIMIT_PER_MIN"] [] (Some 1%Z) None false false false None;
   mkDef "github.rateLimitPerMin" "integrations" "number" (num 60%Z) ["JANUSLY_GITHUB_RATE_LIMIT_PER_MIN"] [] (Some 1%Z) None false false false None;
   mkDef ToolApprovalPolicyKey "integrations" "string" (AStr EmptyString) [] [] None None true false false (Some validateToolApprovalPolicy);
   mkDef "webhook.rateLimitPerMin" "integrations" "number" (num 120%Z) ["JANUSLY_WEBHOOK_RATE_LIMIT_PER_MIN"] [] (Some 1%Z) None false false false None;
   mkDef "pdf.rateLimitPerMin" "integrations" "number" (num 30%Z) ["JANUSLY_PDF_RATE_LIMIT_PER_MIN"] [] (Some 1%Z) None false false false None;
   mkDef "db.rateLimitPerMin" "integrations" "number" (num 60%Z) ["JANUSLY_DB_TOOL_RATE_LIMIT_PER_MIN"] [] (Some 1%Z) None false false false None;
   mkDef "objectstore.provider" "objectstore" "string" (AStr "noop") ["JANUSLY_OBJECT_STORE_PROVIDER"] ["s3"; "local"; "noop"] None None false false false None;
   mkDef "auth.allowedEmailDomains" "auth" "string" (AStr EmptyString) [] [] None None true false false None;
   mkDef "auth.mfaRequired" "auth" "boolean" (ABool false) [] [] None None false false false None;
   mkDef "auth.sessionTtlSeconds" "auth" "number" (num 28800%Z) [] [] (Some 300%Z) (Some 86400%Z) false false false None;
   mkDef "memory.enabled" "memory" "boolean" (ABool false) [] [] None None false false false None;
   mkDef "memory.allowedKinds" "memory" "string" (AStr EmptyString) [] [] None None true false false (Some validateMemoryAllowedKinds);
   mkDef "memory.retentionDaysByKind" "memory" "string" (AStr EmptyString) [] [] None None true false false (Some validateMemoryRetentionDaysByKind);
   mkDef "memory.recallMaxEntries" "memory" "number" (num 8%Z) [] [] (Some 1%Z) (Some 32%Z) false false false None;
   mkDef "memory.recallMaxBytes" "memory" "number" (num 8192%Z) [] [] (Some 1024%Z) (Some 65536%Z) false false false None;
   mkDef "memory.embeddingModel" "memory" "string" (AStr EmptyString) ["JANUSLY_EMBEDDING_MODEL"] [] None None true false false (Some validateEmbeddingModel);
   mkDef "memory.embeddingBaseUrl" "memory" "string" (AStr EmptyString) ["OLLAMA_BASE_URL"] [] None None true false false (Some validateEmbeddingBaseURL);
   mkDef "autoHealing.enabled" "auto-healing" "boolean" (ABool false) [] [] None None false false false None;
   mkDef "autoHealing.autoApply" "auto-healing" "boolean" (ABool false) [] [] None None false false false None;
   mkDef "autoHealing.maxAttemptsPerSignature" "auto-healing" "number" (num 3%Z) [] [] (Some 1%Z) (Some 10%Z) false false false None;
   mkDef "autoHealing.loopWindowDays" "auto-healing" "number" (num 14%Z) [] [] (Some 1%Z) (Some 90%Z) false false false None;
   mkDef "recovery.autoCreateItems" "recovery" "boolean" (ABool true) [] [] None None false false false None;
   mkDef "recovery.debounceWindowSeconds" "recovery" "number" (num 300%Z) [] [] (Some 0%Z) (Some 3600%Z) false false false None;
   mkDef "recovery.slaPolicies" "recovery" "string" (AStr EmptyString) [] [] None None true false false (Some validateRecoverySLAPolicies);
   mkDef "value.hourlyCost" "value" "number" (num 50%Z) [] [] (Some 0%Z) (Some 2000%Z) false true false None;
   mkDef "value.minutesSavedPerRecovery" "value" "number" (num 30%Z) [] [] (Some 0%Z) (Some 480%Z) false false false None;
   mkDef "value.baselineMttrSeconds" "value" "number" (num 0%Z) [] [] (Some 0%Z) (Some 86400%Z) false false false None;
   mkDef "retention.runEventsDays" "retention" "number" (num 90%Z) ["JANUSLY_RETENTION_RUN_EVENTS_DAYS"] [] (Some 7%Z) (Some 365%Z) false false false None;
   mkDef "retention.archiveRunEvents" "retention" "boolean" (ABool false) ["JANUSLY_RETENTION_ARCHIVE_RUN_EVENTS"] [] None None false false false None;
   mkDef "retention.auditLogsDays" "retention" "number" (num 365%Z) ["JANUSLY_RETENTION_AUDIT_LOGS_DAYS"] [] (Some 30%Z) (Some 730%Z) false false false None;
   mkDef "retention.usageEventsDays" "retention" "number" (num 90%Z) ["JANUSLY_RETENTION_USAGE_EVENTS_DAYS"] [] (Some 30%Z) (Some 365%Z) false false false None;
   mkDef "retention.deadLettersDays" "retention" "number" (num 180%Z) ["JANUSLY_RETENTION_DEAD_LETTERS_DAYS"] [] (Some 30%Z) (Some 730%Z) false false false None;
   mkDef "retention.recoveryFeedbackDays" "retention" "number" (num 180%Z) ["JANUSLY_RETENTION_RECOVERY_FEEDBACK_DAYS"] [] (Some 30%Z) (Some 365%Z) false false false None;
   mkDef "retention.memoryEntriesDays" "retention" "number" (num 90%Z) ["JANUSLY_RETENTION_MEMORY_ENTRIES_DAYS"] [] (Some 7%Z) (Some 730%Z) false false false None;
   mkDef "retention.deletedWorkflowsDays" "retention" "number" (num 30%Z) ["JANUSLY_RETENTION_DELETED_WORKFLOWS_DAYS"] [] (Some 1%Z) (Some 365%Z) false false false None;
   mkDef "onboarding.enabled" "onboarding" "boolean" (ABool true) [] [] None None false false false None].
Definition Get (key : string) : option ConfigDef := head (List.filter (λ d, String.eqb (cd_Key d) key) Definitions).

(** ** Normalisation *)

Definition validated (def : ConfigDef) (normalized : any) : res string any :=
  match cd_Validate def with
  | Some check => match check normalized with Ok _ => Ok normalized | Err e => Err e end
  | None => Ok normalized
  end.
(** The bounds of the catalog are integers. *)
Definition trimFloat (v : Z) : string := Itoa v.
Definition below (bound : option Z) (v : float64) : option Z :=
  match bound with Some b => if f_ltb v (f_of_Z b) then Some b else None | None => None end.
Definition above (bound : option Z) (v : float64) : option Z :=
  match bound with Some b => if f_ltb (f_of_Z b) v then Some b else None | None => None end.
Definition Normalize (def : ConfigDef) (value : any) : res string any :=
  let key := cd_Key def in
  if String.eqb (cd_ValueType def) "boolean" then
    match value with ABool b => validated def (ABool b) | _ => Err (key +:+ " must be a boolean") end
  else if String.eqb (cd_ValueType def) "number" then
    match value with
    | AF64 typed =>
        if negb (is_finite typed) then Err (key +:+ " must be a finite number")
        else if cd_RejectFractional def && negb (f_eqb (Trunc typed) typed) then Err (key +:+ " must be an integer")
        else
          let normalized := if cd_Fractional def then typed else Floor typed in
          match below (cd_Min def) normalized, above (cd_Max def) normalized with
          | Some b, _ => Err (key +:+ " must be >= " +:+ trimFloat b)
          | None, Some b => Err (key +:+ " must be <= " +:+ trimFloat b)
          | None, None => validated def (AF64 normalized)
          end
    | _ => Err (key +:+ " must be a finite number")
    end
  else
    match value with
    | AStr typed =>
        let normalized := TrimSpace typed in
        if String.eqb normalized "" then
          if cd_AllowEmpty def then validated def (AStr EmptyString) else Err (key +:+ " must be a non-empty string")
        else if MatchString ForbiddenValuePattern normalized then Err (key +:+ " must not contain secret-like values")
        else if negb (bool_decide (cd_AllowedValues def = [])) && negb (in_list (cd_AllowedValues def) normalized) then
          Err (key +:+ " must be one of: " +:+ Join (cd_AllowedValues def) ", ")
        else validated def (AStr normalized)
    | _ => Err (key +:+ " must be a string")
    end.

(** ** Layers *)

Inductive ValueSource := FromTenant | FromEnv | FromDefault.
Context (lookupEnv : string → option string).

Definition parseStored (def : ConfigDef) (raw : json) : option any :=
  match to_any raw with
  | Some decoded => match Normalize def decoded with Ok v => Some v | Err _ => None end
  | None => None
  end.
Definition accepted (r : res string any) : option any := match r with Ok v => Some v | Err _ => None end.
Definition parseEnv (def : ConfigDef) (raw : string) : option any :=
  if String.eqb (cd_ValueType def) "boolean" then
    if String.eqb raw "true" then accepted (Normalize def (ABool true))
    else if String.eqb raw "false" then accepted (Normalize def (ABool false))
    else None
  else if String.eqb (cd_ValueType def) "number" then
    match ParseFloat (TrimSpace raw) with Some parsed => accepted (Normalize def (AF64 parsed)) | None => None end
  else accepted (Normalize def (AStr raw)).
Fixpoint from_env (def : ConfigDef) (keys : list string) : option any :=
  match keys with
  | [] => None
  | key :: keys =>
      match lookupEnv key with
      | Some raw => if String.eqb raw "" then from_env def keys else match parseEnv def raw with Some v => Some v | None => from_env def keys end
      | None => from_env def keys
      end
  end.
Definition resolveOne (def : ConfigDef) (rows : string → option json) : any * ValueSource :=
  match rows (cd_Key def) ≫= parseStored def with
  | Some v => (v, FromTenant)
  | None => match from_env def (cd_EnvKeys def) with Some v => (v, FromEnv) | None => (cd_Default def, FromDefault) end
  end.
Definition ResolveValue (key : string) (rows : string → option json) : option (any * ValueSource) :=
  (λ def, resolveOne def rows) <$> Get key.
Definition ResolveAll (rows : string → option json) : list (ConfigDef * (any * ValueSource)) :=
  map (λ def, (def, resolveOne def rows)) Definitions.

(** ** Loading: a failed read is no row *)

Definition one_row (key : string) (row : option json) (k : string) : option json := if String.eqb k key then row else None.
Definition GetOrgConfigValue (orgID key : string) (s : Org) : option json := configs s !! (orgID, key).
Definition LoadValueWithSource (orgID key : string) : prog Org (option (any * ValueSource)) :=
  match Get key with
  | None => Ret None
  | Some _ =>
      do! row := query (GetOrgConfigValue orgID key) or Ret (ResolveValue key (λ _, None)) in
      Ret (ResolveValue key (one_row key row))
  end.
Definition LoadValue (orgID key : string) : prog Org any :=
  call! r := LoadValueWithSource orgID key in Ret (match r with Some (v, _) => v | None => ANil end).
Definition tenant_rows (orgID : string) (s : Org) (key : string) : option json := configs s !! (orgID, key).
Definition LoadTenantRows (orgID : string) : prog Org (string → option json) :=
  do! rows := query (tenant_rows orgID) or Ret (λ _, None) in Ret rows.
Definition LoadValuesWithSources (orgID : string) (keys : list string) : prog Org (list (string * (any * ValueSource))) :=
  call! rows := LoadTenantRows orgID in
  Ret (omap (λ key, (λ v, (key, v)) <$> ResolveValue key rows) keys).
Definition LoadBool (orgID key : string) : prog Org bool := call! v := LoadValue orgID key in Ret (bool_or_zero v).
Definition LoadNumber (orgID key : string) : prog Org float64 := call! v := LoadValue orgID key in Ret (default (f_of_Z 0) (as_f64 v)).
Definition LoadResolved (orgID : string) : prog Org (answer (list (ConfigDef * (any * ValueSource)))) :=
  do! rows := query (tenant_rows orgID) or Ret (Err DbError) in Ret (Ok (ResolveAll rows)).

(** ** The bounds of outbound HTTP (orgconfig/http.go) *)

Record HttpBounds := mkBounds { bo_TimeoutMs : float64; bo_MaxResponseBytes : Z; bo_MaxRedirects : Z; bo_StreamPreviewBytes : Z }.
Definition number_of (key : string) (rows : string → option json) : float64 :=
  match ResolveValue key rows with Some (AF64 f, _) => f | _ => f_of_Z 0 end.
Definition ResolveHTTPBounds (rows : string → option json) : HttpBounds :=
  mkBounds (number_of "http.timeoutMs" rows) (int_of_float (number_of "http.maxResponseBytes" rows))
    (int_of_float (number_of "http.maxRedirects" rows)) (int_of_float (number_of "http.streamPreviewBytes" rows)).
Definition ValidateHTTPEnvironment (getenv : string → string) : list string :=
  flat_map (λ def, if negb (String.eqb (cd_Category def) "http") then [] else
    flat_map (λ key, let raw := getenv key in
      if String.eqb (TrimSpace raw) "" then []
      else match parseEnv def raw with
           | Some _ => []
           | None => [key +:+ " must be an integer in [" +:+ trimFloat (default 0%Z (cd_Min def)) +:+ ", " +:+ trimFloat (default 0%Z (cd_Max def)) +:+ "]"]
           end) (cd_EnvKeys def)) Definitions.

(** ** The route that writes a value (httpapi/orgconfig.go)

    The body is the key and the raw value. The answer is the entry; its projection with the
    description is not modelled. [text_of] is the literal of a number. *)
Definition value_tree (v : any) : option json :=
  match v with
  | AStr t => Some (JStr t)
  | ABool b => Some (JBool b)
  | AF64 f => JNum <$> json_float (λ m e, f_of_decimal false m e) f
  | _ => None
  end.
Definition UpsertOrgConfigValue (orgID key : string) (value : json) : op Org unit :=
  λ s, Some (tt, set_configs (<[(orgID, key) := value]> (configs s)) s).
Definition config_refused (status : Z) (code message : string) : prog Org (res opResult (ConfigDef * any)) :=
  Ret (Err (opError status code message)).
(** What held before a change of [memory.enabled]: its value and whether the tenant had set it. *)
Definition previous_memory (def : ConfigDef) (orgID : string) : prog Org (option (bool * bool)) :=
  if negb (String.eqb (cd_Key def) "memory.enabled") then Ret None
  else
    call! resolved := LoadResolved orgID in
    Ret (match resolved with
         | Ok entries =>
             match head (List.filter (λ e, String.eqb (cd_Key e.1) (cd_Key def)) entries) with
             | Some (_, (ABool previous, source)) => Some (previous, match source with FromTenant => true | _ => false end)
             | _ => None
             end
         | Err _ => None
         end).
Definition updateOrgConfigCore (c : AuthContext) (body : option (string * option json)) : prog Org (res opResult (ConfigDef * any)) :=
  match body with
  | None | Some (EmptyString, _) => config_refused 400 "org_key_required" "key is required"
  | Some (_, None) => config_refused 400 "org_value_required" "value is required"
  | Some (key, Some raw) =>
      match Get key with
      | None => config_refused 400 "org_config_invalid" ("Unknown org config key: " +:+ key)
      | Some def =>
          match to_any raw with
          | None => config_refused 400 "org_config_invalid" "value is not valid JSON"
          | Some decoded =>
              match Normalize def decoded with
              | Err e => config_refused 400 "org_config_invalid" e
              | Ok normalized =>
                  if String.eqb (cd_Key def) ToolApprovalPolicyKey then
                    config_refused 409 "tool_approval_policy_path" "Change tools.approvalRequired one tool at a time with POST /org/tool-approval-policy"
                  else
                    match value_tree normalized with
                    | None => Ret (Err internal)
                    | Some tree =>
                        call! previous := previous_memory def (cx_OrgID c) in
                        do! _ := UpsertOrgConfigValue (cx_OrgID c) (cd_Key def) tree or Ret (Err internal) in
                        let metadata :=
                          if String.eqb (cd_Key def) "ai.operatorGuidance"
                          then [("key", AStr (cd_Key def)); ("bytes", AInt KInt (Z.of_nat (len (string_or_zero normalized))))]
                          else [("key", AStr (cd_Key def)); ("value", normalized)] in
                        try! write_audit (audit_row c "org.config.updated" "org_config" (cd_Key def) metadata) in
                        match previous, normalized with
                        | Some (before, tenant), ABool enabled =>
                            if Bool.eqb enabled before then Ret (Ok (def, normalized))
                            else
                              let transition := [("previousValue", ABool before); ("newValue", ABool enabled)] in
                              try! write_audit (audit_row c (if enabled then "memory.consent.granted" else "memory.consent.revoked") "org_config" (cd_Key def)
                                     (if enabled then transition ++ [("pendingPurgeCancelled", ABool tenant)] else transition)) in
                              Ret (Ok (def, normalized))
                        | _, _ => Ret (Ok (def, normalized))
                        end
                    end
              end
          end
      end
  end.

(** ** What a value satisfies *)

Definition shape (def : ConfigDef) (v : any) : Prop :=
  if String.eqb (cd_ValueType def) "boolean" then ∃ b, v = ABool b
  else if String.eqb (cd_ValueType def) "number" then
    ∃ f, v = AF64 f ∧ is_nan f = false ∧ below (cd_Min def) f = None ∧ above (cd_Max def) f = None
  else
    ∃ t, v = AStr t ∧ TrimSpace t = t ∧
      (if String.eqb t "" then cd_AllowEmpty def = true
       else MatchString ForbiddenValuePattern t = false ∧ (cd_AllowedValues def = [] ∨ in_list (cd_AllowedValues def) t = true)).
Definition conforms (def : ConfigDef) (v : any) : Prop := shape def v ∧ validated def v = Ok v.

Lemma validated_ok def v w : validated def v = Ok w → w = v ∧ validated def v = Ok v.
Proof. unfold validated. destruct (cd_Validate def) as [f|]; [destruct (f v)|]; by intros [= <-]. Qed.
Lemma Floor_not_nan f : is_nan f = false → is_nan (Floor f) = false.
Proof. destruct f as [s|s| |[] m e]; try done; intros _; unfold Floor, Trunc; apply binary_normalize_not_nan. Qed.
Lemma Normalize_conforms def v w : Normalize def v = Ok w → conforms def w.
Proof.
  unfold Normalize, conforms, shape. destruct (String.eqb (cd_ValueType def) "boolean").
  { destruct v; try done. intros [-> ?]%validated_ok. eauto. }
  destruct (String.eqb (cd_ValueType def) "number").
  - destruct v; try done. destruct (is_finite f) eqn:Hf; [|done]. cbn [negb]. destruct (cd_RejectFractional def && _); [done|].
    set (n := if cd_Fractional def then f else Floor f).
    assert (is_nan n = false) as Hn.
    { unfold is_finite in Hf. apply andb_true_iff in Hf as [Hf%negb_true_iff _]. unfold n. destruct (cd_Fractional def); [done|]. by apply Floor_not_nan. }
    destruct (below (cd_Min def) n) eqn:Hlo; [done|]. destruct (above (cd_Max def) n) eqn:Hhi; [done|].
    intros [-> ?]%validated_ok. split; [|done]. by exists n.
  - destruct v; try done. destruct (String.eqb (TrimSpace s) "") eqn:He.
    + destruct (cd_AllowEmpty def) eqn:Ha; [|done]. intros [-> ?]%validated_ok. split; [|done]. by exists EmptyString.
    + destruct (MatchString ForbiddenValuePattern (TrimSpace s)) eqn:Hm; [done|]. destruct (_ && _) eqn:Hl; [done|].
      intros [-> ?]%validated_ok. split; [|done]. exists (TrimSpace s). rewrite He. split_and!; [done|apply TrimSpace_twice|done|].
      apply andb_false_iff in Hl as [Hl|Hl]; apply negb_false_iff in Hl; [left; by apply bool_decide_eq_true in Hl|by right].
Qed.
(** A text or a truth value that was accepted is accepted unchanged. *)
Lemma Normalize_again def v w : cd_ValueType def ≠ "number" → Normalize def v = Ok w → Normalize def w = Ok w ∧ to_any (default JNull (value_tree w)) = Some w.
Proof.
  unfold Normalize. intros Hnum%String.eqb_neq. rewrite Hnum. destruct (String.eqb (cd_ValueType def) "boolean").
  { destruct v; try done. by intros [-> ->]%validated_ok. }
  destruct v; try done. destruct (String.eqb (TrimSpace s) "") eqn:He.
  - destruct (cd_AllowEmpty def) eqn:Ha; [|done]. intros [-> Hv]%validated_ok. by rewrite String.eqb_refl.
  - destruct (MatchString ForbiddenValuePattern (TrimSpace s)) eqn:Hm; [done|]. destruct (_ && _) eqn:Hl; [done|].
    intros [-> Hv]%validated_ok. by rewrite TrimSpace_twice, He, Hm, Hl.
Qed.
Lemma Get_spec key def : Get key = Some def → cd_Key def = key ∧ def ∈ Definitions.
Proof.
  unfold Get. intros Hh. assert (In def (List.filter (λ d, String.eqb (cd_Key d) key) Definitions)) as [? Hk]%filter_In.
  { destruct (List.filter _ _); [done|]. injection Hh as ->. by left. }
  apply String.eqb_eq in Hk. split; [done|by apply list_elem_of_In].
Qed.
Definition shapeb (def : ConfigDef) (v : any) : bool :=
  if String.eqb (cd_ValueType def) "boolean" then match v with ABool _ => true | _ => false end
  else if String.eqb (cd_ValueType def) "number" then
    match v with AF64 f => negb (is_nan f) && bool_decide (below (cd_Min def) f = None) && bool_decide (above (cd_Max def) f = None) | _ => false end
  else
    match v with
    | AStr t => String.eqb (TrimSpace t) t &&
        (if String.eqb t "" then cd_AllowEmpty def
         else negb (MatchString ForbiddenValuePattern t) && (bool_decide (cd_AllowedValues def = []) || in_list (cd_AllowedValues def) t))
    | _ => false
    end.
Lemma shapeb_shape def v : shapeb def v = true → shape def v.
Proof.
  unfold shapeb, shape. destruct (String.eqb (cd_ValueType def) "boolean"); [destruct v; try done; eauto|].
  destruct (String.eqb (cd_ValueType def) "number").
  - destruct v; try done. intros [[Hn%negb_true_iff Hlo%bool_decide_eq_true]%andb_true_iff Hhi%bool_decide_eq_true]%andb_true_iff. eauto.
  - destruct v as [| | | | | |t| | |]; try done. intros [Ht%String.eqb_eq Hr]%andb_true_iff. exists t. split_and!; [done|done|].
    destruct (String.eqb t ""); [done|]. apply andb_true_iff in Hr as [Hm%negb_true_iff Ha%orb_true_iff]. split; [done|].
    destruct Ha as [Ha%bool_decide_eq_true|Ha]; [by left|by right].
Qed.
Lemma defaults_conform def : def ∈ Definitions → conforms def (cd_Default def).
Proof.
  intros Hd. split.
  - apply shapeb_shape. assert (forallb (λ d, shapeb d (cd_Default d)) Definitions = true) as Hall by (vm_compute; reflexivity).
    rewrite forallb_forall in Hall. apply Hall. by apply list_elem_of_In.
  - revert def Hd. apply Forall_forall. unfold Definitions. repeat (constructor; [vm_compute; reflexivity|]). constructor.
Qed.
Lemma from_env_spec def keys :
  match from_env def keys with
  | Some v => ∃ key raw, key ∈ keys ∧ lookupEnv key = Some raw ∧ raw ≠ "" ∧ parseEnv def raw = Some v
  | None => ∀ key raw, key ∈ keys → lookupEnv key = Some raw → raw ≠ "" → parseEnv def raw = None
  end.
Proof.
  induction keys as [|k keys IH]; cbn; [by intros ? ? ?%elem_of_nil|].
  assert (∀ P : Prop, match from_env def keys with
    | Some v => ∃ key raw, key ∈ keys ∧ lookupEnv key = Some raw ∧ raw ≠ "" ∧ parseEnv def raw = Some v
    | None => ∀ key raw, key ∈ keys → lookupEnv key = Some raw → raw ≠ "" → parseEnv def raw = None end →
    (∀ raw, lookupEnv k = Some raw → raw ≠ "" → parseEnv def raw = None) →
    match from_env def keys with
    | Some v => ∃ key raw, key ∈ k :: keys ∧ lookupEnv key = Some raw ∧ raw ≠ "" ∧ parseEnv def raw = Some v
    | None => ∀ key raw, key ∈ k :: keys → lookupEnv key = Some raw → raw ≠ "" → parseEnv def raw = None end) as Hskip.
  { intros _ Hrest Hk. destruct (from_env def keys).
    - destruct Hrest as (key & raw & ? & ?). exists key, raw. by rewrite elem_of_cons; eauto.
    - intros key raw [->|Hin]%elem_of_cons; eauto. }
  destruct (lookupEnv k) as [raw|] eqn:Hk; [|apply (Hskip True IH); congruence].
  destruct (String.eqb_spec raw ""); [apply (Hskip True IH); congruence|].
  destruct (parseEnv def raw) as [v|] eqn:Hp; [|apply (Hskip True IH); congruence].
  exists k, raw. by rewrite elem_of_cons; eauto.
Qed.
Lemma parseEnv_conforms def raw v : parseEnv def raw = Some v → conforms def v.
Proof.
  assert (∀ w, accepted (Normalize def w) = Some v → conforms def v) as Ha.
  { intros w. unfold accepted. destruct (Normalize def w) eqn:He; [|done]. intros [= <-]. by eapply Normalize_conforms. }
  unfold parseEnv. repeat case_match; try done; apply Ha.
Qed.
Lemma parseStored_conforms def raw v : parseStored def raw = Some v → conforms def v.
Proof. unfold parseStored. destruct (to_any raw); [|done]. destruct (Normalize def a) eqn:He; [|done]. intros [= <-]. by eapply Normalize_conforms. Qed.

(** The effective value of a key. *)
Lemma resolve_conforms key def rows : Get key = Some def →
  ∃ v source, ResolveValue key rows = Some (v, source) ∧ conforms def v ∧
    match source with
    | FromTenant => ∃ raw, rows key = Some raw ∧ parseStored def raw = Some v
    | FromEnv => rows key ≫= parseStored def = None ∧ ∃ name raw, name ∈ cd_EnvKeys def ∧ lookupEnv name = Some raw ∧ parseEnv def raw = Some v
    | FromDefault => rows key ≫= parseStored def = None ∧ v = cd_Default def ∧
        ∀ name raw, name ∈ cd_EnvKeys def → lookupEnv name = Some raw → raw ≠ "" → parseEnv def raw = None
    end.
Proof.
  intros Hg. destruct (Get_spec _ _ Hg) as [Hk Hd]. unfold ResolveValue. rewrite Hg. cbn [fmap option_fmap option_map]. unfold resolveOne. rewrite Hk.
  destruct (rows key ≫= parseStored def) as [v|] eqn:Hr.
  { apply bind_Some in Hr as (raw & Hraw & Hv). exists v, FromTenant. split_and!; [done|by eapply parseStored_conforms|eauto]. }
  pose proof (from_env_spec def (cd_EnvKeys def)) as He. destruct (from_env def (cd_EnvKeys def)) as [v|].
  - destruct He as (name & raw & Hin & Hl & _ & Hv). exists v, FromEnv. split_and!; [done|by eapply parseEnv_conforms|done|eauto].
  - exists (cd_Default def), FromDefault. split_and!; [done|by apply defaults_conform|done|done|done].
Qed.

(** ** Writes *)

Lemma serve_audit f a s r s' : serve f (write_audit a) s = (r, s') → configs s' = configs s.
Proof. destruct f; cbn; intros [= _ <-]; by destruct s. Qed.
Lemma run_read {A X} (f : Org → X) (k : option X → prog Org A) fates ids s :
  ∃ r, run (Do (query f) k) fates ids s = run (k r) (tail fates) ids s.
Proof. cbn. destruct (default Served (head fates)); cbn; eauto. Qed.
Lemma run_audited {A} a (k : prog Org A) fates ids s :
  ∃ s1, run (Do (write_audit a) (λ _, k)) fates ids s = run k (tail fates) ids s1 ∧ configs s1 = configs s.
Proof. cbn [run]. destruct (serve _ _ s) as [r s1] eqn:Hs. exists s1. split; [done|by eapply serve_audit]. Qed.
Lemma run_previous {A} def orgID (k : option (bool * bool) → prog Org A) fates ids s :
  ∃ previous fates', run (bind (previous_memory def orgID) k) fates ids s = run (k previous) fates' ids s.
Proof.
  unfold previous_memory. destruct (negb _); [by exists None, fates|]. unfold LoadResolved.
  cbn [bind].
  match goal with |- context [run (Do (query ?f) ?g) _ _ _] => destruct (run_read f g fates ids s) as [r ->] end. destruct r; cbn [bind]; eauto.
Qed.
(** The rest of the route after the value is stored. *)
Lemma run_written {A} key tree orgID (k : prog Org (res opResult A)) fates ids s (x : A) s' :
  run (Do (UpsertOrgConfigValue orgID key tree) (λ r, match r with Some _ => k | None => Ret (Err internal) end)) fates ids s = (Ok x, s') →
  (∀ fates s1, (run k fates ids s1).1 = Ok x → configs (run k fates ids s1).2 = configs s1) →
  configs s' = <[(orgID, key) := tree]> (configs s).
Proof.
  cbn [run]. intros Hrun Hk. destruct (default Served (head fates)); cbn in Hrun; [|done|done].
  specialize (Hk (tail fates) (set_configs (<[(orgID, key) := tree]> (configs s)) s)). rewrite Hrun in Hk. cbn in Hk. rewrite Hk; [by destruct s|done].
Qed.

Ltac audited :=
  repeat first [progress cbv zeta | case_match |
    match goal with
    | |- context [run (Do (write_audit ?a) (λ _, ?k)) ?fs ?ids ?s] => destruct (run_audited a k fs ids s) as (? & -> & <-)
    | H : context [run (Do (write_audit ?a) (λ _, ?k)) ?fs ?ids ?s] |- _ => destruct (run_audited a k fs ids s) as (? & Hr & _); rewrite Hr in H; clear Hr
    end].

(** An accepted write. *)
Lemma write_read c key raw fates ids s def v s' :
  run (updateOrgConfigCore c (Some (key, Some raw))) fates ids s = (Ok (def, v), s') →
  Get key = Some def ∧ conforms def v ∧
  (∀ o k, (o, k) ≠ (cx_OrgID c, key) → configs s' !! (o, k) = configs s !! (o, k)) ∧
  (cd_ValueType def ≠ "number" → run (LoadValueWithSource (cx_OrgID c) key) [] [] s' = (Some (v, FromTenant), s')).
Proof.
  unfold updateOrgConfigCore, config_refused. destruct key as [|ch key']; [done|]. set (key := String ch key').
  destruct (Get key) as [d|] eqn:Hg; [|done]. destruct (Get_spec _ _ Hg) as [Hkey _].
  destruct (to_any raw) as [decoded|]; [|done]. destruct (Normalize d decoded) as [w|] eqn:Hn; [|done].
  destruct (String.eqb (cd_Key d) ToolApprovalPolicyKey); [done|]. destruct (value_tree w) as [tree|] eqn:Htree; [|done].
  match goal with |- context [bind (previous_memory ?d ?o) ?k] => destruct (run_previous d o k fates ids s) as (previous & fates' & ->) end. intros Hrun.
  assert (def = d ∧ v = w ∧ configs s' = <[(cx_OrgID c, cd_Key d) := tree]> (configs s)) as (-> & -> & Hs').
  { cbv zeta in Hrun.
    assert (def = d ∧ v = w) as [-> ->].
    { cbn [run] in Hrun. destruct (serve _ _ s) as [[r|] s1]; [|done]. audited; by injection Hrun. }
    split_and!; [done|done|]. eapply run_written; [exact Hrun|]. intros fs s1 _.
    audited; done. }
  rewrite Hkey in Hs'. split_and!; [done|by eapply Normalize_conforms| |].
  - intros o k Hne. rewrite Hs'. by rewrite lookup_insert_ne.
  - intros Hnum. destruct (Normalize_again _ _ _ Hnum Hn) as [Hagain Hback]. rewrite Htree in Hback.
    unfold LoadValueWithSource. rewrite Hg. unfold GetOrgConfigValue. cbn [run default head serve query tail]. rewrite Hs', lookup_insert_eq.
    cbn [run]. unfold ResolveValue. rewrite Hg. cbn [fmap option_fmap option_map]. unfold resolveOne, one_row. rewrite Hkey, String.eqb_refl.
    cbn [mbind option_bind]. unfold parseStored. change (to_any tree = Some w) in Hback. by rewrite Hback, Hagain.
Qed.

End validators.

(** A tenant asks for 21 redirects, which is above the bound: the environment decides. An
    administrator restricts the domains of the logins, and the audit row fails. *)
#[local] Instance config_tables : UnicodeTables := {| is_print := λ _, true |}.
Definition small_env (name : string) : option string := if String.eqb name "JANUSLY_HTTP_MAX_REDIRECTS" then Some " 7 " else None.
Definition admin_of_acme : AuthContext := mkContext "org_1" "alice" ModeSupabase SourceWeb "" "" RoleAdmin "alice@acme.io".
