(* ===== verification/Scim.v ===== *)
(** Directory synchronisation (httpapi/scim/ over store/scim.sql.go): the webhook of the identity
    provider, the events of users and groups, the derivation of roles, the routes that attach a
    directory and map its groups, and the re-synchronisation of roles. *)
From S2P Require Import Prelude GoStrings GoFloat GoAny GoInt JsValue Regex Calendar Json JsonTree Cron Graph Inputs RecoveryContract Waiting Schedule Token Process Permissions OrgTables Authz OrgRoutes OrgConfig.
Local Open Scope string_scope.
Local Open Scope list_scope.

(** ** Times: [time.Parse] and [Format] with [time.RFC3339] *)

(** An instant and the offset of its zone in seconds. *)
Record Time := mkTime { tm_At : instant; tm_Offset : Z }.
Definition two_digits (l : list ascii) : option (Z * list ascii) :=
  match l with a :: b :: l => if is_digit a && is_digit b then Some (digits_val [a; b], l) else None | _ => None end.
(** The hour may have one digit. *)
Definition one_or_two (l : list ascii) : option (Z * list ascii) :=
  match two_digits l with
  | Some r => Some r
  | None => match l with a :: l => if is_digit a then Some (digit_val a, l) else None | [] => None end
  end.
Definition four_digits (l : list ascii) : option (Z * list ascii) :=
  '(a, l) ← two_digits l; '(b, l) ← two_digits l; Some (100 * a + b, l)%Z.
Definition expect (c : ascii) (l : list ascii) : option (list ascii) :=
  match l with d :: l => if Ascii.eqb d c then Some l else None | [] => None end.
Definition within_z (lo hi n : Z) : option unit := if (lo <=? n)%Z && (n <=? hi)%Z then Some tt else None.
(** The fraction of the seconds in nanoseconds: further digits are ignored. *)
Definition fraction (l : list ascii) : Z * list ascii :=
  match l with
  | c :: d :: _ =>
      if one_of ".," c && is_digit d then
        let '(ds, rest) := span is_digit (tail l) in (digits_val (take 9 (ds ++ replicate 9 "0"%char)), rest)
      else (0%Z, l)
  | _ => (0%Z, l)
  end.
(** [Z], or the sign, hours and minutes of the offset. *)
Definition zone (l : list ascii) : option (Z * list ascii) :=
  match l with
  | c :: l =>
      if Ascii.eqb c "Z" then Some (0%Z, l)
      else if one_of "+-" c then
        '(h, l) ← two_digits l; l ← expect ":" l; '(m, l) ← two_digits l;
        _ ← within_z 0 24 h; _ ← within_z 0 60 m;
        Some ((if Ascii.eqb c "-" then - ((h * 60 + m) * 60) else (h * 60 + m) * 60)%Z, l)
      else None
  | [] => None
  end.
Definition parseScimTimestamp (value : string) : option Time :=
  '(year, l) ← four_digits (bytes value); l ← expect "-" l;
  '(month, l) ← two_digits l; _ ← within_z 1 12 month; l ← expect "-" l;
  '(day, l) ← two_digits l; l ← expect "T" l;
  '(hour, l) ← one_or_two l; _ ← within_z 0 23 hour; l ← expect ":" l;
  '(minute, l) ← two_digits l; _ ← within_z 0 59 minute; l ← expect ":" l;
  '(sec, l) ← two_digits l; _ ← within_z 0 59 sec;
  let '(nsec, l) := fraction l in
  '(offset, l) ← zone l;
  _ ← within_z 1 (month_days (is_leap year) month) day;
  match l with
  | [] => Some (mkTime (Date year month day hour minute sec nsec - offset * second_ns)%Z offset)
  | _ => None
  end.
Definition zone_text (offset : Z) : list ascii :=
  if (offset =? 0)%Z then ["Z"%char]
  else
    let minutes := Z.abs (Z.quot offset 60) in
    (if (offset <? 0)%Z then "-"%char else "+"%char) :: pad 2 (minutes / 60) ++ [":"%char] ++ pad 2 (minutes mod 60).
Definition FormatTime (t : Time) : string := of_bytes (date_time (tm_At t + tm_Offset t * second_ns)%Z ++ zone_text (tm_Offset t)).
(** What a column of timestamps keeps: microseconds. *)
Definition stored_time (t : Time) : instant := (tm_At t / 1000 * 1000)%Z.

Example timestamps_read : map (λ t, (λ r, (tm_At r, FormatTime r)) <$> parseScimTimestamp t)
    ["2026-01-02T03:04:05Z"; "2026-01-02T03:04:05.5+05:30"; "2026-02-29T00:00:00Z"; "2026-01-02"] =
  [Some (1767323045000000000%Z, "2026-01-02T03:04:05Z"); Some (1767303245500000000%Z, "2026-01-02T03:04:05+05:30"); None; None].
Proof. vm_compute. reflexivity. Qed.

(** ** Tables (schema.sql, store/scim.sql.go) *)

Record ScimDirectory := mkDirectory
  { di_ID : string; di_OrgID : string; di_ProviderDirectoryID : string; di_DirectoryType : option string; di_DefaultRole : string;
    di_Status : string; di_LastSyncedAt : option instant; di_CreatedAt : instant }.
Record ScimUserState := mkUserState
  { us_ID : string; us_OrgID : string; us_Directory : string; us_User : string; us_Email : string; us_FirstName : option string;
    us_LastName : option string; us_Active : bool; us_LastEventID : option string; us_LastEventTimestamp : option instant }.
Record ScimGroupState := mkGroupState
  { gs_ID : string; gs_OrgID : string; gs_Directory : string; gs_Group : string; gs_Name : string; gs_LastSyncedAt : instant }.
Record ScimMapping := mkMapping
  { gm_ID : string; gm_OrgID : string; gm_Directory : string; gm_Group : string; gm_Role : string; gm_CreatedBy : option string;
    gm_UpdatedBy : option string; gm_CreatedAt : instant; gm_UpdatedAt : instant }.
Record ScimUserGroup := mkUserGroup { ug_ID : string; ug_OrgID : string; ug_Directory : string; ug_User : string; ug_Group : string }.
Record ScimProcessed := mkProcessed { pe_EventID : string; pe_OrgID : string; pe_Directory : string; pe_Type : string }.
Record Scim := mkScim
  { sc_org : Org; directories : list ScimDirectory; user_states : list ScimUserState; group_states : list ScimGroupState;
    mappings : list ScimMapping; user_groups : list ScimUserGroup; processed : list ScimProcessed }.
Definition set_sc_org g s := let 'mkScim _ d u r m j p := s in mkScim g d u r m j p.
Definition set_directories d s := let 'mkScim g _ u r m j p := s in mkScim g d u r m j p.
Definition set_user_states u s := let 'mkScim g d _ r m j p := s in mkScim g d u r m j p.
Definition set_group_states r s := let 'mkScim g d u _ m j p := s in mkScim g d u r m j p.
Definition set_mappings m s := let 'mkScim g d u r _ j p := s in mkScim g d u r m j p.
Definition set_user_groups j s := let 'mkScim g d u r m _ p := s in mkScim g d u r m j p.
Definition set_processed p s := let 'mkScim g d u r m j _ := s in mkScim g d u r m j p.
Definition clock (s : Scim) : instant := (now (sc_org s) * second_ns)%Z.
(** A statement on the tables of organisations. *)
Definition on_org {X} (o : op Org X) : op Scim X := λ s,
  match o (sc_org s) with Some (x, g) => Some (x, set_sc_org g s) | None => None end.

Definition GetScimDirectoryByOrgID (orgID : string) (s : Scim) : option ScimDirectory :=
  head (List.filter (λ d, String.eqb (di_OrgID d) orgID) (directories s)).
Definition GetScimDirectoryByProviderDirectoryID (id : string) (s : Scim) : option ScimDirectory :=
  head (List.filter (λ d, String.eqb (di_ProviderDirectoryID d) id) (directories s)).
Definition ListScimDirectories (orgID : string) (s : Scim) : list ScimDirectory :=
  stable_sort (λ a b, (di_CreatedAt a <? di_CreatedAt b)%Z) (List.filter (λ d, String.eqb (di_OrgID d) orgID) (directories s)).
(** One directory per organisation, and one row per directory of the provider. *)
Definition InsertScimDirectory (id orgID providerID : string) (type : option string) (role : string) : op Scim ScimDirectory := λ s,
  let d := mkDirectory id orgID providerID type role "active" None (clock s) in
  if existsb (λ e, String.eqb (di_ID e) id || String.eqb (di_OrgID e) orgID || String.eqb (di_ProviderDirectoryID e) providerID) (directories s) then None
  else Some (d, set_directories (directories s ++ [d]) s).
Definition is_directory (id orgID : string) (d : ScimDirectory) : bool := String.eqb (di_ID d) id && String.eqb (di_OrgID d) orgID.
Definition with_default_role (role : string) (d : ScimDirectory) : ScimDirectory :=
  mkDirectory (di_ID d) (di_OrgID d) (di_ProviderDirectoryID d) (di_DirectoryType d) role (di_Status d) (di_LastSyncedAt d) (di_CreatedAt d).
(** No row is [None]. *)
Definition UpdateScimDirectoryDefaultRole (id orgID role : string) : op Scim (option ScimDirectory) := λ s,
  Some (with_default_role role <$> head (List.filter (is_directory id orgID) (directories s)),
        set_directories (map (λ d, if is_directory id orgID d then with_default_role role d else d) (directories s)) s).
Definition RecordScimDirectorySync (id orgID : string) : op Scim unit := λ s,
  Some (tt, set_directories (map (λ d, if is_directory id orgID d then
    mkDirectory (di_ID d) (di_OrgID d) (di_ProviderDirectoryID d) (di_DirectoryType d) (di_DefaultRole d) (di_Status d) (Some (clock s)) (di_CreatedAt d)
    else d) (directories s)) s).
Definition RevokeScimDirectory (id orgID : string) : op Scim Z := λ s,
  Some (Z.of_nat (length (List.filter (is_directory id orgID) (directories s))),
        set_directories (List.filter (λ d, negb (is_directory id orgID d)) (directories s)) s).

(** The claim of an event: one row for its identifier, in any organisation. *)
Definition RecordScimProcessedEvent (id orgID directory type : string) : op Scim Z := λ s,
  if existsb (λ e, String.eqb (pe_EventID e) id) (processed s) then Some (0%Z, s)
  else Some (1%Z, set_processed (processed s ++ [mkProcessed id orgID directory type]) s).
Definition DeleteScimProcessedEvent (id orgID : string) : op Scim unit := λ s,
  Some (tt, set_processed (List.filter (λ e, negb (String.eqb (pe_EventID e) id && String.eqb (pe_OrgID e) orgID)) (processed s)) s).

Definition is_user (directory user : string) (u : ScimUserState) : bool := String.eqb (us_Directory u) directory && String.eqb (us_User u) user.
Definition GetScimUserState (directory user : string) (s : Scim) : option ScimUserState := head (List.filter (is_user directory user) (user_states s)).
(** One row per directory and user: the first event inserts it, later ones update it. *)
Definition UpsertScimUserState (id orgID directory user email : string) (firstName lastName : option string) (eventID : string) (at_ : instant) :
    op Scim unit := λ s,
  let set id orgID := mkUserState id orgID directory user email firstName lastName true (Some eventID) (Some at_) in
  match GetScimUserState directory user s with
  | Some _ => Some (tt, set_user_states (map (λ u, if is_user directory user u then set (us_ID u) (us_OrgID u) else u) (user_states s)) s)
  | None => Some (tt, set_user_states (user_states s ++ [set id orgID]) s)
  end.
Definition MarkScimUserInactive (id eventID : string) (at_ : instant) : op Scim unit := λ s,
  Some (tt, set_user_states (map (λ u, if String.eqb (us_ID u) id then
    mkUserState (us_ID u) (us_OrgID u) (us_Directory u) (us_User u) (us_Email u) (us_FirstName u) (us_LastName u) false (Some eventID) (Some at_)
    else u) (user_states s)) s).

Definition is_group (directory group : string) (g : ScimGroupState) : bool := String.eqb (gs_Directory g) directory && String.eqb (gs_Group g) group.
Definition GetScimGroupState (directory group : string) (s : Scim) : option ScimGroupState := head (List.filter (is_group directory group) (group_states s)).
Definition UpsertScimGroupState (id orgID directory group name : string) : op Scim unit := λ s,
  match GetScimGroupState directory group s with
  | Some _ => Some (tt, set_group_states (map (λ g, if is_group directory group g then
      mkGroupState (gs_ID g) (gs_OrgID g) (gs_Directory g) (gs_Group g) name (clock s) else g) (group_states s)) s)
  | None => Some (tt, set_group_states (group_states s ++ [mkGroupState id orgID directory group name (clock s)]) s)
  end.
Definition DeleteScimGroupState (id : string) : op Scim unit := λ s,
  Some (tt, set_group_states (List.filter (λ g, negb (String.eqb (gs_ID g) id)) (group_states s)) s).

Definition in_directory (orgID directory : string) (j : ScimUserGroup) : bool := String.eqb (ug_OrgID j) orgID && String.eqb (ug_Directory j) directory.
Definition AddScimUserGroup (id orgID directory user group : string) : op Scim unit := λ s,
  if existsb (λ j, String.eqb (ug_Directory j) directory && String.eqb (ug_User j) user && String.eqb (ug_Group j) group) (user_groups s) then Some (tt, s)
  else Some (tt, set_user_groups (user_groups s ++ [mkUserGroup id orgID directory user group]) s).
Definition delete_user_groups (where_ : ScimUserGroup → bool) : op Scim unit := λ s,
  Some (tt, set_user_groups (List.filter (λ j, negb (where_ j)) (user_groups s)) s).
Definition RemoveScimUserGroup (orgID directory user group : string) : op Scim unit :=
  delete_user_groups (λ j, in_directory orgID directory j && String.eqb (ug_User j) user && String.eqb (ug_Group j) group).
Definition DeleteScimUserGroupsForUser (orgID directory user : string) : op Scim unit :=
  delete_user_groups (λ j, in_directory orgID directory j && String.eqb (ug_User j) user).
Definition DeleteScimUserGroupsForGroup (orgID directory group : string) : op Scim unit :=
  delete_user_groups (λ j, in_directory orgID directory j && String.eqb (ug_Group j) group).
Definition ListScimUserGroupIDs (orgID directory user : string) (s : Scim) : list string :=
  map ug_Group (List.filter (λ j, in_directory orgID directory j && String.eqb (ug_User j) user) (user_groups s)).
Definition ListScimUserIDsForGroup (orgID directory group : string) (s : Scim) : list string :=
  map ug_User (List.filter (λ j, in_directory orgID directory j && String.eqb (ug_Group j) group) (user_groups s)).

Definition ListScimGroupRoleMappings (orgID directory : string) (s : Scim) : list ScimMapping :=
  stable_sort (λ a b, (gm_CreatedAt a <? gm_CreatedAt b)%Z)
    (List.filter (λ m, String.eqb (gm_OrgID m) orgID && String.eqb (gm_Directory m) directory) (mappings s)).
Definition FindScimGroupRoleMappingByGroup (orgID directory group : string) (s : Scim) : option ScimMapping :=
  head (List.filter (λ m, String.eqb (gm_OrgID m) orgID && String.eqb (gm_Directory m) directory && String.eqb (gm_Group m) group) (mappings s)).
Definition is_mapping (id orgID : string) (m : ScimMapping) : bool := String.eqb (gm_ID m) id && String.eqb (gm_OrgID m) orgID.
Definition GetScimGroupRoleMappingByID (id orgID : string) (s : Scim) : option ScimMapping := head (List.filter (is_mapping id orgID) (mappings s)).
(** One mapping per directory and group. *)
Definition InsertScimGroupRoleMapping (id orgID directory group role : string) (by_ : option string) : op Scim ScimMapping := λ s,
  let m := mkMapping id orgID directory group role by_ None (clock s) (clock s) in
  if existsb (λ e, String.eqb (gm_ID e) id || String.eqb (gm_Directory e) directory && String.eqb (gm_Group e) group) (mappings s) then None
  else Some (m, set_mappings (mappings s ++ [m]) s).
Definition UpdateScimGroupRoleMappingRole (id orgID role : string) (by_ : option string) : op Scim (option ScimMapping) := λ s,
  let set m := mkMapping (gm_ID m) (gm_OrgID m) (gm_Directory m) (gm_Group m) role (gm_CreatedBy m) by_ (gm_CreatedAt m) (clock s) in
  Some (set <$> GetScimGroupRoleMappingByID id orgID s,
        set_mappings (map (λ m, if is_mapping id orgID m then set m else m) (mappings s)) s).
Definition DeleteScimGroupRoleMapping (id orgID : string) : op Scim Z := λ s,
  Some (Z.of_nat (length (List.filter (is_mapping id orgID) (mappings s))),
        set_mappings (List.filter (λ m, negb (is_mapping id orgID m)) (mappings s)) s).

(** ** Wire primitives (verify.go) *)

Definition scimActor : string := "scim:webhook".
Definition scimResyncMaxMembers : nat := 5000.
Definition RoleRank (role : string) : option nat :=
  if String.eqb role "viewer" then Some 1 else if String.eqb role "editor" then Some 2 else if String.eqb role "admin" then Some 3 else None.
Definition isScimBuiltinRole (role : string) : bool := match RoleRank role with Some r => (0 <? r)%nat | None => false end.
Fixpoint best_role (groups : list string) (roles : string → option string) (best : string) (bestRank : nat) : string :=
  match groups with
  | [] => best
  | g :: groups =>
      match roles g with
      | None => best_role groups roles best bestRank
      | Some role =>
          (* An unknown role ranks below every other. *)
          match RoleRank role with
          | Some rank => if (bestRank <? rank)%nat then best_role groups roles role rank else best_role groups roles best bestRank
          | None => best_role groups roles best bestRank
          end
      end
  end.
Definition deriveScimRole (groups : list string) (roles : string → option string) (defaultRole : string) : string :=
  let best := best_role groups roles "" 0 in if String.eqb best "" then defaultRole else best.

Record scimEvent := mkEvent { ev_ID : string; ev_Event : string; ev_CreatedAt : string; ev_Data : obj }.
Definition scimStringField (data : obj) (key : string) : string := string_or_zero (obj_at data key).
Definition asScimEvent (raw : obj) : option scimEvent :=
  let id := scimStringField raw "id" in let type := scimStringField raw "event" in let createdAt := scimStringField raw "created_at" in
  match obj_at raw "data" with
  | AObj data => if String.eqb id "" || String.eqb type "" || String.eqb createdAt "" then None else Some (mkEvent id type createdAt data)
  | _ => None
  end.
Fixpoint primary_email (entries : list any) (first : string) : string :=
  match entries with
  | [] => first
  | AObj record :: entries =>
      let value := scimStringField record "value" in
      if String.eqb value "" then primary_email entries first
      else if bool_or_zero (obj_at record "primary") then value
      else primary_email entries (if String.eqb first "" then value else first)
  | _ :: entries => primary_email entries first
  end.
Definition scimPrimaryEmailFromArray (emails : any) : string :=
  match emails with AArr entries => primary_email entries "" | _ => "" end.
Definition scimPrimaryEmail (data : obj) : string :=
  let direct := scimStringField data "email" in
  if negb (String.eqb direct "") then direct
  else
    let fromArray := scimPrimaryEmailFromArray (obj_at data "emails") in
    if negb (String.eqb fromArray "") then fromArray
    else match obj_at data "custom_attributes" with AObj custom => scimPrimaryEmailFromArray (obj_at custom "emails") | _ => "" end.
Definition extractScimDirectoryID (e : scimEvent) : string :=
  let direct := scimStringField (ev_Data e) "directory_id" in
  if negb (String.eqb direct "") then direct
  else match obj_at (ev_Data e) "directory" with AObj directory => scimStringField directory "id" | _ => "" end.

Record scimResult := mkScimResult { sr_Processed : bool; sr_Action : string; sr_Reason : string }.
Definition scimProcessed (action : string) : scimResult := mkScimResult true action "".
Definition scimSkipped (reason : string) : scimResult := mkScimResult false "" reason.

(** The tables of lower case beyond ASCII of Go and of the database, the order of texts of the
    database, the process's time zone, and the configuration's URL parser and environment. *)
Section scim.
Context `{UnicodeTables} (lower sqlLower : string → string) (sqlLess : string → string → bool) (localOffset : instant → Z)
  (ParseURL : string → option BaseURL) (lookupEnv : string → option string).

Definition local (t : instant) : Time := mkTime t (localOffset t).
Definition lower_email (email : string) : string := ToLower lower (TrimSpace email).

(** ** Shared writes (groups.go) *)

Definition scimAudit (orgID action targetType targetID : string) (metadata : obj) : op Scim unit :=
  on_org (write_audit (mkAudit orgID scimActor action targetType targetID metadata)).
Definition eventType (e : scimEvent) : string * any := ("eventType", AStr (ev_Event e)).
(** A guard that turns an event away: the audit row is best effort. *)
Definition turn_away (orgID action targetType targetID : string) (metadata : obj) (reason : string) : prog Scim (answer scimResult) :=
  try! scimAudit orgID action targetType targetID metadata in Ret (Ok (scimSkipped reason)).
Definition malformed (d : ScimDirectory) (e : scimEvent) : prog Scim (answer scimResult) :=
  turn_away (di_OrgID d) "scim.webhook.malformed_payload" "scim_event" (ev_ID e) [eventType e] "malformed_payload".
Definition done_with (orgID action targetType targetID : string) (metadata : obj) (result : string) : prog Scim (answer scimResult) :=
  try! scimAudit orgID action targetType targetID metadata in Ret (Ok (scimProcessed result)).
Definition failed {A} : prog Scim (answer A) := Ret (Err DbError).
Definition find_member (orgID email : string) : op Scim (option Member) := query (λ s, FindScimMemberByEmail sqlLower orgID email (sc_org s)).

Definition text_field (data : obj) (key : string) : option string := text (scimStringField data key).
Definition upsertScimUserState (d : ScimDirectory) (user email : string) (e : scimEvent) (t : Time) (k : option unit → prog Scim (answer scimResult)) :
    prog Scim (answer scimResult) :=
  Fresh (λ id, Do (UpsertScimUserState id (di_OrgID d) (di_ID d) user email (text_field (ev_Data e) "first_name") (text_field (ev_Data e) "last_name")
                     (ev_ID e) (stored_time t)) k).
(** A later row of a group replaces an earlier one. *)
Definition role_map (rows : list ScimMapping) (group : string) : option string :=
  fold_left (λ found m, if String.eqb (gm_Group m) group then Some (gm_Role m) else found) rows None.
Definition resolveDerivedScimRole (d : ScimDirectory) (user : string) : prog Scim (answer string) :=
  do! groups := query (ListScimUserGroupIDs (di_OrgID d) (di_ID d) user) or failed in
  do! rows := query (ListScimGroupRoleMappings (di_OrgID d) (di_ID d)) or failed in
  Ret (Ok (deriveScimRole groups (role_map rows) (di_DefaultRole d))).
(** Without an inviter the row keeps its own. *)
Definition upsertScimMembership (orgID email role invitedBy : string) : prog Scim (answer unit) :=
  do! existing := find_member orgID email or failed in
  match existing with
  | Some m => do! _ := on_org (UpdateScimMembershipByEmail (mb_ID m) orgID email role (text invitedBy)) or failed in Ret (Ok tt)
  | None => Fresh (λ id, do! _ := on_org (InsertScimMembership id orgID email role (text invitedBy)) or failed in Ret (Ok tt))
  end.
(** The role and the membership that follow from the state of a user. *)
Definition provision (d : ScimDirectory) (user email : string) : prog Scim (answer string) :=
  call! role := resolveDerivedScimRole d user in
  match role with
  | Err e => Ret (Err e)
  | Ok role =>
      call! r := upsertScimMembership (di_OrgID d) email role scimActor in
      Ret (match r with Ok _ => Ok role | Err e => Err e end)
  end.
(** Domains of the configuration, trimmed and in lower case; a configuration that cannot be read
    restricts nothing. *)
Fixpoint org_prog {A} (p : prog Org A) : prog Scim A :=
  match p with
  | Ret a => Ret a
  | Do o k => Do (on_org o) (λ r, org_prog (k r))
  | Fresh k => Fresh (λ id, org_prog (k id))
  end.
Definition scimAllowedDomains (orgID : string) : prog Scim (list string) :=
  call! raw := org_prog (LoadValue ParseURL lookupEnv orgID "auth.allowedEmailDomains") in
  Ret (List.filter (λ t, negb (String.eqb t "")) (map (λ entry, lower_email entry) (Split (string_or_zero raw) ","))).
(** What follows the last [@]. *)
Fixpoint last_at (l : list ascii) : option (list ascii) :=
  match l with
  | [] => None
  | c :: l => match last_at l with Some r => Some r | None => if Ascii.eqb c "@" then Some l else None end
  end.
Definition email_domain (email : string) : string :=
  match last_at (bytes email) with Some l => ToLower lower (of_bytes l) | None => "" end.

(** ** Events of users (dispatch.go) *)

Definition not_newer (u : ScimUserState) (t : Time) : option instant :=
  match us_LastEventTimestamp u with Some last => if (last <? tm_At t)%Z then None else Some last | None => None end.
Definition timestamps (t : Time) (last : instant) : obj :=
  [("incomingTimestamp", AStr (FormatTime t)); ("lastEventTimestamp", AStr (FormatTime (local last)))].
Definition out_of_order (d : ScimDirectory) (e : scimEvent) (user : string) (t : Time) (last : instant) : prog Scim (answer scimResult) :=
  turn_away (di_OrgID d) "scim.webhook.out_of_order" "scim_event" (ev_ID e)
    ([eventType e; ("providerUserId", AStr user)] ++ timestamps t last) "out_of_order".
Definition directory_event (d : ScimDirectory) (e : scimEvent) : obj := [("scimDirectoryId", AStr (di_ID d)); ("eventId", AStr (ev_ID e))].
Definition opt_text (t : option string) : any := match t with Some t => AStr t | None => ANil end.

(** After the guards: the state of the user, then its role and its membership. *)
Definition admit_user (d : ScimDirectory) (e : scimEvent) (user email : string) (t : Time) (metadata : string → obj) (action result : string) :
    prog Scim (answer scimResult) :=
  upsertScimUserState d user email e t (λ r, match r with
    | None => failed
    | Some _ =>
        call! role := provision d user email in
        match role with
        | Err x => Ret (Err x)
        | Ok role => done_with (di_OrgID d) action "scim_user" user (metadata role) result
        end
    end).
Definition create_member (d : ScimDirectory) (e : scimEvent) (user email : string) (existing : option ScimUserState) (t : Time) :
    prog Scim (answer scimResult) :=
  let email := lower_email email in
  let wasReactivation := match existing with Some u => negb (us_Active u) | None => false end in
  let grant := admit_user d e user email t (λ role, [("email", AStr email); ("role", AStr role)] ++ directory_event d e ++
    [("reactivated", ABool wasReactivation)]) "scim.user.provisioned" "provisioned" in
  do! member := find_member (di_OrgID d) email or failed in
  match member with
  | Some m =>
      if negb (String.eqb (default "" (mb_InvitedBy m)) scimActor) then
        turn_away (di_OrgID d) "scim.user.provision_collision" "scim_user" user
          ([("email", AStr email); ("conflictingRole", AStr (mb_Role m)); ("conflictingInvitedBy", opt_text (mb_InvitedBy m))] ++ directory_event d e)
          "provision_collision"
      else grant
  | None => grant
  end.
Definition scimUserCreated (d : ScimDirectory) (e : scimEvent) (t : Time) : prog Scim (answer scimResult) :=
  let orgID := di_OrgID d in
  let user := scimStringField (ev_Data e) "id" in
  let email := scimPrimaryEmail (ev_Data e) in
  if String.eqb user "" || String.eqb email "" then
    turn_away orgID "scim.webhook.malformed_payload" "scim_event" (ev_ID e)
      [eventType e; ("missingFields", AStr (if String.eqb user "" then "id" else "email"))] "malformed_payload"
  else
    do! existing := query (GetScimUserState (di_ID d) user) or failed in
    match existing ≫= (λ u, (λ last, (u, last)) <$> not_newer u t) with
    | Some (u, last) =>
        if us_Active u then out_of_order d e user t last
        else turn_away orgID "scim.user.resurrection_blocked" "scim_user" user
               ([("email", AStr email)] ++ directory_event d e ++ timestamps t last) "resurrection_blocked"
    | None =>
        call! allow := scimAllowedDomains orgID in
        let domain := email_domain email in
        if negb (bool_decide (allow = [])) && (String.eqb domain "" || negb (in_list allow domain)) then
          turn_away orgID "scim.user.provision_rejected" "scim_user" user
            [("email", AStr email); ("domain", AStr domain); ("scimDirectoryId", AStr (di_ID d)); ("reason", AStr "domain_not_allowed");
             ("allowedDomains", strings allow)] "domain_not_allowed"
        else create_member d e user email existing t
    end.

Definition rekey_collision (d : ScimDirectory) (e : scimEvent) (user old new : string) (m : Member) : prog Scim (answer scimResult) :=
  turn_away (di_OrgID d) "scim.user.rekey_collision" "scim_user" user
    ([("fromEmail", AStr old); ("toEmail", AStr new); ("conflictingRole", AStr (mb_Role m)); ("conflictingInvitedBy", opt_text (mb_InvitedBy m))] ++
     directory_event d e) "rekey_collision".
Definition update_member (d : ScimDirectory) (e : scimEvent) (user email : string) (u : ScimUserState) (t : Time) : prog Scim (answer scimResult) :=
  let new := lower_email email in
  let old := ToLower lower (us_Email u) in
  let grant := admit_user d e user new t (λ role, [("email", AStr new); ("role", AStr role)] ++ directory_event d e ++
    (if String.eqb old new then [] else [("previousEmail", AStr old)])) "scim.user.updated" "updated" in
  if String.eqb new old then grant
  else
    do! target := find_member (di_OrgID d) new or failed in
    match target with
    | Some m => rekey_collision d e user old new m
    | None => do! _ := on_org (DeleteScimMembershipByEmail (di_OrgID d) old scimActor) or failed in grant
    end.
Definition scimUserUpdated (d : ScimDirectory) (e : scimEvent) (t : Time) : prog Scim (answer scimResult) :=
  let user := scimStringField (ev_Data e) "id" in
  let email := scimPrimaryEmail (ev_Data e) in
  if String.eqb user "" || String.eqb email "" then malformed d e
  else
    do! existing := query (GetScimUserState (di_ID d) user) or failed in
    match existing with
    | None => scimUserCreated d e t
    | Some u =>
        match not_newer u t with
        | Some last => out_of_order d e user t last
        | None =>
            if negb (us_Active u) then
              turn_away (di_OrgID d) "scim.user.resurrection_blocked" "scim_user" user
                ([("email", AStr email)] ++ directory_event d e ++ [("reason", AStr "update_while_inactive")]) "resurrection_blocked"
            else update_member d e user email u t
        end
    end.

Definition scimUserDeleted (d : ScimDirectory) (e : scimEvent) (t : Time) : prog Scim (answer scimResult) :=
  let orgID := di_OrgID d in
  let user := scimStringField (ev_Data e) "id" in
  if String.eqb user "" then malformed d e
  else
    do! existing := query (GetScimUserState (di_ID d) user) or failed in
    match existing with
    | None =>
        do! _ := DeleteScimUserGroupsForUser orgID (di_ID d) user or failed in
        turn_away orgID "scim.webhook.unknown_user" "scim_event" (ev_ID e) [eventType e; ("providerUserId", AStr user)] "unknown_user"
    | Some u =>
        match not_newer u t with
        | Some last => out_of_order d e user t last
        | None =>
            do! _ := on_org (DeleteScimMembershipByEmail orgID (ToLower lower (us_Email u)) scimActor) or failed in
            do! _ := DeleteScimUserGroupsForUser orgID (di_ID d) user or failed in
            do! _ := MarkScimUserInactive (us_ID u) (ev_ID e) (stored_time t) or failed in
            done_with orgID "scim.user.deprovisioned" "scim_user" user ([("email", AStr (us_Email u))] ++ directory_event d e) "deprovisioned"
        end
    end.

(** ** Events of groups (groups.go) *)

Definition recomputeScimMemberRole (d : ScimDirectory) (e : scimEvent) (user group change : string) : prog Scim (answer unit) :=
  let metadata := [eventType e; ("change", AStr change); ("providerGroupId", AStr group); ("scimDirectoryId", AStr (di_ID d))] in
  let changed more := scimAudit (di_OrgID d) "scim.group.membership_changed" "scim_user" user (metadata ++ more) in
  do! state := query (GetScimUserState (di_ID d) user) or failed in
  match state with
  | Some u =>
      if negb (us_Active u) then try! changed [("roleRecomputed", ABool false)] in Ret (Ok tt)
      else
        let email := ToLower lower (us_Email u) in
        call! role := provision d user email in
        match role with
        | Err x => Ret (Err x)
        | Ok role => try! changed [("email", AStr email); ("derivedRole", AStr role); ("roleRecomputed", ABool true)] in Ret (Ok tt)
        end
  | None => try! changed [("roleRecomputed", ABool false)] in Ret (Ok tt)
  end.
Fixpoint recompute_all (d : ScimDirectory) (e : scimEvent) (group : string) (users : list string) : prog Scim (answer unit) :=
  match users with
  | [] => Ret (Ok tt)
  | user :: users =>
      call! r := recomputeScimMemberRole d e user group "removed" in
      match r with Err x => Ret (Err x) | Ok _ => recompute_all d e group users end
  end.
Definition scimGroupUpsert (d : ScimDirectory) (e : scimEvent) : prog Scim (answer scimResult) :=
  let group := scimStringField (ev_Data e) "id" in
  let name := scimStringField (ev_Data e) "name" in
  if String.eqb group "" || String.eqb name "" then malformed d e
  else
    Fresh (λ id,
      do! _ := UpsertScimGroupState id (di_OrgID d) (di_ID d) group name or failed in
      done_with (di_OrgID d) "scim.group.synced" "scim_group" group
        [eventType e; ("name", AStr name); ("scimDirectoryId", AStr (di_ID d))] "group_synced").
Definition forget_group (d : ScimDirectory) (e : scimEvent) (group : string) : prog Scim (answer scimResult) :=
  (* The users of the group are read before its rows go. *)
  do! affected := query (ListScimUserIDsForGroup (di_OrgID d) (di_ID d) group) or failed in
  do! _ := DeleteScimUserGroupsForGroup (di_OrgID d) (di_ID d) group or failed in
  call! r := recompute_all d e group affected in
  match r with
  | Err x => Ret (Err x)
  | Ok _ => done_with (di_OrgID d) "scim.group.synced" "scim_group" group
              [eventType e; ("deleted", ABool true); ("scimDirectoryId", AStr (di_ID d))] "group_deleted"
  end.
Definition scimGroupDeleted (d : ScimDirectory) (e : scimEvent) : prog Scim (answer scimResult) :=
  let group := scimStringField (ev_Data e) "id" in
  if String.eqb group "" then malformed d e
  else
    do! existing := query (GetScimGroupState (di_ID d) group) or failed in
    match existing with
    | Some g => do! _ := DeleteScimGroupState (gs_ID g) or failed in forget_group d e group
    | None => forget_group d e group
    end.
Definition membership_fields (d : ScimDirectory) (e : scimEvent) (k : string → string → prog Scim (answer scimResult)) : prog Scim (answer scimResult) :=
  let user := scimStringField (ev_Data e) "user_id" in
  let group := scimStringField (ev_Data e) "directory_group_id" in
  if String.eqb user "" || String.eqb group "" then malformed d e else k user group.
Definition recompute_then (d : ScimDirectory) (e : scimEvent) (user group change result : string) : prog Scim (answer scimResult) :=
  call! r := recomputeScimMemberRole d e user group change in
  Ret (match r with Err x => Err x | Ok _ => Ok (scimProcessed result) end).
Definition scimGroupUserAdded (d : ScimDirectory) (e : scimEvent) : prog Scim (answer scimResult) :=
  membership_fields d e (λ user group, Fresh (λ id,
    do! _ := AddScimUserGroup id (di_OrgID d) (di_ID d) user group or failed in
    recompute_then d e user group "added" "group_membership_added")).
Definition scimGroupUserRemoved (d : ScimDirectory) (e : scimEvent) : prog Scim (answer scimResult) :=
  membership_fields d e (λ user group,
    do! _ := RemoveScimUserGroup (di_OrgID d) (di_ID d) user group or failed in
    recompute_then d e user group "removed" "group_membership_removed").

(** ** Dispatch *)

Definition dispatchScimEvent (d : ScimDirectory) (e : scimEvent) (t : Time) : prog Scim (answer scimResult) :=
  if String.eqb (ev_Event e) "dsync.user.created" then scimUserCreated d e t
  else if String.eqb (ev_Event e) "dsync.user.updated" then scimUserUpdated d e t
  else if String.eqb (ev_Event e) "dsync.user.deleted" then scimUserDeleted d e t
  else if in_list ["dsync.group.created"; "dsync.group.updated"] (ev_Event e) then scimGroupUpsert d e
  else if String.eqb (ev_Event e) "dsync.group.deleted" then scimGroupDeleted d e
  else if String.eqb (ev_Event e) "dsync.group.user_added" then scimGroupUserAdded d e
  else if String.eqb (ev_Event e) "dsync.group.user_removed" then scimGroupUserRemoved d e
  else turn_away (di_OrgID d) "scim.webhook.unknown_event" "scim_event" (ev_ID e) [eventType e] "unknown_event".
(** The claim is given back when the dispatch fails. *)
Definition handleScimEvent (d : ScimDirectory) (e : scimEvent) : prog Scim (answer scimResult) :=
  do! fresh := RecordScimProcessedEvent (ev_ID e) (di_OrgID d) (di_ID d) (ev_Event e) or failed in
  if (fresh =? 0)%Z then
    turn_away (di_OrgID d) "scim.webhook.event_replayed" "scim_event" (ev_ID e) [eventType e; ("scimDirectoryId", AStr (di_ID d))] "event_replayed"
  else
    match parseScimTimestamp (ev_CreatedAt e) with
    | None => turn_away (di_OrgID d) "scim.webhook.malformed_timestamp" "scim_event" (ev_ID e) [eventType e] "malformed_timestamp"
    | Some t =>
        call! r := dispatchScimEvent d e t in
        match r with
        | Err x => try! DeleteScimProcessedEvent (ev_ID e) (di_OrgID d) in Ret (Err x)
        | Ok result =>
            if sr_Processed result then do! _ := RecordScimDirectorySync (di_ID d) (di_OrgID d) or failed in Ret (Ok result)
            else Ret (Ok result)
        end
    end.

(** ** The webhook (webhook.go)

    A body that could not be read comes with the answer of the reader; the time is in seconds. *)
Definition webhook_answer (r : scimResult) : opResult :=
  opOK (AObj ([("ok", ABool true); ("processed", ABool (sr_Processed r))] ++
    (if String.eqb (sr_Action r) "" then [] else [("action", AStr (sr_Action r))]) ++
    (if String.eqb (sr_Reason r) "" then [] else [("reason", AStr (sr_Reason r))]))).
(** Unknown and detached directories are acknowledged. *)
Definition unbound (orgID action : string) (e : scimEvent) (more : obj) (reason : string) : prog Scim opResult :=
  try! scimAudit orgID action "scim_event" (ev_ID e) (eventType e :: more) in Ret (webhook_answer (scimSkipped reason)).
Definition bind_event (e : scimEvent) : prog Scim opResult :=
  let directoryID := extractScimDirectoryID e in
  if String.eqb directoryID "" then unbound "default" "scim.webhook.missing_directory_id" e [] "missing_directory_id"
  else
    do! directory := query (GetScimDirectoryByProviderDirectoryID directoryID) or Ret internal in
    match directory with
    | None => unbound "default" "scim.webhook.unknown_directory" e [("directoryId", AStr directoryID)] "unknown_directory"
    | Some d =>
        if String.eqb (di_Status d) "revoked" then
          unbound (di_OrgID d) "scim.webhook.directory_revoked" e [("scimDirectoryId", AStr (di_ID d))] "directory_revoked"
        else
          call! r := handleScimEvent d e in
          Ret (match r with Ok result => webhook_answer result | Err _ => internal end)
    end.
Definition scimWebhookHandler (body : res opResult string) (header secret : string) (t : Z) : prog Scim opResult :=
  match body with
  | Err answered => Ret answered
  | Ok rawBody =>
      let '(valid, reason) := verifyWorkOsSignature lower header rawBody secret t in
      if negb valid then
        try! scimAudit "default" "scim.webhook.signature_invalid" "scim_event" "" [("reason", AStr reason)] in
        Ret (opError 401 "scim_invalid_signature" "invalid signature")
      else
        let invalid := Ret (opError 400 "scim_invalid_event_payload" "invalid event payload") in
        match Unmarshal rawBody with
        | Some (AObj parsed) => match asScimEvent parsed with Some e => bind_event e | None => invalid end
        | Some ANil => invalid
        | _ => Ret (opError 400 "scim_invalid_json" "invalid JSON")
        end
  end.

(** ** Administration (routes.go) *)

Definition time_json (t : instant) : any :=
  let there := (t + localOffset t * second_ns)%Z in
  let digits := drop_zeros (pad 9 (there mod second_ns)) in
  AStr (of_bytes (date_time there ++ (match digits with [] => [] | _ => "."%char :: digits end) ++ zone_text (localOffset t))).
Definition scimDirectoryView (d : ScimDirectory) : any :=
  AObj [("id", AStr (di_ID d)); ("orgId", AStr (di_OrgID d)); ("providerDirectoryId", AStr (di_ProviderDirectoryID d));
        ("directoryType", opt_text (di_DirectoryType d)); ("defaultRole", AStr (di_DefaultRole d)); ("status", AStr (di_Status d));
        ("lastSyncedAt", match di_LastSyncedAt d with Some t => time_json t | None => ANil end); ("createdAt", time_json (di_CreatedAt d))].
Definition scimGroupView (g : ScimGroupState) : any :=
  AObj [("id", AStr (gs_ID g)); ("providerGroupId", AStr (gs_Group g)); ("name", AStr (gs_Name g)); ("lastSyncedAt", time_json (gs_LastSyncedAt g))].
Definition scimMappingView (m : ScimMapping) : any :=
  AObj [("id", AStr (gm_ID m)); ("providerGroupId", AStr (gm_Group m)); ("role", AStr (gm_Role m)); ("scimDirectoryId", AStr (gm_Directory m));
        ("createdBy", opt_text (gm_CreatedBy m)); ("updatedBy", opt_text (gm_UpdatedBy m)); ("createdAt", time_json (gm_CreatedAt m));
        ("updatedAt", time_json (gm_UpdatedAt m))].
Definition audited (c : AuthContext) (action targetType targetID : string) (metadata : obj) (answer : opResult) : prog Scim opResult :=
  try! on_org (write_audit (audit_row c action targetType targetID metadata)) in Ret answer.
Definition listed (name : string) (views : list any) : opResult := opOK (AObj [(name, AArr views)]).

Definition getOrgScimDirectoriesCore (c : AuthContext) : prog Scim opResult :=
  do! rows := query (ListScimDirectories (cx_OrgID c)) or Ret internal in Ret (listed "directories" (map scimDirectoryView rows)).
Definition role_invalid (code subject : string) : opResult := opError 400 code (subject +:+ " must be viewer | editor | admin").
Definition directory_not_found : opResult := opError 404 "scim_directory_not_found" "SCIM directory not found".
(** The body is the directory of the provider, its type and the role; [unique] says whether a
    refused insertion was a duplicate. *)
Definition postOrgScimDirectoriesCore (c : AuthContext) (body : option (string * string * string)) (unique : bool) : prog Scim opResult :=
  match body with
  | None => Ret (opError 400 "scim_invalid_body" "invalid body")
  | Some (rawID, directoryType, rawRole) =>
      let providerID := TrimSpace rawID in
      if String.eqb providerID "" then
        Ret (opError 400 "scim_provider_directory_id_required" ("providerDirectoryId is required (e.g. directory_" +:+ of_bytes [chr 226; chr 128; chr 166] +:+ ")"))
      else if negb (String.eqb rawRole "") && negb (isScimBuiltinRole rawRole) then Ret (role_invalid "scim_default_role_invalid" "defaultRole")
      else
        let defaultRole := if String.eqb rawRole "" then "viewer" else rawRole in
        do! attached := query (GetScimDirectoryByOrgID (cx_OrgID c)) or Ret internal in
        match attached with
        | Some _ => Ret (opError 409 "scim_directory_already_attached" "SCIM directory already attached for this org")
        | None =>
            Fresh (λ id,
              do! row := InsertScimDirectory id (cx_OrgID c) providerID (text directoryType) defaultRole
                or Ret (if unique then opError 409 "scim_directory_already_attached" "SCIM directory already attached" else internal) in
              audited c "org.scim.directory_attached" "scim_directory" (di_ID row)
                [("providerDirectoryId", AStr providerID); ("directoryType", opt_text (di_DirectoryType row)); ("defaultRole", AStr defaultRole)]
                (opOK (AObj [("directory", scimDirectoryView row)])))
        end
  end.
(** The body is the role and the status. *)
Definition updateOrgScimDirectoryCore (c : AuthContext) (id : string) (body : option (option string * option string)) : prog Scim opResult :=
  match body with
  | None => Ret (opError 400 "scim_invalid_body" "invalid body")
  | Some (_, Some _) => Ret (opError 400 "scim_directory_status_immutable" "use DELETE /org/scim/directories/{id} to revoke a directory")
  | Some (None, None) => Ret (opError 400 "scim_no_updatable_fields" "no updatable fields provided")
  | Some (Some role, None) =>
      if negb (isScimBuiltinRole role) then Ret (role_invalid "scim_default_role_invalid" "defaultRole")
      else
        do! updated := UpdateScimDirectoryDefaultRole id (cx_OrgID c) role or Ret directory_not_found in
        match updated with
        | None => Ret directory_not_found
        | Some row =>
            audited c "org.scim.directory_updated" "scim_directory" (di_ID row) [("defaultRole", AStr role)]
              (opOK (AObj [("directory", scimDirectoryView row)]))
        end
  end.
Definition deleteOrgScimDirectoriesCore (c : AuthContext) (id : string) : prog Scim opResult :=
  do! rows := RevokeScimDirectory id (cx_OrgID c) or Ret internal in
  if (rows =? 0)%Z then Ret directory_not_found
  else audited c "org.scim.directory_revoked" "scim_directory" id [] ok_true.

Definition ListScimGroupState (orgID directory : string) (limit : nat) (s : Scim) : list ScimGroupState :=
  take limit (stable_sort (λ a b, sqlLess (gs_Name a) (gs_Name b))
    (List.filter (λ g, String.eqb (gs_OrgID g) orgID && String.eqb (gs_Directory g) directory) (group_states s))).
Definition getOrgScimGroupsCore (c : AuthContext) (rawLimit : string) : prog Scim opResult :=
  do! directory := query (GetScimDirectoryByOrgID (cx_OrgID c)) or Ret internal in
  match directory with
  | None => Ret (listed "groups" [])
  | Some d =>
      let limit :=
        match Atoi rawLimit with
        | Some parsed => if (0 <? parsed)%Z then Z.to_nat (Z.min parsed 200) else 100
        | None => 100
        end in
      do! rows := query (ListScimGroupState (cx_OrgID c) (di_ID d) limit) or Ret internal in Ret (listed "groups" (map scimGroupView rows))
  end.
Definition getOrgScimGroupRoleMappingsCore (c : AuthContext) : prog Scim opResult :=
  do! directory := query (GetScimDirectoryByOrgID (cx_OrgID c)) or Ret internal in
  match directory with
  | None => Ret (listed "mappings" [])
  | Some d => do! rows := query (ListScimGroupRoleMappings (cx_OrgID c) (di_ID d)) or Ret internal in Ret (listed "mappings" (map scimMappingView rows))
  end.
Definition mapping_exists : opResult := opError 409 "scim_group_role_mapping_exists" "a mapping for this group already exists; update it instead".
Definition unknown_group : opResult := opError 404 "scim_unknown_provider_group_id" "unknown providerGroupId for this directory".
(** The body is the group and the role. *)
Definition postOrgScimGroupRoleMappingsCore (c : AuthContext) (body : option (string * string)) (unique : bool) : prog Scim opResult :=
  match body with
  | None => Ret (opError 400 "scim_invalid_body" "invalid body")
  | Some (rawGroup, role) =>
      do! attached := query (GetScimDirectoryByOrgID (cx_OrgID c)) or Ret internal in
      match attached with
      | None => Ret (opError 409 "scim_directory_required_for_mappings" "attach a SCIM directory before configuring group role mappings")
      | Some d =>
          let group := TrimSpace rawGroup in
          if String.eqb group "" then
            Ret (opError 400 "scim_provider_group_id_required" ("providerGroupId is required (e.g. directory_group_" +:+ of_bytes [chr 226; chr 128; chr 166] +:+ ")"))
          else if negb (isScimBuiltinRole role) then Ret (role_invalid "scim_role_invalid" "role")
          else
            do! known := query (GetScimGroupState (di_ID d) group) or Ret unknown_group in
            match known with
            | None => Ret unknown_group
            | Some _ =>
                (* A failed read counts as no mapping. *)
                Do (query (FindScimGroupRoleMappingByGroup (cx_OrgID c) (di_ID d) group)) (λ found,
                  match found with
                  | Some (Some _) => Ret mapping_exists
                  | _ =>
                      Fresh (λ id,
                        do! row := InsertScimGroupRoleMapping id (cx_OrgID c) (di_ID d) group role (text (cx_UserID c))
                          or Ret (if unique then mapping_exists else internal) in
                        audited c "org.scim.group_role_mapping_created" "scim_group_role_mapping" (gm_ID row)
                          [("providerGroupId", AStr group); ("role", AStr role); ("scimDirectoryId", AStr (di_ID d))]
                          (opOK (AObj [("mapping", scimMappingView row)])))
                  end)
            end
      end
  end.
Definition mapping_not_found : opResult := opError 404 "scim_group_role_mapping_not_found" "group role mapping not found".
Definition updateOrgScimGroupRoleMappingCore (c : AuthContext) (id : string) (body : option string) : prog Scim opResult :=
  match body with
  | None => Ret (role_invalid "scim_role_invalid" "role")
  | Some role =>
      if negb (isScimBuiltinRole role) then Ret (role_invalid "scim_role_invalid" "role")
      else
        do! found := query (GetScimGroupRoleMappingByID id (cx_OrgID c)) or Ret mapping_not_found in
        match found with
        | None => Ret mapping_not_found
        | Some m =>
            do! updated := UpdateScimGroupRoleMappingRole (gm_ID m) (cx_OrgID c) role (text (cx_UserID c)) or Ret mapping_not_found in
            match updated with
            | None => Ret mapping_not_found
            | Some row =>
                audited c "org.scim.group_role_mapping_updated" "scim_group_role_mapping" (gm_ID m)
                  [("providerGroupId", AStr (gm_Group m)); ("before", AStr (gm_Role m)); ("after", AStr role); ("scimDirectoryId", AStr (gm_Directory m))]
                  (opOK (AObj [("mapping", scimMappingView row)]))
            end
        end
  end.
Definition deleteOrgScimGroupRoleMappingsCore (c : AuthContext) (id : string) : prog Scim opResult :=
  do! found := query (GetScimGroupRoleMappingByID id (cx_OrgID c)) or Ret mapping_not_found in
  match found with
  | None => Ret mapping_not_found
  | Some m =>
      do! _ := DeleteScimGroupRoleMapping (gm_ID m) (cx_OrgID c) or Ret internal in
      audited c "org.scim.group_role_mapping_deleted" "scim_group_role_mapping" (gm_ID m)
        [("providerGroupId", AStr (gm_Group m)); ("role", AStr (gm_Role m)); ("scimDirectoryId", AStr (gm_Directory m))] ok_true
  end.

(** ** Re-synchronisation of roles *)

Definition ListActiveScimUserState (orgID directory : string) (limit : nat) (s : Scim) : list (string * string) :=
  take limit (stable_sort (λ a b, sqlLess a.2 b.2)
    (map (λ u, (us_User u, us_Email u))
      (List.filter (λ u, String.eqb (us_OrgID u) orgID && String.eqb (us_Directory u) directory && us_Active u) (user_states s)))).
Record Resync := mkResync { rs_Resynced : nat; rs_Changed : nat; rs_Skipped : nat; rs_Changes : list any }.
Definition skip_member (r : Resync) : Resync := mkResync (rs_Resynced r) (rs_Changed r) (S (rs_Skipped r)) (rs_Changes r).
Definition count_member (user email : string) (from : option string) (role : string) (r : Resync) : Resync :=
  if bool_decide (from = Some role) then mkResync (S (rs_Resynced r)) (rs_Changed r) (rs_Skipped r) (rs_Changes r)
  else mkResync (S (rs_Resynced r)) (S (rs_Changed r)) (rs_Skipped r)
         (rs_Changes r ++ [AObj [("providerUserId", AStr user); ("email", AStr email); ("from", opt_text from); ("to", AStr role)]]).
(** A member whose statements fail is skipped; the inviter of its row is kept. *)
Definition resync_member (d : ScimDirectory) (roles : string → option string) (user rawEmail : string) (r : Resync) : prog Scim Resync :=
  let email := ToLower lower rawEmail in
  do! groups := query (ListScimUserGroupIDs (di_OrgID d) (di_ID d) user) or Ret (skip_member r) in
  let role := deriveScimRole groups roles (di_DefaultRole d) in
  do! current := find_member (di_OrgID d) email or Ret (skip_member r) in
  call! written := upsertScimMembership (di_OrgID d) email role "" in
  Ret (match written with Ok _ => count_member user email (mb_Role <$> current) role r | Err _ => skip_member r end).
Fixpoint resync_all (d : ScimDirectory) (roles : string → option string) (members : list (string * string)) (r : Resync) : prog Scim Resync :=
  match members with
  | [] => Ret r
  | (user, email) :: members => call! r := resync_member d roles user email r in resync_all d roles members r
  end.
Definition resyncScimMemberRoles (d : ScimDirectory) : prog Scim (answer (Resync * bool)) :=
  do! fetched := query (ListActiveScimUserState (di_OrgID d) (di_ID d) (S scimResyncMaxMembers)) or failed in
  do! rows := query (ListScimGroupRoleMappings (di_OrgID d) (di_ID d)) or failed in
  call! r := resync_all d (role_map rows) (take scimResyncMaxMembers fetched) (mkResync 0 0 0 []) in
  Ret (Ok (r, (scimResyncMaxMembers <? length fetched)%nat)).
Definition count (n : nat) : any := AInt KInt (Z.of_nat n).
Definition postOrgScimResyncCore (c : AuthContext) : prog Scim opResult :=
  do! attached := query (GetScimDirectoryByOrgID (cx_OrgID c)) or Ret internal in
  match attached with
  | None => Ret (opError 409 "scim_directory_required_for_resync" "attach a SCIM directory before re-syncing roles")
  | Some d =>
      call! result := resyncScimMemberRoles d in
      match result with
      | Err _ => Ret internal
      | Ok (r, capped) =>
          let totals := [("membersResynced", count (rs_Resynced r)); ("membersChanged", count (rs_Changed r)); ("skipped", count (rs_Skipped r)); ("capped", ABool capped)] in
          audited c "org.scim.resynced" "scim_directory" (di_ID d) (totals ++ [("scimDirectoryId", AStr (di_ID d))])
            (opOK (AObj (totals ++ [("changes", AArr (rs_Changes r))])))
      end
  end.
End scim.
