(* ===== verification/ScimFacts.v ===== *)
(** What the synchronisation of directories guarantees: the events of a directory stay within its
    organisation and within the built-in roles, late and repeated events change nothing, and
    where deprovisioning and redelivery fall short. *)
From S2P Require Import Prelude GoStrings GoFloat GoAny GoInt Calendar Json JsonTree Graph Inputs RecoveryContract Schedule Token Process Permissions OrgTables Authz OrgRoutes OrgConfig Scim OrgFacts.
Local Open Scope string_scope.
Local Open Scope list_scope.

(** * What an event may change *)

(** ** The derived role *)

Lemma RoleRank_builtin role rank : RoleRank role = Some rank → isScimBuiltinRole role = true ∧ (1 ≤ rank)%nat.
Proof. unfold isScimBuiltinRole. intros Hr. rewrite Hr. unfold RoleRank in Hr. repeat case_match; simplify_eq; split; (done || lia). Qed.
(** The best so far has the rank [bestRank], or is empty with the rank 0. *)
Lemma best_role_spec groups roles best bestRank : (best = "" ∧ bestRank = 0%nat ∨ RoleRank best = Some bestRank) →
  let r := best_role groups roles best bestRank in
  (∃ rank, (r = "" ∧ rank = 0%nat ∨ RoleRank r = Some rank) ∧ (bestRank ≤ rank)%nat ∧
     ∀ g role n, g ∈ groups → roles g = Some role → RoleRank role = Some n → (n ≤ rank)%nat) ∧
  (r = best ∨ ∃ g, g ∈ groups ∧ roles g = Some r).
Proof.
  revert best bestRank. induction groups as [|g groups IH]; intros best bestRank Hb.
  - split; [|by left]. exists bestRank. split_and!; [done|done|]. by intros ??? ?%elem_of_nil.
  - cbn zeta. assert (∀ b n, (b = "" ∧ n = 0%nat ∨ RoleRank b = Some n) → (bestRank ≤ n)%nat → (b = best ∨ roles g = Some b) →
      (∀ role k, roles g = Some role → RoleRank role = Some k → (k ≤ n)%nat) →
      (∃ rank, (best_role groups roles b n = "" ∧ rank = 0%nat ∨ RoleRank (best_role groups roles b n) = Some rank) ∧ (bestRank ≤ rank)%nat ∧
        ∀ g' role k, g' ∈ g :: groups → roles g' = Some role → RoleRank role = Some k → (k ≤ rank)%nat) ∧
      (best_role groups roles b n = best ∨ ∃ g', g' ∈ g :: groups ∧ roles g' = Some (best_role groups roles b n))) as Hstep.
    { intros b n Hbn Hle Hfrom Hg. destruct (IH b n Hbn) as [(rank & Hr & Hn & Hall) Hr2]. split.
      - exists rank. split_and!; [done|lia|]. intros g' role k [->|Hin]%elem_of_cons Hrole Hk; [specialize (Hg _ _ Hrole Hk); lia|by eapply Hall].
      - destruct Hr2 as [Hr2|(g' & Hin & Hg')].
        + rewrite Hr2. destruct Hfrom as [->|Hfrom]; [by left|]. right. exists g. by rewrite elem_of_cons; auto.
        + right. exists g'. by rewrite elem_of_cons; auto. }
    cbn [best_role]. destruct (roles g) as [role|] eqn:Hg; [|apply Hstep; auto; congruence].
    destruct (RoleRank role) as [rank|] eqn:Hrank; [|apply Hstep; auto; congruence].
    destruct (Nat.ltb_spec bestRank rank); apply Hstep; auto; try lia; intros ? ? [= <-]; rewrite Hrank; intros [= <-]; lia.
Qed.
(** The highest role among the groups of a user, or the directory's default. *)
Lemma deriveScimRole_spec groups roles defaultRole :
  let r := deriveScimRole groups roles defaultRole in
  (r = defaultRole ∧ (∀ g role, g ∈ groups → roles g = Some role → isScimBuiltinRole role = false)) ∨
  (∃ rank, RoleRank r = Some rank ∧ (∃ g, g ∈ groups ∧ roles g = Some r) ∧
     ∀ g role n, g ∈ groups → roles g = Some role → RoleRank role = Some n → (n ≤ rank)%nat).
Proof.
  cbn zeta. unfold deriveScimRole. destruct (best_role_spec groups roles "" 0 (or_introl (conj eq_refl eq_refl))) as [(rank & Hr & _ & Hall) Hfrom].
  destruct (String.eqb_spec (best_role groups roles "" 0) "") as [He|Hne].
  - left. split; [done|]. intros g role Hg Hrole. rewrite He in Hr. destruct Hr as [[_ ->]|Hr]; [|done].
    unfold isScimBuiltinRole. destruct (RoleRank role) as [n|] eqn:Hn; [|done]. specialize (Hall _ _ _ Hg Hrole Hn). apply RoleRank_builtin in Hn. lia.
  - right. destruct Hr as [[? _]|Hr]; [done|]. exists rank. split_and!; [done| |done]. by destruct Hfrom as [?|?].
Qed.
Lemma deriveScimRole_builtin groups roles defaultRole : isScimBuiltinRole defaultRole = true → isScimBuiltinRole (deriveScimRole groups roles defaultRole) = true.
Proof. intros Hd. destruct (deriveScimRole_spec groups roles defaultRole) as [[-> _]|(rank & Hr & _)]; [done|]. by apply RoleRank_builtin in Hr as [? _]. Qed.

(** ** The statements of an event *)

Inductive scim_write (d : ScimDirectory) : ∀ X, op Scim X → Prop :=
| w_audit a : scim_write d unit (on_org (write_audit a))
| w_claim id type : scim_write d Z (RecordScimProcessedEvent id (di_OrgID d) (di_ID d) type)
| w_release id : scim_write d unit (DeleteScimProcessedEvent id (di_OrgID d))
| w_sync : scim_write d unit (RecordScimDirectorySync (di_ID d) (di_OrgID d))
| w_user id user email first last eventID t : scim_write d unit (UpsertScimUserState id (di_OrgID d) (di_ID d) user email first last eventID t)
| w_inactive id eventID t : scim_write d unit (MarkScimUserInactive id eventID t)
| w_group id group name : scim_write d unit (UpsertScimGroupState id (di_OrgID d) (di_ID d) group name)
| w_group_gone id : scim_write d unit (DeleteScimGroupState id)
| w_join id user group : scim_write d unit (AddScimUserGroup id (di_OrgID d) (di_ID d) user group)
| w_leave user group : scim_write d unit (RemoveScimUserGroup (di_OrgID d) (di_ID d) user group)
| w_leave_all user : scim_write d unit (DeleteScimUserGroupsForUser (di_OrgID d) (di_ID d) user)
| w_empty group : scim_write d unit (DeleteScimUserGroupsForGroup (di_OrgID d) (di_ID d) group)
| w_member_update id email role : isScimBuiltinRole role = true →
    scim_write d Z (on_org (UpdateScimMembershipByEmail id (di_OrgID d) email role (Some scimActor)))
| w_member_insert id email role : isScimBuiltinRole role = true →
    scim_write d unit (on_org (InsertScimMembership id (di_OrgID d) email role (Some scimActor)))
| w_member_delete email : scim_write d Z (on_org (DeleteScimMembershipByEmail (di_OrgID d) email scimActor)).
Definition scim_step (d : ScimDirectory) (s s' : Scim) : Prop := ∃ X (o : op Scim X) x, scim_write d X o ∧ o s = Some (x, s').

Create HintDb scim.
#[export] Hint Constructors scim_write : scim.
Section event.
Context `{UnicodeTables} (lower sqlLower : string → string) (localOffset : instant → Z) (ParseURL : string → option BaseURL) (lookupEnv : string → option string).
Context (d : ScimDirectory) (default_builtin : isScimBuiltinRole (di_DefaultRole d) = true).
Abbreviation law := (lawful (scim_step d)).

Lemma write_lawful {A X} (o : op Scim X) (k : option X → prog Scim A) : scim_write d X o → (∀ r, law (k r)) → law (Do o k).
Proof. intros Ho Hk. split; [|done]. intros s x s' He. apply rtc_once. by exists X, o, x. Qed.
Lemma on_org_query {X} (f : Org → X) s : on_org (query f) s = Some (f (sc_org s), s).
Proof. by destruct s. Qed.
Lemma read_lawful {A X} (f : Org → X) (k : option X → prog Scim A) : (∀ r, law (k r)) → law (Do (on_org (query f)) k).
Proof. intros Hk. split; [|done]. intros s x s'. rewrite on_org_query. by intros [= _ <-]. Qed.
Ltac law_tac :=
  repeat first
    [ done
    | solve [eauto with scim]
    | progress cbv zeta
    | progress cbn [bind org_prog]
    | lazymatch goal with
      | |- lawful _ (Do (query _) _) => apply lawful_query; intros ?
      | |- lawful _ (Do (find_member _ _ _) _) => apply lawful_query; intros ?
      | |- lawful _ (Do (on_org (query _)) _) => apply read_lawful; intros ?
      | |- lawful _ (Do _ _) => apply write_lawful; [by eauto using deriveScimRole_builtin with scim|intros ?]
      | |- lawful _ (Fresh _) => intros ? ?
      | |- lawful _ (bind _ _) => apply lawful_bind; [solve [eauto with scim]|intros ?]
      end
    | case_match ].

Lemma turn_away_lawful orgID action type id metadata reason : law (turn_away orgID action type id metadata reason).
Proof. unfold turn_away, scimAudit. law_tac. Qed.
Lemma done_with_lawful orgID action type id metadata result : law (done_with orgID action type id metadata result).
Proof. unfold done_with, scimAudit. law_tac. Qed.
Hint Resolve turn_away_lawful done_with_lawful : scim.
Lemma upsert_lawful email role : isScimBuiltinRole role = true → law (upsertScimMembership sqlLower (di_OrgID d) email role scimActor).
Proof. intros Hr. unfold upsertScimMembership. law_tac. Qed.
Lemma provision_lawful user email : law (provision sqlLower d user email).
Proof.
  unfold provision, resolveDerivedScimRole, failed. cbn [bind]. apply lawful_query. intros [groups|]; [|done]. cbn [bind].
  apply lawful_query. intros [rows|]; [|done]. cbn [bind]. apply lawful_bind; [|by intros ?]. by apply upsert_lawful, deriveScimRole_builtin.
Qed.
Hint Resolve provision_lawful : scim.
Lemma admit_user_lawful e user email t metadata action result : law (admit_user sqlLower d e user email t metadata action result).
Proof. unfold admit_user, upsertScimUserState, failed. law_tac. Qed.
Hint Resolve admit_user_lawful : scim.
Lemma create_member_lawful e user email existing t : law (create_member lower sqlLower d e user email existing t).
Proof. unfold create_member, failed. law_tac. Qed.
Hint Resolve create_member_lawful : scim.
Lemma domains_lawful orgID : law (scimAllowedDomains lower ParseURL lookupEnv orgID).
Proof. unfold scimAllowedDomains, LoadValue, LoadValueWithSource. destruct (Get ParseURL _); law_tac. Qed.
Hint Resolve domains_lawful : scim.
Lemma created_lawful e t : law (scimUserCreated lower sqlLower localOffset ParseURL lookupEnv d e t).
Proof. unfold scimUserCreated, out_of_order, failed. law_tac. Qed.
Hint Resolve created_lawful : scim.
Lemma updated_lawful e t : law (scimUserUpdated lower sqlLower localOffset ParseURL lookupEnv d e t).
Proof. unfold scimUserUpdated, update_member, rekey_collision, out_of_order, malformed, failed. law_tac. Qed.
Lemma deleted_lawful e t : law (scimUserDeleted lower localOffset d e t).
Proof. unfold scimUserDeleted, out_of_order, malformed, failed. law_tac. Qed.
Lemma recompute_lawful e user group change : law (recomputeScimMemberRole lower sqlLower d e user group change).
Proof. unfold recomputeScimMemberRole, scimAudit, failed. law_tac. Qed.
Hint Resolve updated_lawful deleted_lawful recompute_lawful : scim.
Lemma recompute_all_lawful e group users : law (recompute_all lower sqlLower d e group users).
Proof. induction users as [|user users IH]; cbn [recompute_all]; [done|]. apply lawful_bind; [apply recompute_lawful|]. intros [|]; [exact IH|done]. Qed.
Hint Resolve recompute_all_lawful : scim.
Lemma forget_lawful e group : law (forget_group lower sqlLower d e group).
Proof. unfold forget_group, failed. law_tac. Qed.
Hint Resolve forget_lawful : scim.
Lemma dispatch_lawful e t : law (dispatchScimEvent lower sqlLower localOffset ParseURL lookupEnv d e t).
Proof.
  unfold dispatchScimEvent, scimGroupUpsert, scimGroupDeleted, scimGroupUserAdded, scimGroupUserRemoved, membership_fields, recompute_then, malformed, failed.
  law_tac.
Qed.
Hint Resolve dispatch_lawful : scim.
Lemma handle_lawful e : law (handleScimEvent lower sqlLower localOffset ParseURL lookupEnv d e).
Proof. unfold handleScimEvent, failed. law_tac. Qed.
End event.

(** ** Confinement *)

Definition by_directory (d : ScimDirectory) (m : Member) : Prop :=
  mb_OrgID m = di_OrgID d ∧ mb_InvitedBy m = Some scimActor ∧ isScimBuiltinRole (mb_Role m) = true.
Record confined (d : ScimDirectory) (s s' : Scim) : Prop := mkConfined
  { new_rows : ∀ m, m ∈ org_members (sc_org s') → m ∈ org_members (sc_org s) ∨ by_directory d m;
    other_rows : ∀ m, m ∈ org_members (sc_org s) → mb_OrgID m ≠ di_OrgID d → m ∈ org_members (sc_org s');
    same_organizations : organizations (sc_org s') = organizations (sc_org s);
    same_roles : org_roles (sc_org s') = org_roles (sc_org s);
    same_mappings : mappings s' = mappings s;
    kept_inv : org_inv (sc_org s) → org_inv (sc_org s') }.
Lemma confined_refl d s : confined d s s.
Proof. split; eauto. Qed.
Lemma confined_trans d s1 s2 s3 : confined d s1 s2 → confined d s2 s3 → confined d s1 s3.
Proof.
  intros [N1 O1 H1 R1 M1 I1] [N2 O2 H2 R2 M2 I2]. split; try congruence; eauto.
  intros m [?|?]%N2; [by apply N1|by right].
Qed.
(** The tables of organisations are left alone. *)
Lemma confined_same d s s' : sc_org s' = sc_org s → mappings s' = mappings s → confined d s s'.
Proof. intros Ho Hm. split; rewrite ?Ho; eauto. Qed.
Lemma confined_org {X} d (o : op Org X) s x s' : on_org o s = Some (x, s') →
  (∀ g, o (sc_org s) = Some (x, g) →
     (∀ m, m ∈ org_members g → m ∈ org_members (sc_org s) ∨ by_directory d m) ∧
     (∀ m, m ∈ org_members (sc_org s) → mb_OrgID m ≠ di_OrgID d → m ∈ org_members g) ∧
     organizations g = organizations (sc_org s) ∧ org_roles g = org_roles (sc_org s)) →
  (∃ sqlLower, org_op sqlLower X o) → confined d s s'.
Proof.
  unfold on_org. destruct (o (sc_org s)) as [[y g]|] eqn:He; [|done]. intros [= -> <-] Hg [sqlLower Ho]. destruct (Hg g eq_refl) as (N & O & H1 & R).
  destruct s; cbn in *. split; cbn; try done. intros Hi. by eapply org_op_keeps.
Qed.
Lemma scim_write_confined d X (o : op Scim X) s x s' : scim_write d X o → o s = Some (x, s') → confined d s s'.
Proof.
  intros Ho He. destruct Ho.
  all: try solve [unfold RecordScimProcessedEvent, UpsertScimUserState, UpsertScimGroupState, AddScimUserGroup in He; cbv zeta in He; repeat case_match;
    injection He as _ <-; apply confined_same; by destruct s].
  - eapply confined_org; [exact He| |exists (λ t, t); constructor]. cbn. intros g [= _ <-]. destruct s as [[] ? ? ? ? ? ?]; cbn. by eauto.
  - eapply confined_org; [exact He| |exists (λ t, t); constructor]. intros g. unfold UpdateScimMembershipByEmail, update_members.
    destruct (_ && _); [done|]. destruct (negb _); [done|]. intros [= _ <-]. destruct s as [[] ? ? ? ? ? ?]; cbn. split_and!; try done.
    + intros m (m0 & -> & Hin)%list_elem_of_fmap. destruct (_ && _) eqn:Hw; [right|by left]. apply andb_true_iff in Hw as [_ Horg%String.eqb_eq]. by split_and!.
    + intros m Hin Hne. apply list_elem_of_fmap. exists m. split; [|done].
      by rewrite (proj2 (String.eqb_neq _ _) Hne), andb_false_r.
  - eapply confined_org; [exact He| |exists (λ t, t); constructor]. intros g [-> _]%insert_member_spec. destruct s as [[] ? ? ? ? ? ?]; cbn. split_and!; try done.
    + intros m [?|Hm%list_elem_of_singleton]%elem_of_app; [by left|right]. rewrite Hm. by split_and!.
    + intros m ? _. apply elem_of_app. by left.
  - eapply confined_org; [exact He| |exists (λ t, t); constructor]. intros g. unfold DeleteScimMembershipByEmail, delete_members.
    destruct (existsb _ _); [done|]. intros [= _ <-]. destruct s as [[] ? ? ? ? ? ?]; cbn. split_and!; try done.
    + intros m [? _]%list_elem_of_In%filter_In. left. by apply list_elem_of_In.
    + intros m Hin Hne. apply list_elem_of_In, filter_In. split; [by apply list_elem_of_In|]. by rewrite (proj2 (String.eqb_neq _ _) Hne).
Qed.
Lemma scim_steps_confined d s s' : rtc (scim_step d) s s' → confined d s s'.
Proof.
  induction 1 as [s|s1 s2 s3 (X & o & x & Ho & He) _ IH]; [apply confined_refl|].
  eapply confined_trans; [|exact IH]. by eapply scim_write_confined.
Qed.

(** C15: an event of a directory whose default role is a built-in one, beside any number of
    others of the same directory and with any failures, writes memberships of the directory's organisation only, with a built-in
    role and the directory as inviter; it changes no organisation, no role, no mapping and no
    membership of another organisation, and an owner keeps an administrator's row. The role it
    writes is the highest of the mapped roles of the user's groups, or the default where no
    group is mapped to a built-in role. *)
Theorem scim_events_confined `{UnicodeTables} lower sqlLower localOffset ParseURL lookupEnv d e s a s' :
  isScimBuiltinRole (di_DefaultRole d) = true →
  finishes (scim_step d) (handleScimEvent lower sqlLower localOffset ParseURL lookupEnv d e) s a s' →
  (∀ m, m ∈ org_members (sc_org s') → m ∈ org_members (sc_org s) ∨ by_directory d m) ∧
  (∀ m, mb_OrgID m ≠ di_OrgID d → m ∈ org_members (sc_org s) ↔ m ∈ org_members (sc_org s')) ∧
  organizations (sc_org s') = organizations (sc_org s) ∧ org_roles (sc_org s') = org_roles (sc_org s) ∧ mappings s' = mappings s ∧
  (org_inv (sc_org s) → org_inv (sc_org s')) ∧
  (∀ groups roles, let r := deriveScimRole groups roles (di_DefaultRole d) in
     (r = di_DefaultRole d ∧ ∀ g role, g ∈ groups → roles g = Some role → isScimBuiltinRole role = false) ∨
     ∃ rank, RoleRank r = Some rank ∧ (∃ g, g ∈ groups ∧ roles g = Some r) ∧
       ∀ g role n, g ∈ groups → roles g = Some role → RoleRank role = Some n → (n ≤ rank)%nat).
Proof.
  intros Hd [N O H1 R M I]%finishes_rtc%scim_steps_confined; [|by apply handle_lawful].
  split_and!; try done; [|intros groups roles; apply deriveScimRole_spec].
  intros m Hm. split; [by intros ?; apply O|]. intros [?|[? _]]%N; done.
Qed.

(** ** Late and repeated events *)

(** Everything but the claims of events and the audit log. *)
Definition without_log (g : Org) : Org := let 'mkOrg m r o i p e c n f _ t := g in mkOrg m r o i p e c n f [] t.
Definition content (s : Scim) : Scim := set_processed [] (set_sc_org (without_log (sc_org s)) s).
Definition inert (s s' : Scim) : Prop := content s' = content s.
Lemma inert_users s s' : inert s s' → user_states s' = user_states s.
Proof. unfold inert. destruct s, s'. cbn. congruence. Qed.

Section late.
Context `{UnicodeTables} (lower sqlLower : string → string) (localOffset : instant → Z) (ParseURL : string → option BaseURL) (lookupEnv : string → option string).
Abbreviation handle := (handleScimEvent lower sqlLower localOffset ParseURL lookupEnv).

(** A run that neither processes nor changes anything. *)
Definition rejected (r : answer scimResult * Scim) (s : Scim) : Prop :=
  inert s r.2 ∧ ∀ result, r.1 = Ok result → sr_Processed result = false.
Lemma rejected_inert r s s1 : inert s s1 → rejected r s1 → rejected r s.
Proof. unfold rejected, inert. intros <- [? ?]. done. Qed.
Lemma serve_inert {X} (o : op Scim X) f s r s' : (∀ s x s', o s = Some (x, s') → inert s s') → serve f o s = (r, s') → inert s s'.
Proof. intros Ho. destruct f; cbn; [|by intros [= _ <-]|]; destruct (o s) as [[x s1]|] eqn:He; intros [= _ <-]; try done; by eapply Ho. Qed.
Lemma do_inert {X} (o : op Scim X) k fates ids s : (∀ s x s', o s = Some (x, s') → inert s s') →
  (∀ r s1, inert s s1 → rejected (run (k r) (tail fates) ids s1) s1) → rejected (run (Do o k) fates ids s) s.
Proof.
  intros Ho Hk. cbn [run]. destruct (serve _ o s) as [r s1] eqn:Hs. apply serve_inert in Hs; [|done]. eapply rejected_inert; [exact Hs|by apply Hk].
Qed.
Lemma audit_inert orgID action type id metadata s x s' : scimAudit orgID action type id metadata s = Some (x, s') → inert s s'.
Proof. unfold scimAudit, on_org. cbn. intros [= _ <-]. by destruct s as [[] ? ? ? ? ? ?]. Qed.
Lemma turn_away_rejected orgID action type id metadata reason fates ids s :
  rejected (run (turn_away orgID action type id metadata reason) fates ids s) s.
Proof. apply do_inert; [apply audit_inert|]. intros r s1 _. split; [done|]. by intros result [= <-]. Qed.
Lemma failed_rejected fates ids s : rejected (run failed fates ids s) s.
Proof. by split. Qed.
(** The row of the user that a late event meets. *)
Lemma read_user (k : option (option ScimUserState) → prog Scim (answer scimResult)) directory user u fates ids s :
  GetScimUserState directory user s = Some u → k None = failed → (∀ fates, rejected (run (k (Some (Some u))) fates ids s) s) →
  rejected (run (Do (query (GetScimUserState directory user)) k) fates ids s) s.
Proof.
  intros Hu Hnone Hk. cbn [run]. unfold serve, query. destruct (default Served (head fates)); rewrite ?Hu, ?Hnone; (apply Hk || apply failed_rejected).
Qed.

Definition user_events : list string := ["dsync.user.created"; "dsync.user.updated"; "dsync.user.deleted"].
Lemma late_rejected d e t u last fates ids s : in_list user_events (ev_Event e) = true →
  GetScimUserState (di_ID d) (scimStringField (ev_Data e) "id") s = Some u → not_newer u t = Some last →
  rejected (run (dispatchScimEvent lower sqlLower localOffset ParseURL lookupEnv d e t) fates ids s) s.
Proof.
  intros Hev Hu Hlast. unfold dispatchScimEvent. rewrite in_list_spec in Hev. unfold user_events in Hev.
  apply elem_of_cons in Hev as [->|[->|[->|[]%elem_of_nil]%elem_of_cons]%elem_of_cons]; cbn [String.eqb Ascii.eqb Bool.eqb].
  - unfold scimUserCreated. cbv zeta. destruct (_ || _); [apply turn_away_rejected|]. eapply read_user; [exact Hu|done|]. intros fs.
    cbn [mbind option_bind fmap option_fmap option_map]. rewrite Hlast. cbn [fmap option_fmap option_map]. case_match; apply turn_away_rejected.
  - unfold scimUserUpdated. cbv zeta. destruct (_ || _); [apply turn_away_rejected|]. eapply read_user; [exact Hu|done|]. intros fs.
    rewrite Hlast. apply turn_away_rejected.
  - unfold scimUserDeleted. cbv zeta. destruct (String.eqb _ ""); [apply turn_away_rejected|]. eapply read_user; [exact Hu|done|]. intros fs.
    rewrite Hlast. apply turn_away_rejected.
Qed.
Lemma run_bind {A B} (p : prog Scim A) (f : A → prog Scim B) fates ids s :
  ∃ fates' ids', run (bind p f) fates ids s = run (f (run p fates ids s).1) fates' ids' (run p fates ids s).2.
Proof.
  revert fates ids s. induction p as [a|X o k IH|k IH]; intros fates ids s; cbn; [by exists fates, ids| |].
  - destruct (serve _ o s) as [r s1]. apply IH.
  - apply IH.
Qed.
Lemma claim_inert d e s x s' : RecordScimProcessedEvent (ev_ID e) (di_OrgID d) (di_ID d) (ev_Event e) s = Some (x, s') → inert s s'.
Proof. unfold RecordScimProcessedEvent. destruct (existsb _ _); intros [= _ <-]; by destruct s. Qed.

(** An event that was claimed, that has no time, or that is not newer than the last one of its
    user. *)
Definition stale (d : ScimDirectory) (e : scimEvent) (s : Scim) : Prop :=
  existsb (λ p, String.eqb (pe_EventID p) (ev_ID e)) (processed s) = true ∨
  parseScimTimestamp (ev_CreatedAt e) = None ∨
  ∃ t u last, parseScimTimestamp (ev_CreatedAt e) = Some t ∧ in_list user_events (ev_Event e) = true ∧
    GetScimUserState (di_ID d) (scimStringField (ev_Data e) "id") s = Some u ∧ us_LastEventTimestamp u = Some last ∧ (tm_At t ≤ last)%Z.
Lemma stale_rejected d e fates ids s : stale d e s → rejected (run (handle d e) fates ids s) s.
Proof.
  intros Hstale. unfold handleScimEvent. cbn [run].
  destruct (serve _ (RecordScimProcessedEvent _ _ _ _) s) as [r s1] eqn:Hs.
  assert (inert s s1) as Hi by (eapply serve_inert; [|exact Hs]; apply claim_inert).
  eapply rejected_inert; [exact Hi|]. destruct r as [n|]; [|apply failed_rejected].
  destruct (n =? 0)%Z eqn:Hn; [apply turn_away_rejected|].
  destruct Hstale as [Hclaimed|[->|(t & u & last & -> & Hev & Hu & Hlast & Hle)]].
  - unfold RecordScimProcessedEvent in Hs. destruct (default Served (head fates)); cbn in Hs; rewrite ?Hclaimed in Hs; simplify_eq.
  - apply turn_away_rejected.
  - match goal with |- rejected (run (bind ?p ?k) ?fs ?ids ?s) _ => destruct (run_bind p k fs ids s) as (fs' & ids' & ->) end.
    assert (GetScimUserState (di_ID d) (scimStringField (ev_Data e) "id") s1 = Some u) as Hu1.
    { unfold GetScimUserState in *. by rewrite (inert_users _ _ Hi). }
    assert (not_newer u t = Some last) as Hnn. { unfold not_newer. rewrite Hlast. destruct (Z.ltb_spec last (tm_At t)); [lia|done]. }
    destruct (late_rejected d e t u last (tail fates) ids s1 Hev Hu1 Hnn) as [Hi2 Hr]. eapply rejected_inert; [exact Hi2|].
    destruct (run (dispatchScimEvent _ _ _ _ _ d e t) (tail fates) ids s1) as [[result|x] s2]; cbn [fst snd] in *.
    + rewrite (Hr result eq_refl). split; [done|]. cbn. by intros ? [= <-]; apply Hr.
    + apply do_inert; [|intros r s3 _; by split]. clear. intros s x s' [= _ <-]. by destruct s.
Qed.
End late.

(** C16: an event that was claimed before, or has no readable time, or is not
    newer than the last event of its user changes nothing but the claims and the audit log,
    whatever operations fail, and is never reported as processed. So a delivery that fails after
    it wrote the state of the user, its claim given back, is not done again by its redelivery:
    that one is turned away. *)
Theorem late_event_inert `{UnicodeTables} lower sqlLower localOffset ParseURL lookupEnv d e :
  (∀ fates ids s a s', stale d e s → run (handleScimEvent lower sqlLower localOffset ParseURL lookupEnv d e) fates ids s = (a, s') →
   content s' = content s ∧ ∀ result, a = Ok result → sr_Processed result = false) ∧
  (∀ t s u fates ids a s', parseScimTimestamp (ev_CreatedAt e) = Some t → in_list user_events (ev_Event e) = true →
   GetScimUserState (di_ID d) (scimStringField (ev_Data e) "id") s = Some u →
   us_LastEventTimestamp u = Some (stored_time t) → (tm_At t mod 1000 = 0)%Z →
   run (handleScimEvent lower sqlLower localOffset ParseURL lookupEnv d e) fates ids s = (a, s') →
   org_members (sc_org s') = org_members (sc_org s) ∧ ∀ result, a = Ok result → sr_Processed result = false).
Proof.
  assert (∀ fates ids s a s', stale d e s → run (handleScimEvent lower sqlLower localOffset ParseURL lookupEnv d e) fates ids s = (a, s') →
    content s' = content s ∧ ∀ result, a = Ok result → sr_Processed result = false) as Hlate.
  { intros fates ids s a s' Hs Hrun. pose proof (stale_rejected lower sqlLower localOffset ParseURL lookupEnv d e fates ids s Hs) as Hr.
    by rewrite Hrun in Hr. }
  split; [exact Hlate|]. intros t s u fates ids a s' Ht Hev Hu Hlast Hmod Hrun.
  destruct (Hlate fates ids s a s') as [Hc Hr]; [|done|split; [|done]].
  - right; right. exists t, u, (stored_time t). split_and!; try done. unfold stored_time. pose proof (Z.div_mod (tm_At t) 1000). lia.
  - destruct s as [[] ? ? ? ? ? ?], s' as [[] ? ? ? ? ? ?]. unfold content in Hc. cbn in *. congruence.
Qed.

(** ** Deprovisioning *)

(** The rows that the directory did not invite stay. *)
Definition foreign_kept (s s' : Scim) : Prop :=
  ∀ m, m ∈ org_members (sc_org s) → mb_InvitedBy m ≠ Some scimActor → m ∈ org_members (sc_org s').
Lemma foreign_same s s' : sc_org s' = sc_org s → foreign_kept s s'.
Proof. by intros Ho m Hm _; rewrite Ho. Qed.
Lemma foreign_audit orgID action type id metadata s x s' : scimAudit orgID action type id metadata s = Some (x, s') → foreign_kept s s'.
Proof. unfold scimAudit, on_org. cbn. intros [= _ <-] m. by destruct s as [[] ? ? ? ? ? ?]. Qed.
Lemma foreign_delete orgID email s x s' : on_org (DeleteScimMembershipByEmail orgID email scimActor) s = Some (x, s') → foreign_kept s s'.
Proof.
  unfold on_org, DeleteScimMembershipByEmail, delete_members. destruct (existsb _ _); [done|]. intros [= _ <-] m Hm Hby.
  destruct s as [[] ? ? ? ? ? ?]; cbn in *. apply list_elem_of_In, filter_In. split; [by apply list_elem_of_In|].
  rewrite (bool_decide_eq_false_2 _ Hby). by rewrite andb_false_r.
Qed.
Lemma foreign_lawful {A X} (o : op Scim X) (k : option X → prog Scim A) :
  (∀ s x s', o s = Some (x, s') → foreign_kept s s') → (∀ r, lawful foreign_kept (k r)) → lawful foreign_kept (Do o k).
Proof. intros Ho Hk. split; [|done]. intros s x s' He. apply rtc_once. by eapply Ho. Qed.
Ltac foreign_tac :=
  repeat first
    [ done
    | progress cbv zeta
    | progress unfold turn_away, done_with, out_of_order, malformed, failed
    | lazymatch goal with
      | |- lawful _ (Do (query _) _) => apply lawful_query; intros ?
      | |- lawful _ (Do _ _) =>
          apply foreign_lawful;
            [first [apply foreign_audit | apply foreign_delete
                   | intros [] ? ? Hop; cbn in Hop; repeat case_match; injection Hop as _ <-; by apply foreign_same]
            |intros ?]
      | |- lawful _ (bind _ _) => apply lawful_bind; [|intros ?]
      end
    | case_match ].
Lemma deleted_foreign lower localOffset d e t : lawful foreign_kept (scimUserDeleted lower localOffset d e t).
Proof. unfold scimUserDeleted. foreign_tac. Qed.
Lemma handle_foreign `{UnicodeTables} lower sqlLower localOffset ParseURL lookupEnv d e : ev_Event e = "dsync.user.deleted" →
  lawful foreign_kept (handleScimEvent lower sqlLower localOffset ParseURL lookupEnv d e).
Proof.
  intros He. unfold handleScimEvent, dispatchScimEvent. rewrite He. cbn [String.eqb Ascii.eqb Bool.eqb].
  apply foreign_lawful; [intros [] ? ? Hc; unfold RecordScimProcessedEvent in Hc; case_match; injection Hc as _ <-; by apply foreign_same|].
  intros [n|]; [|done]. destruct (n =? 0)%Z; [foreign_tac|]. destruct (parseScimTimestamp (ev_CreatedAt e)) as [t|]; [|foreign_tac].
  apply lawful_bind; [apply deleted_foreign|]. intros [result|x]; foreign_tac.
Qed.

#[local] Instance scim_tables : UnicodeTables := {| is_print := λ _, true |}.
(** Acme with its owner, a directory, and the events of Bob. *)
Definition acme_directory : ScimDirectory := mkDirectory "dir_1" "org_1" "directory_x" None "viewer" "active" None 0.
Definition alice_row : Member := mkMember "m1" "org_1" "alice" (Some "alice@acme.io") "admin" None.
Definition acme_scim (members : list Member) (users : list ScimUserState) : Scim :=
  mkScim (set_members (alice_row :: members) (set_organizations {["org_1" := ("alice", "Acme")]} (empty_org 0))) [acme_directory] users [] [] [] [].
Definition bob_event (id type at_ : string) : scimEvent :=
  mkEvent id ("dsync.user." +:+ type) at_ [("id", AStr "u1"); ("email", AStr "bob@acme.io")].
Definition at_acme (e : scimEvent) (fates : list fate) (s : Scim) : answer scimResult * Scim :=
  run (handleScimEvent (λ t, t) (λ t, t) (λ _, 0%Z) (λ _, None) (λ _, None) acme_directory e) fates ["m2"; "m2"] s.
Definition bob_row (role : string) (by_ : option string) : Member := mkMember "m2" "org_1" "bob@acme.io" (Some "bob@acme.io") role by_.
Definition emails (s : Scim) : list (option string) := map mb_Email (org_members (sc_org s)).

(** The insertion of the membership fails, and the event is delivered again. *)
Definition half_done : Scim :=
  (at_acme (bob_event "ev_1" "created" "2026-01-01T00:00:00Z") (replicate 8 Served ++ [Dropped]) (acme_scim [] [])).2.
Definition redelivered : answer scimResult * Scim := at_acme (bob_event "ev_1" "created" "2026-01-01T00:00:00Z") [] half_done.
(** An administrator re-synchronises the roles, and Bob leaves. *)
Definition resynced : Scim := (run (resyncScimMemberRoles (λ t, t) (λ t, t) (λ _ _, false) acme_directory) [] ["m2"] redelivered.2).2.
Definition bob_left : answer scimResult * Scim := at_acme (bob_event "ev_2" "deleted" "2026-02-01T00:00:00Z") [] resynced.
(** Bob was invited by Alice while the directory still has him. *)
Definition bob_invited : Scim :=
  acme_scim [bob_row "editor" (Some "alice")] [mkUserState "us_1" "org_1" "dir_1" "u1" "bob@acme.io" None None true (Some "ev_0") (Some 0%Z)].
Definition bob_updated : answer scimResult * Scim := at_acme (bob_event "ev_3" "updated" "2026-01-03T00:00:00Z") [] bob_invited.
Definition bob_removed : answer scimResult * Scim := at_acme (bob_event "ev_4" "deleted" "2026-02-01T00:00:00Z") [] bob_updated.2.

(** C17: the deletion of a user spares every row that the directory did not
    invite, beside any processes that spare them. But the directory's own users escape it, and
    others are caught: when the insertion of a membership fails, the redelivery of the event is
    acknowledged without it; a re-synchronisation then inserts the membership without an
    inviter, and the deletion of the user, reported as done, leaves it; and an update of a user
    whose address a person was invited with makes that row the directory's, so the deletion of
    the user removes it. *)
Theorem deprovisioning_gaps :
  (∀ `{UnicodeTables} lower sqlLower localOffset ParseURL lookupEnv d e s a s', ev_Event e = "dsync.user.deleted" →
     finishes foreign_kept (handleScimEvent lower sqlLower localOffset ParseURL lookupEnv d e) s a s' →
     ∀ m, m ∈ org_members (sc_org s) → mb_InvitedBy m ≠ Some scimActor → m ∈ org_members (sc_org s')) ∧
  (redelivered.1 = Ok (scimSkipped "out_of_order") ∧ emails redelivered.2 = [Some "alice@acme.io"]) ∧
  (bob_left.1 = Ok (scimProcessed "deprovisioned") ∧ bob_row "viewer" None ∈ org_members (sc_org bob_left.2)) ∧
  (bob_updated.1 = Ok (scimProcessed "updated") ∧ bob_row "viewer" (Some scimActor) ∈ org_members (sc_org bob_updated.2)) ∧
  (bob_removed.1 = Ok (scimProcessed "deprovisioned") ∧ emails bob_removed.2 = [Some "alice@acme.io"]).
Proof.
  split.
  - intros Htab lower sqlLower localOffset ParseURL lookupEnv d e s a s' He Hf%finishes_rtc; [|by apply handle_foreign].
    clear He. induction Hf as [|s1 s2 s3 H12 _ IH]; [done|]. intros m Hm Hby. apply IH; [by apply H12|done].
  - split_and!; try (vm_compute; reflexivity).
    all: apply list_elem_of_lookup_2 with 1; vm_compute; reflexivity.
Qed.
Lemma scim_events_confined_witness :
  (at_acme (bob_event "ev_1" "created" "2026-01-01T00:00:00Z") [] (acme_scim [] [])).1 = Ok (scimProcessed "provisioned") ∧
  ∀ m, m ∈ org_members (sc_org (at_acme (bob_event "ev_1" "created" "2026-01-01T00:00:00Z") [] (acme_scim [] [])).2) →
    m ∈ [alice_row] ∨ by_directory acme_directory m.
Proof.
  split; [vm_compute; reflexivity|]. intros m Hm.
  apply (proj1 (scim_events_confined (λ t, t) (λ t, t) (λ _, 0%Z) (λ _, None) (λ _, None) acme_directory
    (bob_event "ev_1" "created" "2026-01-01T00:00:00Z") (acme_scim [] []) _ _ eq_refl
    (run_finishes (scim_step acme_directory) _ [] ["m2"; "m2"] (acme_scim [] []) ltac:(repeat constructor; discriminate))) m Hm).
Defined.
Lemma late_event_inert_witness :
  emails half_done = [Some "alice@acme.io"] ∧ org_members (sc_org redelivered.2) = org_members (sc_org half_done).
Proof.
  split; [vm_compute; reflexivity|].
  refine (proj1 (proj2 (late_event_inert (λ t, t) (λ t, t) (λ _, 0%Z) (λ _, None) (λ _, None) acme_directory
    (bob_event "ev_1" "created" "2026-01-01T00:00:00Z")) (mkTime 1767225600000000000 0) half_done
    (mkUserState "m2" "org_1" "dir_1" "u1" "bob@acme.io" None None true (Some "ev_1") (Some 1767225600000000000%Z)) [] ["m2"; "m2"]
    redelivered.1 redelivered.2 _ _ _ _ _ _)); vm_compute; reflexivity.
Defined.
Lemma deprovisioning_gaps_witness :
  bob_row "viewer" None ∈ org_members (sc_org resynced) ∧ bob_row "viewer" None ∈ org_members (sc_org bob_left.2).
Proof.
  assert (bob_row "viewer" None ∈ org_members (sc_org resynced)) as Hin by (apply list_elem_of_lookup_2 with 1; vm_compute; reflexivity).
  split; [exact Hin|].
  refine (proj1 deprovisioning_gaps _ (λ t, t) (λ t, t) (λ _, 0%Z) (λ _, None) (λ _, None) acme_directory
    (bob_event "ev_2" "deleted" "2026-02-01T00:00:00Z") resynced bob_left.1 bob_left.2 eq_refl _ (bob_row "viewer" None) Hin _); [|discriminate].
  apply (run_finishes foreign_kept _ [] ["m2"; "m2"] resynced). repeat constructor; discriminate.
Defined.
